(* ===== verification/_CoqProject ===== *)
-Q . S2P
Prelude.v
Serde.v
Protocol.v
StateMachine.v
StateMachineProps.v
Storage.v
StorageProps.v
Display.v
Rpc.v
Proto.v
FaultScheduler.v
Node.v
ReferenceModel.v
Instances.v
LsmTheorems.v
Recovery.v
RecoveryTheorems.v
StorageTheorems.v
NodeVotes.v
NodeEvents.v
Refinement.v
NodeLog.v
NodeLeader.v
NodeReplay.v
Samples.v
NodeTheorems.v
NodeApplyTheorems.v
NodeFindings.v
Duplicates.v
RaftSpec.v
RaftSafety.v
RaftInvariant.v
NodeCore.v
NodeApplied.v
NodeLease.v
NodeDurable.v
Cluster.v
ClusterRun.v
ClusterSim.v
ClusterMoves.v
ClusterRefines.v
ClusterElections.v
ClusterSteps.v
ClusterRestart.v
ClusterTheorems.v
ClusterDurable.v
ClusterFindings.v
Metrics.v
StopLoops.v
Timer.v
ClusterReads.v
Config.v
Main.v
Transport.v
Net.v
NetTheorems.v
SimTransport.v
SimTheorems.v
SimHarness.v
SimRun.v
HarnessTheorems.v
MetricsServer.v
Task.v
Coordinator.v
CoordinatorProps.v
CoordinatorTheorems.v
Client.v
ClientTheorems.v
Invariants.v
InvariantTheorems.v
Sdk.v
SdkTheorems.v
PyClient.v
Cli.v
TestKit.v
NodeTests.v
StateMachineTests.v
SimTests.v
ServiceTests.v
