(* ===== verification/Prelude.v ===== *)
(** * Oxide-KV: a verification library

    Oxide-KV ([src/rust/oxide-kv]) is a replicated key-value store: every node
    runs Raft over a log of commands, and applies committed commands to an LSM
    key-value state machine that also stages two-phase-commit transactions. A
    coordinator on the leader drives the transactions, a JSON front end serves clients
    ([src/rust/oxide-kv-client] is one, [src/python] another), nodes talk over TCP or, in simulation,
    over channels with injected faults.
    This library models these parts as Rocq functions and proves what makes them
    correct, and where they are not.

    ** The program's parts and the files that model them

    - [Serde]: the crates [serde_json] and [bincode], as type classes
      ([Json], [Bincode]) whose laws are the documented behaviour the program relies
      on (round trip; a bincode frame consumes its bytes; a truncated frame does not
      parse), and [serde_json::Value] with its accessors. [Instances] gives
      concrete instances for every persisted type, so the laws are satisfiable
      and the model runs.
    - [Protocol] ([protocol.rs]): commands, log entries, configurations, the
      quorum rule of joint consensus and its binary search.
    - [StateMachine] ([state_machine.rs]): memtable, WAL, SSTables, flush, compaction, snapshots, [open]
      ([sm_open]) and the transaction table, over a [Host] that holds the files.
      [StateMachineProps]: the abstraction [contents] (the map a reader should see), the
      invariant [wf] and the effect of every operation. [LsmTheorems]: the
      claims. [Recovery], [RecoveryTheorems]: restarts and memory accounting.
    - [Storage] ([raft/storage.rs]): term and vote, log and snapshot files over a [Disk].
      [StorageProps], [StorageTheorems]: atomic replacement, log round trip, truncation.
    - [Rpc] ([raft/rpc.rs], [coordination.rs]): the messages.
    - [Node] ([raft/node.rs], [main.rs]): [RaftNode] with its state machine and its disk; every
      handler, proposal, reply task, election and snapshot step, start-up ([boot])
      and the dispatch of a message. Each definition is what the code does under one
      acquisition of the node's lock. A method that spawns RPC tasks returns the
      messages it sends; the continuation of a task is a definition of its own
      ([on_append_reply], [on_vote_reply], [process_pre_vote_reply]) given what the task captured, so
      any interleaving of tasks is a sequence of such steps.
    - [ReferenceModel] ([raft/reference_model.rs]): the sequential oracle of the simulation,
      used here as the specification of what applying the log means.
    - [NodeVotes], [NodeEvents]: terms and votes, the events of a node and their
      traces. [NodeLog], [NodeLeader], [Refinement], [NodeReplay]: replication, the leader,
      application, replay. [NodeTheorems], [NodeApplyTheorems]: the claims, with the
      sample nodes of [Samples]. [NodeFindings]: executions where the node goes wrong.
    - [RaftSpec]: Raft as an abstract step relation, without disks, clocks or network, with the history of
      elections, votes and acknowledgements beside the servers. [RaftSafety], [RaftInvariant]: its
      inductive invariant and what follows from it. [NodeCore], [NodeApplied], [NodeLease]: what the protocol
      sees of a node, what a node has applied, and when its lease moves. [Cluster], [ClusterRun]: the nodes of [Node] on
      an asynchronous network that delays, repeats, reorders and loses messages, one critical section per step.
      [ClusterSim], [ClusterMoves], [ClusterRefines], [ClusterElections], [ClusterSteps]: the simulation of
      [Cluster] by [RaftSpec]. [ClusterRestart]: nodes that stop and start again from their files.
      [ClusterTheorems]: the safety of the cluster. [NodeDurable], [ClusterDurable]: the files of the nodes.
      [ClusterReads]: what a confirmed read sees.
      [ClusterFindings]: executions that show why its conditions are needed.
    - [Metrics] ([observability/registry.rs], and what [node.rs], [client.rs], [coordinator.rs] and [main.rs] do with it):
      the gauges and counters, and every operation of the node again with the metrics it sets.
    - [StopLoops] ([raft/net.rs], [observability/server.rs], [node.rs]): [StopSignal] and the loops that select
      between it and their work.
    - [Config] ([config.rs], [main.rs]): settings, the global cell, file paths, environment overrides.
      [Main] ([main.rs]): the steps of the server process. [Cli] ([examples/oxide_kv_cli.rs]): the
      command-line client.
    - [Transport] ([raft/transport.rs]): the framing of messages on a byte stream.
      [Proto] ([raft/proto.rs], [coordination.rs]): the conversions to and from the
      protobuf types, which its module [pb] transcribes from [proto/raft.proto] and
      [proto/coordination.proto]. [Net] ([raft/rpc.rs], [raft/net.rs]): the client and the
      server of an RPC over a connection, with the [prost] codec as the class
      [Prost] and its law [ProstLaws]. [NetTheorems]: the claims.
    - [Task]: the program's [async] functions as trees of critical sections, clock
      readings, sleeps, messages and calls, run against an environment that may do anything to the
      node between two steps; [tspec], the program logic for them.
    - [Coordinator] ([raft/coordinator.rs]): two-phase commit and the timeout sweep.
      [CoordinatorProps], [CoordinatorTheorems]: its traces and claims.
    - [Client] ([client.rs]): the request loop and every command.
      [ClientTheorems]: the claims. [Sdk], [SdkTheorems] ([oxide-kv-client]): what the client
      library sends, what the server reads, and what the library makes of the answers.
      [PyClient] ([src/python/oxide_kv/client.py]): the same for the Python client, from the socket's pieces up.
    - [FaultScheduler] ([raft/fault_scheduler.rs]), [SimTransport]
      ([raft/sim_transport.rs], [raft/clock.rs]): the simulated network as a step function on a [World] of
      nodes, channels and pending sends; a run is a list of labels, so every interleaving of the
      tasks is covered. [SimHarness] ([raft/sim_harness.rs]): the cluster a test
      drives. [SimRun]: one order in which its tasks can be polled, as a function that runs the whole cluster. [SimTheorems], [HarnessTheorems], [Duplicates]: the claims.
    - [Invariants] ([raft/invariants.rs]): the checks the simulation runs on its
      clusters. [InvariantTheorems]: what they decide.
    - [MetricsServer] ([observability/server.rs]): one connection of the HTTP endpoint.
    - [Display]: what [format!] prints.
    - [TestKit], [NodeTests], [StateMachineTests], [SimTests], [ServiceTests]: the unit tests of the sources, translated one by one
      and run in the model.
    - [Timer] ([config.rs], [raft/timer.rs]): time constants, the election timer.
    - [Prelude] (this file): results, the state-and-error monad [M] with its
      program logic ([wp], for given states; [keeps], for relations every run respects), I/O outcomes, [u64]
      arithmetic, strings, sorted map iteration, tactics, the hint database [oxide].

    ** Conventions

    A method [fn f(&mut self, ..) -> Result<A, _>] is a computation [M S A]; its
    state after an error is kept, as in Rust. Every system call consumes one
    outcome of its host's list: it succeeds, or fails having written the first
    [n] bytes; an empty list means that no call fails ([no_faults], [d_ok]). A
    panic ([expect] on an error, a slice out of range) is the result [Err Panicked]. [u64] values are
    integers in [Z], with the wrap-around written out where an operation can
    leave the range; theorems that need it assume room for the counter in question
    ([room] for SSTable numbers, the length of the log for indices). Maps are [gmap];
    the iteration order of a [BTreeMap] is [btree_iter].

    ** What the theorems show

    - The cluster ([ClusterTheorems]): every execution of the nodes whose steps are [allowed] is one of the abstract Raft; in
      these executions there is one leader per term at all times, logs match, a later leader has every
      entry committed before it, commits are final, and state machines that have applied as much hold the same. Except for
      the last, this includes restarts ([restart_step]) of nodes that have peers and whose files are up to date; [ClusterDurable] shows when
      they are. [restart] itself is any start over any files.
      [ClusterReads]: in clusters of at most three nodes a confirmed read sees every write committed before it began, if its leader has
      committed an entry of its own term, takes no acknowledgement given before the read, and is not elected anew meanwhile; the
      code checks none of these, and two executions show stale reads without them. [allowed]
      is what the proofs need beyond the code: fixed membership, no refusal or acknowledgement
      of an earlier term that is taken for a current one, no [match_index] left from an earlier leadership,
      [sync_logs] run while leading, transaction votes asked for what every peer has. [ClusterFindings]
      computes executions that break agreement where three of these fail, and [NodeFindings] and [ClientTheorems]
      show the others to fail in the code as it is. The two-lock path of [process_pre_vote_reply] is
      covered: promotion and the request of votes are labels of their own.
    - Votes and elections: one vote per term along every trace of a node, restarts
      included; the vote decision; majorities; pre-votes are probes.
    - Replication: AppendEntries is the reference merge, and a success means the leader's log is a
      prefix of the follower's; commitment needs a quorum in the current term;
      proposals; two-phase membership change; snapshots; the transaction vote.
    - Application: while no call to the state machine's files fails, [apply_logs] refines the reference model, a leader that commits
      applies what it committed, and replay after a restart is idempotent.
    - State machine: every operation refines the abstract map under every pattern of failures;
      reads, on a disk that works; compaction, which drops the tombstones; snapshots; transactions; recovery of every history; the
      memtable bound of a machine's first process.
    - Storage: atomicity and round trips under failures; restart.
    - Messages: framing and protobuf round trips; a call over TCP is the handler of the
      peer, the simulated transport agrees with it on messages that fit a frame, and requests that do not start with a whole frame
      ([starts_with_frame], stated on the bytes) change nothing.
    - Transactions: a decision follows the votes; a lone leader commits; the sweep aborts
      what is stale.
    - Clients: every request is answered within a bounded number of turns, and the answers to reads, writes and
      membership changes are true: a write reported done is in the log and the WAL of its leader. So are the results of the client library, over a
      connection that relays the front end's answers, of the Python client, on a connection with nothing unread, and the exit status of the command line.
    - Process: [main], on the files of an earlier process, serves the node that replaying the log produces, exactly if both listeners
      can be bound next to each other; nodes
      that share a directory share no Raft file; the environment overrides read back what was written; metrics never change what a
      node does, and the gauges follow its state through the operations that refresh them; a waiting loop stops when it is told to.
    - Simulation: a reply belongs to its request under every schedule, a message is handled at most twice, and at most once unless the
      scheduler duplicates it, dropped messages are lost,
      duplicates are absorbed, a restarted node answers, nodes are up until they are killed and again after a restart; the invariant
      checker decides exactly the stated properties; the metrics endpoint does not depend on packets.
    - Quorums: the search returns the greatest accepted index; joint quorums overlap.
    - Conformance: the model passes the unit tests of the sources ([node_tests_pass] and the like): the nodes, the state
      machine, the storage, the transports, the coordinator, the client front end, and clusters of simulated nodes that elect,
      replicate, lose links, heal and restart. Files are compared by what they decode to.
    - Shortcomings, proved as executions: in [LsmTheorems], [RecoveryTheorems], [StorageTheorems],
      [NodeFindings], [ClusterFindings], [ClusterReads], [Timer], [CoordinatorTheorems], [ClientTheorems], [InvariantTheorems], [NetTheorems],
      [SimTheorems], [FaultScheduler], [SdkTheorems], [PyClient], [Metrics], [StopLoops], [Config], [Main] and [Cli].

    ** Bounds and fuel

    The binary search runs 64 rounds, enough for every log shorter than 2^63
    (proved). [apply_loop] and [rm_loop] take the distance to the commit index, which
    each round shortens by one; [read_frames] takes the length of the text, of which a frame consumes at least
    one byte. The theorems show that the fuel is not what ends these loops. The cluster theorems assume
    logs shorter than 2^61 entries ([LOG_MAX]), which keeps every index and the search within [u64].
    The polling loops of tasks take 252 ([poll_rounds]), 202 ([read_rounds]) and 501 ([member_rounds])
    rounds: a sleep lasts at least its period, so the bound of 5, 2 or 10 seconds ends them
    first; a task that ran out would be [OutOfFuel], which the answering theorem of [ClientTheorems] excludes.

    ** What is not modelled

    Logging and its filter, the no-op tracer, the text format of the metrics, sockets and the async runtime with its boxed futures; the
    code generated from [proto/] beyond its record types and the argument parser generated by [clap]; the
    temporary directories of the harness; opening a TCP connection in the clients; the deployment files. Of the unit tests, those of
    the argument parser, the metrics text, the tracer, the system clock and raw protobuf bytes.

    ** Beyond this library

    The cluster theorems fix the membership: the joint quorums of [Protocol] and the two phases of
    [NodeApplyTheorems.add_node_takes_two_phases] are proved for a node, not yet for [Cluster]. *)

From stdpp Require Import prelude gmap strings sorting list.

Create HintDb oxide.

(** ** Rust results and the state-and-error monad

    A method [fn f(&mut self, ..) -> io::Result<A>] is a computation of type
    [M S A]: it maps the state before the call to its result and the state after it.
    The state after an error is kept, as in Rust, where [?] returns early but
    the mutations done so far stay. *)

Inductive io_error :=
  | IoFailed          (** the operating system refused the call *)
  | InvalidData       (** [io::ErrorKind::InvalidData] *)
  | InvalidInput      (** [io::ErrorKind::InvalidInput] *)
  | UnexpectedEof     (** [io::ErrorKind::UnexpectedEof] *)
  | OtherError        (** [io::Error::other] *)
  | Panicked.         (** not an error value: the thread panicked ([expect] on an error) *)

#[export] Instance io_error_eq_dec : EqDecision io_error.
Proof. solve_decision. Defined.

Inductive result (A : Type) :=
  | Ok (a : A)
  | Err (e : io_error).
Arguments Ok {A} a.
Arguments Err {A} e.

Definition is_ok {A} (r : result A) : bool :=
  match r with Ok _ => true | Err _ => false end.

Definition M (S A : Type) : Type := S → result A * S.

#[export] Instance M_ret S : MRet (M S) := λ A a s, (Ok a, s).
#[export] Instance M_bind S : MBind (M S) := λ A B k m s,
  match m s with
  | (Ok a, s') => k a s'
  | (Err e, s') => (Err e, s')
  end.

Definition gets {S A} (f : S → A) : M S A := λ s, (Ok (f s), s).
Definition modify {S} (f : S → S) : M S unit := λ s, (Ok tt, f s).
Definition throw {S A} (e : io_error) : M S A := λ s, (Err e, s).

(** [let _ = m;]: the state change stays, the error is dropped. *)
Definition ignore {S A} (m : M S A) : M S unit := λ s, (Ok tt, (m s).2).

(** Lifting an [Option] into a result: [.ok_or(e)?]. *)
Definition of_option {S A} (e : io_error) (o : option A) : M S A :=
  match o with Some a => mret a | None => throw e end.

(** Running a computation on a component [T] of a larger state [S]. *)
Definition zoom {S T A} (get : S → T) (put : T → S → S) (m : M T A) : M S A :=
  λ s, let '(r, t) := m (get s) in (r, put t s).

(** ** A program logic for [M]

    [wp m Q s]: running [m] from [s] ends in a result and a state that satisfy
    [Q]. The rules follow the shape of the programs. *)

Definition wp {S A} (m : M S A) (Q : result A → S → Prop) (s : S) : Prop :=
  Q (m s).1 (m s).2.

Lemma wp_elim {S A} (m : M S A) Q s r s' : wp m Q s → m s = (r, s') → Q r s'.
Proof. unfold wp. intros HQ E. by rewrite E in HQ. Qed.

Lemma wp_mono {S A} (m : M S A) (Q Q' : result A → S → Prop) s :
  wp m Q s → (∀ r s', Q r s' → Q' r s') → wp m Q' s.
Proof. unfold wp. auto. Qed.

Lemma wp_ret {S A} (a : A) (Q : result A → S → Prop) s : Q (Ok a) s → wp (mret a) Q s.
Proof. done. Qed.

Lemma wp_throw {S A} e (Q : result A → S → Prop) s : Q (Err e) s → wp (throw e) Q s.
Proof. done. Qed.

Lemma wp_bind {S A B} (m : M S A) (k : A → M S B) Q s :
  wp m (λ r s', match r with Ok a => wp (k a) Q s' | Err e => Q (Err e) s' end) s →
  wp (m ≫= k) Q s.
Proof.
  unfold wp, mbind, M_bind. destruct (m s) as [[a|e] s']; simpl; done.
Qed.

Lemma wp_gets {S A} (f : S → A) Q s : Q (Ok (f s)) s → wp (gets f) Q s.
Proof. done. Qed.

Lemma wp_modify {S} (f : S → S) Q s : Q (Ok tt) (f s) → wp (modify f) Q s.
Proof. done. Qed.

Lemma wp_ignore {S A} (m : M S A) Q s : wp m (λ _ s', Q (Ok tt) s') s → wp (ignore m) Q s.
Proof. done. Qed.

Lemma wp_of_option_Some {S A} e (a : A) (Q : result A → S → Prop) s :
  Q (Ok a) s → wp (of_option e (Some a)) Q s.
Proof. done. Qed.

Lemma wp_of_option_None {S A} e (Q : result A → S → Prop) s :
  Q (Err e) s → wp (of_option e None) Q s.
Proof. done. Qed.

Lemma wp_zoom {S T A} (get : S → T) (put : T → S → S) (m : M T A) Q s :
  wp m (λ r t, Q r (put t s)) (get s) → wp (zoom get put m) Q s.
Proof. unfold wp, zoom. by destruct (m (get s)). Qed.

(** One symbolic step of a program. *)
Ltac wp_step :=
  match goal with
  | |- wp (mbind _ _) _ _ => apply wp_bind
  | |- wp (mret _) _ _ => apply wp_ret
  | |- wp (throw _) _ _ => apply wp_throw
  | |- wp (gets _) _ _ => apply wp_gets
  | |- wp (modify _) _ _ => apply wp_modify
  | |- wp (ignore _) _ _ => apply wp_ignore
  | |- wp (zoom _ _ _) _ _ => apply wp_zoom
  | |- wp (of_option _ (Some _)) _ _ => apply wp_of_option_Some
  | |- wp (of_option _ None) _ _ => apply wp_of_option_None
  end; cbn beta iota.

(** Use a specification already proved for the first command. *)
Tactic Notation "wp_use" constr(H) := eapply wp_mono; [eapply H|cbn beta].

(** ** Relations every run keeps

    [keeps R m]: whatever its result, a run of [m] ends in a state related by
    [R] to the one it started from. For a preorder the rules follow the shape of
    the program, and [keep] applies them; the leaves are left to the [oxide] hints. *)

Definition keeps {S A} (R : S → S → Prop) (m : M S A) : Prop := ∀ s, R s (m s).2.

Lemma keeps_elim {S A} (R : S → S → Prop) (m : M S A) s r s' : keeps R m → m s = (r, s') → R s s'.
Proof. intros Hm E. specialize (Hm s). by rewrite E in Hm. Qed.

Lemma keeps_wp {S A} (R : S → S → Prop) (m : M S A) s : keeps R m → wp m (λ _ s', R s s') s.
Proof. intros Hm. apply Hm. Qed.

Section keeps.
Context {S : Type} (R : S → S → Prop) `{!PreOrder R}.

Lemma keeps_ret {A} (a : A) : keeps R (mret a).
Proof. intros s. simpl. reflexivity. Qed.

Lemma keeps_throw {A} e : keeps R (throw (A := A) e).
Proof. intros s. simpl. reflexivity. Qed.

Lemma keeps_gets {A} (f : S → A) : keeps R (gets f).
Proof. intros s. simpl. reflexivity. Qed.

Lemma keeps_bind {A B} (m : M S A) (k : A → M S B) :
  keeps R m → (∀ a, keeps R (k a)) → keeps R (m ≫= k).
Proof.
  intros Hm Hk s. unfold mbind, M_bind. specialize (Hm s).
  destruct (m s) as [[a|e] s']; simpl in *; [|done]. transitivity s'; [done|apply Hk].
Qed.

(** After a [gets] the continuation may use that the state has not moved. *)
Lemma keeps_bind_gets {A B} (f : S → A) (k : A → M S B) :
  (∀ s, R s (k (f s) s).2) → keeps R (gets f ≫= k).
Proof. intros Hk s. apply Hk. Qed.

Lemma keeps_modify (f : S → S) : (∀ s, R s (f s)) → keeps R (modify f).
Proof. intros Hf s. apply Hf. Qed.

Lemma keeps_ignore {A} (m : M S A) : keeps R m → keeps R (ignore m).
Proof. intros Hm s. apply Hm. Qed.

Lemma keeps_of_option {A} e (o : option A) : keeps R (of_option e o).
Proof. destruct o; [apply keeps_ret|apply keeps_throw]. Qed.

Lemma keeps_zoom {T A} (get : S → T) (put : T → S → S) (m : M T A) :
  (∀ s, R s (put (m (get s)).2 s)) → keeps R (zoom get put m).
Proof. intros Hm s. specialize (Hm s). unfold zoom. by destruct (m (get s)). Qed.
End keeps.

Ltac keep_step :=
  lazymatch goal with
  | |- keeps _ (mbind _ _) => apply keeps_bind; [apply _| |intros ?]
  | |- keeps _ (mret _) => apply keeps_ret; apply _
  | |- keeps _ (throw _) => apply keeps_throw; apply _
  | |- keeps _ (gets _) => apply keeps_gets; apply _
  | |- keeps _ (ignore _) => apply keeps_ignore
  | |- keeps _ (of_option _ _) => apply keeps_of_option; apply _
  | |- keeps _ (match ?x with _ => _ end) => destruct x
  end.
Ltac keep := intros; repeat keep_step; eauto with oxide.

(** ** I/O outcomes

    A host (the files a component owns) carries the outcomes of its next
    system calls. An exhausted list means that every later call succeeds. A
    failing write may have put the first [n] bytes on disk. *)

Inductive outcome :=
  | Succeed
  | FailAfter (n : nat).

(** What a system call does with the next outcome: [ok] when it succeeds,
    [torn n] for what is left behind when it fails. *)
Definition next_outcome (faults : list outcome) : outcome * list outcome :=
  match faults with
  | [] => (Succeed, [])
  | o :: faults' => (o, faults')
  end.

Definition str_take (n : nat) (s : string) : string := String.substring 0 n s.

(** ** Machine integers

    [u64] values are kept in [Z]; the operations that can leave the range are
    written with their wrap-around (release builds wrap). *)

Abbreviation U64 := 18446744073709551616%Z.

Definition u64_add (a b : Z) : Z := ((a + b) mod U64)%Z.
Definition u64_sub (a b : Z) : Z := ((a - b) mod U64)%Z.
Definition saturating_sub (a b : Z) : Z := Z.max 0 (a - b).

Definition u64 (a : Z) : Prop := (0 ≤ a < U64)%Z.

Lemma u64_add_small a b : (0 ≤ a + b < U64)%Z → u64_add a b = (a + b)%Z.
Proof. intros. by apply Z.mod_small. Qed.

Lemma u64_sub_small a b : (0 ≤ a - b < U64)%Z → u64_sub a b = (a - b)%Z.
Proof. intros. by apply Z.mod_small. Qed.

Lemma u64_add_range a b : u64 (u64_add a b).
Proof. apply Z.mod_pos_bound. done. Qed.

(** ** Strings: Rust compares [str] bytewise, which is [String.compare] *)

Definition str_lt (a b : string) : bool := negb (String.leb b a).

Lemma str_lt_not_le a b : str_lt a b = true ↔ ¬ String.le b a.
Proof. unfold str_lt, String.le. destruct (String.leb b a); naive_solver. Qed.

Lemma str_lt_false a b : str_lt a b = false ↔ String.le b a.
Proof. unfold str_lt, String.le. destruct (String.leb b a); naive_solver. Qed.

Lemma str_app_empty_r (s : string) : s +:+ EmptyString = s.
Proof. induction s as [|c s IH]; [done|]. exact (f_equal (String c) IH). Qed.

Lemma str_app_assoc (a b c : string) : (a +:+ b) +:+ c = a +:+ (b +:+ c).
Proof. induction a as [|x a IH]; [done|]. exact (f_equal (String x) IH). Qed.

Lemma str_compare_refl s : String.compare s s = Eq.
Proof.
  induction s as [|c s IH]; [done|]. cbn. unfold Ascii.compare. by rewrite N.compare_refl.
Qed.

(** ** Sorted iteration of a [BTreeMap<String, V>]

    The map itself is a [gmap]; [btree_iter] is its iteration order. *)

Definition key_le {V} (p q : string * V) : Prop := String.le p.1 q.1.

#[export] Instance key_le_dec {V} : RelDecision (@key_le V).
Proof. intros p q. apply _. Defined.
#[export] Instance key_le_trans {V} : Transitive (@key_le V).
Proof. intros p q r. unfold key_le. by transitivity q.1. Qed.
#[export] Instance key_le_total {V} : Total (@key_le V).
Proof. intros p q. unfold key_le. apply (total String.le). Qed.

Definition btree_iter {V} (m : gmap string V) : list (string * V) :=
  merge_sort key_le (map_to_list m).

Lemma btree_iter_perm {V} (m : gmap string V) : btree_iter m ≡ₚ map_to_list m.
Proof. apply merge_sort_Permutation. Qed.

Lemma btree_iter_sorted {V} (m : gmap string V) : StronglySorted key_le (btree_iter m).
Proof. apply (StronglySorted_merge_sort _). Qed.

Lemma elem_of_btree_iter {V} (m : gmap string V) k v :
  (k, v) ∈ btree_iter m ↔ m !! k = Some v.
Proof. rewrite btree_iter_perm. apply elem_of_map_to_list. Qed.

Lemma btree_iter_nodup {V} (m : gmap string V) : NoDup (btree_iter m).*1.
Proof. rewrite btree_iter_perm. apply NoDup_fst_map_to_list. Qed.

Lemma btree_iter_to_map {V} (m : gmap string V) : list_to_map (btree_iter m) = m.
Proof.
  apply map_eq. intros k. apply option_eq. intros v.
  rewrite <- elem_of_list_to_map by apply btree_iter_nodup.
  apply elem_of_btree_iter.
Qed.

Lemma btree_iter_nil {V} (m : gmap string V) : btree_iter m = [] ↔ m = ∅.
Proof.
  split.
  - intros H. rewrite <- (btree_iter_to_map m), H. done.
  - intros ->. done.
Qed.

(** ** Tactics *)

(** Split on every [match]/[if] scrutinee of the goal, discharging the cases
    that contradict a hypothesis. *)
Ltac msplit :=
  repeat (case_match || case_decide || case_bool_decide); simplify_eq/=.

(** Unfold the monad's plumbing in a hypothesis or in the goal. *)
Ltac munfold :=
  unfold mbind, M_bind, mret, M_ret, gets, modify, throw, ignore, of_option, zoom in *.

#[export] Hint Resolve u64_add_range : oxide.
