(* ===== verification/Serde.v ===== *)
(** * Serialisation interfaces

    The sources call [serde_json] (state-machine WAL lines, SSTable files and
    their metadata, Raft metadata and snapshots) and [bincode] (Raft WAL
    frames). Both are third-party crates: here they are type classes whose
    operations are the calls the sources make and whose laws are the documented
    behaviour the sources rely on. [Countable]-based instances show that the
    laws are satisfiable, and make the clients executable. *)

From stdpp Require Import prelude gmap strings countable list.
From S2P Require Import Prelude.

(** ** Text lines, as [BufRead::read_line] and [str::trim] see them *)

Definition newline : Ascii.ascii := Ascii.ascii_of_nat 10.

(** The ASCII characters [char::is_whitespace] accepts. *)
Definition is_whitespace (c : Ascii.ascii) : bool :=
  let n := Ascii.nat_of_ascii c in (n =? 32)%nat || ((9 <=? n)%nat && (n <=? 13)%nat).

Fixpoint trim_start (s : string) : string :=
  match s with
  | EmptyString => EmptyString
  | String c s' => if is_whitespace c then trim_start s' else s
  end.

Fixpoint trim_end (s : string) : string :=
  match s with
  | EmptyString => EmptyString
  | String c s' =>
      match trim_end s' with
      | EmptyString => if is_whitespace c then EmptyString else String c EmptyString
      | t => String c t
      end
  end.

Definition trim (s : string) : string := trim_end (trim_start s).

(** The successive results of [read_line] up to end of file, without their
    terminators; a last line with no terminator is returned like the others. *)
Fixpoint lines (s : string) : list string :=
  match s with
  | EmptyString => []
  | String c s' =>
      if Ascii.eqb c newline then EmptyString :: lines s'
      else match lines s' with
           | [] => [String c EmptyString]
           | l :: ls => String c l :: ls
           end
  end.

Fixpoint no_newline (s : string) : bool :=
  match s with
  | EmptyString => true
  | String c s' => negb (Ascii.eqb c newline) && no_newline s'
  end.

(** [writeln!(f, "{line}")] appends this text. *)
Definition writeln (line : string) : string := line +:+ String newline EmptyString.

Lemma lines_cons l s : no_newline l = true → lines (writeln l +:+ s) = l :: lines s.
Proof.
  unfold writeln. induction l as [|c l IH]; simpl; intros Hl.
  - done.
  - apply andb_true_iff in Hl as [Hc%negb_true_iff Hl].
    rewrite Hc. simpl in IH. by rewrite (IH Hl).
Qed.

(** A line the WAL reader gives back as it was written. *)
Definition plain_line (s : string) : Prop :=
  no_newline s = true ∧ trim s = s ∧ s ≠ EmptyString.

(** ** [serde_json] *)

Class Json (A : Type) := {
  to_string : A → option string;
  to_string_pretty : A → option string;
  from_str : string → option A;
}.

(** Documented behaviour: serialising one of the program's own types succeeds,
    parsing undoes it, and the compact form is a single line with neither
    surrounding blanks nor a line break. *)
Class JsonLaws (A : Type) `{Json A} := {
  json_compact (a : A) : ∃ s, to_string a = Some s ∧ from_str s = Some a ∧ plain_line s;
  json_pretty (a : A) : ∃ s, to_string_pretty a = Some s ∧ from_str s = Some a;
}.

(** ** [bincode]

    [bin_deserialize] is [bincode::deserialize_from] on the bytes left in the
    reader: the value decoded and the bytes after it. *)

Class Bincode (A : Type) := {
  bin_serialize : A → option string;
  bin_deserialize : string → option (A * string);
}.

Class BincodeLaws (A : Type) `{Bincode A} := {
  bin_roundtrip (a : A) : ∃ s, bin_serialize a = Some s ∧ s ≠ EmptyString ∧
    ∀ rest, bin_deserialize (s +:+ rest) = Some (a, rest);
  bin_eof : bin_deserialize EmptyString = None;
  bin_consumes s (a : A) rest :
    bin_deserialize s = Some (a, rest) → String.length rest < String.length s;
  bin_truncated (a : A) s n :
    bin_serialize a = Some s → n < String.length s → bin_deserialize (str_take n s) = None;
}.

(** ** [serde_json::Value]

    The dynamically typed JSON values, with the accessors the code uses:
    [v["key"]] is [Null] when [v] is not an object or has no such key. *)

Inductive Value :=
  | VNull
  | VBool (b : bool)
  | VNumber (n : Z)
  | VString (s : string)
  | VArray (l : list Value)
  | VObject (m : list (string * Value)).

Definition assoc_lookup (k : string) (m : list (string * Value)) : option Value :=
  snd <$> head (filter (λ p, p.1 = k) m).

Definition value_index (v : Value) (k : string) : Value :=
  match v with
  | VObject m => default VNull (assoc_lookup k m)
  | _ => VNull
  end.

Definition as_u64 (v : Value) : option Z :=
  match v with
  | VNumber n => if decide (u64 n) then Some n else None
  | _ => None
  end.

Definition as_str (v : Value) : option string :=
  match v with VString s => Some s | _ => None end.

(** A [Option<String>] as a value. *)
Definition of_opt_string (o : option string) : Value :=
  match o with Some s => VString s | None => VNull end.

Lemma as_str_of_opt o : as_str (of_opt_string o) = o.
Proof. by destruct o. Qed.

Fixpoint value_tree (v : Value) : gen_tree (bool + Z + string) :=
  match v with
  | VNull => GenNode 0 []
  | VBool b => GenLeaf (inl (inl b))
  | VNumber n => GenLeaf (inl (inr n))
  | VString s => GenLeaf (inr s)
  | VArray l => GenNode 1 (map value_tree l)
  | VObject m => GenNode 2 (map (λ p, GenNode 3 [GenLeaf (inr p.1); value_tree p.2]) m)
  end.

Fixpoint tree_value (t : gen_tree (bool + Z + string)) : Value :=
  match t with
  | GenLeaf (inl (inl b)) => VBool b
  | GenLeaf (inl (inr n)) => VNumber n
  | GenLeaf (inr s) => VString s
  | GenNode 1 l => VArray (map tree_value l)
  | GenNode 2 l =>
      VObject (map (λ t, match t with
                         | GenNode _ [GenLeaf (inr k); u] => (k, tree_value u)
                         | _ => (EmptyString, VNull)
                         end) l)
  | GenNode _ _ => VNull
  end.

Fixpoint value_tree_inv (v : Value) : tree_value (value_tree v) = v.
Proof.
  destruct v as [|b|n|s|l|m]; try reflexivity; simpl; f_equal.
  - induction l as [|v l IH]; [reflexivity|]. simpl. rewrite (value_tree_inv v). f_equal. apply IH.
  - induction m as [|[k v] m IH]; [reflexivity|]. simpl. rewrite (value_tree_inv v). f_equal. apply IH.
Qed.

#[export] Instance Value_eq_dec : EqDecision Value.
Proof.
  intros x y. destruct (decide (value_tree x = value_tree y)) as [E|E].
  - left. by rewrite <- (value_tree_inv x), E, value_tree_inv.
  - right. by intros ->.
Defined.
#[export] Instance Value_countable : Countable Value.
Proof. exact (inj_countable' value_tree tree_value value_tree_inv). Defined.

(** ** Instances: any countable type, written as binary digits between brackets *)

Module CountableCodec.

Definition open_c : Ascii.ascii := Ascii.ascii_of_nat 91.
Definition close_c : Ascii.ascii := Ascii.ascii_of_nat 93.
Definition zero_c : Ascii.ascii := Ascii.ascii_of_nat 48.
Definition one_c : Ascii.ascii := Ascii.ascii_of_nat 49.

Fixpoint digits (p : positive) : string :=
  match p with
  | xH => String close_c EmptyString
  | xO p => String zero_c (digits p)
  | xI p => String one_c (digits p)
  end.

(** Parses the digits up to the closing bracket, and returns what follows. *)
Fixpoint parse_digits (s : string) : option (positive * string) :=
  match s with
  | EmptyString => None
  | String c s' =>
      if Ascii.eqb c close_c then Some (xH, s')
      else if Ascii.eqb c zero_c then
        match parse_digits s' with Some (p, r) => Some (xO p, r) | None => None end
      else if Ascii.eqb c one_c then
        match parse_digits s' with Some (p, r) => Some (xI p, r) | None => None end
      else None
  end.

Definition write_pos (p : positive) : string := String open_c (digits p).

Definition read_pos (s : string) : option (positive * string) :=
  match s with
  | String c s' => if Ascii.eqb c open_c then parse_digits s' else None
  | EmptyString => None
  end.

Lemma parse_digits_app p rest : parse_digits (digits p +:+ rest) = Some (p, rest).
Proof. by induction p as [p IH|p IH|]; simpl; rewrite ?IH. Qed.

Lemma parse_digits_length s p rest :
  parse_digits s = Some (p, rest) → String.length rest < String.length s.
Proof.
  revert p rest. induction s as [|c s IH]; intros p rest; simpl; [done|].
  intros H. repeat case_match; simplify_eq/=; try lia;
    specialize (IH _ _ eq_refl); lia.
Qed.

Lemma parse_digits_truncated p n : n < String.length (digits p) →
  parse_digits (str_take n (digits p)) = None.
Proof.
  unfold str_take. revert n.
  induction p as [p IH|p IH|]; intros [|n] Hn; simpl in *; try done; try lia.
  all: by rewrite IH by lia.
Qed.

Lemma digits_line p : no_newline (digits p) = true ∧ trim_end (digits p) = digits p
  ∧ digits p ≠ EmptyString.
Proof.
  induction p as [p (Hn & Ht & Hz)|p (Hn & Ht & Hz)|]; simpl;
    [..|split_and!; [vm_compute; reflexivity..|discriminate]];
    (split_and!; [by rewrite Hn|rewrite Ht; by destruct (digits p)|discriminate]).
Qed.

Lemma write_pos_line p : plain_line (write_pos p).
Proof.
  destruct (digits_line p) as (Hn & Ht & Hz). unfold plain_line, write_pos, trim.
  split_and!; [| |discriminate].
  - simpl. by rewrite Hn.
  - change (trim_start (String open_c (digits p))) with (String open_c (digits p)).
    simpl. rewrite Ht. by destruct (digits p).
Qed.

Section instances.
Context (A : Type) `{Countable A}.

Definition encode_str (a : A) : string := write_pos (encode a).

#[local] Instance countable_json : Json A := {|
  to_string a := Some (encode_str a);
  to_string_pretty a := Some (encode_str a);
  from_str s :=
    match read_pos s with
    | Some (p, EmptyString) => decode p
    | _ => None
    end;
|}.

#[local] Instance countable_bincode : Bincode A := {|
  bin_serialize a := Some (encode_str a);
  bin_deserialize s :=
    match read_pos s with
    | Some (p, rest) => match decode p with Some a => Some (a, rest) | None => None end
    | None => None
    end;
|}.

Lemma read_encode (a : A) rest : read_pos (encode_str a +:+ rest) = Some (encode a, rest).
Proof. unfold read_pos, encode_str, write_pos. simpl. apply parse_digits_app. Qed.

Lemma countable_from_str (a : A) : from_str (encode_str a) = Some a.
Proof.
  pose proof (read_encode a "") as E. rewrite str_app_empty_r in E.
  cbv [from_str countable_json]. rewrite E. apply decode_encode.
Qed.

#[local] Instance countable_json_laws : JsonLaws A.
Proof.
  split; intros a; exists (encode_str a); eauto using countable_from_str.
  split_and!; [done|apply countable_from_str|apply write_pos_line].
Qed.

#[local] Instance countable_bincode_laws : BincodeLaws A.
Proof.
  split.
  - intros a. exists (encode_str a). split_and!; [done..|]. intros rest.
    cbv [bin_deserialize countable_bincode]. rewrite read_encode. by rewrite decode_encode.
  - done.
  - intros [|c s] a rest; simpl; [done|]. intros Hs.
    destruct (Ascii.eqb c open_c); [|done].
    destruct (parse_digits s) as [[p r]|] eqn:E; [|done].
    apply parse_digits_length in E. destruct (decode p); simplify_eq. lia.
  - intros a s n [= <-] Hn. unfold encode_str, write_pos in *.
    cbv [bin_deserialize countable_bincode]. destruct n as [|n]; [done|]. simpl in *.
    by rewrite parse_digits_truncated by lia.
Qed.
End instances.

End CountableCodec.
