(* ===== verification/Protocol.v ===== *)
(** * Commands, cluster configurations and the commit quorum ([src/rust/oxide-kv/src/protocol.rs])

    The data that travels in the Raft log, and the quorum rule of joint
    consensus: [config_quorum_reached] decides whether an index is replicated
    on a majority of the configuration (both majorities while [Joint]), and
    [config_quorum_reached_index] binary-searches the highest such index. *)

From stdpp Require Import prelude gmap strings countable list.
From S2P Require Import Prelude.
#[local] Open Scope Z_scope.

(** ** Data *)

Record ServerId := mkServerId { node_id : string; addr : string }.

Inductive Configuration :=
  | Simple (servers : list ServerId)
  | Joint (old new : list ServerId).

Inductive TxOp :=
  | TxPut (key value : string)
  | TxDelete (key : string).

Inductive Vote :=
  | VoteYes
  | VoteNo (reason : string).

Inductive TxDecision := Commit | Abort.

Inductive Command :=
  | CSet (key value : string)
  | CGet (key : string)
  | CDelete (key : string)
  | CCompact
  | CAbortTx (tx_id : string)
  | CBeginTx (tx_id : string) (ops : list TxOp)
  | CDecideTx (tx_id : string) (decision : TxDecision)
  | CAddNode (server : ServerId)
  | CRemoveNode (node_id : string)
  | CInstallConfiguration (config : Configuration).

Record LogEntry := mkLogEntry { le_term : Z; le_index : Z; le_command : Command }.

Record Snapshot := mkSnapshot {
  last_included_index : Z;
  last_included_term : Z;
  snap_data : gmap string string;
}.

Record ReadIndex := mkReadIndex { ri_index : Z; ri_issued_at : Z }.

Inductive MembershipError :=
  | MNotLeader
  | AlreadyMember (id : string)
  | NotMember (id : string)
  | CannotRemoveSelf
  | CannotRemoveLastServer
  | MStorageError (e : io_error).

Inductive AbortTxError :=
  | ANotLeader
  | ANotFound (tx_id : string)
  | AStorageError (e : io_error).

#[export] Instance ServerId_eq_dec : EqDecision ServerId.
Proof. solve_decision. Defined.
#[export] Instance Configuration_eq_dec : EqDecision Configuration.
Proof. solve_decision. Defined.
#[export] Instance TxOp_eq_dec : EqDecision TxOp.
Proof. solve_decision. Defined.
#[export] Instance Vote_eq_dec : EqDecision Vote.
Proof. solve_decision. Defined.
#[export] Instance TxDecision_eq_dec : EqDecision TxDecision.
Proof. solve_decision. Defined.
#[export] Instance Command_eq_dec : EqDecision Command.
Proof. solve_decision. Defined.
#[export] Instance LogEntry_eq_dec : EqDecision LogEntry.
Proof. solve_decision. Defined.

(** ** [impl Configuration] *)

(** The loop of [all_servers]: push each server of [new] whose [node_id] is
    not in the list yet. *)
Fixpoint push_missing (combined new : list ServerId) : list ServerId :=
  match new with
  | [] => combined
  | s :: new' =>
      if existsb (λ x, String.eqb (node_id x) (node_id s)) combined
      then push_missing combined new'
      else push_missing (combined ++ [s]) new'
  end.

Definition all_servers (c : Configuration) : list ServerId :=
  match c with
  | Simple s => s
  | Joint old new => push_missing old new
  end.

Definition effective_servers (c : Configuration) : list ServerId := all_servers c.

Definition config_size (c : Configuration) : nat :=
  match c with
  | Simple s => length s
  | Joint old new => length old `max` length new
  end.

Definition addr_of (c : Configuration) (id : string) : option string :=
  addr <$> List.find (λ s, String.eqb (node_id s) id) (all_servers c).

Definition contains (c : Configuration) (id : string) : bool :=
  existsb (λ s, String.eqb (node_id s) id) (all_servers c).

(** ** The commit quorum *)

(** The index a server is known to have replicated. *)
Definition server_index (match_index : gmap string Z) (self_node_id : string)
    (self_index : Z) (s : ServerId) : Z :=
  if String.eqb (node_id s) self_node_id then self_index
  else default 0 (match_index !! node_id s).

(** The counting loop over one server set. *)
Fixpoint count_replicated (match_index : gmap string Z) (self_node_id : string)
    (self_index index : Z) (servers : list ServerId) (count : nat) : nat :=
  match servers with
  | [] => count
  | s :: servers' =>
      count_replicated match_index self_node_id self_index index servers'
        (if index <=? server_index match_index self_node_id self_index s
         then S count else count)
  end.

Definition majority_ok (match_index : gmap string Z) (self_node_id : string)
    (self_index index : Z) (servers : list ServerId) : bool :=
  (Nat.div2 (length servers) <?
     count_replicated match_index self_node_id self_index index servers 0)%nat.

Definition config_quorum_reached (config : Configuration) (match_index : gmap string Z)
    (self_node_id : string) (self_index index : Z) : bool :=
  match config with
  | Simple servers => majority_ok match_index self_node_id self_index index servers
  | Joint old new =>
      let old_ok := majority_ok match_index self_node_id self_index index old in
      let new_ok := majority_ok match_index self_node_id self_index index new in
      old_ok && new_ok
  end.

(** The loop [while lo <= hi], bounded by [fuel] rounds. *)
Fixpoint quorum_search (fuel : nat) (reached : Z → bool) (lo hi best : Z) : Z :=
  match fuel with
  | O => best
  | S fuel' =>
      if lo <=? hi then
        let mid := u64_add lo hi / 2 in
        if reached mid then
          if mid =? hi then mid
          else quorum_search fuel' reached (u64_add mid 1) hi mid
        else
          if mid =? 0 then best
          else quorum_search fuel' reached lo (u64_sub mid 1) best
      else best
  end.

(** Sixty-four rounds are enough for every [u64] interval: see [quorum_search_spec]. *)
Definition config_quorum_reached_index (config : Configuration)
    (match_index : gmap string Z) (self_node_id : string) (self_index : Z) : Z :=
  quorum_search 64
    (config_quorum_reached config match_index self_node_id self_index) 1 self_index 0.

(** ** Lemmas *)

Section quorum.
Context (match_index : gmap string Z) (self_node_id : string) (self_index : Z).

#[local] Abbreviation idx := (server_index match_index self_node_id self_index).

Lemma count_replicated_length index servers count :
  count_replicated match_index self_node_id self_index index servers count =
  (count + length (filter (λ s, (index <= idx s)%Z) servers))%nat.
Proof.
  revert count. induction servers as [|s servers IH]; intros count; simpl; [lia|].
  rewrite IH, filter_cons. destruct (Z.leb_spec index (idx s)).
  - rewrite decide_True by lia. simpl. lia.
  - rewrite decide_False by lia. done.
Qed.

Lemma majority_ok_spec index servers :
  majority_ok match_index self_node_id self_index index servers = true ↔
  (length servers < 2 * length (filter (λ s, (index <= idx s)%Z) servers))%nat.
Proof.
  unfold majority_ok. rewrite count_replicated_length, Nat.ltb_lt, Nat.div2_div.
  split; intros H.
  - pose proof (Nat.div_mod_eq (length servers) 2).
    pose proof (Nat.mod_upper_bound (length servers) 2). lia.
  - apply Nat.Div0.div_lt_upper_bound. lia.
Qed.

Lemma filter_antitone i j servers : i <= j →
  (length (filter (λ s, (j <= idx s)%Z) servers) ≤
   length (filter (λ s, (i <= idx s)%Z) servers))%nat.
Proof.
  intros Hij. induction servers as [|s servers IH]; [done|].
  rewrite !filter_cons. repeat case_decide; simpl; lia.
Qed.

Lemma quorum_antitone config i j : i <= j →
  config_quorum_reached config match_index self_node_id self_index j = true →
  config_quorum_reached config match_index self_node_id self_index i = true.
Proof.
  intros Hij. destruct config as [s|old new]; simpl; rewrite ?andb_true_iff, !majority_ok_spec.
  - pose proof (filter_antitone i j s Hij). lia.
  - pose proof (filter_antitone i j old Hij). pose proof (filter_antitone i j new Hij). lia.
Qed.
End quorum.

(** The search's loop invariant: everything at or below [best] is reached,
    everything above [hi] is not. *)
Lemma quorum_search_spec fuel (reached : Z → bool) lo hi best top :
  (∀ i j, i <= j → reached j = true → reached i = true) →
  0 <= best → lo = best + 1 → best <= hi → hi <= top → top < 2 ^ 63 →
  (0 < best → reached best = true) →
  (∀ j, hi < j <= top → reached j = false) →
  hi - best < 2 ^ Z.of_nat fuel →
  let r := quorum_search fuel reached lo hi best in
  0 <= r <= top ∧ (0 < r → reached r = true) ∧ (∀ j, r < j <= top → reached j = false).
Proof.
  intros Hanti. revert lo hi best. induction fuel as [|fuel IH];
    intros lo hi best Hb -> Hbh Hht Htop Hbest Hhi Hfuel; cbn [quorum_search].
  { simpl in Hfuel. split_and!; [lia|lia|done|]. intros j Hj. apply Hhi. lia. }
  destruct (Z.leb_spec (best + 1) hi) as [Hle|Hgt].
  2: { split_and!; [lia|lia|done|]. intros j Hj. apply Hhi. lia. }
  rewrite (u64_add_small (best + 1) hi) by lia.
  set (mid := (best + 1 + hi) / 2).
  assert (Hmid : best + 1 <= mid <= hi ∧ 2 * mid <= best + 1 + hi < 2 * mid + 2).
  { subst mid. pose proof (Z.div_mod (best + 1 + hi) 2). 
    pose proof (Z.mod_pos_bound (best + 1 + hi) 2). lia. }
  clearbody mid. rewrite Nat2Z.inj_succ, Z.pow_succ_r in Hfuel by lia.
  destruct (reached mid) eqn:Em.
  - destruct (Z.eqb_spec mid hi) as [->|Hne].
    + split_and!; [lia|lia|done|]. intros j Hj. apply Hhi. lia.
    + rewrite u64_add_small by lia. apply IH; try lia; done.
  - destruct (Z.eqb_spec mid 0); [lia|].
    rewrite u64_sub_small by lia. apply IH; try lia; [done|].
    intros j Hj. destruct (reached j) eqn:Ej; [|done].
    rewrite (Hanti mid j) in Em; [done|lia|done].
Qed.

(** Two sub-collections of one list that each hold more than half of it meet. *)
Lemma majorities_meet {A} (P Q : A → Prop) `{∀ x, Decision (P x), ∀ x, Decision (Q x)}
    (l : list A) :
  (length l < 2 * length (filter P l))%nat → (length l < 2 * length (filter Q l))%nat →
  ∃ x, x ∈ l ∧ P x ∧ Q x.
Proof.
  intros HP HQ. destruct (decide (Exists (λ x, P x ∧ Q x) l)) as [HE|HE].
  { apply Exists_exists in HE as (x & ? & ? & ?). eauto. }
  exfalso. revert HP HQ. 
  assert (length (filter P l) + length (filter Q l) ≤ length l)%nat; [|lia].
  apply not_Exists_Forall in HE; [|apply _].
  induction HE as [|x l Hx _ IH]; [done|].
  rewrite !filter_cons. repeat case_decide; simpl; try lia. naive_solver.
Qed.

Lemma push_missing_elem combined new s :
  s ∈ push_missing combined new → s ∈ combined ∨ s ∈ new.
Proof.
  revert combined. induction new as [|x new IH]; intros combined; simpl; [by left|].
  intros Hs. case_match; apply IH in Hs; set_solver.
Qed.

Lemma push_missing_prefix combined new : combined `prefix_of` push_missing combined new.
Proof.
  revert combined. induction new as [|x new IH]; intros combined; simpl; [done|].
  case_match; [apply IH|]. etrans; [|apply IH]. by exists [x].
Qed.

Lemma existsb_node_id l id :
  existsb (λ x, String.eqb (node_id x) id) l = true ↔ id ∈ node_id <$> l.
Proof.
  rewrite existsb_exists, list_elem_of_fmap. setoid_rewrite <- list_elem_of_In.
  setoid_rewrite String.eqb_eq. naive_solver.
Qed.

Lemma push_missing_ids combined new id :
  id ∈ node_id <$> push_missing combined new ↔ id ∈ node_id <$> combined ∨ id ∈ node_id <$> new.
Proof.
  revert combined. induction new as [|x new IH]; intros combined; simpl; [set_solver|].
  case_match eqn:E; rewrite IH.
  - apply existsb_node_id in E. set_solver.
  - rewrite fmap_app. set_solver.
Qed.

Lemma push_missing_nodup combined new :
  NoDup (node_id <$> combined) → NoDup (node_id <$> push_missing combined new).
Proof.
  revert combined. induction new as [|x new IH]; intros combined Hn; simpl; [done|].
  case_match eqn:E; apply IH; [done|].
  rewrite fmap_app, NoDup_app. split_and!; [done| |apply NoDup_singleton].
  intros i Hi. simpl. rewrite list_elem_of_singleton. intros ->.
  apply existsb_node_id in Hi. congruence.
Qed.

Lemma contains_spec c id : contains c id = true ↔ id ∈ node_id <$> all_servers c.
Proof. apply existsb_node_id. Qed.

Lemma quorum_index_spec config match_index self_id self_index :
  0 <= self_index < 2 ^ 63 →
  let r := config_quorum_reached_index config match_index self_id self_index in
  0 <= r <= self_index ∧
  (0 < r → config_quorum_reached config match_index self_id self_index r = true) ∧
  (∀ j, r < j <= self_index →
     config_quorum_reached config match_index self_id self_index j = false).
Proof.
  intros Hs. apply quorum_search_spec; try lia.
  intros i j. apply quorum_antitone.
Qed.

(** ** Properties *)


Definition three : list ServerId :=
  [mkServerId "n1" "n1"; mkServerId "n2" "n2"; mkServerId "n3" "n3"].


(** C20: no disjoint majorities. When an index is accepted under
    [Joint { old, new }], and another decision (with its own replication table
    and its own leader) is accepted under [old] alone, under [new] alone or under
    the same [Joint], some server counted in both. *)
Theorem joint_quorums_overlap old new cfg m1 id1 si1 i1 m2 id2 si2 i2 :
  cfg = Simple old ∨ cfg = Simple new ∨ cfg = Joint old new →
  config_quorum_reached (Joint old new) m1 id1 si1 i1 = true →
  config_quorum_reached cfg m2 id2 si2 i2 = true →
  ∃ s, (s ∈ old ∨ s ∈ new) ∧
    i1 <= server_index m1 id1 si1 s ∧ i2 <= server_index m2 id2 si2 s.
Proof.
  intros Hcfg. simpl. rewrite andb_true_iff, !majority_ok_spec. intros [Hold Hnew] H2.
  assert (∃ l, (l = old ∨ l = new) ∧
    majority_ok m2 id2 si2 i2 l = true) as (l & Hl & Hm%majority_ok_spec).
  { destruct Hcfg as [-> | [-> | ->]]; simpl in H2; rewrite ?andb_true_iff in H2;
      naive_solver. }
  destruct (majorities_meet (λ s, i1 <= server_index m1 id1 si1 s)
    (λ s, i2 <= server_index m2 id2 si2 s) l) as (s & ? & ? & ?);
    [by destruct Hl as [-> | ->]|done|].
  exists s. destruct Hl as [-> | ->]; auto.
Qed.

Lemma joint_quorums_overlap_witness :
  ∃ s, (s ∈ take 2 three ∨ s ∈ three) ∧
    5 <= server_index {["n2" := 5]} "n1" 6 s ∧ 3 <= server_index {["n2" := 3]} "n3" 3 s.
Proof.
  apply (joint_quorums_overlap (take 2 three) three (Simple three)
    {["n2" := 5]} "n1" 6 5 {["n2" := 3]} "n3" 3 3);
    [by right; left|vm_compute; reflexivity|vm_compute; reflexivity].
Defined.

(** [all_servers] is the union of the configuration's members, each once:
    during [Joint] every server of [old] comes first and unchanged, a server of
    [new] is added exactly when its id is not there yet, and when the ids of
    [old] are distinct so are those of the result. *)
Theorem all_servers_union old new :
  old `prefix_of` all_servers (Joint old new) ∧
  (∀ s, s ∈ all_servers (Joint old new) → s ∈ old ∨ s ∈ new) ∧
  (∀ id, contains (Joint old new) id = contains (Simple old) id || contains (Simple new) id) ∧
  (NoDup (node_id <$> old) → NoDup (node_id <$> all_servers (Joint old new))).
Proof.
  split_and!; [apply push_missing_prefix|apply push_missing_elem| |apply push_missing_nodup].
  intros id. apply eq_true_iff_eq. rewrite orb_true_iff, !contains_spec. apply push_missing_ids.
Qed.
