(* ===== verification/StateMachine.v ===== *)
(** * The LSM state machine ([src/rust/oxide-kv/src/state_machine.rs])

    State, files and every operation of [StateMachine]: the WAL-backed
    memtable, the SSTables, flush, compaction, snapshots, crash recovery
    ([open]) and the two-phase-commit table. The theorems are in
    [StateMachineProps]. *)

From stdpp Require Import prelude gmap strings sorting countable list.
From S2P Require Import Prelude Serde Protocol.
#[local] Open Scope Z_scope.

(** ** Data *)

Record StateMachineConfig := mkSMConfig { memtable_size_threshold : Z }.

Definition default_config : StateMachineConfig := mkSMConfig (1024 * 1024).

Record MemEntry := mkMemEntry { me_value : option string }.

Record PendingTx := mkPendingTx {
  tx_ops : list TxOp;
  tx_votes : gmap string Vote;
  tx_decision : option TxDecision;
  tx_begin_unix_ms : Z;
}.

Inductive WalOp :=
  | WPut (key value : string)
  | WDelete (key : string).

Record SSTEntry := mkSSTEntry {
  e_key : string;
  e_value : option string;
  e_tombstone : bool;
}.

Record SSTableMeta := mkSSTableMeta {
  m_id : Z;
  m_first_key : string;
  m_last_key : string;
  m_entry_count : Z;
  m_created_at : Z;
}.

(** The file [sst/NNNNNN.sst] is named by its number; its path is that number. *)
Record SSTableHandle := mkHandle { h_path : Z; h_meta : SSTableMeta }.

Record PendingTxView := mkPendingTxView {
  op_count : nat;
  yes_votes : nat;
  no_votes : nat;
}.

(** ** The files of the data directory *)

(** [NNNNNN.sst], [NNNNNN.meta] ([meta_path]) and the [NNNNNN.tmp] that
    [write_json] renames onto either of them. *)
Inductive sst_ext := ExtSst | ExtMeta | ExtTmp.

#[export] Instance sst_ext_eq_dec : EqDecision sst_ext.
Proof. solve_decision. Defined.
#[export] Instance sst_ext_countable : Countable sst_ext.
Proof.
  refine (inj_countable'
    (λ x, match x with ExtSst => 0%nat | ExtMeta => 1%nat | ExtTmp => 2%nat end)
    (λ n, match n with 0%nat => ExtSst | 1%nat => ExtMeta | _ => ExtTmp end) _).
  by intros [].
Defined.

Record Host := mkHost {
  h_wal : string;                          (** [memtable.wal] *)
  h_files : gmap (Z * sst_ext) string;     (** the directory [sst/] *)
  h_faults : list outcome;
  h_clock : Z;                             (** wall clock, milliseconds *)
}.

Definition with_wal (w : string) (h : Host) : Host :=
  mkHost w (h_files h) (h_faults h) (h_clock h).
Definition with_files (f : gmap (Z * sst_ext) string) (h : Host) : Host :=
  mkHost (h_wal h) f (h_faults h) (h_clock h).
Definition with_faults (fs : list outcome) (h : Host) : Host :=
  mkHost (h_wal h) (h_files h) fs (h_clock h).

(** A system call that changes the files: [ok] when it runs, [torn n] for what a
    failing one leaves behind. *)
Definition io_call (ok : Host → result unit * Host) (torn : nat → Host → Host) : M Host unit := λ h,
  match next_outcome (h_faults h) with
  | (Succeed, fs) => ok (with_faults fs h)
  | (FailAfter n, fs) => (Err IoFailed, torn n (with_faults fs h))
  end.

(** A system call that reads. *)
Definition io_read {A} (read : Host → result A) : M Host A := λ h,
  match next_outcome (h_faults h) with
  | (Succeed, fs) => (read h, with_faults fs h)
  | (FailAfter _, fs) => (Err IoFailed, with_faults fs h)
  end.

(** Calls with no effect on the modelled contents: [sync_all], [seek],
    [create_dir_all], [try_clone], ... *)
Definition io_nop : M Host unit := io_call (λ h, (Ok tt, h)) (λ _ h, h).

Definition fs_write (p : Z * sst_ext) (s : string) : M Host unit :=
  io_call (λ h, (Ok tt, with_files (<[p := s]> (h_files h)) h))
          (λ n h, with_files (<[p := str_take n s]> (h_files h)) h).

Definition fs_rename (p q : Z * sst_ext) : M Host unit :=
  io_call (λ h, match h_files h !! p with
                | Some s => (Ok tt, with_files (<[q := s]> (delete p (h_files h))) h)
                | None => (Err IoFailed, h)
                end) (λ _ h, h).

Definition fs_remove_file (p : Z * sst_ext) : M Host unit :=
  io_call (λ h, match h_files h !! p with
                | Some _ => (Ok tt, with_files (delete p (h_files h)) h)
                | None => (Err IoFailed, h)
                end) (λ _ h, h).

Definition fs_read_to_string (p : Z * sst_ext) : M Host string :=
  io_read (λ h, match h_files h !! p with Some s => Ok s | None => Err IoFailed end).

Definition wal_write (s : string) : M Host unit :=
  io_call (λ h, (Ok tt, with_wal (h_wal h +:+ s) h))
          (λ n h, with_wal (h_wal h +:+ str_take n s) h).

Definition wal_set_len_0 : M Host unit :=
  io_call (λ h, (Ok tt, with_wal EmptyString h)) (λ _ h, h).

(** [set_len(0)?; seek(Start(0))?; sync_all()?] *)
Definition wal_truncate : M Host unit := wal_set_len_0 ;; io_nop ;; io_nop.

(** [now_unix_ms] and [now_unix] *)
Definition now_unix_ms (h : Host) : Z := h_clock h.
Definition now_unix (h : Host) : Z := h_clock h / 1000.

(** [estimate_entry] *)
Definition str_len (s : string) : Z := Z.of_nat (String.length s).
Definition estimate_entry (key : string) : Z := str_len key + 40.

Definition opt_len (v : option string) : Z :=
  match v with Some v => str_len v | None => 0 end.

(** ** The state machine *)

(** [memtable_bytes], a [usize], counts bytes that are in memory: it is not given a width here. *)
Record StateMachine := mkSM {
  sm_config : StateMachineConfig;
  memtable : gmap string MemEntry;
  memtable_bytes : Z;
  sstables : list SSTableHandle;
  next_sst_id : Z;
  pending_txs : gmap string PendingTx;
  host : Host;
}.

Definition with_memtable (m : gmap string MemEntry) (b : Z) (s : StateMachine) : StateMachine :=
  mkSM (sm_config s) m b (sstables s) (next_sst_id s) (pending_txs s) (host s).
Definition with_sstables (t : list SSTableHandle) (s : StateMachine) : StateMachine :=
  mkSM (sm_config s) (memtable s) (memtable_bytes s) t (next_sst_id s) (pending_txs s) (host s).
Definition with_next_sst_id (n : Z) (s : StateMachine) : StateMachine :=
  mkSM (sm_config s) (memtable s) (memtable_bytes s) (sstables s) n (pending_txs s) (host s).
Definition with_pending (p : gmap string PendingTx) (s : StateMachine) : StateMachine :=
  mkSM (sm_config s) (memtable s) (memtable_bytes s) (sstables s) (next_sst_id s) p (host s).
Definition with_host (h : Host) (s : StateMachine) : StateMachine :=
  mkSM (sm_config s) (memtable s) (memtable_bytes s) (sstables s) (next_sst_id s) (pending_txs s) h.

Definition on_host {A} (m : M Host A) : M StateMachine A := zoom host with_host m.

(** [sort_by_key(|s| s.meta.id)] *)
Definition handle_le (a b : SSTableHandle) : Prop := m_id (h_meta a) <= m_id (h_meta b).

#[export] Instance handle_le_dec : RelDecision handle_le.
Proof. intros a b. unfold handle_le. apply _. Defined.

Section operations.
Context {JW : Json WalOp} {JE : Json (list SSTEntry)} {JM : Json SSTableMeta}.

(** [write_json]: serialise, write the temporary file, rename it into place. *)
Definition write_json {A} `{Json A} (p : Z * sst_ext) (v : A) : M Host unit :=
  s ← of_option OtherError (to_string_pretty v);
  fs_write (p.1, ExtTmp) s ;; fs_rename (p.1, ExtTmp) p.

Definition load_sst_meta (id : Z) : M Host SSTableMeta :=
  raw ← fs_read_to_string (id, ExtMeta);
  of_option OtherError (from_str raw).

Definition load_sst_entries (id : Z) : M Host (list SSTEntry) :=
  raw ← fs_read_to_string (id, ExtSst);
  of_option OtherError (from_str raw).

Definition append_wal (op : WalOp) : M StateMachine unit :=
  line ← of_option OtherError (to_string op);
  on_host (wal_write (writeln line)) ;; on_host io_nop.

(** *** [flush] *)

Definition sst_entry_of (p : string * MemEntry) : SSTEntry :=
  mkSSTEntry p.1 (me_value p.2) (bool_decide (me_value p.2 = None)).

Definition first_key_of (entries : list SSTEntry) : string :=
  match entries with e :: _ => e_key e | [] => EmptyString end.
Definition last_key_of (entries : list SSTEntry) : string :=
  match last entries with Some e => e_key e | None => EmptyString end.

Definition meta_for (id : Z) (entries : list SSTEntry) (now : Z) : SSTableMeta :=
  mkSSTableMeta id (first_key_of entries) (last_key_of entries)
    (Z.of_nat (length entries)) now.

(** The data file, then its metadata sidecar. *)
Definition write_table (id : Z) (entries : list SSTEntry) (meta : SSTableMeta) : M Host unit :=
  write_json (id, ExtSst) entries ;; write_json (id, ExtMeta) meta.

Definition flush : M StateMachine unit :=
  mt ← gets memtable;
  if bool_decide (mt = ∅) then mret tt else
  let entries := sst_entry_of <$> btree_iter mt in
  id ← gets next_sst_id;
  modify (with_next_sst_id (u64_add id 1)) ;;
  now ← gets (λ s, now_unix (host s));
  let meta := meta_for id entries now in
  on_host (write_table id entries meta) ;;
  modify (λ s, with_sstables (sstables s ++ [mkHandle id meta]) s) ;;
  modify (with_memtable ∅ 0) ;;
  on_host wal_truncate.

Definition flush_if_full : M StateMachine unit :=
  full ← gets (λ s, memtable_size_threshold (sm_config s) <=? memtable_bytes s);
  if (full : bool) then flush else mret tt.

(** *** [set] and [delete] *)

(** The accounting and the insertion the two share. *)
Definition put_entry (key : string) (v : option string) (s : StateMachine) : StateMachine :=
  let bytes :=
    match memtable s !! key with
    | Some prev => saturating_sub (memtable_bytes s) (opt_len (me_value prev))
    | None => memtable_bytes s + estimate_entry key
    end in
  with_memtable (<[key := mkMemEntry v]> (memtable s)) (bytes + opt_len v) s.

Definition set (key value : string) : M StateMachine unit :=
  append_wal (WPut key value) ;;
  modify (put_entry key (Some value)) ;;
  flush_if_full.

Definition delete (key : string) : M StateMachine unit :=
  append_wal (WDelete key) ;;
  modify (put_entry key None) ;;
  flush_if_full.

(** *** [get] *)

(** The scan of one table: [Some r] is [return r], [None] falls through to
    the next table. *)
Fixpoint scan_entries (key : string) (entries : list SSTEntry) : option (option string) :=
  match entries with
  | [] => None
  | e :: entries' =>
      match String.compare (e_key e) key with
      | Eq => Some (if e_tombstone e then None else e_value e)
      | Gt => Some None
      | Lt => scan_entries key entries'
      end
  end.

(** The loop over the tables, newest first. *)
Fixpoint get_tables (key : string) (tables : list SSTableHandle) : M Host (option string) :=
  match tables with
  | [] => mret None
  | sst :: tables' =>
      if str_lt key (m_first_key (h_meta sst)) || str_lt (m_last_key (h_meta sst)) key
      then get_tables key tables'
      else λ h,
        match load_sst_entries (h_path sst) h with
        | (Ok entries, h') =>
            match scan_entries key entries with
            | Some r => (Ok r, h')
            | None => get_tables key tables' h'
            end
        | (Err _, h') => get_tables key tables' h'
        end
  end.

Definition get (key : string) : M StateMachine (option string) :=
  mt ← gets memtable;
  match mt !! key with
  | Some entry => mret (me_value entry)
  | None =>
      tables ← gets sstables;
      on_host (get_tables key (reverse tables))
  end.

(** *** [snapshot_data], [install_snapshot], [clear_for_snapshot] *)

Definition overlay_entry (acc : gmap string string) (e : SSTEntry) : gmap string string :=
  if e_tombstone e then base.delete (e_key e) acc
  else match e_value e with
       | Some v => <[e_key e := v]> acc
       | None => acc
       end.

Definition overlay_mem (acc : gmap string string) (p : string * MemEntry) : gmap string string :=
  match me_value p.2 with
  | Some v => <[p.1 := v]> acc
  | None => base.delete p.1 acc
  end.

Fixpoint snapshot_tables (tables : list SSTableHandle) (acc : gmap string string) :
    M Host (gmap string string) :=
  match tables with
  | [] => mret acc
  | sst :: tables' =>
      entries ← load_sst_entries (h_path sst);
      snapshot_tables tables' (foldl overlay_entry acc entries)
  end.

Definition snapshot_data : M StateMachine (gmap string string) :=
  tables ← gets sstables;
  acc ← on_host (snapshot_tables tables ∅);
  mt ← gets memtable;
  mret (foldl overlay_mem acc (btree_iter mt)).

(** [fs::remove_file] of each data file and of its sidecar, errors ignored. *)
Fixpoint remove_tables (tables : list SSTableHandle) : M Host unit :=
  match tables with
  | [] => mret tt
  | sst :: tables' =>
      ignore (fs_remove_file (h_path sst, ExtSst)) ;;
      ignore (fs_remove_file (h_path sst, ExtMeta)) ;;
      remove_tables tables'
  end.

Definition clear_for_snapshot : M StateMachine unit :=
  modify (with_memtable ∅ 0) ;;
  on_host wal_truncate ;;
  tables ← gets sstables;
  on_host (remove_tables tables) ;;
  modify (with_sstables []) ;;
  modify (with_next_sst_id 0) ;;
  modify (with_pending ∅).

(** One round of the loading loop of [install_snapshot]. *)
Definition load_pair (s : StateMachine) (p : string * string) : StateMachine :=
  with_memtable (<[p.1 := mkMemEntry (Some p.2)]> (memtable s))
    (memtable_bytes s + estimate_entry p.1 + str_len p.2) s.

Definition install_snapshot (data : gmap string string) : M StateMachine unit :=
  clear_for_snapshot ;;
  modify (λ s, with_memtable (memtable s) 0 s) ;;
  modify (λ s, foldl load_pair s (map_to_list data)).

(** *** [compact] *)

Fixpoint merge_tables (tables : list SSTableHandle) (acc : gmap string SSTEntry) :
    M Host (gmap string SSTEntry) :=
  match tables with
  | [] => mret acc
  | sst :: tables' =>
      entries ← load_sst_entries (h_path sst);
      merge_tables tables' (foldl (λ m e, <[e_key e := e]> m) acc entries)
  end.

Definition compact : M StateMachine unit :=
  tables ← gets sstables;
  if (length tables <? 2)%nat then mret tt else
  merged ← on_host (merge_tables tables ∅);
  let kept := filter (λ p, e_tombstone p.2 = false) merged in
  let entries := (btree_iter kept).*2 in
  id ← gets next_sst_id;
  modify (with_next_sst_id (u64_add id 1)) ;;
  now ← gets (λ s, now_unix (host s));
  let meta := meta_for id entries now in
  on_host (write_table id entries meta) ;;
  modify (with_sstables [mkHandle id meta]) ;;
  on_host (remove_tables tables).

(** *** [open] *)

Definition replay_op (acc : gmap string MemEntry * Z) (op : WalOp) : gmap string MemEntry * Z :=
  let '(mt, bytes) := acc in
  match op with
  | WPut key value =>
      let bytes := saturating_sub bytes (estimate_entry key) in
      (<[key := mkMemEntry (Some value)]> mt, bytes + (estimate_entry key + str_len value))
  | WDelete key =>
      let bytes := saturating_sub bytes (estimate_entry key) in
      (<[key := mkMemEntry None]> mt, bytes + estimate_entry key)
  end.

Fixpoint replay_lines (ls : list string) (acc : gmap string MemEntry * Z) :
    result (gmap string MemEntry * Z) :=
  match ls with
  | [] => Ok acc
  | l :: ls' =>
      let trimmed := trim l in
      if String.eqb trimmed EmptyString then replay_lines ls' acc
      else match from_str trimmed with
           | Some op => replay_lines ls' (replay_op acc op)
           | None => Err InvalidData
           end
  end.

(** The directory listing: [parse_sst_id] numbers the [.sst] files, the
    others are skipped. *)
Fixpoint discover (names : list (Z * sst_ext)) (tables : list SSTableHandle) (next : Z) :
    M Host (list SSTableHandle * Z) :=
  match names with
  | [] => mret (tables, next)
  | (id, ext) :: names' =>
      io_nop ;;
      match ext with
      | ExtSst =>
          meta ← load_sst_meta id;
          discover names' (tables ++ [mkHandle id meta]) (Z.max next (u64_add id 1))
      | _ => discover names' tables next
      end
  end.

Definition sm_open (config : StateMachineConfig) : M Host StateMachine :=
  io_nop ;; io_nop ;;                    (* create_dir_all twice *)
  names ← io_read (λ h, Ok (map_to_list (h_files h)).*1);
  found ← discover names [] 0;
  io_nop ;; io_nop ;;                    (* open the WAL, try_clone *)
  text ← io_read (λ h, Ok (h_wal h));
  match replay_lines (lines text) (∅, 0) with
  | Err e => throw e
  | Ok (mt, bytes) =>
      h ← gets id;
      mret (mkSM config mt bytes (merge_sort handle_le found.1) found.2 ∅ h)
  end.

(** *** Two-phase commit *)

Definition begin_tx_at (tx_id : string) (ops : list TxOp) (begin_unix_ms : Z) :
    M StateMachine unit :=
  modify (λ s, with_pending
    (<[tx_id := mkPendingTx ops ∅ None begin_unix_ms]> (pending_txs s)) s).

Definition begin_tx (tx_id : string) (ops : list TxOp) : M StateMachine unit :=
  now ← gets (λ s, now_unix_ms (host s));
  begin_tx_at tx_id ops now.

Definition record_vote (tx_id voter : string) (vote : Vote) : M StateMachine unit :=
  modify (λ s,
    match pending_txs s !! tx_id with
    | Some tx =>
        with_pending (<[tx_id := mkPendingTx (tx_ops tx) (<[voter := vote]> (tx_votes tx))
          (tx_decision tx) (tx_begin_unix_ms tx)]> (pending_txs s)) s
    | None => s
    end).

Definition apply_op (op : TxOp) : M StateMachine unit :=
  match op with
  | TxPut key value => ignore (set key value)
  | TxDelete key => ignore (delete key)
  end.

Fixpoint apply_ops (ops : list TxOp) : M StateMachine unit :=
  match ops with
  | [] => mret tt
  | op :: ops' => apply_op op ;; apply_ops ops'
  end.

Definition decide_tx (tx_id : string) (decision : TxDecision) : M StateMachine unit :=
  txs ← gets pending_txs;
  match txs !! tx_id with
  | None => mret tt
  | Some tx =>
      modify (with_pending (base.delete tx_id txs)) ;;
      match decision with
      | Commit => apply_ops (tx_ops tx)
      | Abort => mret tt
      end
  end.

Definition pending_tx_count (s : StateMachine) : nat := size (pending_txs s).

Definition pending_txs_older_than (threshold : Z) (s : StateMachine) : list string :=
  let now := now_unix_ms (host s) in
  (filter (λ p, threshold < saturating_sub now (tx_begin_unix_ms p.2))
     (btree_iter (pending_txs s))).*1.

Definition is_tx_pending (tx_id : string) (s : StateMachine) : bool :=
  bool_decide (is_Some (pending_txs s !! tx_id)).

Definition is_yes (v : Vote) : bool := match v with VoteYes => true | VoteNo _ => false end.

Definition pending_tx (tx_id : string) (s : StateMachine) : option PendingTxView :=
  (λ tx, mkPendingTxView (length (tx_ops tx))
     (length (filter (λ v, is_yes v = true) (map_to_list (tx_votes tx)).*2))
     (length (filter (λ v, is_yes v = false) (map_to_list (tx_votes tx)).*2)))
  <$> pending_txs s !! tx_id.

Definition memtable_len (s : StateMachine) : nat :=
  length (filter (λ p, is_Some (me_value p.2)) (map_to_list (memtable s))).

Definition sstable_count (s : StateMachine) : nat := length (sstables s).
End operations.
