(* ===== verification/StateMachineProps.v ===== *)
(** * Properties of the LSM state machine

    The abstraction: [layers] stacks the memtable on the SSTables, newest
    first, a tombstone being [Some None]; [contents] is the key-value map a
    client should see. The invariant [wf] says that every table handle names a
    well-formed file. *)

From stdpp Require Import prelude gmap strings sorting countable list.
From S2P Require Import Prelude Serde Protocol StateMachine.
#[local] Open Scope Z_scope.

(** ** Abstraction *)

Definition entries_map (es : list SSTEntry) : gmap string (option string) :=
  list_to_map ((λ e, (e_key e, e_value e)) <$> es).

Definition key_lt (a b : SSTEntry) : Prop := str_lt (e_key a) (e_key b) = true.

Definition entry_ok (e : SSTEntry) : Prop := e_tombstone e = bool_decide (e_value e = None).

Definition no_faults (h : Host) : Prop := h_faults h = [].

(** Files other than those of table [id] are as before, and so are the WAL and the clock. *)
Record frame (id : Z) (h h' : Host) : Prop := {
  frame_files p : p.1 ≠ id → h_files h' !! p = h_files h !! p;
  frame_wal : h_wal h' = h_wal h;
  frame_clock : h_clock h' = h_clock h;
  frame_faults : no_faults h → no_faults h';
}.

Section props.
Context {JW : Json WalOp} {LW : JsonLaws WalOp}.
Context {JE : Json (list SSTEntry)} {LE : JsonLaws (list SSTEntry)}.
Context {JM : Json SSTableMeta} {LM : JsonLaws SSTableMeta}.

Definition sst_file (h : Host) (id : Z) : option (list SSTEntry) :=
  h_files h !! (id, ExtSst) ≫= from_str.
Definition meta_file (h : Host) (id : Z) : option SSTableMeta :=
  h_files h !! (id, ExtMeta) ≫= from_str.

Definition table_layer (h : Host) (t : SSTableHandle) : gmap string (option string) :=
  entries_map (default [] (sst_file h (h_path t))).

Definition layers_rev (h : Host) (rts : list SSTableHandle) : gmap string (option string) :=
  foldr (λ t acc, table_layer h t ∪ acc) ∅ rts.

Definition mem_layer (m : gmap string MemEntry) : gmap string (option string) := me_value <$> m.

Definition layers (s : StateMachine) : gmap string (option string) :=
  mem_layer (memtable s) ∪ layers_rev (host s) (reverse (sstables s)).

Definition visible (l : gmap string (option string)) : gmap string string := omap id l.

Definition contents (s : StateMachine) : gmap string string := visible (layers s).

(** ** Invariant *)

Record table_spec (h : Host) (t : SSTableHandle) (es : list SSTEntry) : Prop := {
  tok_file : sst_file h (h_path t) = Some es;
  tok_meta : meta_file h (h_path t) = Some (h_meta t);
  tok_sorted : StronglySorted key_lt es;
  tok_entry : Forall entry_ok es;
  tok_range : Forall (λ e, String.le (m_first_key (h_meta t)) (e_key e) ∧
                           String.le (e_key e) (m_last_key (h_meta t))) es;
  tok_id : m_id (h_meta t) = h_path t;
}.

Definition table_ok (h : Host) (t : SSTableHandle) : Prop := ∃ es, table_spec h t es.

Record wf (s : StateMachine) : Prop := {
  wf_tables : Forall (table_ok (host s)) (sstables s);
  wf_order : StronglySorted (λ a b, h_path a < h_path b) (sstables s);
  wf_ids : Forall (λ t, 0 <= h_path t < next_sst_id s) (sstables s);
  wf_next : 0 <= next_sst_id s;
}.

(** There are [n] table numbers left before the [u64] counter wraps. *)
Definition room (n : Z) (s : StateMachine) : Prop := next_sst_id s + n < U64.

(** ** Files *)

Lemma no_faults_outcome h : no_faults h → next_outcome (h_faults h) = (Succeed, []).
Proof. unfold no_faults. by intros ->. Qed.

Lemma wp_io_call ok torn (Q : result unit → Host → Prop) h :
  (∀ fs, (no_faults h → fs = []) → Q (ok (with_faults fs h)).1 (ok (with_faults fs h)).2) →
  (∀ n fs, ¬ no_faults h → Q (Err IoFailed) (torn n (with_faults fs h))) →
  wp (io_call ok torn) Q h.
Proof.
  intros Hok Ht. unfold wp, io_call, no_faults in *.
  destruct (h_faults h) as [|[|n] fs]; simpl; [apply Hok|apply Hok|apply Ht]; done.
Qed.

Lemma wp_io_read {A} (read : Host → result A) (Q : result A → Host → Prop) h :
  (∀ fs, (no_faults h → fs = []) → Q (read h) (with_faults fs h)) →
  (∀ fs, ¬ no_faults h → Q (Err IoFailed) (with_faults fs h)) →
  wp (io_read read) Q h.
Proof.
  intros Hok Ht. unfold wp, io_read, no_faults in *.
  destruct (h_faults h) as [|[|n] fs]; simpl; [apply Hok|apply Hok|apply Ht]; done.
Qed.

Lemma wp_io_nop (Q : result unit → Host → Prop) h :
  (∀ r fs, (no_faults h → r = Ok tt ∧ fs = []) → Q r (with_faults fs h)) → wp io_nop Q h.
Proof. intros HQ. apply wp_io_call; intros; apply HQ; naive_solver. Qed.

Lemma frame_refl id h fs : (no_faults h → fs = []) → frame id h (with_faults fs h).
Proof. by split. Qed.

Lemma frame_trans id h1 h2 h3 : frame id h1 h2 → frame id h2 h3 → frame id h1 h3.
Proof.
  intros [F1 W1 C1 N1] [F2 W2 C2 N2]. split; [|congruence..|tauto].
  intros p Hp. by rewrite F2, F1.
Qed.

Lemma write_json_wp {A} `{JsonLaws A} p (v : A) h : p.2 ≠ ExtTmp →
  wp (write_json p v) (λ r h',
    frame p.1 h h' ∧ (no_faults h → r = Ok tt) ∧
    (∀ q, q ≠ p → q.2 ≠ ExtTmp → h_files h' !! q = h_files h !! q) ∧
    (r = Ok tt → h_files h' !! p ≫= from_str = Some v)) h.
Proof.
  intros Hp. unfold write_json. destruct (json_pretty v) as (s & Hs & Hf). rewrite Hs.
  assert (Hpt : p ≠ (p.1, ExtTmp)) by (destruct p; simpl in *; congruence).
  wp_step. wp_step. wp_step. unfold fs_write.
  apply wp_io_call.
  2: { intros n fs Hn. split_and!; [|tauto| |done].
    - split; simpl; [|done..|tauto]. intros q Hq. by rewrite lookup_insert_ne by naive_solver.
    - intros q Hq Ht. simpl. by rewrite lookup_insert_ne by naive_solver. }
  intros fs Hfs. cbn [fst snd]. unfold fs_rename. apply wp_io_call.
  - intros fs' Hfs'. simpl. rewrite lookup_insert_eq. simpl.
    split_and!; [|done| |].
    + split; simpl; [|done..|].
      * intros q Hq. rewrite lookup_insert_ne, lookup_delete_ne, lookup_insert_ne; naive_solver.
      * intros Hn. apply Hfs'. unfold no_faults in *. simpl. auto.
    + intros q Hq Ht. rewrite lookup_insert_ne, lookup_delete_ne, lookup_insert_ne; naive_solver.
    + intros _. by rewrite lookup_insert_eq.
  - intros n fs' Hn. assert (¬ no_faults h) by (unfold no_faults in *; naive_solver).
    split_and!; [|tauto| |done].
    + split; simpl; [|done..|tauto]. intros q Hq. by rewrite lookup_insert_ne by naive_solver.
    + intros q Hq Ht. simpl. by rewrite lookup_insert_ne by naive_solver.
Qed.

Lemma write_table_wp id es meta h :
  wp (write_table id es meta) (λ r h',
    frame id h h' ∧ (no_faults h → r = Ok tt) ∧
    (r = Ok tt → sst_file h' id = Some es ∧ meta_file h' id = Some meta)) h.
Proof.
  unfold write_table. wp_step. wp_use (write_json_wp (id, ExtSst) es); [done|].
  intros r h1 (F1 & N1 & _ & O1). destruct r as [[]|e]; [|by split_and!; [|naive_solver|]].
  wp_use (write_json_wp (id, ExtMeta) meta); [done|].
  intros r h2 (F2 & N2 & S2 & O2). simpl in *. split_and!.
  - by eapply frame_trans.
  - intros Hn. apply N2. by eapply frame_faults.
  - intros ->. unfold sst_file, meta_file. rewrite S2 by done. auto.
Qed.

Lemma table_layer_frame id h h' t : frame id h h' → h_path t ≠ id →
  table_layer h' t = table_layer h t.
Proof. intros F Ht. unfold table_layer, sst_file. by rewrite (frame_files _ _ _ F). Qed.

Lemma table_ok_files h h' t :
  (∀ x, x ≠ ExtTmp → h_files h' !! (h_path t, x) = h_files h !! (h_path t, x)) →
  table_ok h t → table_ok h' t.
Proof.
  intros F [es [Hf Hm Hs He Hr Hi]]. exists es; split; try done; unfold sst_file, meta_file in *;
    by rewrite F.
Qed.

Lemma layers_rev_ext h h' rts :
  Forall (λ t, h_files h' !! (h_path t, ExtSst) = h_files h !! (h_path t, ExtSst)) rts →
  layers_rev h' rts = layers_rev h rts.
Proof.
  induction 1 as [|t rts Ht _ IH]; simpl; [done|]. rewrite IH.
  unfold table_layer, sst_file. by rewrite Ht.
Qed.

Lemma wf_frame_tables s h' :
  wf s → frame (next_sst_id s) (host s) h' →
  Forall (table_ok h') (sstables s) ∧
  layers_rev h' (reverse (sstables s)) = layers_rev (host s) (reverse (sstables s)).
Proof.
  intros [Ht _ Hi _] F. split.
  - eapply Forall_impl; [exact (proj2 (Forall_and _ _) (conj Ht Hi))|]. intros t [Hok Hid].
    eapply table_ok_files; [|done]. intros x _. apply (frame_files _ _ _ F). simpl in *. lia.
  - apply layers_rev_ext, Forall_reverse. eapply Forall_impl; [exact Hi|].
    intros t Hid. apply (frame_files _ _ _ F). simpl in *. lia.
Qed.
(** ** Entries of a flushed table *)

Lemma entries_map_lookup es e :
  StronglySorted key_lt es → e ∈ es → entries_map es !! e_key e = Some (e_value e).
Proof.
  intros Hs He. unfold entries_map. apply elem_of_list_to_map_1.
  - rewrite <- list_fmap_compose. clear He. induction Hs as [|a l _ IH Ha]; simpl; [constructor|].
    constructor; [|done]. intros (b & Hb & Hin)%list_elem_of_fmap.
    rewrite Forall_forall in Ha. specialize (Ha b Hin). unfold key_lt in Ha. simpl in Hb.
    apply str_lt_not_le in Ha. rewrite Hb in Ha. by apply Ha.
  - apply list_elem_of_fmap. eauto.
Qed.

Lemma entries_map_None es k :
  entries_map es !! k = None ↔ k ∉ e_key <$> es.
Proof.
  unfold entries_map. rewrite <- not_elem_of_list_to_map. by rewrite <- list_fmap_compose.
Qed.

Lemma entries_map_Some es k v :
  StronglySorted key_lt es →
  entries_map es !! k = Some v ↔ ∃ e, e ∈ es ∧ e_key e = k ∧ e_value e = v.
Proof.
  intros Hs. split.
  - intros Hk. apply elem_of_list_to_map_2, list_elem_of_fmap in Hk as (e & [=] & ?). eauto.
  - intros (e & He & <- & <-). by apply entries_map_lookup.
Qed.

Lemma sorted_entries {V} (f : string * V → SSTEntry) (m : gmap string V) :
  (∀ p, p ∈ btree_iter m → e_key (f p) = p.1) → StronglySorted key_lt (f <$> btree_iter m).
Proof.
  intros Hf. pose proof (btree_iter_sorted m) as Hs. pose proof (btree_iter_nodup m) as Hn.
  induction Hs as [|p l _ IH Hp]; [constructor|]. simpl in Hn. apply NoDup_cons in Hn as [Hpl Hn].
  constructor; [apply IH; [|done]; intros; apply Hf; by right|].
  apply Forall_fmap. rewrite Forall_forall in Hp |- *. intros q Hq. simpl. unfold key_lt.
  rewrite !Hf by set_solver. apply str_lt_not_le. intros Hle.
  apply Hpl. apply list_elem_of_fmap. exists q. split; [|done].
  apply (anti_symm String.le); [by apply Hp|done].
Qed.

Lemma first_last_range es :
  StronglySorted key_lt es →
  Forall (λ e, String.le (first_key_of es) (e_key e) ∧ String.le (e_key e) (last_key_of es)) es.
Proof.
  intros Hs. apply Forall_and. split.
  - destruct Hs as [|e es _ He]; constructor; simpl; [done|].
    eapply Forall_impl; [exact He|]. intros a Ha. unfold key_lt in Ha. apply str_lt_not_le in Ha.
    destruct (total String.le (e_key e) (e_key a)); done.
  - unfold last_key_of. induction es as [|e es IH] using rev_ind; [constructor|].
    rewrite last_snoc. apply Forall_app. split; [|by constructor].
    rewrite Forall_forall. intros a Ha.
    apply (StronglySorted_app_1_elem_of _ _ _ a e) in Hs; [|done|set_solver].
    unfold key_lt in Hs. apply str_lt_not_le in Hs.
    destruct (total String.le (e_key e) (e_key a)); done.
Qed.

Lemma mem_entries_map (m : gmap string MemEntry) :
  entries_map (sst_entry_of <$> btree_iter m) = mem_layer m.
Proof.
  assert (Hs : StronglySorted key_lt (sst_entry_of <$> btree_iter m)) by (apply sorted_entries; done).
  apply map_eq. intros k. apply option_eq. intros v. rewrite entries_map_Some by done.
  unfold mem_layer. rewrite lookup_fmap, fmap_Some. split.
  - intros (e & ([k' x] & -> & Hin)%list_elem_of_fmap & <- & <-).
    apply elem_of_btree_iter in Hin. eauto.
  - intros (x & Hx%elem_of_btree_iter & ->). exists (sst_entry_of (k, x)).
    split_and!; [|done..]. apply list_elem_of_fmap. eauto.
Qed.

Lemma new_table_ok h id es now :
  sst_file h id = Some es → meta_file h id = Some (meta_for id es now) →
  StronglySorted key_lt es → Forall entry_ok es →
  table_ok h (mkHandle id (meta_for id es now)).
Proof. intros. exists es; split; try done. by apply first_last_range. Qed.

(** ** [flush] *)

(** What every operation leaves alone. *)
Record same_rest (s s' : StateMachine) : Prop := {
  sr_config : sm_config s' = sm_config s;
  sr_pending : pending_txs s' = pending_txs s;
  sr_next : next_sst_id s <= next_sst_id s';
  sr_clock : h_clock (host s') = h_clock (host s);
  sr_faults : no_faults (host s) → no_faults (host s');
}.

Lemma same_rest_trans s1 s2 s3 : same_rest s1 s2 → same_rest s2 s3 → same_rest s1 s3.
Proof. intros [] []. split; [congruence..|lia|congruence|tauto]. Qed.

Lemma wf_table_numbers s t : wf s → t ∈ sstables s → 0 <= h_path t < next_sst_id s.
Proof. intros [_ _ Hi _] Ht. rewrite Forall_forall in Hi. by apply Hi. Qed.

Lemma wp_wal_truncate (Q : result unit → Host → Prop) h :
  (∀ r h', h_files h' = h_files h → h_clock h' = h_clock h →
     (no_faults h → no_faults h') → (r = Ok tt → h_wal h' = EmptyString) →
     (no_faults h → r = Ok tt) → Q r h') →
  wp wal_truncate Q h.
Proof.
  intros HQ. unfold wal_truncate. wp_step. apply wp_io_call.
  2: { intros n fs Hn. by apply HQ. }
  intros fs Hfs. cbn. wp_step. apply wp_io_nop. intros r1 fs1 H1.
  assert (E1 : no_faults h → r1 = Ok tt ∧ fs1 = []) by (intros Hn; apply H1; by apply Hfs).
  destruct r1 as [[]|e]; [|apply HQ; try done; naive_solver].
  apply wp_io_nop. intros r2 fs2 H2.
  assert (E2 : no_faults h → r2 = Ok tt ∧ fs2 = []) by (intros Hn; apply H2; by apply E1).
  apply HQ; try done; unfold no_faults in *; simpl; naive_solver.
Qed.

(** A table number was taken and its files may be half written: nothing is lost. *)
Lemma failed_table s h' : wf s → frame (next_sst_id s) (host s) h' →
  let s' := with_host h' (with_next_sst_id (next_sst_id s + 1) s) in
  wf s' ∧ same_rest s s' ∧ layers s' = layers s.
Proof.
  intros Hwf F s'. destruct (wf_frame_tables s h' Hwf F) as [Ht HL]. split_and!.
  - destruct Hwf as [_ Ho Hi Hx]. split; simpl; [done..| |lia]. eapply Forall_impl; [exact Hi|]. simpl. lia.
  - split; simpl; [done..|lia|apply F|apply F].
  - unfold layers. simpl. by rewrite HL.
Qed.

(** A new table, with a fresh number, on top of tables whose files did not change. *)
Lemma wf_push_table s s' t : wf s → table_ok (host s') t → h_path t = next_sst_id s →
  sstables s' = sstables s ++ [t] → next_sst_id s' = next_sst_id s + 1 →
  (∀ u x, u ∈ sstables s → h_files (host s') !! (h_path u, x) = h_files (host s) !! (h_path u, x)) →
  wf s'.
Proof.
  intros [Htok Ho Hi Hx] Ht Hp Es En Hf. split; rewrite ?Es, ?En; [| | |lia].
  - apply Forall_app. split; [|by apply Forall_singleton].
    rewrite Forall_forall in Htok |- *. intros u Hin. eapply table_ok_files; [|by apply Htok]. auto.
  - apply StronglySorted_app_2; [|done|repeat constructor].
    intros t1 t2 Hin ->%list_elem_of_singleton. rewrite Forall_forall in Hi. rewrite Hp. by apply Hi.
  - apply Forall_app. split; [|constructor; [rewrite Hp; lia|done]].
    eapply Forall_impl; [exact Hi|]. simpl. lia.
Qed.

Lemma flush_wp s : wf s → room 1 s →
  wp flush (λ r s', wf s' ∧ same_rest s s' ∧ layers s' = layers s ∧
    next_sst_id s' <= next_sst_id s + 1 ∧
    (no_faults (host s) → r = Ok tt) ∧
    (r = Ok tt → memtable s' = ∅ ∧ (memtable s ≠ ∅ → memtable_bytes s' = 0))) s.
Proof.
  intros Hwf Hroom. unfold flush. wp_step. wp_step. case_bool_decide as Hm.
  { wp_step. split_and!; try done; lia. }
  set (es := sst_entry_of <$> btree_iter (memtable s)).
  assert (Hs : StronglySorted key_lt es) by (by apply sorted_entries).
  assert (He : Forall entry_ok es) by (apply Forall_fmap, Forall_true; done).
  unfold room in Hroom. pose proof (wf_next _ Hwf) as Hnext.
  do 6 wp_step. rewrite u64_add_small by lia.
  set (id := next_sst_id s). set (meta := meta_for id es _).
  wp_step. unfold on_host. wp_step. wp_use (write_table_wp id es meta). cbn [host with_next_sst_id].
  intros r h1 (F & Hr & Hok). destruct r as [[]|e].
  2: { destruct (failed_table s h1 Hwf F) as (? & ? & ?). split_and!; try done; simpl; lia. }
  destruct (Hok eq_refl) as [Hf Hmf].
  do 4 wp_step. wp_step. apply wp_wal_truncate. cbn [host with_memtable with_sstables with_host].
  intros r h2 Hfiles Hclk Hnf Hw Hr2.
  assert (Hpath : ∀ t x, t ∈ sstables s → h_files h2 !! (h_path t, x) = h_files (host s) !! (h_path t, x)).
  { intros t x Hin. rewrite Hfiles. apply (frame_files _ _ _ F). simpl.
    pose proof (wf_table_numbers _ _ Hwf Hin) as Hnum. subst id. lia. }
  split_and!; simpl.
  - eapply (wf_push_table s _ (mkHandle id meta)); simpl; try done.
    apply new_table_ok; [..|done|done]; unfold sst_file, meta_file in *; rewrite Hfiles; done.
  - split; simpl; try done; [lia|rewrite Hclk; apply F|]. intros Hn. apply Hnf.
    by apply (frame_faults _ _ _ F).
  - unfold layers. simpl. rewrite reverse_snoc. simpl. unfold mem_layer at 1.
    rewrite fmap_empty, (left_id_L ∅ (∪)). f_equal.
    + unfold table_layer, sst_file in *. simpl. rewrite Hfiles, Hf. apply mem_entries_map.
    + apply layers_rev_ext, Forall_reverse, Forall_forall. intros t Hin. by apply Hpath.
  - lia.
  - intros Hn. apply Hr2. by apply (frame_faults _ _ _ F).
  - done.
Qed.

(** ** [set] and [delete] *)

Lemma wf_ext s s' : sstables s' = sstables s → next_sst_id s' = next_sst_id s →
  h_files (host s') = h_files (host s) → wf s → wf s'.
Proof.
  intros Et En Ef [Ht Ho Hi Hn]. split; rewrite ?Et, ?En; try done.
  eapply Forall_impl; [exact Ht|]. intros t. apply table_ok_files. intros x _. by rewrite Ef.
Qed.

Lemma layers_ext s s' : memtable s' = memtable s → sstables s' = sstables s →
  h_files (host s') = h_files (host s) → layers s' = layers s.
Proof.
  intros Em Et Ef. unfold layers. rewrite Em, Et. f_equal.
  apply layers_rev_ext, Forall_true. intros t. by rewrite Ef.
Qed.

Lemma put_entry_layers k v s : layers (put_entry k v s) = <[k := v]> (layers s).
Proof. unfold layers, mem_layer. simpl. by rewrite fmap_insert, insert_union_l. Qed.

Lemma append_wal_wp op s (Q : result unit → StateMachine → Prop) :
  (∀ r h', h_files h' = h_files (host s) → h_clock h' = h_clock (host s) →
     (no_faults (host s) → r = Ok tt ∧ no_faults h') →
     (r = Ok tt → ∃ line, to_string op = Some line ∧ from_str line = Some op ∧
        plain_line line ∧ h_wal h' = h_wal (host s) +:+ writeln line) →
     Q r (with_host h' s)) →
  wp (append_wal op) Q s.
Proof.
  intros HQ. unfold append_wal. destruct (json_compact op) as (line & Hl & Hf & Hp). rewrite Hl.
  do 3 wp_step. unfold on_host. wp_step. apply wp_io_call.
  2: { intros n fs Hn. by apply HQ. }
  intros fs Hfs. cbn [fst snd]. wp_step. apply wp_io_nop. intros r fs' Hr.
  apply (HQ r (with_faults fs' (with_wal (h_wal (host s) +:+ writeln line) (host s))));
    [done|done|..].
  - intros Hn. apply Hr. by apply Hfs.
  - intros _. eauto.
Qed.

Lemma flush_if_full_wp s : wf s → room 1 s →
  wp flush_if_full (λ r s', wf s' ∧ same_rest s s' ∧ layers s' = layers s ∧
    next_sst_id s' <= next_sst_id s + 1 ∧ (no_faults (host s) → r = Ok tt)) s.
Proof.
  intros Hwf Hroom. unfold flush_if_full. do 2 wp_step. case_match.
  - wp_use flush_wp; [done..|]. intros r s' (? & ? & ? & ? & ? & _). done.
  - wp_step. split_and!; try done; lia.
Qed.

(** The body [set] and [delete] share. *)
Definition write_entry (op : WalOp) (k : string) (v : option string) : M StateMachine unit :=
  append_wal op ;; modify (put_entry k v) ;; flush_if_full.

Lemma write_entry_wp op k v s : wf s → room 1 s →
  wp (write_entry op k v) (λ r s', wf s' ∧ same_rest s s' ∧
    next_sst_id s' <= next_sst_id s + 1 ∧
    (layers s' = <[k := v]> (layers s) ∨ r ≠ Ok tt ∧ layers s' = layers s) ∧
    (no_faults (host s) → r = Ok tt)) s.
Proof.
  intros Hwf Hroom. unfold write_entry. wp_step. apply append_wal_wp.
  intros r h' Hf Hc Hn Hok.
  assert (Hwf' : wf (with_host h' s)) by (by eapply wf_ext; [..|done]).
  assert (HL : layers (with_host h' s) = layers s) by (by apply layers_ext).
  destruct r as [[]|e].
  2: { split_and!; [done| |simpl; lia|by right|naive_solver]. split; simpl; [done..|lia|done|naive_solver]. }
  do 2 wp_step.
  wp_use flush_if_full_wp; [by eapply wf_ext; [..|done]|done|].
  intros r s' (Hw & Hs & HL' & Hnext & Hr). split_and!; [done| |done| |].
  - destruct Hs as [? ? ? ? Hnf]. split; simpl in *; try done; [congruence|]. intros. apply Hnf. by apply Hn.
  - left. rewrite HL', put_entry_layers. by rewrite HL.
  - intros Hnf. apply Hr. by apply Hn.
Qed.

Lemma visible_insert k v l : visible (<[k := Some v]> l) = <[k := v]> (visible l).
Proof. unfold visible. by apply (omap_insert_Some id). Qed.

Lemma visible_delete k l : visible (<[k := None]> l) = base.delete k (visible l).
Proof. unfold visible. by apply (omap_insert_None id). Qed.

Lemma set_wp k v s : wf s → room 1 s →
  wp (set k v) (λ r s', wf s' ∧ same_rest s s' ∧ next_sst_id s' <= next_sst_id s + 1 ∧
    (contents s' = <[k := v]> (contents s) ∨ r ≠ Ok tt ∧ contents s' = contents s) ∧
    (no_faults (host s) → r = Ok tt)) s.
Proof.
  intros Hwf Hroom. wp_use (write_entry_wp (WPut k v) k (Some v)); [done..|].
  intros r s' (? & ? & ? & HL & ?). split_and!; try done. unfold contents.
  destruct HL as [-> | [? ->]]; [left; apply visible_insert|by right].
Qed.

Lemma delete_wp k s : wf s → room 1 s →
  wp (delete k) (λ r s', wf s' ∧ same_rest s s' ∧ next_sst_id s' <= next_sst_id s + 1 ∧
    (contents s' = base.delete k (contents s) ∨ r ≠ Ok tt ∧ contents s' = contents s) ∧
    (no_faults (host s) → r = Ok tt)) s.
Proof.
  intros Hwf Hroom. wp_use (write_entry_wp (WDelete k) k None); [done..|].
  intros r s' (? & ? & ? & HL & ?). split_and!; try done. unfold contents.
  destruct HL as [-> | [? ->]]; [left; apply visible_delete|by right].
Qed.

(** ** Reading tables *)

Lemma load_sst_entries_wp id es h (Q : result (list SSTEntry) → Host → Prop) :
  sst_file h id = Some es →
  (∀ fs, (no_faults h → fs = []) → Q (Ok es) (with_faults fs h)) →
  (∀ e fs, ¬ no_faults h → Q (Err e) (with_faults fs h)) →
  wp (load_sst_entries id) Q h.
Proof.
  intros Hf HQ HE. unfold load_sst_entries. wp_step. apply wp_io_read.
  - intros fs Hfs. unfold sst_file in Hf. destruct (h_files h !! (id, ExtSst)); [|done].
    simpl in Hf. rewrite Hf. wp_step. by apply HQ.
  - intros fs Hn. by apply HE.
Qed.

Lemma scan_entries_Some key es v : StronglySorted key_lt es → Forall entry_ok es →
  entries_map es !! key = Some v → scan_entries key es = Some v.
Proof.
  intros Hs He (e & Hin & Hk & Hv)%entries_map_Some; [|done].
  induction Hs as [|a l Hs IH Ha]; [set_solver|]. apply Forall_cons in He as [Hok He]. simpl.
  apply elem_of_cons in Hin as [-> | Hin].
  - subst. rewrite str_compare_refl.
    unfold entry_ok in Hok. rewrite Hok. by case_bool_decide as E; rewrite ?E.
  - rewrite Forall_forall in Ha. specialize (Ha _ Hin). unfold key_lt, str_lt in Ha.
    rewrite Hk in Ha. apply negb_true_iff in Ha. unfold String.leb in Ha.
    rewrite String.compare_antisym in Ha. destruct (String.compare (e_key a) key); by eauto.
Qed.

Lemma scan_entries_None key es : entries_map es !! key = None →
  scan_entries key es = None ∨ scan_entries key es = Some None.
Proof.
  rewrite entries_map_None. induction es as [|a l IH]; simpl; [auto|]. intros Hk.
  destruct (String.compare (e_key a) key) eqn:E; [|apply IH; set_solver|auto].
  apply String.compare_eq_iff in E. set_solver.
Qed.

(** The range test of [get]. *)
Definition in_range (key : string) (t : SSTableHandle) : bool :=
  negb (str_lt key (m_first_key (h_meta t)) || str_lt (m_last_key (h_meta t)) key).

Lemma in_range_true key t : in_range key t = true ↔
  String.le (m_first_key (h_meta t)) key ∧ String.le key (m_last_key (h_meta t)).
Proof.
  unfold in_range. rewrite negb_true_iff, orb_false_iff, !str_lt_false. done.
Qed.

Lemma out_of_range h t key : table_ok h t → in_range key t = false →
  table_layer h t !! key = None.
Proof.
  intros [es [Hf _ Hs _ Hr _]] Hk. unfold table_layer. rewrite Hf. simpl.
  apply entries_map_None. intros (e & -> & Hin)%list_elem_of_fmap.
  rewrite Forall_forall in Hr. apply Hr in Hin. apply in_range_true in Hin. congruence.
Qed.

(** [key] is not hidden: a table whose range covers it holds it, or no older table does. *)
Fixpoint reads_through (h : Host) (key : string) (rts : list SSTableHandle) : Prop :=
  match rts with
  | [] => True
  | t :: rts' =>
      (in_range key t = true → is_Some (table_layer h t !! key) ∨ layers_rev h rts' !! key = None) ∧
      (table_layer h t !! key = None → reads_through h key rts')
  end.

Lemma with_no_faults h : no_faults h → with_faults [] h = h.
Proof. destruct h; unfold no_faults; simpl. by intros ->. Qed.

Lemma load_sst_entries_ok id es h : sst_file h id = Some es → no_faults h →
  load_sst_entries id h = (Ok es, h).
Proof.
  intros Hf Hn. unfold load_sst_entries, fs_read_to_string, io_read, mbind, M_bind.
  rewrite (no_faults_outcome h Hn), (with_no_faults h Hn). unfold sst_file in Hf.
  destruct (h_files h !! (id, ExtSst)); [|done]. simpl in Hf. by rewrite Hf.
Qed.

Lemma get_tables_step key t rts h es : table_spec h t es → no_faults h → in_range key t = true →
  get_tables key (t :: rts) h =
    match scan_entries key es with
    | Some r => (Ok r, h)
    | None => get_tables key rts h
    end.
Proof.
  intros [Hf _ _ _ _ _] Hn Hr. simpl. unfold in_range in Hr. apply negb_true_iff in Hr.
  rewrite Hr. by rewrite (load_sst_entries_ok _ _ _ Hf Hn).
Qed.

Lemma get_tables_spec key rts h : Forall (table_ok h) rts → no_faults h →
  ∃ r, get_tables key rts h = (Ok r, h) ∧
    (r = None ∨ r = layers_rev h rts !! key ≫= id) ∧
    (reads_through h key rts → r = layers_rev h rts !! key ≫= id).
Proof.
  intros Ht Hn. induction Ht as [|t rts [es Hes] Ht IH]; [by exists None; auto|].
  destruct IH as (r & Hr & Hor & Hrt).
  assert (HL : table_layer h t = entries_map es).
  { unfold table_layer. by rewrite (tok_file _ _ _ Hes). }
  simpl layers_rev. simpl reads_through. destruct (in_range key t) eqn:Er.
  - rewrite (get_tables_step _ _ _ _ _ Hes Hn Er). rewrite lookup_union, HL.
    destruct (entries_map es !! key) as [v|] eqn:Ev.
    + rewrite (scan_entries_Some key es v) by (apply Hes || done).
      exists v. rewrite union_Some_l. auto.
    + rewrite (left_id_L None (∪)).
      destruct (scan_entries_None _ _ Ev) as [-> | ->]; [naive_solver|].
      exists None. split_and!; [auto..|]. intros [Himp _].
      destruct (Himp eq_refl) as [[? ?]|HN]; [done|]. by rewrite HN.
  - assert (Hnone : table_layer h t !! key = None) by (apply out_of_range; [by eexists|done]).
    exists r. rewrite lookup_union, Hnone, (left_id_L None (∪)). simpl.
    unfold in_range in Er. apply negb_false_iff in Er. rewrite Er. naive_solver.
Qed.

(** ** [snapshot_data] *)

Lemma entries_map_snoc es e : StronglySorted key_lt (es ++ [e]) →
  entries_map (es ++ [e]) = <[e_key e := e_value e]> (entries_map es).
Proof.
  intros Hs. apply map_eq. intros k. unfold entries_map. rewrite fmap_app, list_to_map_app. simpl.
  rewrite lookup_union, lookup_insert. case_decide as Ek.
  - subst. rewrite lookup_insert. case_decide; [|done].
    assert (entries_map es !! e_key e = None) as E; [|unfold entries_map in E; by rewrite E].
    apply entries_map_None. intros (a & Ha & Hin)%list_elem_of_fmap.
    apply (StronglySorted_app_1_elem_of _ _ _ a e) in Hs; [|done|set_solver].
    unfold key_lt in Hs. apply str_lt_not_le in Hs. by rewrite Ha in Hs.
  - rewrite lookup_insert_ne, lookup_empty by done. by rewrite (right_id_L None (∪)).
Qed.

Lemma overlay_entries_visible es l : StronglySorted key_lt es → Forall entry_ok es →
  foldl overlay_entry (visible l) es = visible (entries_map es ∪ l).
Proof.
  revert l. induction es as [|e es IH] using rev_ind; intros l Hs He.
  { simpl. change (entries_map []) with (∅ : gmap string (option string)).
    by rewrite (left_id_L ∅ (∪)). }
  apply Forall_app in He as [He [Hok _]%Forall_cons].
  rewrite foldl_snoc, IH; [|by eapply StronglySorted_app_1_l|done].
  rewrite entries_map_snoc by done.
  rewrite <- insert_union_l. unfold overlay_entry. unfold entry_ok in Hok. rewrite Hok.
  destruct (e_value e) as [v|]; simpl; [by rewrite visible_insert|by rewrite visible_delete].
Qed.

Lemma overlay_mem_visible (m : gmap string MemEntry) l :
  foldl overlay_mem (visible l) (btree_iter m) = visible (mem_layer m ∪ l).
Proof.
  rewrite <- mem_entries_map. rewrite <- overlay_entries_visible.
  - generalize (visible l) as acc. induction (btree_iter m) as [|[k x] ps IH]; intros acc; [done|].
    simpl. rewrite IH. f_equal. unfold overlay_mem, overlay_entry. simpl.
    by destruct (me_value x).
  - by apply sorted_entries.
  - apply Forall_fmap, Forall_true. done.
Qed.

Lemma layers_rev_app h r1 r2 : layers_rev h (r1 ++ r2) = layers_rev h r1 ∪ layers_rev h r2.
Proof.
  induction r1 as [|t r1 IH]; simpl; [by rewrite (left_id_L ∅ (∪))|].
  by rewrite IH, (assoc_L (∪)).
Qed.

Lemma snapshot_tables_wp ts h l : Forall (table_ok h) ts →
  wp (snapshot_tables ts (visible l)) (λ r h', (∃ fs, h' = with_faults fs h ∧ (no_faults h → fs = [])) ∧
    (no_faults h → is_ok r = true) ∧
    (∀ m, r = Ok m → m = visible (layers_rev h (reverse ts) ∪ l))) h.
Proof.
  intros Ht. revert l. assert (Hgen : ∀ fs l, (no_faults h → fs = []) →
    wp (snapshot_tables ts (visible l)) (λ r h', (∃ fs, h' = with_faults fs h ∧ (no_faults h → fs = [])) ∧
    (no_faults h → is_ok r = true) ∧
    (∀ m, r = Ok m → m = visible (layers_rev h (reverse ts) ∪ l))) (with_faults fs h)).
  { induction Ht as [|t ts [es Hes] Ht IH]; intros fs l Hfs; cbn [snapshot_tables].
    - wp_step. split_and!; [by eauto|done|]. intros m [= <-].
      by rewrite (left_id_L ∅ (∪) l : layers_rev h (reverse []) ∪ l = l).
    - wp_step. eapply load_sst_entries_wp; [exact (tok_file _ _ _ Hes)|..].
      + intros fs' Hfs'. rewrite overlay_entries_visible by apply Hes.
        wp_use (IH fs'). { intros Hn. apply Hfs'. by apply Hfs. }
        intros r h' (? & ? & Hm). split_and!; [done..|]. intros m ->. rewrite (Hm m eq_refl).
        rewrite reverse_cons, layers_rev_app, <- (assoc_L (∪)). simpl.
        unfold table_layer. by rewrite (tok_file _ _ _ Hes), (right_id_L ∅ (∪)).
      + intros e fs' Hn. assert (¬ no_faults h) by (intros Hh; apply Hn; by apply Hfs).
        split_and!; [exists fs'; split; [done|tauto]|tauto|done]. }
  intros l. destruct h as [w f fl c]. apply (Hgen fl). auto.
Qed.

Lemma snapshot_data_wp s : wf s →
  wp snapshot_data (λ r s', (∃ fs, s' = with_host (with_faults fs (host s)) s) ∧
    (no_faults (host s) → is_ok r = true ∧ s' = s) ∧
    (∀ m, r = Ok m → m = contents s)) s.
Proof.
  intros Hwf. unfold snapshot_data. do 3 wp_step. unfold on_host. wp_step.
  change (∅ : gmap string string) with (visible ∅).
  wp_use snapshot_tables_wp; [apply Hwf|]. intros r h' ((fs & -> & Hfs) & Hr & Hm).
  assert (Hs : no_faults (host s) → with_host (with_faults fs (host s)) s = s).
  { intros Hn. rewrite (Hfs Hn), with_no_faults by done. by destruct s. }
  destruct r as [m|e]; [do 3 wp_step|]; (split_and!; [by eexists|by intros Hn; split; auto|]); [|done].
  intros m' [= <-]. rewrite (Hm m eq_refl), overlay_mem_visible, (right_id_L ∅ (∪)). done.
Qed.

(** ** [compact] *)

Definition merged_ok (m : gmap string SSTEntry) : Prop :=
  map_Forall (λ k e, e_key e = k ∧ entry_ok e) m.

Lemma merge_entries es m : StronglySorted key_lt es → Forall entry_ok es → merged_ok m →
  merged_ok (foldl (λ m e, <[e_key e := e]> m) m es) ∧
  e_value <$> foldl (λ m e, <[e_key e := e]> m) m es = entries_map es ∪ (e_value <$> m).
Proof.
  intros Hs He Hm. induction es as [|e es IH] using rev_ind.
  { simpl. split; [done|]. change (entries_map []) with (∅ : gmap string (option string)).
    by rewrite (left_id_L ∅ (∪)). }
  apply Forall_app in He as [He [Hok _]%Forall_cons].
  destruct IH as [IH1 IH2]; [by eapply StronglySorted_app_1_l|done|].
  rewrite foldl_snoc, entries_map_snoc by done. split.
  - by apply map_Forall_insert_2.
  - by rewrite fmap_insert, IH2, insert_union_l.
Qed.

Lemma merge_tables_wp ts h fs m : Forall (table_ok h) ts → merged_ok m → (no_faults h → fs = []) →
  wp (merge_tables ts m) (λ r h', (∃ fs, h' = with_faults fs h ∧ (no_faults h → fs = [])) ∧
    (no_faults h → is_ok r = true) ∧
    (∀ m', r = Ok m' → merged_ok m' ∧
       e_value <$> m' = layers_rev h (reverse ts) ∪ (e_value <$> m))) (with_faults fs h).
Proof.
  intros Ht. revert fs m. induction Ht as [|t ts [es Hes] Ht IH]; intros fs m Hm Hfs;
    cbn [merge_tables].
  - wp_step. split_and!; [by eauto|done|]. intros m' [= <-]. split; [done|].
    by rewrite (left_id_L ∅ (∪) (e_value <$> m) : layers_rev h (reverse []) ∪ _ = _).
  - wp_step. eapply load_sst_entries_wp; [exact (tok_file _ _ _ Hes)|..].
    + intros fs' Hfs'.
      destruct (merge_entries es m (tok_sorted _ _ _ Hes) (tok_entry _ _ _ Hes) Hm) as [Hm1 Hm2].
      wp_use (IH fs' _ Hm1). { intros Hn. apply Hfs'. by apply Hfs. }
      intros r h' (? & ? & Hr). split_and!; [done..|]. intros m' ->.
      destruct (Hr m' eq_refl) as [? ->]. split; [done|]. rewrite Hm2.
      rewrite reverse_cons, layers_rev_app, <- (assoc_L (∪)). simpl.
      unfold table_layer. by rewrite (tok_file _ _ _ Hes), (right_id_L ∅ (∪)).
    + intros e fs' Hn. assert (¬ no_faults h) by (intros Hh; apply Hn; by apply Hfs).
      split_and!; [exists fs'; split; [done|tauto]|tauto|done].
Qed.

Lemma kept_entries (m : gmap string SSTEntry) : merged_ok m →
  let es := (btree_iter (filter (λ p, e_tombstone p.2 = false) m)).*2 in
  StronglySorted key_lt es ∧ Forall entry_ok es ∧
  (∀ l, visible (l ∪ entries_map es) = visible (l ∪ (e_value <$> m))).
Proof.
  intros Hm es. set (kept := filter (λ p, e_tombstone p.2 = false) m).
  assert (Hk : ∀ p, p ∈ btree_iter kept → e_key p.2 = p.1 ∧ entry_ok p.2 ∧ m !! p.1 = Some p.2
    ∧ e_tombstone p.2 = false).
  { intros [k e] Hin%elem_of_btree_iter. apply map_lookup_filter_Some in Hin as [Hin ?].
    destruct (Hm _ _ Hin). auto. }
  assert (Hs : StronglySorted key_lt es) by (apply sorted_entries; intros p Hp; by apply Hk).
  split_and!; [done| |].
  - apply Forall_fmap, Forall_forall. intros p Hp. by apply Hk.
  - intros l. apply map_eq. intros k. unfold visible. rewrite !lookup_omap, !lookup_union.
    destruct (l !! k) as [x|] eqn:El; [by rewrite !union_Some_l|].
    rewrite !(left_id_L None (∪)), lookup_fmap.
    destruct (entries_map es !! k) as [v|] eqn:Ev.
    + apply entries_map_Some in Ev as (e & ([k' e'] & -> & Hin)%list_elem_of_fmap & <- & <-); [|done].
      apply Hk in Hin as (Ek & _ & Em & _). simpl in *. subst k'. by rewrite Em.
    + destruct (m !! k) as [e|] eqn:Em; [|done]. simpl. destruct (e_value e) as [v|] eqn:Ee; [|done].
      exfalso. destruct (Hm _ _ Em) as [Ek Hok]. apply entries_map_None in Ev. apply Ev.
      apply list_elem_of_fmap. exists e. split; [done|]. apply list_elem_of_fmap. exists (k, e).
      split; [done|]. apply elem_of_btree_iter, map_lookup_filter_Some. split; [done|]. simpl.
      unfold entry_ok in Hok. rewrite Hok, Ee. done.
Qed.

(** No tombstone is kept. *)
Lemma kept_live (m : gmap string SSTEntry) : merged_ok m →
  map_Forall (λ _ v, is_Some v) (entries_map (btree_iter (filter (λ p, e_tombstone p.2 = false) m)).*2).
Proof.
  intros Hm k v Hv. apply entries_map_Some in Hv as (e & ([k' e'] & -> & Hin)%list_elem_of_fmap & _ & <-);
    [|by apply kept_entries]. apply elem_of_btree_iter, map_lookup_filter_Some in Hin as [Hin Ht].
  destruct (Hm _ _ Hin) as [_ Hok]. unfold entry_ok in Hok. simpl in *. rewrite Ht in Hok.
  by destruct (e_value e').
Qed.

Lemma remove_tables_wp ts h :
  wp (remove_tables ts) (λ r h', r = Ok tt ∧ h_wal h' = h_wal h ∧ h_clock h' = h_clock h ∧
    (no_faults h → no_faults h' ∧ ∀ t x, t ∈ ts → x ≠ ExtTmp → h_files h' !! (h_path t, x) = None) ∧
    (∀ p, h_files h' !! p = h_files h !! p ∨ h_files h' !! p = None) ∧
    (∀ p, p.1 ∉ h_path <$> ts → h_files h' !! p = h_files h !! p)) h.
Proof.
  revert h. induction ts as [|t ts IH]; intros h; cbn [remove_tables].
  { wp_step. split_and!; auto. intros Hn. split; [done|]. set_solver. }
  assert (Hrm : ∀ p h (Q : result unit → Host → Prop),
    (∀ h', h_wal h' = h_wal h → h_clock h' = h_clock h →
       (no_faults h → no_faults h' ∧ h_files h' !! p = None) →
       (∀ q, h_files h' !! q = h_files h !! q ∨ h_files h' !! q = None) →
       (∀ q, q ≠ p → h_files h' !! q = h_files h !! q) → Q (Ok tt) h') →
    wp (ignore (fs_remove_file p)) Q h).
  { intros p h0 Q HQ. wp_step. apply wp_io_call.
    - intros fs Hfs. simpl. destruct (h_files h0 !! p) eqn:Ep; simpl; apply HQ; simpl; auto.
      + intros Hn. split; [by apply Hfs|]. apply lookup_delete_eq.
      + intros q. rewrite lookup_delete. case_decide; auto.
      + intros q Hq. by rewrite lookup_delete_ne.
      + intros Hn. split; [by apply Hfs|done].
    - intros n fs Hn. apply HQ; simpl; auto. tauto. }
  wp_step. apply Hrm. intros h1 W1 C1 N1 A1 F1. wp_step. apply Hrm. intros h2 W2 C2 N2 A2 F2.
  wp_use IH. intros r h3 (-> & W3 & C3 & N3 & A3 & F3). split_and!; [done|congruence..| | |].
  - intros Hn. destruct (N1 Hn) as [Hn1 E1]. destruct (N2 Hn1) as [Hn2 E2]. destruct (N3 Hn2) as [Hn3 E3].
    split; [done|]. intros u x [-> |Hu]%elem_of_cons Hx; [|by apply E3].
    destruct (A3 (h_path t, x)) as [-> | ->]; [|done].
    destruct x; [|done|done].
    destruct (A2 (h_path t, ExtSst)) as [-> | ->]; done.
  - intros p. destruct (A3 p) as [-> | ->]; [|auto]. destruct (A2 p) as [-> | ->]; auto.
  - intros p Hp. rewrite fmap_cons, not_elem_of_cons in Hp. destruct Hp as [Hp1 Hp2].
    rewrite F3, F2, F1; [done|..|done]; intros ->; done.
Qed.

Lemma compact_wp s : wf s → room 1 s →
  wp compact (λ r s', wf s' ∧ same_rest s s' ∧ contents s' = contents s ∧
    memtable s' = memtable s ∧ next_sst_id s' <= next_sst_id s + 1 ∧
    (no_faults (host s) → r = Ok tt ∧ (length (sstables s') <= 1)%nat) ∧
    (r = Ok tt → (2 <= length (sstables s))%nat →
       ∃ t, sstables s' = [t] ∧ map_Forall (λ _ v, is_Some v) (table_layer (host s') t))) s.
Proof.
  intros Hwf Hroom. unfold compact. do 2 wp_step. destruct (Nat.ltb_spec (length (sstables s)) 2).
  { wp_step. split_and!; try done; [lia| |lia]. intros _. split; [done|lia]. }
  wp_step. unfold on_host. wp_step.
  assert (Hh : with_faults (h_faults (host s)) (host s) = host s) by (by destruct (host s)).
  pose proof (merge_tables_wp (sstables s) (host s) (h_faults (host s)) ∅
    (wf_tables _ Hwf) (map_Forall_empty _) (λ x, x)) as HM. rewrite Hh in HM. wp_use HM.
  intros r h1 ((fs & -> & Hfs) & Hr & Hm). rewrite fmap_empty in Hm.
  destruct r as [m|e].
  2: { split_and!; [by eapply wf_ext; [..|done]| |by apply (f_equal visible), layers_ext|done|simpl; lia| |done].
    - split; simpl; [done..|lia|done|auto].
    - intros Hn. by apply Hr in Hn. }
  destruct (Hm m eq_refl) as [Hmok Hmv]. pose proof (kept_live m Hmok) as Hlive. destruct (kept_entries m Hmok) as (Hs & He & Hvis).
  set (es := (btree_iter _).*2) in *.
  unfold room in Hroom. pose proof (wf_next _ Hwf) as Hnext.
  do 7 wp_step. cbn [next_sst_id with_host]. rewrite u64_add_small by lia.
  set (id := next_sst_id s). set (meta := meta_for id es _). wp_step. cbn [host with_host with_next_sst_id].
  wp_use (write_table_wp id es meta). intros r h2 (F & Hr2 & Hok).
  assert (F0 : frame id (host s) h2).
  { eapply frame_trans; [|exact F]. by apply frame_refl. }
  destruct r as [[]|e].
  2: { destruct (failed_table s h2 Hwf F0) as (? & ? & HL). split_and!; try done; try (simpl; lia).
    - by apply (f_equal visible).
    - intros Hn. exfalso. by specialize (Hr2 (Hfs Hn)). }
  destruct (Hok eq_refl) as [Hf Hmf]. do 2 wp_step. wp_step. cbn [host with_host with_next_sst_id with_sstables].
  wp_use remove_tables_wp. intros r h3 (-> & W3 & C3 & N3 & A3 & F3).
  assert (Hid : id ∉ h_path <$> sstables s).
  { intros (t & Ht' & Hin)%list_elem_of_fmap. pose proof (wf_table_numbers _ _ Hwf Hin). subst id. lia. }
  assert (Hl : table_layer h3 (mkHandle id meta) = entries_map es).
  { unfold table_layer, sst_file in *. simpl. by rewrite F3, Hf. }
  split_and!; simpl.
  - split; simpl; [|repeat constructor|constructor; [simpl; subst id; lia|done]|lia].
    apply Forall_singleton. apply new_table_ok; [..|done|done];
      unfold sst_file, meta_file in *; rewrite F3; done.
  - split; simpl; [done..|lia| |].
    + rewrite C3. apply F0.
    + intros Hn. apply N3. by apply F0.
  - unfold contents, layers. simpl. rewrite Hl. simpl. rewrite (right_id_L ∅ (∪)), Hvis, Hmv, (right_id_L ∅ (∪)). done.
  - done.
  - lia.
  - intros _. split; [done|lia].
  - intros _ _. eexists. split; [done|]. rewrite Hl. exact Hlive.
Qed.

(** ** Snapshots *)

Lemma clear_for_snapshot_wp s : wf s →
  wp clear_for_snapshot (λ r s', wf s' ∧ sm_config s' = sm_config s ∧
    (no_faults (host s) → r = Ok tt ∧ no_faults (host s')) ∧
    (r = Ok tt → memtable s' = ∅ ∧ memtable_bytes s' = 0 ∧ sstables s' = [] ∧
       next_sst_id s' = 0 ∧ pending_txs s' = ∅ ∧ h_wal (host s') = EmptyString ∧
       h_clock (host s') = h_clock (host s))) s.
Proof.
  intros Hwf. unfold clear_for_snapshot. do 2 wp_step. wp_step. unfold on_host. wp_step.
  cbn [host with_memtable]. apply wp_wal_truncate. intros r h1 Hf Hc Hn Hw Hr.
  destruct r as [[]|e].
  2: { split_and!; [by eapply wf_ext; [..|done]|done| |done]. intros H0. by apply Hr in H0. }
  do 3 wp_step. wp_step. cbn [host with_host sstables with_memtable].
  wp_use remove_tables_wp. intros r h2 (-> & W2 & C2 & N2 & _ & _).
  do 5 wp_step. simpl. split_and!; [| done | |].
  - split; simpl; [constructor..|done].
  - intros H0. split; [done|]. apply N2. auto.
  - intros _. split_and!; try done; [|congruence]. rewrite W2. auto.
Qed.

Lemma load_pairs_rest ps s : let s' := foldl load_pair s ps in
  sm_config s' = sm_config s ∧ sstables s' = sstables s ∧ next_sst_id s' = next_sst_id s ∧
  pending_txs s' = pending_txs s ∧ host s' = host s.
Proof.
  induction ps as [|p ps IH] using rev_ind; [done|]. cbv zeta in *. rewrite foldl_snoc.
  unfold load_pair at 1 3 5 7 9. simpl. tauto.
Qed.

Lemma load_pairs_memtable ps s : NoDup ps.*1 → memtable s = ∅ →
  memtable (foldl load_pair s ps) = (λ v, mkMemEntry (Some v)) <$> (list_to_map ps : gmap string string).
Proof.
  intros Hnd Hm. induction ps as [|[k v] ps IH] using rev_ind.
  { simpl. by rewrite Hm, fmap_empty. }
  rewrite fmap_app, NoDup_app in Hnd. destruct Hnd as (Hnd & Hk & _).
  rewrite foldl_snoc, list_to_map_snoc, fmap_insert.
  - unfold load_pair at 1. simpl. by rewrite IH.
  - intros Hin. apply (Hk _ Hin). simpl. set_solver.
Qed.

Lemma visible_of_data (data : gmap string string) (m : gmap string MemEntry) :
  m = (λ v, mkMemEntry (Some v)) <$> data → visible (mem_layer m) = data.
Proof.
  intros ->. apply map_eq. intros k. unfold visible, mem_layer.
  rewrite lookup_omap, !lookup_fmap. by destruct (data !! k).
Qed.

Lemma install_snapshot_wp data s : wf s →
  wp (install_snapshot data) (λ r s', wf s' ∧ sm_config s' = sm_config s ∧
    (no_faults (host s) → r = Ok tt ∧ no_faults (host s')) ∧
    (r = Ok tt → contents s' = data ∧ sstables s' = [] ∧ pending_txs s' = ∅ ∧
       next_sst_id s' = 0 ∧ h_wal (host s') = EmptyString)) s.
Proof.
  intros Hwf. unfold install_snapshot. wp_step. wp_use clear_for_snapshot_wp; [done|].
  intros r s1 (Hwf1 & Hc & Hn & Hok). destruct r as [[]|e]; [|by split_and!; [..|intros H0; apply Hn in H0|]].
  destruct (Hok eq_refl) as (Hm & Hb & Ht & Hx & Hp & Hw & _). do 3 wp_step.
  set (s2 := with_memtable (memtable s1) 0 s1).
  destruct (load_pairs_rest (map_to_list data) s2) as (E1 & E2 & E3 & E4 & E5).
  assert (Em : memtable (foldl load_pair s2 (map_to_list data)) = (λ v, mkMemEntry (Some v)) <$> data).
  { rewrite load_pairs_memtable; [|apply NoDup_fst_map_to_list|done]. by rewrite list_to_map_to_list. }
  split_and!.
  - eapply (wf_ext s1); [by rewrite E2|by rewrite E3|by rewrite E5|done].
  - by rewrite E1.
  - intros H0. split; [done|]. rewrite E5. by apply Hn.
  - intros _. split_and!; [|by rewrite E2|by rewrite E4|by rewrite E3|by rewrite E5].
    unfold contents, layers. rewrite E2. subst s2. simpl. rewrite Ht. simpl.
    rewrite (right_id_L ∅ (∪)). by apply visible_of_data.
Qed.

(** ** Two-phase commit *)

(** What one operation of a transaction does to the key-value map. *)
Definition op_effect (m : gmap string string) (op : TxOp) : gmap string string :=
  match op with
  | TxPut k v => <[k := v]> m
  | TxDelete k => base.delete k m
  end.

Lemma apply_ops_wp ops s : wf s → room (Z.of_nat (length ops)) s →
  wp (apply_ops ops) (λ r s', r = Ok tt ∧ wf s' ∧ same_rest s s' ∧
    next_sst_id s' <= next_sst_id s + Z.of_nat (length ops) ∧
    (no_faults (host s) → contents s' = foldl op_effect (contents s) ops)) s.
Proof.
  revert s. induction ops as [|op ops IH]; intros s Hwf Hroom; cbn [apply_ops].
  { wp_step. split_and!; try done. simpl. lia. }
  assert (Hop : wp (apply_op op) (λ r s', r = Ok tt ∧ wf s' ∧ same_rest s s' ∧
    next_sst_id s' <= next_sst_id s + 1 ∧
    (no_faults (host s) → contents s' = op_effect (contents s) op)) s).
  { unfold room in *. cbn [length] in Hroom.
    destruct op as [k v|k]; simpl; wp_step; [wp_use set_wp|wp_use delete_wp]; try done;
      unfold room; try lia; intros r s' (? & ? & ? & HL & ?); split_and!; try done; naive_solver. }
  wp_step. wp_use Hop. intros r s1 (-> & Hwf1 & Hs1 & Hn1 & Hc1). unfold room in Hroom. cbn [length] in *.
  wp_use IH; [done|unfold room; lia|]. intros r s2 (-> & Hwf2 & Hs2 & Hn2 & Hc2).
  split_and!; [done..|by eapply same_rest_trans|lia|].
  intros Hn. rewrite Hc2 by (by apply Hs1). by rewrite Hc1.
Qed.

Lemma decide_tx_wp tx_id d s :
  wf s → room (Z.of_nat (length (default [] (tx_ops <$> pending_txs s !! tx_id)))) s →
  wp (decide_tx tx_id d) (λ r s', r = Ok tt ∧ wf s' ∧ sm_config s' = sm_config s ∧
    pending_txs s' = base.delete tx_id (pending_txs s) ∧
    next_sst_id s' <= next_sst_id s + Z.of_nat (length (default [] (tx_ops <$> pending_txs s !! tx_id))) ∧
    h_clock (host s') = h_clock (host s) ∧
    (no_faults (host s) → no_faults (host s') ∧
      contents s' =
        match pending_txs s !! tx_id, d with
        | Some tx, Commit => foldl op_effect (contents s) (tx_ops tx)
        | _, _ => contents s
        end)) s.
Proof.
  intros Hwf Hroom. unfold decide_tx. do 2 wp_step. destruct (pending_txs s !! tx_id) as [tx|] eqn:E; simpl in *.
  2: { wp_step. split_and!; try done; [|lia]. by rewrite delete_id. }
  do 2 wp_step. set (s1 := with_pending (base.delete tx_id (pending_txs s)) s).
  assert (Hwf1 : wf s1) by (by eapply wf_ext; [..|done]). destruct d.
  - wp_use apply_ops_wp; [done|done|]. intros r s2 (-> & Hwf2 & Hs & Hn & Hc).
    split_and!; [done|done|by rewrite (sr_config _ _ Hs)|by rewrite (sr_pending _ _ Hs)|done|
      by rewrite (sr_clock _ _ Hs)|]. intros Hnf. split; [by apply Hs|]. rewrite Hc by done. done.
  - wp_step. split_and!; try done. simpl. lia.
Qed.

End props.
