(* ===== verification/Storage.v ===== *)
(** * Durable Raft state ([src/rust/oxide-kv/src/raft/storage.rs])

    The term and vote ([meta]), the log ([WAL], one bincode frame per entry)
    and the snapshot, each in a file of its own; the replaced files are written
    to a temporary name and renamed. [RaftStorage] only holds the three paths, so
    the state here is the files themselves. *)

From stdpp Require Import prelude gmap strings sorting countable list.
From S2P Require Import Prelude Serde Protocol.
#[local] Open Scope Z_scope.

(** ** The files *)

Inductive raft_file := FWal | FMeta | FSnapshot.

#[export] Instance raft_file_eq_dec : EqDecision raft_file.
Proof. solve_decision. Defined.
#[export] Instance raft_file_countable : Countable raft_file.
Proof.
  refine (inj_countable'
    (λ x, match x with FWal => 0%nat | FMeta => 1%nat | FSnapshot => 2%nat end)
    (λ n, match n with 0%nat => FWal | 1%nat => FMeta | _ => FSnapshot end) _).
  by intros [].
Defined.

(** A path is a file, or (second component [true]) its [.tmp] sibling. *)
Abbreviation raft_path := (raft_file * bool)%type.

Record Disk := mkDisk {
  d_files : gmap raft_path string;
  d_faults : list outcome;
}.

Definition d_with_files (f : gmap raft_path string) (h : Disk) : Disk := mkDisk f (d_faults h).
Definition d_with_faults (fs : list outcome) (h : Disk) : Disk := mkDisk (d_files h) fs.

(** A system call that changes the files, and what a failing one leaves behind. *)
Definition disk_call (ok : Disk → result unit * Disk) (torn : nat → Disk → Disk) : M Disk unit := λ h,
  match next_outcome (d_faults h) with
  | (Succeed, fs) => ok (d_with_faults fs h)
  | (FailAfter n, fs) => (Err IoFailed, torn n (d_with_faults fs h))
  end.

Definition disk_nop : M Disk unit := disk_call (λ h, (Ok tt, h)) (λ _ h, h).

(** [fs::write]: truncates, then writes. *)
Definition disk_write (p : raft_path) (s : string) : M Disk unit :=
  disk_call (λ h, (Ok tt, d_with_files (<[p := s]> (d_files h)) h))
            (λ n h, d_with_files (<[p := str_take n s]> (d_files h)) h).

Definition file_or_empty (p : raft_path) (h : Disk) : string := default EmptyString (d_files h !! p).

(** [write_all] on a file opened for append (or just created). *)
Definition disk_append (p : raft_path) (s : string) : M Disk unit :=
  disk_call (λ h, (Ok tt, d_with_files (<[p := file_or_empty p h +:+ s]> (d_files h)) h))
            (λ n h, d_with_files (<[p := file_or_empty p h +:+ str_take n s]> (d_files h)) h).

(** [OpenOptions::new().create(true).append(true).open(p)] *)
Definition disk_open_append (p : raft_path) : M Disk unit :=
  disk_call (λ h, (Ok tt, d_with_files (<[p := file_or_empty p h]> (d_files h)) h)) (λ _ h, h).

(** [File::create(p)] *)
Definition disk_create (p : raft_path) : M Disk unit :=
  disk_call (λ h, (Ok tt, d_with_files (<[p := EmptyString]> (d_files h)) h)) (λ _ h, h).

Definition disk_rename (p q : raft_path) : M Disk unit :=
  disk_call (λ h, match d_files h !! p with
                  | Some s => (Ok tt, d_with_files (<[q := s]> (delete p (d_files h))) h)
                  | None => (Err IoFailed, h)
                  end) (λ _ h, h).

(** A call that reads, as [.ok()]: no value when it fails. *)
Definition disk_read {A} (read : Disk → option A) (h : Disk) : option A * Disk :=
  match next_outcome (d_faults h) with
  | (Succeed, fs) => (read h, d_with_faults fs h)
  | (FailAfter _, fs) => (None, d_with_faults fs h)
  end.

(** What a reader gets from a stream that may fail after [n] bytes. *)
Definition disk_stream (p : raft_path) (h : Disk) : string * Disk :=
  match next_outcome (d_faults h) with
  | (Succeed, fs) => (file_or_empty p h, d_with_faults fs h)
  | (FailAfter n, fs) => (str_take n (file_or_empty p h), d_with_faults fs h)
  end.

Section storage.
Context {BL : Bincode LogEntry} {JV : Json Value} {JS : Json Snapshot}.

(** ** The log *)

Definition append_wal_log (entry : LogEntry) : M Disk unit :=
  disk_open_append (FWal, false) ;;
  bytes ← of_option OtherError (bin_serialize entry);
  disk_append (FWal, false) bytes ;;
  disk_nop.                               (* sync_all *)

Definition wal_size_bytes (h : Disk) : Z * Disk :=
  let '(r, h') := disk_read (λ h, d_files h !! (FWal, false)) h in
  (match r with Some s => Z.of_nat (String.length s) | None => 0 end, h').

(** [while let Ok(entry) = bincode::deserialize_from(..)]: a frame takes at
    least one byte, so the length of the text is fuel enough. *)
Fixpoint read_frames (fuel : nat) (s : string) : list LogEntry :=
  match fuel with
  | O => []
  | S fuel =>
      match bin_deserialize s with
      | Some (entry, rest) => entry :: read_frames fuel rest
      | None => []
      end
  end.

Definition parse_log (s : string) : list LogEntry := read_frames (String.length s) s.

Definition restore_wal_log (h : Disk) : list LogEntry * Disk :=
  let '(file, h1) := disk_read (λ h, d_files h !! (FWal, false)) h in
  match file with
  | None => ([], h1)
  | Some _ => let '(text, h2) := disk_stream (FWal, false) h1 in (parse_log text, h2)
  end.

(** ** Term and vote *)

Definition meta_value (term : Z) (vote : option string) : Value :=
  VObject [("current_term", VNumber term); ("vote_for", of_opt_string vote)].

(** Write the temporary file, rename it into place. *)
Definition replace_file (f : raft_file) (s : string) : M Disk unit :=
  disk_write (f, true) s ;; disk_rename (f, true) (f, false).

Definition save_meta (term : Z) (vote : option string) : M Disk unit :=
  s ← of_option OtherError (to_string (meta_value term vote));
  replace_file FMeta s.

Definition read_meta (h : Disk) : (Z * option string) * Disk :=
  let '(content, h') := disk_read (λ h, d_files h !! (FMeta, false)) h in
  match content ≫= from_str with
  | Some v =>
      ((default 0 (as_u64 (value_index v "current_term")), as_str (value_index v "vote_for")), h')
  | None => ((0, None), h')
  end.

Definition load_initial_state (h : Disk) : (Z * option string * list LogEntry) * Disk :=
  let '(meta, h1) := read_meta h in
  let '(logs, h2) := restore_wal_log h1 in
  ((meta, logs), h2).

(** ** Snapshots *)

Definition save_snapshot (snapshot : Snapshot) : M Disk unit :=
  s ← of_option OtherError (to_string_pretty snapshot);
  replace_file FSnapshot s.

Definition load_snapshot (h : Disk) : option Snapshot * Disk :=
  let '(content, h') := disk_read (λ h, d_files h !! (FSnapshot, false)) h in
  (content ≫= from_str, h').

Fixpoint write_frames (p : raft_path) (entries : list LogEntry) : M Disk unit :=
  match entries with
  | [] => mret tt
  | entry :: entries' =>
      bytes ← of_option OtherError (bin_serialize entry);
      disk_append p bytes ;; write_frames p entries'
  end.

Definition rewrite_wal_after_snapshot (snapshot_index : Z) : M Disk nat := λ h,
  let '(logs, h1) := restore_wal_log h in
  let entries := filter (λ e, snapshot_index < le_index e) logs in
  (disk_create (FWal, true) ;;
   write_frames (FWal, true) entries ;;
   disk_nop ;;                            (* sync_all *)
   disk_rename (FWal, true) (FWal, false) ;;
   mret (length entries)) h1.
End storage.
