(* ===== verification/StorageProps.v ===== *)
(** * Lemmas about the durable Raft state

    What each operation of [Storage] leaves on disk, under every pattern of
    I/O failures. *)

From stdpp Require Import prelude gmap strings sorting countable list.
From S2P Require Import Prelude Serde Protocol Storage.
#[local] Open Scope Z_scope.

Definition d_ok (h : Disk) : Prop := d_faults h = [].

(** What a reader would find if no call failed. *)
Definition quiet (h : Disk) : Disk := d_with_faults [] h.

(** Only file [f] and its temporary sibling may differ. *)
Definition d_frame (f : raft_file) (h h' : Disk) : Prop :=
  (∀ p, p.1 ≠ f → d_files h' !! p = d_files h !! p) ∧ (d_ok h → d_ok h').

Lemma d_frame_trans f h1 h2 h3 : d_frame f h1 h2 → d_frame f h2 h3 → d_frame f h1 h3.
Proof. intros [F1 N1] [F2 N2]. split; [|auto]. intros p Hp. by rewrite F2, F1. Qed.

Lemma quiet_ok h : d_ok h → quiet h = h.
Proof. unfold d_ok, quiet, d_with_faults. destruct h. simpl. by intros ->. Qed.

Lemma wp_disk_call ok torn (Q : result unit → Disk → Prop) h :
  (∀ fs, (d_ok h → fs = []) → Q (ok (d_with_faults fs h)).1 (ok (d_with_faults fs h)).2) →
  (∀ n fs, ¬ d_ok h → Q (Err IoFailed) (torn n (d_with_faults fs h))) →
  wp (disk_call ok torn) Q h.
Proof.
  intros Hok Ht. unfold wp, disk_call, d_ok in *. destruct h as [files [|[|n] fs]]; simpl in *.
  - by apply Hok.
  - by apply Hok.
  - by apply Ht.
Qed.

Lemma wp_disk_nop (Q : result unit → Disk → Prop) h :
  (∀ r fs, (d_ok h → r = Ok tt ∧ fs = []) → Q r (d_with_faults fs h)) → wp disk_nop Q h.
Proof. intros HQ. apply wp_disk_call; [intros fs Hfs|intros n fs Hn]; apply HQ; naive_solver. Qed.

#[export] Instance d_frame_preorder f : PreOrder (d_frame f).
Proof. split; [by intros h; split|intros h1 h2 h3; apply d_frame_trans]. Qed.

Lemma keeps_disk_call f ok torn :
  (∀ h, (∀ p, p.1 ≠ f → d_files (ok h).2 !! p = d_files h !! p) ∧ d_faults (ok h).2 = d_faults h) →
  (∀ k h p, p.1 ≠ f → d_files (torn k h) !! p = d_files h !! p) →
  keeps (d_frame f) (disk_call ok torn).
Proof.
  intros H1 H2 h. apply (wp_disk_call ok torn (λ _ h', d_frame f h h')).
  - intros fs Hfs. destruct (H1 (d_with_faults fs h)) as [F E]. split; [by apply F|].
    intros Hd. unfold d_ok. rewrite E. auto.
  - intros k fs Hn. split; [|intros Hd; by destruct Hn]. intros p Hp. by rewrite H2.
Qed.

Lemma insert_other (p q : raft_path) (s : string) (fs : gmap raft_path string) :
  q.1 ≠ p.1 → <[p := s]> fs !! q = fs !! q.
Proof. intros Hq. apply lookup_insert_ne. by intros ->. Qed.

Lemma disk_nop_frame f : keeps (d_frame f) disk_nop.
Proof. by apply keeps_disk_call. Qed.

Lemma disk_open_append_frame f b : keeps (d_frame f) (disk_open_append (f, b)).
Proof. apply keeps_disk_call; [|done]. intros h. split; [|done]. intros p Hp. by apply insert_other. Qed.

Lemma disk_append_frame f b s : keeps (d_frame f) (disk_append (f, b) s).
Proof. apply keeps_disk_call; [intros h; split; [|done]|]; intros; by apply insert_other. Qed.

(** ** Atomic replacement of a file *)

Lemma replace_file_wp f s h :
  wp (replace_file f s) (λ r h', d_frame f h h' ∧ (d_ok h → r = Ok tt) ∧
    (r = Ok tt → d_files h' !! (f, false) = Some s) ∧
    (r ≠ Ok tt → d_files h' !! (f, false) = d_files h !! (f, false))) h.
Proof.
  assert (Hp : ∀ p : raft_path, p.1 ≠ f → p ≠ (f, true) ∧ p ≠ (f, false)) by (intros []; naive_solver).
  unfold replace_file. wp_step. apply wp_disk_call.
  - intros fs Hfs. simpl. apply wp_disk_call.
    + intros fs' Hfs'. simpl. rewrite lookup_insert_eq. simpl. split_and!; try done.
      * split; [|naive_solver]. intros p [? ?]%Hp. simpl.
        by rewrite lookup_insert_ne, lookup_delete_ne, lookup_insert_ne by done.
      * intros _. by rewrite lookup_insert_eq.
    + intros n fs' Hn. split_and!; try done; simpl.
      * split; [|naive_solver]. intros p [? ?]%Hp. simpl. by rewrite lookup_insert_ne.
      * intros Hok. exfalso. apply Hn. by apply Hfs.
      * intros _. by rewrite lookup_insert_ne.
  - intros n fs Hn. split_and!; try done; simpl.
    + split; [|done]. intros p [? ?]%Hp. simpl. by rewrite lookup_insert_ne.
    + intros _. by rewrite lookup_insert_ne.
Qed.

Lemma disk_read_quiet {A} (read : Disk → option A) h : (disk_read read (quiet h)) = (read (quiet h), quiet h).
Proof. done. Qed.

#[export] Hint Resolve disk_nop_frame disk_open_append_frame disk_append_frame : oxide.

Section storage.
Context {BL : Bincode LogEntry} {LB : BincodeLaws LogEntry}.
Context {JV : Json Value} {LV : JsonLaws Value}.
Context {JS : Json Snapshot} {LS : JsonLaws Snapshot}.

(** What is durably stored: what [read_meta], [restore_wal_log] and [load_snapshot] return
    to a reader whose calls succeed. *)
Definition stored_meta (h : Disk) : Z * option string := (read_meta (quiet h)).1.
Definition stored_log (h : Disk) : list LogEntry := (restore_wal_log (quiet h)).1.
Definition stored_snapshot (h : Disk) : option Snapshot := (load_snapshot (quiet h)).1.

Lemma stored_meta_ext h h' : d_files h' !! (FMeta, false) = d_files h !! (FMeta, false) →
  stored_meta h' = stored_meta h.
Proof. intros E. unfold stored_meta, read_meta. rewrite !disk_read_quiet. simpl. rewrite E. by case_match. Qed.

Lemma stored_snapshot_ext h h' : d_files h' !! (FSnapshot, false) = d_files h !! (FSnapshot, false) →
  stored_snapshot h' = stored_snapshot h.
Proof. intros E. unfold stored_snapshot, load_snapshot. rewrite !disk_read_quiet. simpl. by rewrite E. Qed.

Lemma stored_log_eq h : stored_log h = parse_log (file_or_empty (FWal, false) h).
Proof.
  unfold stored_log, restore_wal_log, file_or_empty. rewrite disk_read_quiet. simpl.
  by destruct (d_files h !! (FWal, false)) as [s|] eqn:E; simpl; unfold file_or_empty; simpl; rewrite ?E.
Qed.

Lemma stored_log_ext h h' : d_files h' !! (FWal, false) = d_files h !! (FWal, false) →
  stored_log h' = stored_log h.
Proof. intros E. rewrite !stored_log_eq. unfold file_or_empty. by rewrite E. Qed.

Lemma save_meta_wp term vote h : u64 term →
  wp (save_meta term vote) (λ r h', d_frame FMeta h h' ∧ (d_ok h → r = Ok tt) ∧
    (r = Ok tt → stored_meta h' = (term, vote)) ∧
    (r ≠ Ok tt → stored_meta h' = stored_meta h)) h.
Proof.
  intros Ht. unfold save_meta. destruct (json_compact (meta_value term vote)) as (s & Hs & Hf & _).
  rewrite Hs. do 2 wp_step. wp_use replace_file_wp. intros r h' (F & Hn & Hok & Herr).
  split_and!; [done..| |].
  - intros Hr. unfold stored_meta, read_meta. rewrite disk_read_quiet. simpl. rewrite (Hok Hr). simpl.
    rewrite Hf. unfold value_index. simpl. rewrite decide_True by done. by destruct vote.
  - intros Hr. apply stored_meta_ext. auto.
Qed.

Lemma save_snapshot_wp snap h :
  wp (save_snapshot snap) (λ r h', d_frame FSnapshot h h' ∧ (d_ok h → r = Ok tt) ∧
    (r = Ok tt → stored_snapshot h' = Some snap) ∧
    (r ≠ Ok tt → stored_snapshot h' = stored_snapshot h)) h.
Proof.
  unfold save_snapshot. destruct (json_pretty snap) as (s & Hs & Hf).
  rewrite Hs. do 2 wp_step. wp_use replace_file_wp. intros r h' (F & Hn & Hok & Herr).
  split_and!; [done..| |].
  - intros Hr. unfold stored_snapshot, load_snapshot. rewrite disk_read_quiet. simpl.
    by rewrite (Hok Hr).
  - intros Hr. apply stored_snapshot_ext. auto.
Qed.

(** ** Frames *)

(** [s] is the concatenated frames of [es]. *)
Inductive frames : list LogEntry → string → Prop :=
  | frames_nil : frames [] EmptyString
  | frames_cons e es b s :
      bin_serialize e = Some b → frames es s → frames (e :: es) (b +:+ s).

Lemma frames_app es1 es2 s1 s2 : frames es1 s1 → frames es2 s2 → frames (es1 ++ es2) (s1 +:+ s2).
Proof.
  induction 1 as [|e es b s Hb _ IH]; intros H2; [done|]. rewrite str_app_assoc. simpl.
  apply frames_cons; auto.
Qed.

Lemma frames_one e b : bin_serialize e = Some b → frames [e] b.
Proof.
  intros Hb. rewrite <- (str_app_empty_r b). apply frames_cons; [done|constructor].
Qed.

(** The fuel of [parse_log] is enough, and parsing stops at the first frame
    that does not parse. *)
Lemma read_frames_frames es s t fuel : frames es s → bin_deserialize (A := LogEntry) t = None →
  (String.length (s +:+ t) <= fuel)%nat → read_frames fuel (s +:+ t) = es.
Proof.
  intros Hs Ht. revert fuel. induction Hs as [|e es b s Hb Hs IH]; intros fuel Hf.
  - change (EmptyString +:+ t) with t. destruct fuel; [done|]. simpl. by rewrite Ht.
  - destruct (bin_roundtrip e) as (b' & Hb' & _ & Hd). simplify_eq.
    rewrite str_app_assoc in *. pose proof (bin_consumes _ _ _ (Hd (s +:+ t))).
    destruct fuel; [lia|]. simpl. rewrite Hd, IH; [done|lia].
Qed.

Lemma parse_log_frames es s t : frames es s → bin_deserialize (A := LogEntry) t = None →
  parse_log (s +:+ t) = es.
Proof. intros. by apply read_frames_frames. Qed.

(** The WAL file holds exactly the frames of [es]. *)
Definition wal_holds (es : list LogEntry) (h : Disk) : Prop :=
  frames es (file_or_empty (FWal, false) h).

Lemma wal_holds_stored es h : wal_holds es h → stored_log h = es.
Proof.
  intros H. rewrite stored_log_eq, <- (str_app_empty_r (file_or_empty _ _)).
  apply parse_log_frames; [done|apply bin_eof].
Qed.

Lemma wal_holds_ext es h h' : d_files h' !! (FWal, false) = d_files h !! (FWal, false) →
  wal_holds es h → wal_holds es h'.
Proof. unfold wal_holds, file_or_empty. by intros ->. Qed.

Lemma str_take_cases n s : str_take n s = s ∨ (n < String.length s)%nat.
Proof.
  unfold str_take. revert n. induction s as [|c s IH]; intros [|n]; simpl; [by left..|right; lia|].
  destruct (IH n) as [E|]; [left; by rewrite E|right; lia].
Qed.

Lemma append_wal_log_wp e es h : wal_holds es h →
  wp (append_wal_log e) (λ r h', d_frame FWal h h' ∧ (d_ok h → r = Ok tt) ∧
    (r = Ok tt → wal_holds (es ++ [e]) h') ∧
    (stored_log h' = es ∨ stored_log h' = es ++ [e])) h.
Proof.
  intros Hw. destruct (bin_roundtrip e) as (b & Hb & Hne & Hd).
  unfold append_wal_log. rewrite Hb. wp_step. apply wp_disk_call.
  2:{ intros n fs Hn. split_and!; [by split|done|done|left]. by apply wal_holds_stored. }
  intros fs Hfs. cbn [fst snd]. do 2 wp_step. wp_step. apply wp_disk_call.
  - intros fs1 Hfs1. cbn [fst snd]. apply wp_disk_nop. intros r fs2 Hfs2.
    unfold d_with_files, d_with_faults, file_or_empty in *. simpl in *. rewrite lookup_insert_eq in *.
    simpl in *. rewrite insert_insert_eq in *.
    set (h' := mkDisk _ _). assert (Hh : wal_holds (es ++ [e]) h').
    { unfold wal_holds, file_or_empty. simpl. rewrite lookup_insert_eq. simpl.
      apply frames_app; [exact Hw|by apply frames_one]. }
    unfold d_ok in *. simpl in *. split_and!; [split| |done|right; by apply wal_holds_stored].
    + intros [f b'] Hp. simpl in *. rewrite lookup_insert_ne by naive_solver. done.
    + unfold d_ok. simpl. naive_solver.
    + naive_solver.
  - intros n fs1 Hn. unfold d_with_files, d_with_faults, file_or_empty in *. simpl in *.
    rewrite lookup_insert_eq in *. simpl in *. rewrite insert_insert_eq in *.
    unfold d_ok in *. simpl in *. split_and!; [split| |done|].
    + intros [f b'] Hp. simpl in *. rewrite lookup_insert_ne by naive_solver. done.
    + unfold d_ok. simpl. naive_solver.
    + naive_solver.
    + rewrite stored_log_eq. unfold file_or_empty. simpl. rewrite lookup_insert_eq. simpl.
      destruct (str_take_cases n b) as [-> | Hlt]; [right|left].
      * rewrite <- (str_app_empty_r b), <- str_app_assoc.
        apply parse_log_frames; [|apply bin_eof]. apply frames_app; [exact Hw|by apply frames_one].
      * apply parse_log_frames; [exact Hw|]. by eapply bin_truncated.
Qed.

Lemma append_wal_frame e : keeps (d_frame FWal) (append_wal_log e).
Proof. unfold append_wal_log. keep. Qed.

(** ** Rewriting the log *)

Lemma write_frames_wp p es h es0 s0 : d_files h !! p = Some s0 → frames es0 s0 →
  wp (write_frames p es) (λ r h',
    (∀ q, q ≠ p → d_files h' !! q = d_files h !! q) ∧ (d_ok h → r = Ok tt ∧ d_ok h') ∧
    (r = Ok tt → ∃ s, d_files h' !! p = Some s ∧ frames (es0 ++ es) s)) h.
Proof.
  revert h es0 s0. induction es as [|e es IH]; intros h es0 s0 Hp Hf; simpl.
  { wp_step. rewrite app_nil_r. split_and!; [done..|]. eauto. }
  destruct (bin_roundtrip e) as (b & Hb & _). rewrite Hb. do 2 wp_step. wp_step. apply wp_disk_call.
  - intros fs Hfs. cbn [fst snd]. unfold file_or_empty. cbn [d_files d_with_faults].
    rewrite Hp. cbn [default].
    eapply wp_mono; [apply (IH _ (es0 ++ [e]) (s0 +:+ b))|].
    + simpl. by rewrite lookup_insert_eq.
    + apply frames_app; [done|by apply frames_one].
    + intros r h' (Hq & Hn & Hok). rewrite <- app_assoc in Hok. split_and!; [|naive_solver|done].
      intros q Hne. rewrite Hq by done. simpl. by rewrite lookup_insert_ne.
  - intros n fs Hn. split_and!; [|naive_solver|done]. intros q Hne. simpl. by rewrite lookup_insert_ne.
Qed.

Lemma restore_quiet h : d_ok h → restore_wal_log h = (stored_log h, h).
Proof.
  intros Hn. unfold stored_log. rewrite quiet_ok by done. unfold restore_wal_log, disk_read, disk_stream.
  unfold d_ok in Hn. destruct h as [fs flt]. simpl in *. subst flt. simpl.
  by destruct (fs !! (FWal, false)).
Qed.

Lemma restore_files h : d_files (restore_wal_log h).2 = d_files h ∧ (d_ok h → d_ok (restore_wal_log h).2).
Proof.
  unfold restore_wal_log, disk_read, disk_stream, d_ok.
  destruct h as [fs flt]. unfold next_outcome. simpl.
  destruct flt as [|[|] [|[|] ?]]; simpl; repeat (case_match; simplify_eq/=); done.
Qed.

Lemma rewrite_wal_wp idx h :
  let es := filter (λ e, idx < le_index e) (restore_wal_log h).1 in
  wp (rewrite_wal_after_snapshot idx) (λ r h', d_frame FWal h h' ∧
    (d_ok h → r = Ok (length es)) ∧
    (∀ n, r = Ok n → n = length es ∧ wal_holds es h') ∧
    (∀ e, r = Err e → d_files h' !! (FWal, false) = d_files h !! (FWal, false))) h.
Proof.
  intros es. destruct (restore_files h) as [Hf Hn].
  unfold wp, rewrite_wal_after_snapshot. subst es. destruct (restore_wal_log h) as [logs h1].
  simpl in Hf, Hn. cbn [fst]. set (es := filter _ logs).
  match goal with |- context [?m h1] => apply (wp_mono m (λ r h', d_frame FWal h1 h' ∧
    (d_ok h1 → r = Ok (length es)) ∧ (∀ n, r = Ok n → n = length es ∧ wal_holds es h') ∧
    (∀ e, r = Err e → d_files h' !! (FWal, false) = d_files h1 !! (FWal, false)))) end.
  2:{ intros r h' ([F1 F2] & H1 & H2 & H3). rewrite Hf in F1, H3.
      split_and!; [split; auto|auto|done..]. }
  wp_step. apply wp_disk_call.
  2:{ intros n fs Hnf. split_and!; [by split|naive_solver..]. }
  intros fs Hfs. cbn [fst snd]. wp_step.
  eapply wp_mono; [apply (write_frames_wp _ _ _ [] EmptyString); [simpl; by rewrite lookup_insert_eq|constructor]|].
  cbn [d_files d_with_files d_with_faults]. intros r h2 (Hq & Hok2 & Hr).
  assert (Hw2 : d_files h2 !! (FWal, false) = d_files h1 !! (FWal, false)).
  { rewrite Hq by done. by rewrite lookup_insert_ne. }
  assert (F2 : d_frame FWal h1 h2).
  { split; [|intros Hd; apply Hok2; by apply Hfs]. intros [f b] Hp. simpl in Hp.
    rewrite Hq by naive_solver. by rewrite lookup_insert_ne by naive_solver. }
  destruct r as [[]|e]; [|split_and!; [done|intros Hd; naive_solver..]].
  destruct (Hr eq_refl) as (s & Hs & Hfr). wp_step. apply wp_disk_nop. intros r fs3 Hfs3.
  assert (F3 : d_frame FWal h1 (d_with_faults fs3 h2)).
  { destruct F2 as [F2 N2]. split; [done|]. intros Hd. unfold d_ok. simpl. by apply Hfs3, N2. }
  destruct r as [[]|e]; [|split_and!; [done| |done|done]; intros Hd; by destruct (Hfs3 (proj2 F2 Hd))].
  wp_step. apply wp_disk_call.
  2:{ intros n fs4 Hnf. split_and!; [|intros Hd; by destruct (Hnf (proj2 F3 Hd))|done|done].
      split; [apply F3|]. intros Hd. by destruct (Hnf (proj2 F3 Hd)). }
  intros fs4 Hfs4. cbn [d_files d_with_faults]. rewrite Hs. cbn [fst snd]. wp_step.
  split_and!; [|done| |done].
  - eapply d_frame_trans; [exact F3|]. split; [|exact Hfs4]. intros [f b] Hp. simpl in *.
    by rewrite lookup_insert_ne, lookup_delete_ne by naive_solver.
  - intros n [= <-]. split; [done|]. unfold wal_holds, file_or_empty. simpl.
    rewrite lookup_insert_eq. exact Hfr.
Qed.
End storage.
