(* ===== verification/Display.v ===== *)
(** * Formatting

    What [format!] prints for the values the program puts into messages: numbers in decimal ([pretty]),
    strings quoted and escaped for [{:?}], vectors. Characters beyond
    ASCII are taken to be printable, which [{:?}] leaves as they are. *)

From stdpp Require Import prelude gmap strings pretty list.
From S2P Require Import Prelude.
From Stdlib Require Import Ascii.
#[local] Open Scope Z_scope.

Definition hex_digit (d : Z) : ascii :=
  ascii_of_N (Z.to_N (if d <? 10 then 48 + d else 87 + d)).

(** [char::escape_debug] inside a string. *)
Definition escape_char (c : ascii) : string :=
  let x := Z.of_N (N_of_ascii c) in
  if x =? 0 then "\0"
  else if x =? 9 then "\t"
  else if x =? 10 then "\n"
  else if x =? 13 then "\r"
  else if x =? 34 then "\" +:+ String c EmptyString
  else if x =? 92 then "\\"
  else if (x <? 32) || (x =? 127) then
    "\u{" +:+ (if 16 <=? x then String (hex_digit (x / 16)) EmptyString else EmptyString) +:+
      String (hex_digit (x mod 16)) "}"
  else String c EmptyString.

Fixpoint escape_str (s : string) : string :=
  match s with
  | EmptyString => EmptyString
  | String c s' => escape_char c +:+ escape_str s'
  end.

Definition quote : string := String (ascii_of_N 34) EmptyString.

(** [{:?}] of a string, and of a vector given how its elements print. *)
Definition debug_str (s : string) : string := quote +:+ escape_str s +:+ quote.

Definition debug_vec {A} (f : A → string) (l : list A) : string :=
  "[" +:+ String.concat ", " (f <$> l) +:+ "]".

(** [{:?}] of a pair. *)
Definition debug_pair {A B} (f : A → string) (g : B → string) (p : A * B) : string :=
  "(" +:+ f p.1 +:+ ", " +:+ g p.2 +:+ ")".
