(* ===== verification/Rpc.v ===== *)
(** * Messages between nodes ([src/rust/oxide-kv/src/raft/rpc.rs], [src/rust/oxide-kv/src/coordination.rs])

    The Raft messages and the two messages of the transaction vote. The
    dispatch of a received message is in [Node]. *)

From stdpp Require Import prelude gmap strings list.
From S2P Require Import Prelude Protocol.
#[local] Open Scope Z_scope.

Record JoinClusterRequest := mkJoinRequest { candidate_addr : string }.

Record JoinClusterResponse := mkJoinResponse {
  jr_accepted : bool;
  jr_term : Z;
  jr_leader_addr : string;
  jr_peer_addrs : list string;
  jr_reason : string;
}.

Record RequestVoteArgs := mkRequestVote {
  rv_term : Z;
  rv_candidate_id : string;
  rv_last_log_index : Z;
  rv_last_log_term : Z;
}.

Record VoteResponseArgs := mkVoteResponse { vr_term : Z; vr_granted : bool }.

Record AppendEntriesArgs := mkAppendEntries {
  ae_term : Z;
  ae_leader_id : string;
  ae_prev_log_index : Z;
  ae_prev_log_term : Z;
  ae_entries : list LogEntry;
  ae_leader_commit : Z;
}.

Record AppendReplyArgs := mkAppendReply { ar_term : Z; ar_success : bool }.

Record InstallSnapshotArgs := mkInstallSnapshot {
  is_term : Z;
  is_leader_id : string;
  is_last_included_index : Z;
  is_last_included_term : Z;
  is_snapshot : Snapshot;
}.

Record InstallSnapshotReplyArgs := mkInstallSnapshotReply { ir_term : Z }.

Inductive RaftMessage :=
  | RequestVote (args : RequestVoteArgs)
  | VoteResponse (reply : VoteResponseArgs)
  | AppendEntries (args : AppendEntriesArgs)
  | AppendReply (reply : AppendReplyArgs)
  | InstallSnapshot (args : InstallSnapshotArgs)
  | InstallSnapshotReply (reply : InstallSnapshotReplyArgs)
  | RequestPreVote (args : RequestVoteArgs)
  | PreVoteResponse (reply : VoteResponseArgs)
  | JoinCluster (req : JoinClusterRequest)
  | JoinClusterReply (reply : JoinClusterResponse).

(** [coordination::VoteRequest] and [coordination::VoteResponse] *)
Record TxVoteRequest := mkTxVoteRequest {
  tv_term : Z;
  tv_tx_id : string;
  tv_last_log_index : Z;
  tv_last_log_term : Z;
}.

Record TxVoteResponse := mkTxVoteResponse {
  tr_term : Z;
  tr_granted : bool;
  tr_reason : string;
}.
