(* ===== verification/Proto.v ===== *)
(** * The wire types and their conversions ([src/rust/oxide-kv/src/raft/proto.rs], [src/rust/oxide-kv/src/coordination.rs])

    Between nodes, messages travel as protobuf. The generated types are
    transcribed from [proto/raft.proto] and [proto/coordination.proto] (module [pb]): a [oneof] and a message
    field are optional, an enumeration is an [i32]. [ToPb] and [OfPb] are the [From]
    implementations in the two directions. *)

From stdpp Require Import prelude gmap strings list.
From S2P Require Import Prelude Protocol Rpc.
#[local] Open Scope Z_scope.

Module pb.
Record Set_ := mkSet { set_key : string; set_value : string }.
Record Get_ := mkGet { get_key : string }.
Record Delete_ := mkDelete { delete_key : string }.
Record Empty_ := mkEmpty {}.
Inductive TxOpBody := Put (s : Set_) | OpDelete (d : Delete_).
Record TxOp := mkTxOp { op_body : option TxOpBody }.
Record BeginTx := mkBeginTx { bt_tx_id : string; bt_ops : list TxOp }.
Record DecideTx := mkDecideTx { dt_tx_id : string; dt_commit : bool }.
Record ServerId := mkServerId { sv_node_id : string; sv_addr : string }.
Record ConfigurationEntry := mkConfigurationEntry {
  kind : Z; old_servers : list ServerId; new_servers : list ServerId }.
Inductive CommandBody :=
  | Set' (s : Set_)
  | Get' (g : Get_)
  | Delete' (d : Delete_)
  | Compact' (e : Empty_)
  | BeginTx' (b : BeginTx)
  | DecideTx' (d : DecideTx)
  | AddNode' (s : ServerId)
  | RemoveNode' (id : string)
  | InstallConfiguration' (c : ConfigurationEntry)
  | AbortTx' (tx_id : string).
Record Command := mkCommand { cmd_body : option CommandBody }.
Record LogEntry := mkLogEntry { term : Z; index : Z; command : option Command }.
Record RequestVoteArgs := mkRequestVoteArgs {
  rv_term : Z; rv_candidate_id : string; rv_last_log_index : Z; rv_last_log_term : Z }.
Record VoteResponseArgs := mkVoteResponseArgs { vr_term : Z; vr_vote_granted : bool }.
Record AppendEntriesArgs := mkAppendEntriesArgs {
  ae_term : Z; ae_leader_id : string; ae_prev_log_index : Z; ae_prev_log_term : Z;
  ae_entries : list LogEntry; ae_leader_commit : Z }.
Record AppendReplyArgs := mkAppendReplyArgs { ar_term : Z; ar_success : bool }.
Record Snapshot := mkSnapshot {
  sn_last_included_index : Z; sn_last_included_term : Z; sn_data : gmap string string }.
Record InstallSnapshotArgs := mkInstallSnapshotArgs {
  is_term : Z; is_leader_id : string; is_last_included_index : Z; is_last_included_term : Z;
  is_snapshot : option Snapshot }.
Record InstallSnapshotReplyArgs := mkInstallSnapshotReplyArgs { ir_term : Z }.
Record JoinClusterRequest := mkJoinClusterRequest { jq_candidate_addr : string }.
Record JoinClusterResponse := mkJoinClusterResponse {
  jp_accepted : bool; jp_term : Z; jp_leader_addr : string; jp_peer_addrs : list string; jp_reason : string }.
Inductive RaftMessageBody :=
  | RequestVote (a : RequestVoteArgs)
  | VoteResponse (a : VoteResponseArgs)
  | AppendEntries (a : AppendEntriesArgs)
  | AppendReply (a : AppendReplyArgs)
  | InstallSnapshot (a : InstallSnapshotArgs)
  | InstallSnapshotReply (a : InstallSnapshotReplyArgs)
  | RequestPreVote (a : RequestVoteArgs)
  | PreVoteResponse (a : VoteResponseArgs)
  | JoinCluster (r : JoinClusterRequest)
  | JoinClusterResponse' (r : JoinClusterResponse).
Record RaftMessage := mkRaftMessage { msg_body : option RaftMessageBody }.

(** [coordination.proto] *)
Record VoteRequest := mkVoteRequest {
  vq_term : Z; vq_tx_id : string; vq_last_log_index : Z; vq_last_log_term : Z }.
Record VoteResponse_ := mkVoteResponse { vp_term : Z; vp_vote_granted : bool; vp_reason : string }.

(** [ConfigurationEntry.Kind]; the accessor gives the default for an unknown number. *)
Inductive Kind := Unspecified | KSimple | KJoint.
Definition kind_num (k : Kind) : Z := match k with Unspecified => 0 | KSimple => 1 | KJoint => 2 end.
Definition kind_of (c : ConfigurationEntry) : Kind :=
  if kind c =? 1 then KSimple else if kind c =? 2 then KJoint else Unspecified.
End pb.

(** ** The two directions *)

Class ToPb (D P : Type) := to_pb : D → P.
Class OfPb (P D : Type) := of_pb : P → D.

(** A type whose values survive the wire when [ok] holds of them. *)
Class WireLaws (D P : Type) `{ToPb D P, OfPb P D} (ok : D → Prop) : Prop :=
  of_to_pb d : ok d → of_pb (to_pb d) = d.

Definition always {D : Type} (_ : D) : Prop := True.

(** *** Domain to protobuf *)

#[export] Instance server_to_pb : ToPb ServerId pb.ServerId := λ s,
  pb.mkServerId (node_id s) (addr s).

#[export] Instance config_to_pb : ToPb Configuration pb.ConfigurationEntry := λ c,
  let '(k, old, new) :=
    match c with
    | Simple servers => (pb.KSimple, [], to_pb <$> servers)
    | Joint old new => (pb.KJoint, to_pb <$> old, to_pb <$> new)
    end in
  pb.mkConfigurationEntry (pb.kind_num k) old new.

#[export] Instance op_to_pb : ToPb TxOp pb.TxOp := λ op,
  pb.mkTxOp (Some match op with
                  | TxPut key value => pb.Put (pb.mkSet key value)
                  | TxDelete key => pb.OpDelete (pb.mkDelete key)
                  end).

#[export] Instance command_to_pb : ToPb Command pb.Command := λ c,
  pb.mkCommand (Some match c with
    | CSet key value => pb.Set' (pb.mkSet key value)
    | CGet key => pb.Get' (pb.mkGet key)
    | CDelete key => pb.Delete' (pb.mkDelete key)
    | CCompact => pb.Compact' pb.mkEmpty
    | CBeginTx tx_id ops => pb.BeginTx' (pb.mkBeginTx tx_id (to_pb <$> ops))
    | CDecideTx tx_id decision => pb.DecideTx' (pb.mkDecideTx tx_id (bool_decide (decision = Commit)))
    | CAddNode server => pb.AddNode' (to_pb server)
    | CRemoveNode id => pb.RemoveNode' id
    | CInstallConfiguration config => pb.InstallConfiguration' (to_pb config)
    | CAbortTx tx_id => pb.AbortTx' tx_id
    end).

#[export] Instance entry_to_pb : ToPb LogEntry pb.LogEntry := λ e,
  pb.mkLogEntry (le_term e) (le_index e) (Some (to_pb (le_command e))).

#[export] Instance request_vote_to_pb : ToPb RequestVoteArgs pb.RequestVoteArgs := λ a,
  pb.mkRequestVoteArgs (rv_term a) (rv_candidate_id a) (rv_last_log_index a) (rv_last_log_term a).

#[export] Instance vote_to_pb : ToPb VoteResponseArgs pb.VoteResponseArgs := λ a,
  pb.mkVoteResponseArgs (vr_term a) (vr_granted a).

#[export] Instance append_to_pb : ToPb AppendEntriesArgs pb.AppendEntriesArgs := λ a,
  pb.mkAppendEntriesArgs (ae_term a) (ae_leader_id a) (ae_prev_log_index a) (ae_prev_log_term a)
    (to_pb <$> ae_entries a) (ae_leader_commit a).

#[export] Instance append_reply_to_pb : ToPb AppendReplyArgs pb.AppendReplyArgs := λ a,
  pb.mkAppendReplyArgs (ar_term a) (ar_success a).

#[export] Instance snapshot_to_pb : ToPb Snapshot pb.Snapshot := λ s,
  pb.mkSnapshot (last_included_index s) (last_included_term s) (snap_data s).

#[export] Instance install_to_pb : ToPb InstallSnapshotArgs pb.InstallSnapshotArgs := λ a,
  pb.mkInstallSnapshotArgs (is_term a) (is_leader_id a) (is_last_included_index a)
    (is_last_included_term a) (Some (to_pb (is_snapshot a))).

#[export] Instance install_reply_to_pb : ToPb InstallSnapshotReplyArgs pb.InstallSnapshotReplyArgs := λ a,
  pb.mkInstallSnapshotReplyArgs (ir_term a).

Definition encode_domain (domain : RaftMessage) : pb.RaftMessage :=
  pb.mkRaftMessage (Some match domain with
    | RequestVote a => pb.RequestVote (to_pb a)
    | VoteResponse a => pb.VoteResponse (to_pb a)
    | AppendEntries a => pb.AppendEntries (to_pb a)
    | AppendReply a => pb.AppendReply (to_pb a)
    | InstallSnapshot a => pb.InstallSnapshot (to_pb a)
    | InstallSnapshotReply a => pb.InstallSnapshotReply (to_pb a)
    | RequestPreVote a => pb.RequestPreVote (to_pb a)
    | PreVoteResponse a => pb.PreVoteResponse (to_pb a)
    | JoinCluster req => pb.JoinCluster (pb.mkJoinClusterRequest (candidate_addr req))
    | JoinClusterReply r =>
        pb.JoinClusterResponse' (pb.mkJoinClusterResponse (jr_accepted r) (jr_term r) (jr_leader_addr r)
          (jr_peer_addrs r) (jr_reason r))
    end).

(** *** Protobuf to domain *)

#[export] Instance server_of_pb : OfPb pb.ServerId ServerId := λ s,
  mkServerId (pb.sv_node_id s) (pb.sv_addr s).

#[export] Instance config_of_pb : OfPb pb.ConfigurationEntry Configuration := λ c,
  let old := of_pb <$> pb.old_servers c in
  let new := of_pb <$> pb.new_servers c in
  match pb.kind_of c with
  | pb.KSimple | pb.Unspecified => Simple new
  | pb.KJoint => Joint old new
  end.

#[export] Instance op_of_pb : OfPb pb.TxOp TxOp := λ p,
  match pb.op_body p with
  | Some (pb.Put s) => TxPut (pb.set_key s) (pb.set_value s)
  | Some (pb.OpDelete d) => TxDelete (pb.delete_key d)
  | None => TxDelete EmptyString
  end.

#[export] Instance command_of_pb : OfPb pb.Command Command := λ p,
  match pb.cmd_body p with
  | Some (pb.Set' s) => CSet (pb.set_key s) (pb.set_value s)
  | Some (pb.Get' g) => CGet (pb.get_key g)
  | Some (pb.Delete' d) => CDelete (pb.delete_key d)
  | Some (pb.Compact' _) => CCompact
  | Some (pb.BeginTx' b) => CBeginTx (pb.bt_tx_id b) (of_pb <$> pb.bt_ops b)
  | Some (pb.DecideTx' d) => CDecideTx (pb.dt_tx_id d) (if pb.dt_commit d then Commit else Abort)
  | Some (pb.AddNode' _) | Some (pb.RemoveNode' _) => CCompact
  | Some (pb.InstallConfiguration' c) => CInstallConfiguration (of_pb c)
  | Some (pb.AbortTx' _) => CCompact
  | None => CCompact
  end.

#[export] Instance entry_of_pb : OfPb pb.LogEntry LogEntry := λ p,
  mkLogEntry (pb.term p) (pb.index p) (from_option of_pb CCompact (pb.command p)).

#[export] Instance request_vote_of_pb : OfPb pb.RequestVoteArgs RequestVoteArgs := λ p,
  mkRequestVote (pb.rv_term p) (pb.rv_candidate_id p) (pb.rv_last_log_index p) (pb.rv_last_log_term p).

#[export] Instance vote_of_pb : OfPb pb.VoteResponseArgs VoteResponseArgs := λ p,
  mkVoteResponse (pb.vr_term p) (pb.vr_vote_granted p).

#[export] Instance append_of_pb : OfPb pb.AppendEntriesArgs AppendEntriesArgs := λ p,
  mkAppendEntries (pb.ae_term p) (pb.ae_leader_id p) (pb.ae_prev_log_index p) (pb.ae_prev_log_term p)
    (of_pb <$> pb.ae_entries p) (pb.ae_leader_commit p).

#[export] Instance append_reply_of_pb : OfPb pb.AppendReplyArgs AppendReplyArgs := λ p,
  mkAppendReply (pb.ar_term p) (pb.ar_success p).

#[export] Instance snapshot_of_pb : OfPb pb.Snapshot Snapshot := λ p,
  mkSnapshot (pb.sn_last_included_index p) (pb.sn_last_included_term p) (pb.sn_data p).

#[export] Instance install_of_pb : OfPb pb.InstallSnapshotArgs InstallSnapshotArgs := λ p,
  mkInstallSnapshot (pb.is_term p) (pb.is_leader_id p) (pb.is_last_included_index p)
    (pb.is_last_included_term p)
    (from_option of_pb (mkSnapshot (pb.is_last_included_index p) (pb.is_last_included_term p) ∅)
       (pb.is_snapshot p)).

#[export] Instance install_reply_of_pb : OfPb pb.InstallSnapshotReplyArgs InstallSnapshotReplyArgs := λ p,
  mkInstallSnapshotReply (pb.ir_term p).

Definition decode_domain (p : pb.RaftMessage) : RaftMessage :=
  match pb.msg_body p with
  | Some (pb.RequestVote a) => RequestVote (of_pb a)
  | Some (pb.VoteResponse a) => VoteResponse (of_pb a)
  | Some (pb.AppendEntries a) => AppendEntries (of_pb a)
  | Some (pb.AppendReply a) => AppendReply (of_pb a)
  | Some (pb.InstallSnapshot a) => InstallSnapshot (of_pb a)
  | Some (pb.InstallSnapshotReply a) => InstallSnapshotReply (of_pb a)
  | Some (pb.RequestPreVote a) => RequestPreVote (of_pb a)
  | Some (pb.PreVoteResponse a) => PreVoteResponse (of_pb a)
  | Some (pb.JoinCluster req) => JoinCluster (mkJoinRequest (pb.jq_candidate_addr req))
  | Some (pb.JoinClusterResponse' r) =>
      JoinClusterReply (mkJoinResponse (pb.jp_accepted r) (pb.jp_term r) (pb.jp_leader_addr r)
        (pb.jp_peer_addrs r) (pb.jp_reason r))
  | None => VoteResponse (mkVoteResponse 0 false)
  end.

(** *** The transaction vote ([coordination.rs]) *)

#[export] Instance tx_request_to_pb : ToPb TxVoteRequest pb.VoteRequest := λ d,
  pb.mkVoteRequest (tv_term d) (tv_tx_id d) (tv_last_log_index d) (tv_last_log_term d).
#[export] Instance tx_response_to_pb : ToPb TxVoteResponse pb.VoteResponse_ := λ d,
  pb.mkVoteResponse (tr_term d) (tr_granted d) (tr_reason d).
#[export] Instance tx_request_of_pb : OfPb pb.VoteRequest TxVoteRequest := λ p,
  mkTxVoteRequest (pb.vq_term p) (pb.vq_tx_id p) (pb.vq_last_log_index p) (pb.vq_last_log_term p).
#[export] Instance tx_response_of_pb : OfPb pb.VoteResponse_ TxVoteResponse := λ p,
  mkTxVoteResponse (pb.vp_term p) (pb.vp_vote_granted p) (pb.vp_reason p).

(** ** Round trips *)

(** The commands the front end intercepts are not meant to be in a log: the
    decoder turns them into the no-op. *)
Definition log_command (c : Command) : Prop :=
  match c with CAddNode _ | CRemoveNode _ | CAbortTx _ => False | _ => True end.

Definition as_logged (c : Command) : Command :=
  match c with CAddNode _ | CRemoveNode _ | CAbortTx _ => CCompact | _ => c end.

Definition log_entry_ok (e : LogEntry) : Prop := log_command (le_command e).

Lemma of_to_list {D P} `{ToPb D P, OfPb P D} (ok : D → Prop) `{!WireLaws D P ok} (l : list D) :
  Forall ok l → of_pb <$> (to_pb <$> l) = l.
Proof.
  induction 1 as [|d l Hd _ IH]; [done|]. simpl. rewrite of_to_pb by done. by f_equal.
Qed.

Lemma always_all {D} (l : list D) : Forall always l.
Proof. by apply Forall_true. Qed.

#[export] Instance server_wire : WireLaws ServerId pb.ServerId always.
Proof. by intros [] _. Qed.
#[export] Instance op_wire : WireLaws TxOp pb.TxOp always.
Proof. by intros [] _. Qed.
#[export] Instance config_wire : WireLaws Configuration pb.ConfigurationEntry always.
Proof.
  intros [s|old new] _; unfold of_pb, config_of_pb, to_pb, config_to_pb, pb.kind_of; simpl;
    by rewrite ?(of_to_list always) by apply always_all.
Qed.

Lemma command_wire_eq c : of_pb (to_pb (P := pb.Command) c) = as_logged c.
Proof.
  destruct c; try done; unfold of_pb, command_of_pb, to_pb, command_to_pb; simpl.
  - f_equal. apply (of_to_list always), always_all.
  - by destruct decision.
  - f_equal. by apply (of_to_pb (ok := always)).
Qed.

#[export] Instance command_wire : WireLaws Command pb.Command log_command.
Proof. intros c Hc. rewrite command_wire_eq. by destruct c. Qed.

#[export] Instance entry_wire : WireLaws LogEntry pb.LogEntry log_entry_ok.
Proof.
  intros [t i c] Hc. unfold of_pb, entry_of_pb, to_pb, entry_to_pb. simpl. f_equal. by apply of_to_pb.
Qed.

Definition message_ok (m : RaftMessage) : Prop :=
  match m with AppendEntries a => Forall log_entry_ok (ae_entries a) | _ => True end.

(** What arrives: every command of the front end has become a no-op. *)
Definition logged_entry (e : LogEntry) : LogEntry := mkLogEntry (le_term e) (le_index e) (as_logged (le_command e)).

Definition arrives (m : RaftMessage) : RaftMessage :=
  match m with
  | AppendEntries a =>
      AppendEntries (mkAppendEntries (ae_term a) (ae_leader_id a) (ae_prev_log_index a)
        (ae_prev_log_term a) (logged_entry <$> ae_entries a) (ae_leader_commit a))
  | _ => m
  end.

Lemma entries_wire_eq (es : list LogEntry) : of_pb <$> (to_pb (P := pb.LogEntry) <$> es) = logged_entry <$> es.
Proof.
  rewrite <- list_fmap_compose. apply list_fmap_ext. intros k [t i c] _.
  unfold compose, of_pb, entry_of_pb, to_pb, entry_to_pb, logged_entry. simpl.
  by rewrite command_wire_eq.
Qed.

Lemma logged_entries_ok (es : list LogEntry) : Forall log_entry_ok es → logged_entry <$> es = es.
Proof.
  intros Hes. rewrite <- (list_fmap_id es) at 2. apply Forall_fmap_ext_1.
  eapply Forall_impl; [exact Hes|]. intros [t i c] Hc. unfold logged_entry. simpl. f_equal. by destruct c.
Qed.

(** C24: messages survive the wire. Decoding the protobuf form of any message
    gives the message back, field by field, except that the three commands
    which only the front end accepts arrive as no-ops inside log entries; a message
    whose entries hold commands that belong in a log is unchanged. *)
Theorem messages_survive_the_wire m :
  decode_domain (encode_domain m) = arrives m ∧ (message_ok m → arrives m = m).
Proof.
  destruct m as [[]|[]|[t l pi pt es lc]|[]|[t l i it [si st d]]|[]|[]|[]|[]|[]]; try done. split.
  - unfold decode_domain, encode_domain. simpl. f_equal.
    unfold of_pb, append_of_pb, to_pb, append_to_pb. simpl. f_equal. apply entries_wire_eq.
  - intros Hok. unfold arrives. simpl in *. by rewrite logged_entries_ok.
Qed.

Lemma messages_survive_the_wire_witness :
  let m := AppendEntries (mkAppendEntries 1 "a" 0 0 [mkLogEntry 1 1 (CSet "k" "v")] 0) in
  decode_domain (encode_domain m) = m.
Proof.
  intros m. destruct (messages_survive_the_wire m) as [-> H]. apply H. repeat constructor.
Defined.

(** The transaction vote, both ways. *)
Lemma votes_survive_the_wire (q : TxVoteRequest) (r : TxVoteResponse) :
  of_pb (to_pb (P := pb.VoteRequest) q) = q ∧ of_pb (to_pb (P := pb.VoteResponse_) r) = r.
Proof. by destruct q, r. Qed.

(** What the decoder does with what it cannot use. *)
Lemma empty_message_is_refusal : decode_domain (pb.mkRaftMessage None) = VoteResponse (mkVoteResponse 0 false).
Proof. done. Qed.
