(* ===== verification/FaultScheduler.v ===== *)
(** * Fault schedules of the simulation ([src/rust/oxide-kv/src/raft/fault_scheduler.rs])

    A scheduler decides the fate of every outgoing message. [FaultScheduler] is the
    trait; one instance per implementation. The state a scheduler keeps behind its mutex is
    threaded through. *)

From stdpp Require Import prelude gmap strings countable list.
From Stdlib Require Import QArith.
From S2P Require Import Prelude Protocol Rpc.
#[local] Open Scope Z_scope.

Record LinkId := mkLink { from : string; to : string }.

#[export] Instance LinkId_eq_dec : EqDecision LinkId.
Proof. solve_decision. Defined.
#[export] Instance LinkId_countable : Countable LinkId.
Proof. refine (inj_countable' (λ l, (from l, to l)) (λ x, mkLink x.1 x.2) _). by intros []. Defined.

(** [sim_transport::InboundMessageBody] *)
Inductive InboundMessageBody :=
  | Raft (msg : RaftMessage)
  | Vote (req : TxVoteRequest)
  | VoteReply (resp : TxVoteResponse).

(** Durations are milliseconds. *)
Inductive ScheduleOutcome :=
  | Deliver
  | Drop
  | Delay (ms : Z)
  | Duplicate (ms : Z).

Class FaultScheduler (S : Type) := {
  before_send : LinkId → InboundMessageBody → S → ScheduleOutcome * S;
  after_deliver : LinkId → InboundMessageBody → S → S;
  partitioned_links : S → list LinkId;
}.

(** The default methods of the trait. *)
Definition no_reaction {S} (_ : LinkId) (_ : InboundMessageBody) (s : S) : S := s.
Definition no_links {S} (_ : S) : list LinkId := [].

(** ** Floating-point samples

    A finite [f64] is a rational number; a comparison with a NaN is false. *)

Inductive f64 :=
  | NaN
  | NegInf
  | Finite (q : Q)
  | PosInf.

Definition f64_lt (x y : f64) : bool :=
  match x, y with
  | NaN, _ | _, NaN => false
  | NegInf, NegInf => false
  | NegInf, _ => true
  | Finite _, NegInf => false
  | Finite p, Finite q => negb (Qle_bool q p)
  | Finite _, PosInf => true
  | PosInf, _ => false
  end.

(** [f64::clamp]: [if x < lo { lo } else if x > hi { hi } else { x }] *)
Definition f64_clamp (lo hi x : f64) : f64 :=
  if f64_lt x lo then lo else if f64_lt hi x then hi else x.

(** ** The implementations *)

Record DropUnless := mkDropUnless { cond : LinkId → InboundMessageBody → bool }.

#[export] Instance drop_unless : FaultScheduler DropUnless := {
  before_send link body s := (if cond s link body then Deliver else Drop, s);
  after_deliver := no_reaction;
  partitioned_links := no_links;
}.

Record AlwaysDeliver := mkAlwaysDeliver {}.

#[export] Instance always_deliver : FaultScheduler AlwaysDeliver := {
  before_send _ _ s := (Deliver, s);
  after_deliver := no_reaction;
  partitioned_links := no_links;
}.

Record DropLink := mkDropLink { dl_from : string; dl_to : string }.

#[export] Instance drop_link : FaultScheduler DropLink := {
  before_send link _ s :=
    (if bool_decide (from link = dl_from s) && bool_decide (to link = dl_to s) then Drop else Deliver, s);
  after_deliver := no_reaction;
  partitioned_links := no_links;
}.

(** A random source: the next sample, and the source after it. *)
Record Rng := mkRng { rng_state : Type; rng_now : rng_state; rng_next : rng_state → f64 * rng_state }.

Definition sample (r : Rng) : f64 * Rng :=
  let '(x, s) := rng_next r (rng_now r) in (x, mkRng (rng_state r) s (rng_next r)).

Record RandomDrop := mkRandomDrop { rd_rng : Rng }.

#[export] Instance random_drop : FaultScheduler RandomDrop := {
  before_send _ _ s :=
    let '(x, rng) := sample (rd_rng s) in
    (if f64_lt x (Finite (1 # 2)) then Drop else Deliver, mkRandomDrop rng);
  after_deliver := no_reaction;
  partitioned_links := no_links;
}.

Record PartitionedNetwork := mkPartitionedNetwork { partitioned : gset LinkId }.

Definition partitioned_network_new : PartitionedNetwork := mkPartitionedNetwork ∅.
Definition partition (link : LinkId) (s : PartitionedNetwork) : PartitionedNetwork :=
  mkPartitionedNetwork ({[link]} ∪ partitioned s).
Definition heal (_ : PartitionedNetwork) : PartitionedNetwork := mkPartitionedNetwork ∅.

#[export] Instance partitioned_network : FaultScheduler PartitionedNetwork := {
  before_send link _ s := (if bool_decide (link ∈ partitioned s) then Drop else Deliver, s);
  after_deliver := no_reaction;
  partitioned_links := no_links;
}.

Record RandomDelay := mkRandomDelay { ry_rng : Rng; p_delay : f64; ry_delay : Z }.

Definition random_delay_new (rng : Rng) (p : f64) (delay : Z) : RandomDelay :=
  mkRandomDelay rng (f64_clamp (Finite 0) (Finite 1) p) delay.

#[export] Instance random_delay : FaultScheduler RandomDelay := {
  before_send _ _ s :=
    let '(x, rng) := sample (ry_rng s) in
    (if f64_lt x (p_delay s) then Delay (ry_delay s) else Deliver, mkRandomDelay rng (p_delay s) (ry_delay s));
  after_deliver := no_reaction;
  partitioned_links := no_links;
}.

Record DuplicateAll := mkDuplicateAll { da_delay : Z }.

Definition duplicate_all_default : DuplicateAll := mkDuplicateAll 50.

#[export] Instance duplicate_all : FaultScheduler DuplicateAll := {
  before_send _ _ s := (Duplicate (da_delay s), s);
  after_deliver := no_reaction;
  partitioned_links := no_links;
}.

(** ** What a partition is *)

(** The operations of the harness on a partition. *)
Inductive partition_op := OpPartition (link : LinkId) | OpHeal.

Definition partition_ops (ops : list partition_op) (s : PartitionedNetwork) : PartitionedNetwork :=
  foldl (λ s op, match op with OpPartition l => partition l s | OpHeal => heal s end) s ops.

(** The links cut since the last [heal]. *)
Fixpoint cut_links (ops : list partition_op) (acc : list LinkId) : list LinkId :=
  match ops with
  | [] => acc
  | OpPartition l :: ops' => cut_links ops' (l :: acc)
  | OpHeal :: ops' => cut_links ops' []
  end.

Lemma partition_ops_eq ops s acc : (∀ l, l ∈ partitioned s ↔ l ∈ acc) →
  ∀ l, l ∈ partitioned (partition_ops ops s) ↔ l ∈ cut_links ops acc.
Proof.
  revert s acc. induction ops as [|[x|] ops IH]; intros s acc H l; simpl; [done|..]; apply IH.
  - intros y. simpl. rewrite elem_of_union, elem_of_singleton, elem_of_cons, H. done.
  - intros y. simpl. set_solver.
Qed.

(** A message is dropped exactly when its link, in its direction, was cut after the
    last healing; deciding does not change the partition. *)
Lemma partition_drops_cut_links ops link body :
  let s := partition_ops ops partitioned_network_new in
  before_send link body s = (if bool_decide (link ∈ cut_links ops []) then Drop else Deliver, s).
Proof.
  intros s. simpl. f_equal. assert (H : link ∈ partitioned s ↔ link ∈ cut_links ops []).
  { apply partition_ops_eq. set_solver. }
  by rewrite (bool_decide_ext _ _ H).
Qed.

(** The probability of a delay is a probability, whatever was asked for, unless it
    was not a number. *)
Lemma random_delay_probability rng p d :
  match p_delay (random_delay_new rng p d) with
  | NaN => p = NaN
  | Finite q => (0 <= q <= 1)%Q
  | NegInf | PosInf => False
  end.
Proof.
  unfold random_delay_new, f64_clamp. simpl. destruct p as [| |q|]; simpl; try done.
  destruct (Qle_bool 0 q) eqn:E1; simpl; [|done].
  destruct (Qle_bool q 1) eqn:E2; simpl; [|done]. by rewrite Qle_bool_iff in E1, E2.
Qed.

(** The listing of partitioned links is the default of the trait: it is empty even
    when links are cut. *)
Lemma partitioned_links_is_empty link : partitioned_links (partition link partitioned_network_new) = [].
Proof. done. Qed.
