(* ===== verification/Node.v ===== *)
(** * The Raft node ([src/rust/oxide-kv/src/raft/node.rs])

    The state of a node and every handler, proposal, timer action and
    reply handler, each one a computation on the whole node: its log, its
    durable state ([Storage]) and its state machine ([StateMachine]).

    A method that spawns RPC tasks returns the messages it sends; what a task
    does with the reply is a definition of its own ([on_append_reply],
    [on_vote_reply], [on_pre_vote_reply]), given what the task captured. The lock is
    held for exactly one such definition at a time. [clock] is what the node's clock
    reads; the gauges ([refresh_metrics]) and the log lines are left out. *)

From stdpp Require Import prelude gmap strings pretty sorting countable list.
From S2P Require Import Prelude Serde Protocol StateMachine Storage Rpc.
#[local] Open Scope Z_scope.

Inductive NodeState := Follower | Candidate | Leader | PreCandidate.

#[export] Instance NodeState_eq_dec : EqDecision NodeState.
Proof. solve_decision. Defined.

Record RaftNode := mkNode {
  state_machine : StateMachine;   (** The key-value store. *)
  current_term : Z;
  vote_for : option string;
  storage : Disk;
  log : list LogEntry;
  state : NodeState;
  self_id : string;   (** [node_id] *)
  peers : list string;
  commit_index : Z;
  last_applied : Z;
  last_heartbeat : Z;
  last_quorum_heartbeat_at : option Z;
  clock : Z;   (** What [clock.now()] reads now. *)
  next_index : gmap string Z;
  match_index : gmap string Z;
  current_config : Configuration;
  pending_post_joint_simple : option Configuration;
}.

Definition with_state_machine (x : StateMachine) (n : RaftNode) : RaftNode :=
  mkNode x (current_term n) (vote_for n) (storage n) (log n) (state n) (self_id n) (peers n)
    (commit_index n) (last_applied n) (last_heartbeat n) (last_quorum_heartbeat_at n) (clock
    n) (next_index n) (match_index n) (current_config n) (pending_post_joint_simple n).
Definition with_current_term (x : Z) (n : RaftNode) : RaftNode :=
  mkNode (state_machine n) x (vote_for n) (storage n) (log n) (state n) (self_id n) (peers
    n) (commit_index n) (last_applied n) (last_heartbeat n) (last_quorum_heartbeat_at n)
    (clock n) (next_index n) (match_index n) (current_config n) (pending_post_joint_simple
    n).
Definition with_vote_for (x : option string) (n : RaftNode) : RaftNode :=
  mkNode (state_machine n) (current_term n) x (storage n) (log n) (state n) (self_id n)
    (peers n) (commit_index n) (last_applied n) (last_heartbeat n) (last_quorum_heartbeat_at
    n) (clock n) (next_index n) (match_index n) (current_config n)
    (pending_post_joint_simple n).
Definition with_storage (x : Disk) (n : RaftNode) : RaftNode :=
  mkNode (state_machine n) (current_term n) (vote_for n) x (log n) (state n) (self_id n)
    (peers n) (commit_index n) (last_applied n) (last_heartbeat n) (last_quorum_heartbeat_at
    n) (clock n) (next_index n) (match_index n) (current_config n)
    (pending_post_joint_simple n).
Definition with_log (x : list LogEntry) (n : RaftNode) : RaftNode :=
  mkNode (state_machine n) (current_term n) (vote_for n) (storage n) x (state n) (self_id n)
    (peers n) (commit_index n) (last_applied n) (last_heartbeat n) (last_quorum_heartbeat_at
    n) (clock n) (next_index n) (match_index n) (current_config n)
    (pending_post_joint_simple n).
Definition with_state (x : NodeState) (n : RaftNode) : RaftNode :=
  mkNode (state_machine n) (current_term n) (vote_for n) (storage n) (log n) x (self_id n)
    (peers n) (commit_index n) (last_applied n) (last_heartbeat n) (last_quorum_heartbeat_at
    n) (clock n) (next_index n) (match_index n) (current_config n)
    (pending_post_joint_simple n).
Definition with_peers (x : list string) (n : RaftNode) : RaftNode :=
  mkNode (state_machine n) (current_term n) (vote_for n) (storage n) (log n) (state n)
    (self_id n) x (commit_index n) (last_applied n) (last_heartbeat n)
    (last_quorum_heartbeat_at n) (clock n) (next_index n) (match_index n) (current_config n)
    (pending_post_joint_simple n).
Definition with_commit_index (x : Z) (n : RaftNode) : RaftNode :=
  mkNode (state_machine n) (current_term n) (vote_for n) (storage n) (log n) (state n)
    (self_id n) (peers n) x (last_applied n) (last_heartbeat n) (last_quorum_heartbeat_at n)
    (clock n) (next_index n) (match_index n) (current_config n) (pending_post_joint_simple
    n).
Definition with_last_applied (x : Z) (n : RaftNode) : RaftNode :=
  mkNode (state_machine n) (current_term n) (vote_for n) (storage n) (log n) (state n)
    (self_id n) (peers n) (commit_index n) x (last_heartbeat n) (last_quorum_heartbeat_at n)
    (clock n) (next_index n) (match_index n) (current_config n) (pending_post_joint_simple
    n).
Definition with_last_heartbeat (x : Z) (n : RaftNode) : RaftNode :=
  mkNode (state_machine n) (current_term n) (vote_for n) (storage n) (log n) (state n)
    (self_id n) (peers n) (commit_index n) (last_applied n) x (last_quorum_heartbeat_at n)
    (clock n) (next_index n) (match_index n) (current_config n) (pending_post_joint_simple
    n).
Definition with_last_quorum_heartbeat_at (x : option Z) (n : RaftNode) : RaftNode :=
  mkNode (state_machine n) (current_term n) (vote_for n) (storage n) (log n) (state n)
    (self_id n) (peers n) (commit_index n) (last_applied n) (last_heartbeat n) x (clock n)
    (next_index n) (match_index n) (current_config n) (pending_post_joint_simple n).
Definition with_clock (x : Z) (n : RaftNode) : RaftNode :=
  mkNode (state_machine n) (current_term n) (vote_for n) (storage n) (log n) (state n)
    (self_id n) (peers n) (commit_index n) (last_applied n) (last_heartbeat n)
    (last_quorum_heartbeat_at n) x (next_index n) (match_index n) (current_config n)
    (pending_post_joint_simple n).
Definition with_next_index (x : gmap string Z) (n : RaftNode) : RaftNode :=
  mkNode (state_machine n) (current_term n) (vote_for n) (storage n) (log n) (state n)
    (self_id n) (peers n) (commit_index n) (last_applied n) (last_heartbeat n)
    (last_quorum_heartbeat_at n) (clock n) x (match_index n) (current_config n)
    (pending_post_joint_simple n).
Definition with_match_index (x : gmap string Z) (n : RaftNode) : RaftNode :=
  mkNode (state_machine n) (current_term n) (vote_for n) (storage n) (log n) (state n)
    (self_id n) (peers n) (commit_index n) (last_applied n) (last_heartbeat n)
    (last_quorum_heartbeat_at n) (clock n) (next_index n) x (current_config n)
    (pending_post_joint_simple n).
Definition with_current_config (x : Configuration) (n : RaftNode) : RaftNode :=
  mkNode (state_machine n) (current_term n) (vote_for n) (storage n) (log n) (state n)
    (self_id n) (peers n) (commit_index n) (last_applied n) (last_heartbeat n)
    (last_quorum_heartbeat_at n) (clock n) (next_index n) (match_index n) x
    (pending_post_joint_simple n).
Definition with_pending_post_joint_simple (x : option Configuration) (n : RaftNode) : RaftNode :=
  mkNode (state_machine n) (current_term n) (vote_for n) (storage n) (log n) (state n)
    (self_id n) (peers n) (commit_index n) (last_applied n) (last_heartbeat n)
    (last_quorum_heartbeat_at n) (clock n) (next_index n) (match_index n) (current_config n)
    x.

Definition on_sm {A} (m : M StateMachine A) : M RaftNode A := zoom state_machine with_state_machine m.
Definition on_disk {A} (m : M Disk A) : M RaftNode A := zoom storage with_storage m.
Definition on_disk_read {A} (f : Disk → A * Disk) : M RaftNode A := λ n,
  let '(a, d) := f (storage n) in (Ok a, with_storage d n).

(** [.expect(..)]: an error is a panic. *)
Definition expect {S A} (m : M S A) : M S A := λ s,
  match m s with
  | (Ok a, s') => (Ok a, s')
  | (Err _, s') => (Err Panicked, s')
  end.

Definition log_len (n : RaftNode) : Z := Z.of_nat (length (log n)).

(** Messages a method sends: the peer's address and the message. *)
Abbreviation outgoing := (list (string * RaftMessage)).

Section node.
Context {JW : Json WalOp} {JE : Json (list SSTEntry)} {JM : Json SSTableMeta}.
Context {BL : Bincode LogEntry} {JV : Json Value} {JS : Json Snapshot}.

(** ** Construction and restart *)

Definition server_of (a : string) : ServerId := mkServerId a a.

Definition raft_node_new (raft_addr : string) (peer_addrs : list string)
    (sm : StateMachine) (disk : Disk) (now : Z) : RaftNode :=
  let '((term, vote, logs), disk') := load_initial_state disk in
  let initial_servers := server_of raft_addr :: (server_of <$> peer_addrs) in
  mkNode sm term vote disk' logs Follower raft_addr peer_addrs 0 0 now None now ∅ ∅
    (Simple initial_servers) None.

Definition restore_from_snapshot : M RaftNode (option (Z * Z)) :=
  snap ← on_disk_read load_snapshot;
  match snap with
  | None => mret None
  | Some snap =>
      expect (on_sm (install_snapshot (snap_data snap))) ;;
      modify (λ n, with_commit_index (commit_index n `max` last_included_index snap) n) ;;
      modify (λ n, with_last_applied (last_applied n `max` last_included_index snap) n) ;;
      mret (Some (last_included_index snap, last_included_term snap))
  end.

Definition is_single_node (n : RaftNode) : bool := bool_decide (peers n = []).

Definition get_log_entry (index : Z) (n : RaftNode) : option LogEntry :=
  if index =? 0 then None else log n !! Z.to_nat (index - 1).

Definition set_peers (ps : list string) : M RaftNode unit :=
  modify (λ n, with_current_config (Simple (server_of (self_id n) :: (server_of <$> ps))) n) ;;
  modify (with_peers ps).

Definition push_log_entry_for_test (command : Command) : M RaftNode unit :=
  modify (λ n, with_log (log n ++ [mkLogEntry (current_term n) (log_len n + 1) command]) n).

Definition match_index_for (peer : string) (n : RaftNode) : Z := default 0 (match_index n !! peer).

Definition get_last_log_info (n : RaftNode) : Z * Z :=
  match last (log n) with
  | Some entry => (le_index entry, le_term entry)
  | None => (0, 0)
  end.

(** The up-to-date test the vote handlers share. *)
Definition log_up_to_date (last_log_index last_log_term : Z) (n : RaftNode) : bool :=
  let '(my_last_log_index, my_last_log_term) := get_last_log_info n in
  (my_last_log_term <? last_log_term)
  || ((last_log_term =? my_last_log_term) && (my_last_log_index <=? last_log_index)).

(** [storage.save_meta(self.current_term, self.vote_for.clone())], its error
    ignored or only logged. *)
Definition persist_meta : M RaftNode unit :=
  t ← gets current_term;
  v ← gets vote_for;
  ignore (on_disk (save_meta t v)).

(** Adopt a newer term. *)
Definition adopt_term (t : Z) : M RaftNode unit :=
  modify (with_current_term t) ;;
  modify (with_state Follower) ;;
  modify (with_vote_for None) ;;
  persist_meta.

Definition touch_heartbeat : M RaftNode unit := modify (λ n, with_last_heartbeat (clock n) n).

(** ** Votes *)

Definition handle_pre_vote (args : RequestVoteArgs) : M RaftNode VoteResponseArgs :=
  touch_heartbeat ;;
  my_term ← gets current_term;
  if (rv_term args <? my_term) || (u64_add my_term 1 <? rv_term args)
  then mret (mkVoteResponse my_term false) else
  st ← gets state;
  if (rv_term args =? my_term) && bool_decide (st = Leader)
  then mret (mkVoteResponse my_term false) else
  ok ← gets (log_up_to_date (rv_last_log_index args) (rv_last_log_term args));
  mret (mkVoteResponse my_term ok).

Definition handle_request_vote (args : RequestVoteArgs) : M RaftNode VoteResponseArgs :=
  t0 ← gets current_term;
  if rv_term args <? t0 then mret (mkVoteResponse t0 false) else
  (if t0 <? rv_term args then adopt_term (rv_term args) else mret tt) ;;
  is_log_up_to_date ← gets (log_up_to_date (rv_last_log_index args) (rv_last_log_term args));
  v ← gets vote_for;
  let can_vote := bool_decide (v = None) || bool_decide (v = Some (rv_candidate_id args)) in
  t ← gets current_term;
  if can_vote && (is_log_up_to_date : bool) then
    modify (with_vote_for (Some (rv_candidate_id args))) ;;
    persist_meta ;;
    touch_heartbeat ;;
    mret (mkVoteResponse t true)
  else mret (mkVoteResponse t false).

Definition handle_join_cluster (req : JoinClusterRequest) (n : RaftNode) : JoinClusterResponse :=
  let reject reason := mkJoinResponse false (current_term n) (self_id n) [] reason in
  let cand := candidate_addr req in
  if negb (bool_decide (state n = Leader)) then reject "not leader"
  else if String.eqb cand (self_id n) then reject "candidate_addr is the leader itself"
  else if existsb (λ s, String.eqb (addr s) cand || String.eqb (node_id s) cand)
            (all_servers (current_config n))
  then reject "candidate_addr is already a cluster member"
  else mkJoinResponse true (current_term n) (self_id n)
         (filter (λ a, a ≠ self_id n ∧ a ≠ cand) (addr <$> all_servers (current_config n)))
         EmptyString.

(** ** Applying the log *)

(** Append an entry of the current term at the next index: to the WAL first,
    to the log when that succeeded. Returns the index. *)
Definition append_own (command : Command) : M RaftNode Z :=
  index ← gets (λ n, log_len n + 1);
  t ← gets current_term;
  let entry := mkLogEntry t index command in
  on_disk (append_wal_log entry) ;;
  modify (λ n, with_log (log n ++ [entry]) n) ;;
  mret index.

Definition peers_of (config : Configuration) (self : string) : list string :=
  addr <$> filter (λ s, node_id s ≠ self) (all_servers config).

(** Is [simple_new] the second phase of the configuration just installed? *)
Definition second_phase_matches (config simple_new : Configuration) : bool :=
  match config with
  | Joint _ new => bool_decide (new = all_servers simple_new)
  | Simple c =>
      match simple_new with
      | Simple servers => bool_decide (c = servers)
      | Joint _ _ => false
      end
  end.

Definition install_configuration (config : Configuration) : M RaftNode unit :=
  self ← gets self_id;
  modify (with_current_config config) ;;
  modify (with_peers (peers_of config self)) ;;
  st ← gets state;
  pending ← gets pending_post_joint_simple;
  match st, pending with
  | Leader, Some simple_new =>
      modify (with_pending_post_joint_simple None) ;;
      if second_phase_matches config simple_new
      then ignore (append_own (CInstallConfiguration simple_new))
      else mret tt
  | _, _ => mret tt
  end.

Definition apply_command (cmd : Command) : M RaftNode unit :=
  match cmd with
  | CSet key value => ignore (on_sm (set key value))
  | CDelete key => ignore (on_sm (delete key))
  | CBeginTx tx_id ops => ignore (on_sm (begin_tx tx_id ops))
  | CDecideTx tx_id decision => ignore (on_sm (decide_tx tx_id decision))
  | CInstallConfiguration config => install_configuration config
  | CGet _ | CCompact | CAddNode _ | CRemoveNode _ | CAbortTx _ => mret tt
  end.

(** The loop of [apply_logs]: [last_applied] grows by one and [commit_index]
    stays, so their distance is fuel enough. *)
Fixpoint apply_loop (fuel : nat) : M RaftNode unit :=
  match fuel with
  | O => mret tt
  | S fuel' =>
      more ← gets (λ n, last_applied n <? commit_index n);
      if (more : bool) then
        entry ← gets (λ n, log n !! Z.to_nat (last_applied n));
        match entry with
        | None => mret tt
        | Some entry =>
            apply_command (le_command entry) ;;
            modify (λ n, with_last_applied (last_applied n + 1) n) ;;
            apply_loop fuel'
        end
      else mret tt
  end.

Definition apply_logs : M RaftNode unit :=
  fuel ← gets (λ n, Z.to_nat (commit_index n - last_applied n));
  apply_loop fuel.

(** One entry of [replay_logs]. *)
Definition replay_command (cmd : Command) : M RaftNode unit :=
  match cmd with
  | CSet key value => ignore (on_sm (set key value))
  | CDelete key => ignore (on_sm (delete key))
  | CBeginTx tx_id ops => ignore (on_sm (begin_tx tx_id ops))
  | CDecideTx tx_id decision => ignore (on_sm (decide_tx tx_id decision))
  | CInstallConfiguration config =>
      modify (with_current_config config) ;;
      modify (λ n, with_peers (peers_of config (self_id n)) n)
  | _ => mret tt
  end.

Fixpoint replay_entries (entries : list LogEntry) : M RaftNode unit :=
  match entries with
  | [] => mret tt
  | entry :: entries' => replay_command (le_command entry) ;; replay_entries entries'
  end.

Definition replay_logs : M RaftNode unit :=
  entries ← gets log;
  replay_entries entries ;;
  modify (λ n, with_last_applied (log_len n) n).

(** ** The transaction vote *)

Definition handle_tx_vote_request (req : TxVoteRequest) : M RaftNode TxVoteResponse :=
  t ← gets current_term;
  if tv_term req <? t then
    mret (mkTxVoteResponse t false
      ("stale term: request term " +:+ pretty (tv_term req) +:+ " < current term " +:+ pretty t))
  else if t <? tv_term req then
    adopt_term (tv_term req) ;;
    mret (mkTxVoteResponse (tv_term req) false
      ("term advance: adopted term " +:+ pretty (tv_term req)
         +:+ " but deferring vote to elected leader"))
  else
  info ← gets get_last_log_info;
  ok ← gets (log_up_to_date (tv_last_log_index req) (tv_last_log_term req));
  if negb ok then
    mret (mkTxVoteResponse t false
      ("leader log stale: leader=(" +:+ pretty (tv_last_log_index req) +:+ ", "
         +:+ pretty (tv_last_log_term req) +:+ ") local=(" +:+ pretty info.1 +:+ ", "
         +:+ pretty info.2 +:+ ")"))
  else
  modify (λ n, if (commit_index n <? tv_last_log_index req) && (tv_last_log_index req <=? log_len n)
               then with_commit_index (tv_last_log_index req) n else n) ;;
  apply_logs ;;
  view ← gets (λ n, pending_tx (tv_tx_id req) (state_machine n));
  match view with
  | None => mret (mkTxVoteResponse t false ("tx not pending: " +:+ tv_tx_id req))
  | Some _ =>
      self ← gets self_id;
      ignore (on_sm (record_vote (tv_tx_id req) self VoteYes)) ;;
      mret (mkTxVoteResponse t true EmptyString)
  end.

(** What the coordinator does to the node when a peer reports a higher term
    ([coordinator.rs]). *)
Definition tx_step_down (t : Z) : M RaftNode unit :=
  st ← gets state;
  if bool_decide (st = Leader) then adopt_term t else mret tt.

(** ** Proposals (leader) *)

(** A method that returns [false] or a domain error where the WAL failed. *)
Definition catch {S A B} (m : M S A) (ok : A → B) (err : io_error → B) : M S B := λ s,
  match m s with
  | (Ok a, s') => (Ok (ok a), s')
  | (Err e, s') => (Ok (err e), s')
  end.

Definition propose (command : Command) : M RaftNode bool :=
  st ← gets state;
  if bool_decide (st = Leader)
  then catch (append_own command) (λ _, true) (λ _, false)
  else mret false.

(** The loop of [propose_batch]; the entries' indices count from [index]. *)
Fixpoint propose_loop (commands : list Command) (index : Z) : M RaftNode unit :=
  match commands with
  | [] => mret tt
  | command :: commands' =>
      t ← gets current_term;
      let entry := mkLogEntry t index command in
      on_disk (append_wal_log entry) ;;
      modify (λ n, with_log (log n ++ [entry]) n) ;;
      propose_loop commands' (index + 1)
  end.

Definition propose_batch (commands : list Command) : M RaftNode bool :=
  st ← gets state;
  if bool_decide (st = Leader) then
    first_index ← gets (λ n, log_len n + 1);
    catch (propose_loop commands first_index) (λ _, true) (λ _, false)
  else mret false.

(** The common tail of the two membership proposals. *)
Definition propose_joint (old new : list ServerId) : M RaftNode (Z + MembershipError) :=
  r ← catch (append_own (CInstallConfiguration (Joint old new))) inl inr;
  match r with
  | inl joint_index =>
      modify (with_pending_post_joint_simple (Some (Simple new))) ;;
      mret (inl joint_index)
  | inr e => mret (inr (MStorageError e))
  end.

Definition propose_add_node (server : ServerId) : M RaftNode (Z + MembershipError) :=
  st ← gets state;
  if negb (bool_decide (st = Leader)) then mret (inr MNotLeader) else
  config ← gets current_config;
  if contains config (node_id server) then mret (inr (AlreadyMember (node_id server))) else
  propose_joint (all_servers config) (all_servers config ++ [server]).

Definition propose_remove_node (id : string) : M RaftNode (Z + MembershipError) :=
  st ← gets state;
  if negb (bool_decide (st = Leader)) then mret (inr MNotLeader) else
  self ← gets self_id;
  if String.eqb id self then mret (inr CannotRemoveSelf) else
  config ← gets current_config;
  if negb (contains config id) then mret (inr (NotMember id)) else
  let new := filter (λ s, node_id s ≠ id) (all_servers config) in
  if bool_decide (new = []) then mret (inr CannotRemoveLastServer) else
  propose_joint (all_servers config) new.

Definition propose_abort_tx (tx_id : string) : M RaftNode (Z + AbortTxError) :=
  st ← gets state;
  if negb (bool_decide (st = Leader)) then mret (inr ANotLeader) else
  pending ← gets (λ n, is_tx_pending tx_id (state_machine n));
  if negb pending then mret (inr (ANotFound tx_id)) else
  catch (append_own (CDecideTx tx_id Abort)) inl (λ e, inr (AStorageError e)).

Definition node_pending_txs_older_than (threshold : Z) (n : RaftNode) : list string :=
  pending_txs_older_than threshold (state_machine n).

(** ** Replication (leader) *)

Definition maybe_commit : M RaftNode unit :=
  st ← gets state;
  if negb (bool_decide (st = Leader)) then mret tt else
  highest ← gets (λ n, config_quorum_reached_index (current_config n) (match_index n)
                         (self_id n) (log_len n));
  commit ← gets commit_index;
  if commit <? highest then
    log_term ← gets (λ n, default 0 (le_term <$> log n !! Z.to_nat (highest - 1)));
    t ← gets current_term;
    if log_term =? t then modify (with_commit_index highest) ;; apply_logs else mret tt
  else mret tt.

(** What [sync_logs] reads before its loop. *)
Record SyncView := mkSyncView {
  sv_term : Z;
  sv_node_id : string;
  sv_commit_index : Z;
  sv_peers : list string;
  sv_log_len : Z;
}.

Definition sync_view (n : RaftNode) : SyncView :=
  mkSyncView (current_term n) (self_id n) (commit_index n) (peers n) (log_len n).

(** The message for one peer; the slice [log[next - 1..]] panics out of range. *)
Definition append_args (v : SyncView) (peer : string) : M RaftNode AppendEntriesArgs :=
  n ← gets id;
  let next := default 1 (next_index n !! peer) in
  let prev_idx := u64_sub next 1 in
  let prev_term :=
    if prev_idx =? 0 then 0
    else default 0 (le_term <$> log n !! Z.to_nat (prev_idx - 1)) in
  let args ents := mkAppendEntries (sv_term v) (sv_node_id v) prev_idx prev_term ents (sv_commit_index v) in
  if next <=? sv_log_len v then
    if (1 <=? next) && (next - 1 <=? log_len n)
    then mret (args (drop (Z.to_nat (next - 1)) (log n)))
    else throw Panicked
  else mret (args []).

Fixpoint send_appends (v : SyncView) (ps : list string) : M RaftNode outgoing :=
  match ps with
  | [] => mret []
  | peer :: ps' =>
      args ← append_args v peer;
      rest ← send_appends v ps';
      mret ((peer, AppendEntries args) :: rest)
  end.

Definition sync_logs : M RaftNode outgoing :=
  v ← gets sync_view;
  if bool_decide (sv_peers v = []) then
    st ← gets state;
    (if bool_decide (st = Leader) then maybe_commit else mret tt) ;; mret []
  else send_appends v (sv_peers v).

(** The task of [sync_logs] once the reply to [args] has come from [peer]. *)
Definition on_append_reply (peer : string) (args : AppendEntriesArgs) (reply : AppendReplyArgs) :
    M RaftNode unit :=
  if ar_success reply then
    let last_idx := u64_add (ae_prev_log_index args) (Z.of_nat (length (ae_entries args))) in
    modify (λ n, with_match_index (<[peer := last_idx]> (match_index n)) n) ;;
    modify (λ n, with_next_index (<[peer := u64_add last_idx 1]> (next_index n)) n) ;;
    modify (λ n, with_last_quorum_heartbeat_at (Some (clock n)) n) ;;
    maybe_commit
  else
  t ← gets current_term;
  if t <? ar_term reply then adopt_term (ar_term reply) else
  next ← gets (λ n, default 1 (next_index n !! peer));
  if 1 <? next
  then modify (λ n, with_next_index (<[peer := next - 1]> (next_index n)) n)
  else mret tt.

(** ** Elections *)

Definition become_leader : M RaftNode unit :=
  st ← gets state;
  if bool_decide (st = Leader) then mret tt else
  modify (with_state Leader) ;;
  modify (λ n, with_next_index (list_to_map ((λ p, (p, log_len n + 1)) <$> peers n)) n) ;;
  touch_heartbeat.

Definition become_leader_checked : M RaftNode bool :=
  st ← gets state;
  if negb (bool_decide (st = Candidate)) then mret false else
  become_leader ;; mret true.

Definition promote_to_candidate_locked : M RaftNode unit :=
  modify (λ n, with_current_term (u64_add (current_term n) 1) n) ;;
  modify (with_state Candidate) ;;
  modify (λ n, with_vote_for (Some (self_id n)) n) ;;
  persist_meta ;;
  touch_heartbeat.

(** What an election round captures when it starts. *)
Record VoteRound := mkVoteRound {
  vo_peers : list string;
  vo_term : Z;
  vo_args : RequestVoteArgs;
}.

Definition total_nodes (v : VoteRound) : nat := (length (vo_peers v) + 1)%nat.

Definition vote_round (t : Z) (n : RaftNode) : VoteRound :=
  let '(li, lt) := get_last_log_info n in
  mkVoteRound (peers n) t (mkRequestVote t (self_id n) li lt).

Definition request_votes : M RaftNode outgoing :=
  v ← gets (λ n, vote_round (current_term n) n);
  if (total_nodes v =? 1)%nat then
    n ← gets id;
    (if bool_decide (state n = Candidate) && (current_term n =? vo_term v)
     then become_leader else mret tt) ;; mret []
  else mret ((λ p, (p, RequestVote (vo_args v))) <$> vo_peers v).

Definition become_candidate : M RaftNode outgoing :=
  promote_to_candidate_locked ;; request_votes.

(** The task of [request_votes] once a peer has answered: [votes] is the
    shared counter before, the result is the counter after. *)
Definition on_vote_reply (total : nat) (term : Z) (votes : nat) (reply : VoteResponseArgs) :
    M RaftNode nat :=
  if vr_granted reply then
    let count := S votes in
    (if (Nat.div2 total <? count)%nat then
       n ← gets id;
       if bool_decide (state n = Candidate) && (current_term n =? term)
       then become_leader else mret tt
     else mret tt) ;; mret count
  else if term <? vr_term reply then adopt_term (vr_term reply) ;; mret votes
  else mret votes.

(** [become_pre_candidate] under its second lock, with what it read under the first. *)
Definition enter_pre_candidate (v : VoteRound) : M RaftNode outgoing :=
  n ← gets id;
  if bool_decide (state n = Follower) && (u64_add (current_term n) 1 =? vo_term v) then
    modify (with_state PreCandidate) ;;
    if (total_nodes v =? 1)%nat then
      st ← gets state;
      (if bool_decide (st = PreCandidate)
       then promote_to_candidate_locked ;; _ ← become_leader_checked; mret tt
       else mret tt) ;; mret []
    else mret ((λ p, (p, RequestPreVote (vo_args v))) <$> vo_peers v)
  else mret [].

Definition become_pre_candidate : M RaftNode outgoing :=
  v ← gets (λ n, vote_round (u64_add (current_term n) 1) n);
  enter_pre_candidate v.

(** [process_pre_vote_reply]: the counter after, and the votes requested when
    the quorum of probes is reached. The lock is free between the promotion and [request_votes]: what may happen there is
    covered where nodes run together, by promotion and request as steps of their own ([LPromote], [LRequestVotes]). *)
Definition process_pre_vote_reply (total : nat) (probed_term : Z) (votes : nat)
    (reply : VoteResponseArgs) : M RaftNode (nat * outgoing) :=
  if probed_term <? vr_term reply then
    modify (λ n, if bool_decide (state n = PreCandidate) then with_state Follower n else n) ;;
    mret (votes, [])
  else if negb (vr_granted reply) then mret (votes, [])
  else
  let count := S votes in
  if (count <=? Nat.div2 total)%nat then mret (count, []) else
  st ← gets state;
  if negb (bool_decide (st = PreCandidate)) then mret (count, []) else
  promote_to_candidate_locked ;;
  out ← request_votes;
  mret (count, out).

(** ** Replication (follower) *)

(** One entry of the loop of [handle_append_entries]. [entry.index - 1] wraps
    for index 0. *)
Definition append_entry (entry : LogEntry) : M RaftNode unit :=
  l ← gets log;
  let idx := u64_sub (le_index entry) 1 in
  if idx <? Z.of_nat (length l) then
    match l !! Z.to_nat idx with
    | Some e =>
        if le_term e =? le_term entry then mret tt
        else modify (with_log (take (Z.to_nat idx) l ++ [entry])) ;;
             ignore (on_disk (append_wal_log entry))
    | None => mret tt
    end
  else
    modify (with_log (l ++ [entry])) ;;
    ignore (on_disk (append_wal_log entry)).

Fixpoint append_loop (entries : list LogEntry) : M RaftNode unit :=
  match entries with
  | [] => mret tt
  | entry :: entries' => append_entry entry ;; append_loop entries'
  end.

Definition prev_matches (args : AppendEntriesArgs) (l : list LogEntry) : bool :=
  (ae_prev_log_index args <=? 0)
  || bool_decide (le_term <$> l !! Z.to_nat (ae_prev_log_index args - 1) = Some (ae_prev_log_term args)).

Definition handle_append_entries (args : AppendEntriesArgs) : M RaftNode AppendReplyArgs :=
  t0 ← gets current_term;
  st ← gets state;
  if ae_term args <? t0 then mret (mkAppendReply t0 false)
  else if (ae_term args =? t0) && bool_decide (st = Leader) then mret (mkAppendReply t0 false)
  else
  (if t0 <? ae_term args then
     modify (with_current_term (ae_term args)) ;;
     modify (with_vote_for None) ;;
     persist_meta
   else mret tt) ;;
  modify (with_state Follower) ;;
  touch_heartbeat ;;
  t ← gets current_term;
  ok ← gets (λ n, prev_matches args (log n));
  if negb ok then mret (mkAppendReply t false) else
  append_loop (ae_entries args) ;;
  commit ← gets commit_index;
  (if commit <? ae_leader_commit args then
     modify (λ n, with_commit_index (ae_leader_commit args `min` log_len n) n) ;;
     apply_logs
   else mret tt) ;;
  mret (mkAppendReply t true).

(** ** Snapshots *)

Fixpoint set_all (ps : list (string * string)) : M StateMachine unit :=
  match ps with
  | [] => mret tt
  | (k, v) :: ps' => ignore (set k v) ;; set_all ps'
  end.

Definition handle_install_snapshot (args : InstallSnapshotArgs) : M RaftNode InstallSnapshotReplyArgs :=
  t0 ← gets current_term;
  st ← gets state;
  if is_term args <? t0 then mret (mkInstallSnapshotReply t0)
  else if (is_term args =? t0) && bool_decide (st = Leader) then mret (mkInstallSnapshotReply t0)
  else
  (if t0 <? is_term args then adopt_term (is_term args) else mret tt) ;;
  modify (with_state Follower) ;;
  touch_heartbeat ;;
  ignore (on_disk (save_snapshot (is_snapshot args))) ;;
  expect (on_sm clear_for_snapshot) ;;
  on_sm (set_all (map_to_list (snap_data (is_snapshot args)))) ;;
  let last_included := is_last_included_index args in
  modify (λ n, with_log (filter (λ e, last_included < le_index e) (log n)) n) ;;
  ignore (on_disk (rewrite_wal_after_snapshot last_included)) ;;
  modify (λ n, with_commit_index (commit_index n `max` last_included) n) ;;
  modify (λ n, with_last_applied (last_applied n `max` last_included) n) ;;
  t ← gets current_term;
  mret (mkInstallSnapshotReply t).

Definition maybe_snapshot (threshold_bytes : Z) : M RaftNode bool :=
  st ← gets state;
  if negb (bool_decide (st = Leader)) then mret false else
  wal_size ← on_disk_read wal_size_bytes;
  if wal_size <=? threshold_bytes then mret false else
  snapshot_index ← gets commit_index;
  if snapshot_index =? 0 then mret false else
  snapshot_term ← gets (λ n, default 0 (le_term <$> log n !! Z.to_nat (snapshot_index - 1)));
  data ← expect (on_sm snapshot_data);
  saved ← catch (on_disk (save_snapshot (mkSnapshot snapshot_index snapshot_term data)))
            (λ _, true) (λ _, false);
  if negb saved then mret false else
  ignore (on_disk (rewrite_wal_after_snapshot snapshot_index)) ;;
  mret true.

(** One tick of [run_heartbeat_loop]. *)
Definition heartbeat_tick (threshold_bytes : Z) : M RaftNode outgoing :=
  st ← gets state;
  if bool_decide (st = Leader) then
    out ← sync_logs;
    _ ← maybe_snapshot threshold_bytes;
    mret out
  else mret [].

(** ** Linearizable reads *)

Definition begin_read : M RaftNode (option ReadIndex * outgoing) :=
  st ← gets state;
  if negb (bool_decide (st = Leader)) then mret (None, []) else
  ri ← gets (λ n, mkReadIndex (commit_index n) (clock n));
  out ← sync_logs;
  mret (Some ri, out).

(** [wall] is the system's monotonic clock: [Instant::elapsed] reads it, not the node's clock. *)
Definition confirm_read (max_election_timeout_ms wall : Z) (ri : ReadIndex) (n : RaftNode) : bool :=
  if negb (bool_decide (state n = Leader)) then false
  else if last_applied n <? ri_index ri then false
  else match last_quorum_heartbeat_at n with
       | None => false
       | Some t =>
           (saturating_sub wall t <? max_election_timeout_ms) && (ri_issued_at ri <=? t)
       end.

(** ** Start-up ([main]) *)

(** Open the state machine, build the node from its files, lead at once when
    there are no peers, restore the snapshot and replay the log. *)
Definition boot (config : StateMachineConfig) (raft_addr : string) (peer_addrs : list string)
    (files : Host) (disk : Disk) (now : Z) : result unit * RaftNode :=
  let '(r, files') := sm_open config files in
  match r with
  | Err _ =>
      (Err Panicked, raft_node_new raft_addr peer_addrs (mkSM config ∅ 0 [] 0 ∅ files') disk now)
  | Ok sm =>
      let n := raft_node_new raft_addr peer_addrs sm disk now in
      let n := if bool_decide (peer_addrs = []) then with_state Leader n else n in
      (_ ← restore_from_snapshot; replay_logs) n
  end.

(** ** Dispatch of a received message *)

(** [RpcServer::handle_raft_rpc_inner] after decoding: the reply, or none for a
    message that is itself a reply. *)
Definition handle_raft_rpc (msg : RaftMessage) : M RaftNode (option RaftMessage) :=
  match msg with
  | RequestVote args => r ← handle_request_vote args; mret (Some (VoteResponse r))
  | RequestPreVote args => r ← handle_pre_vote args; mret (Some (PreVoteResponse r))
  | AppendEntries args => r ← handle_append_entries args; mret (Some (AppendReply r))
  | InstallSnapshot args => r ← handle_install_snapshot args; mret (Some (InstallSnapshotReply r))
  | JoinCluster req => r ← gets (handle_join_cluster req); mret (Some (JoinClusterReply r))
  | VoteResponse _ | AppendReply _ | InstallSnapshotReply _ | PreVoteResponse _
  | JoinClusterReply _ => mret None
  end.

(** [sim_transport::dispatch_raft_message]: as above, without [JoinCluster]. *)
Definition dispatch_raft_message (msg : RaftMessage) : M RaftNode (option RaftMessage) :=
  match msg with
  | RequestVote args => r ← handle_request_vote args; mret (Some (VoteResponse r))
  | RequestPreVote args => r ← handle_pre_vote args; mret (Some (PreVoteResponse r))
  | AppendEntries args => r ← handle_append_entries args; mret (Some (AppendReply r))
  | InstallSnapshot args => r ← handle_install_snapshot args; mret (Some (InstallSnapshotReply r))
  | _ => mret None
  end.
End node.
