(* ===== verification/ReferenceModel.v ===== *)
(** * The sequential reference model ([src/rust/oxide-kv/src/raft/reference_model.rs])

    The oracle the simulation compares the cluster with: a map, the staged
    transactions, and the index of the next log entry. It doubles here as the
    abstract specification of what applying the log means: [Refinement] shows
    that the LSM state machine implements it. *)

From stdpp Require Import prelude gmap strings sorting countable list.
From S2P Require Import Prelude Serde Protocol StateMachine Storage Rpc Node.
#[local] Open Scope Z_scope.

Record ReferenceModel := mkRM {
  rm_state : gmap string string;
  rm_pending : gmap string (list TxOp);
  rm_next_index : Z;
}.

Definition rm_new : ReferenceModel := mkRM ∅ ∅ 1.

Definition rm_op (m : gmap string string) (op : TxOp) : gmap string string :=
  match op with
  | TxPut key value => <[key := value]> m
  | TxDelete key => base.delete key m
  end.

(** The effect of a command on the map and on the staged transactions. *)
Definition rm_effect (command : Command) (m : gmap string string)
    (pending : gmap string (list TxOp)) : gmap string string * gmap string (list TxOp) :=
  match command with
  | CSet key value => (<[key := value]> m, pending)
  | CDelete key => (base.delete key m, pending)
  | CBeginTx tx_id ops => (m, <[tx_id := ops]> pending)
  | CDecideTx tx_id decision =>
      match pending !! tx_id with
      | Some ops =>
          (match decision with Commit => foldl rm_op m ops | Abort => m end,
           base.delete tx_id pending)
      | None => (m, pending)
      end
  | CGet _ | CCompact | CAddNode _ | CRemoveNode _ | CInstallConfiguration _ | CAbortTx _ =>
      (m, pending)
  end.

(** [apply]: [false] when the entry was skipped. *)
Definition rm_apply (index : Z) (command : Command) (rm : ReferenceModel) : bool * ReferenceModel :=
  if index <? rm_next_index rm then (false, rm)
  else if rm_next_index rm <? index then (false, rm)
  else
    let '(m, p) := rm_effect command (rm_state rm) (rm_pending rm) in
    (true, mkRM m p (u64_add (rm_next_index rm) 1)).

(** The loop of [drain_to] and [replay_from_node] over the log of a node; it
    advances [next_index], so the distance to [commit_index] is fuel enough. *)
Fixpoint rm_loop (fuel : nat) (n : RaftNode) (commit : Z) (rm : ReferenceModel) (applied : nat) :
    nat * ReferenceModel :=
  match fuel with
  | O => (applied, rm)
  | S fuel' =>
      if rm_next_index rm <=? commit then
        match get_log_entry (rm_next_index rm) n with
        | None => (applied, rm)
        | Some e =>
            match rm_apply (rm_next_index rm) (le_command e) rm with
            | (true, rm') => rm_loop fuel' n commit rm' (S applied)
            | (false, rm') => (applied, rm')
            end
        end
      else (applied, rm)
  end.

Definition rm_drain (n : RaftNode) (commit : Z) (rm : ReferenceModel) : nat * ReferenceModel :=
  rm_loop (Z.to_nat (commit - rm_next_index rm + 1)) n commit rm 0.

(** [drain_to], given the node [leader_index] designates. *)
Definition drain_to (leader : option RaftNode) (commit : Z) (rm : ReferenceModel) :
    nat * ReferenceModel :=
  match leader with
  | None => (0%nat, rm)
  | Some n => rm_drain n commit rm
  end.

Definition rm_get (key : string) (rm : ReferenceModel) : option string := rm_state rm !! key.
Definition rm_snapshot (rm : ReferenceModel) : gmap string string := rm_state rm.
Definition rm_applied_index (rm : ReferenceModel) : Z := saturating_sub (rm_next_index rm) 1.

Definition rm_reset (_ : ReferenceModel) : ReferenceModel := mkRM ∅ ∅ 1.

Definition replay_from_node (n : RaftNode) (commit : Z) (rm : ReferenceModel) : nat * ReferenceModel :=
  rm_drain n commit (rm_reset rm).

Definition replay_from_leader (leader : option RaftNode) (commit : Z) (rm : ReferenceModel) :
    nat * ReferenceModel :=
  match leader with
  | None => (0%nat, rm_reset rm)
  | Some n => replay_from_node n commit rm
  end.
