(* ===== verification/Instances.v ===== *)
(** * Concrete codecs

    [Countable] instances of the persisted types, and from them instances of the
    serialisation interfaces of [Serde]. They make the whole model
    executable, and show that the laws the theorems assume can hold. *)

From stdpp Require Import prelude gmap strings countable list.
From S2P Require Import Prelude Serde Protocol StateMachine.

#[export] Instance WalOp_eq_dec : EqDecision WalOp.
Proof. solve_decision. Defined.
#[export] Instance WalOp_countable : Countable WalOp.
Proof.
  refine (inj_countable'
    (λ o, match o with WPut k v => inl (k, v) | WDelete k => inr k end)
    (λ x, match x with inl (k, v) => WPut k v | inr k => WDelete k end) _).
  by intros [].
Defined.

#[export] Instance SSTEntry_eq_dec : EqDecision SSTEntry.
Proof. solve_decision. Defined.
#[export] Instance SSTEntry_countable : Countable SSTEntry.
Proof.
  refine (inj_countable' (λ e, (e_key e, e_value e, e_tombstone e))
    (λ x, mkSSTEntry x.1.1 x.1.2 x.2) _).
  by intros [].
Defined.

#[export] Instance SSTableMeta_eq_dec : EqDecision SSTableMeta.
Proof. solve_decision. Defined.
#[export] Instance SSTableMeta_countable : Countable SSTableMeta.
Proof.
  refine (inj_countable'
    (λ m, (m_id m, m_first_key m, m_last_key m, m_entry_count m, m_created_at m))
    (λ x, mkSSTableMeta x.1.1.1.1 x.1.1.1.2 x.1.1.2 x.1.2 x.2) _).
  by intros [].
Defined.

#[export] Instance ServerId_countable : Countable ServerId.
Proof.
  refine (inj_countable' (λ s, (node_id s, addr s)) (λ x, mkServerId x.1 x.2) _). by intros [].
Defined.

#[export] Instance Configuration_countable : Countable Configuration.
Proof.
  refine (inj_countable'
    (λ c, match c with Simple s => inl s | Joint o n => inr (o, n) end)
    (λ x, match x with inl s => Simple s | inr (o, n) => Joint o n end) _).
  by intros [].
Defined.

#[export] Instance TxOp_countable : Countable TxOp.
Proof.
  refine (inj_countable'
    (λ o, match o with TxPut k v => inl (k, v) | TxDelete k => inr k end)
    (λ x, match x with inl (k, v) => TxPut k v | inr k => TxDelete k end) _).
  by intros [].
Defined.

#[export] Instance TxDecision_countable : Countable TxDecision.
Proof.
  refine (inj_countable' (λ d, match d with Commit => true | Abort => false end)
    (λ b : bool, if b then Commit else Abort) _).
  by intros [].
Defined.

#[export] Instance Command_countable : Countable Command.
Proof.
  refine (inj_countable'
    (λ c, match c with
          | CSet k v => inl (inl (inl (k, v)))
          | CGet k => inl (inl (inr (inl k)))
          | CDelete k => inl (inl (inr (inr k)))
          | CCompact => inl (inr (inl tt))
          | CAbortTx t => inl (inr (inr (inl t)))
          | CBeginTx t ops => inl (inr (inr (inr (t, ops))))
          | CDecideTx t d => inr (inl (inl (t, d)))
          | CAddNode s => inr (inl (inr s))
          | CRemoveNode i => inr (inr (inl i))
          | CInstallConfiguration c => inr (inr (inr c))
          end)
    (λ x, match x with
          | inl (inl (inl (k, v))) => CSet k v
          | inl (inl (inr (inl k))) => CGet k
          | inl (inl (inr (inr k))) => CDelete k
          | inl (inr (inl tt)) => CCompact
          | inl (inr (inr (inl t))) => CAbortTx t
          | inl (inr (inr (inr (t, ops)))) => CBeginTx t ops
          | inr (inl (inl (t, d))) => CDecideTx t d
          | inr (inl (inr s)) => CAddNode s
          | inr (inr (inl i)) => CRemoveNode i
          | inr (inr (inr c)) => CInstallConfiguration c
          end) _).
  by intros [].
Defined.

#[export] Instance LogEntry_countable : Countable LogEntry.
Proof.
  refine (inj_countable' (λ e, (le_term e, le_index e, le_command e))
    (λ x, mkLogEntry x.1.1 x.1.2 x.2) _).
  by intros [].
Defined.

#[export] Instance Snapshot_eq_dec : EqDecision Snapshot.
Proof. solve_decision. Defined.
#[export] Instance Snapshot_countable : Countable Snapshot.
Proof.
  refine (inj_countable'
    (λ s, (last_included_index s, last_included_term s, snap_data s))
    (λ x, mkSnapshot x.1.1 x.1.2 x.2) _).
  by intros [].
Defined.

Module Codec.
#[export] Instance json_wal : Json WalOp := CountableCodec.countable_json WalOp.
#[export] Instance json_wal_laws : JsonLaws WalOp := CountableCodec.countable_json_laws WalOp.
#[export] Instance json_entries : Json (list SSTEntry) :=
  CountableCodec.countable_json (list SSTEntry).
#[export] Instance json_entries_laws : JsonLaws (list SSTEntry) :=
  CountableCodec.countable_json_laws (list SSTEntry).
#[export] Instance json_meta : Json SSTableMeta := CountableCodec.countable_json SSTableMeta.
#[export] Instance json_meta_laws : JsonLaws SSTableMeta :=
  CountableCodec.countable_json_laws SSTableMeta.
#[export] Instance json_snapshot : Json Snapshot := CountableCodec.countable_json Snapshot.
#[export] Instance json_snapshot_laws : JsonLaws Snapshot :=
  CountableCodec.countable_json_laws Snapshot.
#[export] Instance json_value : Json Value := CountableCodec.countable_json Value.
#[export] Instance json_value_laws : JsonLaws Value := CountableCodec.countable_json_laws Value.
#[export] Instance bincode_log : Bincode LogEntry := CountableCodec.countable_bincode LogEntry.
#[export] Instance bincode_log_laws : BincodeLaws LogEntry :=
  CountableCodec.countable_bincode_laws LogEntry.
End Codec.

(** ** Sample hosts and machines *)

Definition fresh_host (faults : list outcome) : Host := mkHost EmptyString ∅ faults 0.

(** An empty machine that flushes at [threshold] bytes. *)
Definition fresh_sm (threshold : Z) (faults : list outcome) : StateMachine :=
  mkSM (mkSMConfig threshold) ∅ 0 [] 0 ∅ (fresh_host faults).
