(* ===== verification/LsmTheorems.v ===== *)
(** * What the LSM state machine guarantees

    The claims about [src/rust/oxide-kv/src/state_machine.rs]: every operation,
    under every pattern of I/O failures, moves [contents] the way the abstract
    key-value map moves; reads, snapshots and the transaction table agree with
    it; and the places where the code falls short of it. *)

From stdpp Require Import prelude gmap strings sorting countable list.
From S2P Require Import Prelude Serde Protocol StateMachine StateMachineProps Instances.
#[local] Open Scope Z_scope.

Section theorems.
Context {JW : Json WalOp} {LW : JsonLaws WalOp}.
Context {JE : Json (list SSTEntry)} {LE : JsonLaws (list SSTEntry)}.
Context {JM : Json SSTableMeta} {LM : JsonLaws SSTableMeta}.

(** C17: [set] refines insertion into the abstract map, whatever the pattern
    of I/O failures: the invariant is kept, the pending transactions are
    untouched, a call that returns [Ok] has inserted exactly the pair, a call
    that returns an error has either inserted it or changed nothing, and
    with no failing system call the result is [Ok]. *)
Theorem set_refines_insert k v s r s' :
  wf s → room 1 s → set k v s = (r, s') →
  wf s' ∧ pending_txs s' = pending_txs s ∧
  (r = Ok tt → contents s' = <[k := v]> (contents s)) ∧
  (contents s' = <[k := v]> (contents s) ∨ contents s' = contents s) ∧
  (no_faults (host s) → r = Ok tt).
Proof.
  intros Hwf Hroom E. destruct (wp_elim _ _ _ _ _ (set_wp k v s Hwf Hroom) E)
    as (? & Hs & _ & HL & ?).
  split_and!; [done|apply Hs|naive_solver|naive_solver|done].
Qed.

(** [delete] refines removal of the key, with the same guarantees as
    [set] under failures; the tombstone hides older values in every layer. *)
Theorem delete_refines_removal k s r s' :
  wf s → room 1 s → delete k s = (r, s') →
  wf s' ∧ pending_txs s' = pending_txs s ∧
  (r = Ok tt → contents s' = base.delete k (contents s)) ∧
  (contents s' = base.delete k (contents s) ∨ contents s' = contents s) ∧
  (no_faults (host s) → r = Ok tt).
Proof.
  intros Hwf Hroom E. destruct (wp_elim _ _ _ _ _ (delete_wp k s Hwf Hroom) E)
    as (? & Hs & _ & HL & ?).
  split_and!; [done|apply Hs|naive_solver|naive_solver|done].
Qed.

(** [flush] moves the memtable into a new table without changing what is
    stored, even when it fails half way; when it returns [Ok] the memtable is empty. *)
Theorem flush_preserves_contents s r s' :
  wf s → room 1 s → flush s = (r, s') →
  wf s' ∧ contents s' = contents s ∧ pending_txs s' = pending_txs s ∧
  (r = Ok tt → memtable s' = ∅) ∧ (no_faults (host s) → r = Ok tt).
Proof.
  intros Hwf Hroom E. destruct (wp_elim _ _ _ _ _ (flush_wp s Hwf Hroom) E)
    as (? & Hs & HL & _ & ? & Hm).
  split_and!; [done|by unfold contents; rewrite HL|apply Hs|naive_solver|done].
Qed.

(** C30: compaction. On a well-formed machine with a table number to spare, whatever system call fails,
    [compact] changes neither what is stored nor the memtable nor the pending transactions. When it returns [Ok] on two or more
    tables, one table is left, and every entry of it has a value: the tombstones are gone. When no call fails it returns
    [Ok], and at most one table is left. *)
Theorem compact_preserves_contents s r s' :
  wf s → room 1 s → compact s = (r, s') →
  wf s' ∧ contents s' = contents s ∧ memtable s' = memtable s ∧
  pending_txs s' = pending_txs s ∧
  (r = Ok tt → (2 <= length (sstables s))%nat →
     ∃ t, sstables s' = [t] ∧ map_Forall (λ _ v, is_Some v) (table_layer (host s') t)) ∧
  (no_faults (host s) → r = Ok tt ∧ (length (sstables s') <= 1)%nat).
Proof.
  intros Hwf Hroom E. destruct (wp_elim _ _ _ _ _ (compact_wp s Hwf Hroom) E)
    as (? & Hs & ? & ? & _ & ? & ?).
  split_and!; [done..|apply Hs|done|done].
Qed.

Lemma get_cases k s : wf s → no_faults (host s) →
  ∃ r, get k s = (Ok r, s) ∧
    (r = None ∨ r = contents s !! k) ∧
    (is_Some (memtable s !! k) ∨ reads_through (host s) k (reverse (sstables s)) →
       r = contents s !! k).
Proof.
  intros Hwf Hn. unfold contents, visible, layers, mem_layer. rewrite lookup_omap, lookup_union.
  unfold get, gets, mbind, M_bind. rewrite lookup_fmap.
  destruct (memtable s !! k) as [e|] eqn:Ek.
  { exists (me_value e). simpl. rewrite union_Some_l. auto. }
  simpl. rewrite (left_id_L None (∪)).
  destruct (get_tables_spec k (reverse (sstables s)) (host s)) as (r & Hr & ? & ?);
    [by apply Forall_reverse, Hwf|done|].
  exists r. unfold on_host, zoom. rewrite Hr. split_and!; [by destruct s|done|].
  intros [[? [=]]|?]; auto.
Qed.

(** [get] never invents or resurrects a value: with no failing read, it
    returns and leaves the machine unchanged, and a value it returns is the
    one stored last under the key. *)
Theorem get_is_sound k s :
  wf s → no_faults (host s) →
  ∃ r, get k s = (Ok r, s) ∧ (∀ v, r = Some v → contents s !! k = Some v).
Proof.
  intros Hwf Hn. destruct (get_cases k s Hwf Hn) as (r & Hr & [-> | ->] & _); eauto.
  exists None. split; [done|]. by intros v [=].
Qed.

(** C31: [get] is exact where it can be. On a well-formed machine, when no system call fails (an unreadable table is
    skipped without a word), [get] returns what is stored for a key of the memtable, and for any key that every
    table whose range covers it holds (or that no older table holds); in
    particular, for every key once at most one table is left, as after [compact]. The machine is unchanged. *)
Theorem get_is_exact k s :
  wf s → no_faults (host s) →
  is_Some (memtable s !! k) ∨ reads_through (host s) k (reverse (sstables s)) ∨
    (length (sstables s) <= 1)%nat →
  get k s = (Ok (contents s !! k), s).
Proof.
  intros Hwf Hn Hk. destruct (get_cases k s Hwf Hn) as (r & -> & _ & Hr). rewrite Hr; [done|].
  destruct Hk as [?|[?|Hlen]]; auto. right.
  destruct (sstables s) as [|t [|t' ts]]; simpl in *; [done| |lia].
  split; [auto|done].
Qed.

(** [snapshot_data] is exactly the stored map (its error case apart,
    which needs a failing read). *)
Theorem snapshot_data_is_contents s r s' :
  wf s → snapshot_data s = (r, s') →
  (∀ m, r = Ok m → m = contents s) ∧ (no_faults (host s) → is_ok r = true ∧ s' = s).
Proof.
  intros Hwf E. destruct (wp_elim _ _ _ _ _ (snapshot_data_wp s Hwf) E) as (_ & ? & ?). done.
Qed.

(** snapshot round trip: installing the snapshot one machine produced
    makes any other machine store the same map, with no table and no pending
    transaction left. *)
Theorem snapshot_install_roundtrip s1 s2 m r s1' s2' :
  wf s1 → wf s2 →
  snapshot_data s1 = (Ok m, s1') → install_snapshot m s2 = (r, s2') →
  wf s2' ∧ (r = Ok tt → contents s2' = contents s1 ∧ sstables s2' = [] ∧ pending_txs s2' = ∅) ∧
  (no_faults (host s2) → r = Ok tt).
Proof.
  intros H1 H2 E1 E2.
  destruct (wp_elim _ _ _ _ _ (snapshot_data_wp s1 H1) E1) as (_ & _ & Hm).
  destruct (wp_elim _ _ _ _ _ (install_snapshot_wp m s2 H2) E2) as (? & _ & Hn & Hr).
  rewrite (Hm m eq_refl) in *. split_and!; [done| |naive_solver].
  intros Hok. destruct (Hr Hok) as (? & ? & ? & _). done.
Qed.

(** two-phase commit. Staging a transaction ([begin_tx]) and recording
    votes never change what readers see; [decide_tx] always returns [Ok] and forgets
    the transaction; with no failing system call, [Commit] applies all of the
    staged operations in order and [Abort] (or an unknown id) none. *)
Theorem tx_lifecycle tx_id ops voter vote d s :
  wf s → room (Z.of_nat (length (default [] (tx_ops <$> pending_txs s !! tx_id)))) s →
  contents (begin_tx tx_id ops s).2 = contents s ∧
  tx_ops <$> pending_txs (begin_tx tx_id ops s).2 !! tx_id = Some ops ∧
  contents (record_vote tx_id voter vote s).2 = contents s ∧
  tx_ops <$> pending_txs (record_vote tx_id voter vote s).2 = tx_ops <$> pending_txs s ∧
  (decide_tx tx_id d s).1 = Ok tt ∧ wf (decide_tx tx_id d s).2 ∧
  pending_txs (decide_tx tx_id d s).2 = base.delete tx_id (pending_txs s) ∧
  (no_faults (host s) → contents (decide_tx tx_id d s).2 =
     match pending_txs s !! tx_id, d with
     | Some tx, Commit => foldl op_effect (contents s) (tx_ops tx)
     | _, _ => contents s
     end).
Proof.
  intros Hwf Hroom. destruct (decide_tx_wp tx_id d s Hwf Hroom) as (? & ? & _ & ? & _ & _ & Hc).
  split_and!; try done; [| | |naive_solver].
  - unfold begin_tx, begin_tx_at. simpl. by rewrite lookup_insert_eq.
  - unfold record_vote, modify. simpl. by destruct (pending_txs s !! tx_id).
  - unfold record_vote, modify. simpl. destruct (pending_txs s !! tx_id) eqn:E; [|done]. simpl.
    rewrite fmap_insert. simpl. apply insert_id. by rewrite lookup_fmap, E.
Qed.
End theorems.

(** ** Witnesses and executions *)

Import Codec.

Definition good (n : Z) (s : StateMachine) : Prop :=
  wf s ∧ room n s ∧ no_faults (host s).

Lemma fresh_wf n fs : wf (fresh_sm n fs).
Proof. split; simpl; [constructor..|lia]. Qed.

Lemma fresh_good n : good 1000 (fresh_sm n []).
Proof. split_and!; [apply fresh_wf|done|done]. Qed.

Lemma flush_good n s : 0 <= n → good (n + 1) s → good n (flush s).2.
Proof.
  intros ? (Hwf & Hroom & Hn). unfold good, room in *.
  destruct (flush_wp s Hwf) as (? & Hs & _ & ? & _); [unfold room; lia|].
  split_and!; [done|lia|by apply Hs].
Qed.

Lemma set_good n k v s : 0 <= n → good (n + 1) s → good n (set k v s).2.
Proof.
  intros ? (Hwf & Hroom & Hn). unfold good, room in *.
  destruct (set_wp k v s Hwf) as (? & Hs & ? & _); [unfold room; lia|].
  split_and!; [done|lia|by apply Hs].
Qed.

Ltac good_step :=
  lazymatch goal with
  | |- good _ (flush _).2 => apply flush_good; [lia|]
  | |- good _ (set _ _ _).2 => apply set_good; [lia|]
  end.

Lemma set_refines_insert_witness :
  contents (set "k" "v" (fresh_sm 0 [])).2 = {["k" := "v"]}.
Proof.
  destruct (set_refines_insert "k" "v" (fresh_sm 0 []) _ _
    (fresh_wf 0 []) eq_refl (surjective_pairing _)) as (_ & _ & H & _).
  apply H. vm_compute. reflexivity.
Defined.

Lemma delete_refines_removal_witness :
  contents (delete "k" (fresh_sm 0 [])).2 = ∅.
Proof.
  destruct (delete_refines_removal "k" (fresh_sm 0 []) _ _
    (fresh_wf 0 []) eq_refl (surjective_pairing _)) as (_ & _ & H & _).
  apply H. vm_compute. reflexivity.
Defined.

(** A machine with one pair in its memtable. *)
Definition sample_sm : StateMachine := (set "k" "v" (fresh_sm 1000 [])).2.

Lemma sample_good : good 999 sample_sm.
Proof. unfold sample_sm. good_step. exact (fresh_good 1000). Qed.

Lemma flush_preserves_contents_witness :
  contents (flush sample_sm).2 = contents sample_sm ∧ memtable (flush sample_sm).2 = ∅.
Proof.
  destruct (flush_preserves_contents sample_sm _ _
    (proj1 sample_good) eq_refl (surjective_pairing _)) as (_ & H1 & _ & H2 & _).
  split; [exact H1|]. apply H2. vm_compute. reflexivity.
Defined.

(** Three flushed tables: the first and the last range over the key of the second. *)
Definition three_tables : StateMachine :=
  (flush (set "c" "10" (set "a" "9" (flush (set "b" "2" (flush
    (set "c" "3" (set "a" "1" (fresh_sm 1000 [])).2).2).2).2).2).2).2).2.

Lemma three_tables_good : good 992 three_tables.
Proof.
  unfold three_tables. repeat good_step. exact (fresh_good 1000).
Qed.

Lemma compact_preserves_contents_witness :
  contents (compact three_tables).2 = contents three_tables ∧
  (length (sstables (compact three_tables).2) <= 1)%nat.
Proof.
  destruct (compact_preserves_contents three_tables _ _ (proj1 three_tables_good)
    ltac:(vm_compute; reflexivity) (surjective_pairing _)) as (_ & H1 & _ & _ & _ & H2).
  split; [exact H1|]. apply H2. apply three_tables_good.
Defined.

Lemma get_is_sound_witness :
  ∃ r, get "a" three_tables = (Ok r, three_tables) ∧
    (∀ v, r = Some v → contents three_tables !! "a" = Some v).
Proof.
  exact (get_is_sound "a" three_tables (proj1 three_tables_good) (proj2 (proj2 three_tables_good))).
Defined.

Lemma get_is_exact_witness : get "k" sample_sm = (Ok (contents sample_sm !! "k"), sample_sm).
Proof.
  apply (get_is_exact "k" sample_sm (proj1 sample_good) (proj2 (proj2 sample_good))).
  left. vm_compute. eauto.
Defined.

Lemma snapshot_data_is_contents_witness :
  is_ok (snapshot_data three_tables).1 = true ∧
  ∀ m, (snapshot_data three_tables).1 = Ok m → m = contents three_tables.
Proof.
  destruct (snapshot_data_is_contents three_tables _ _ (proj1 three_tables_good)
    (surjective_pairing _)) as [H1 H2].
  split; [apply H2, three_tables_good|exact H1].
Defined.

Lemma snapshot_install_roundtrip_witness :
  ∃ m, (snapshot_data three_tables).1 = Ok m ∧
    contents (install_snapshot m sample_sm).2 = contents three_tables.
Proof.
  destruct (snapshot_data_wp three_tables (proj1 three_tables_good)) as (_ & H1 & _).
  specialize (proj1 (H1 (proj2 (proj2 three_tables_good)))) as H1'. clear H1.
  destruct (snapshot_data three_tables) as [[m|e] s'] eqn:E; [|discriminate H1'].
  exists m. split; [reflexivity|].
  destruct (snapshot_install_roundtrip three_tables sample_sm m _ s' _
    (proj1 three_tables_good) (proj1 sample_good) E (surjective_pairing _)) as (_ & H2 & H3).
  apply H2, H3, sample_good.
Defined.

(** A machine with a staged transaction. *)
Definition staged_sm : StateMachine :=
  (begin_tx "tx" [TxPut "x" "1"; TxPut "y" "2"] sample_sm).2.

Lemma tx_lifecycle_witness :
  contents (decide_tx "tx" Commit staged_sm).2 = <["y" := "2"]> (<["x" := "1"]> (contents sample_sm)).
Proof.
  assert (Hwf : wf staged_sm) by (eapply (wf_ext sample_sm); [reflexivity..|apply sample_good]).
  destruct (tx_lifecycle "tx" [] "n1" VoteYes Commit staged_sm Hwf ltac:(vm_compute; reflexivity))
    as (_ & _ & _ & _ & _ & _ & _ & H).
  rewrite H by (apply sample_good). reflexivity.
Defined.

(** ** Where the code falls short *)

(** [get] can miss a stored key: the scan of a table that covers the key's
    range without holding it returns "absent" instead of going on to the older
    tables. Nine successful calls on an empty machine reach such a state. *)
Theorem get_misses_older_table :
  ∃ s', (set "a" "1" ;; set "c" "3" ;; flush ;; set "b" "2" ;; flush ;;
         set "a" "9" ;; set "c" "10" ;; flush) (fresh_sm 1000 []) = (Ok tt, s') ∧
    contents s' !! "b" = Some "2" ∧ (get "b" s').1 = Ok None.
Proof.
  exists three_tables. split_and!; vm_compute; reflexivity.
Qed.

(** a committed transaction can be applied in part: [decide_tx] drops the
    errors of the single writes, so one failing append loses one operation,
    applies the other, and still returns [Ok] with the transaction forgotten. *)
Theorem decide_tx_partial_on_io_error :
  ∃ s s', (begin_tx "tx" [TxPut "x" "1"; TxPut "y" "2"]) (fresh_sm 1000 [FailAfter 0]) = (Ok tt, s) ∧
    decide_tx "tx" Commit s = (Ok tt, s') ∧
    contents s' = {["y" := "2"]} ∧ pending_txs s' = ∅.
Proof.
  exists (begin_tx "tx" [TxPut "x" "1"; TxPut "y" "2"] (fresh_sm 1000 [FailAfter 0])).2.
  exists (decide_tx "tx" Commit
    (begin_tx "tx" [TxPut "x" "1"; TxPut "y" "2"] (fresh_sm 1000 [FailAfter 0])).2).2.
  split_and!; vm_compute; reflexivity.
Qed.
