(* ===== verification/Recovery.v ===== *)
(** * Crash recovery and memory accounting of the LSM state machine

    [durable]: what is on disk is enough to rebuild the machine. Every
    operation that runs without a failing system call keeps it, and [sm_open]
    ([StateMachine::open]) then rebuilds the same memtable, tables and map. *)

From stdpp Require Import prelude gmap strings sorting countable list.
From S2P Require Import Prelude Serde Protocol StateMachine StateMachineProps Instances.
#[local] Open Scope Z_scope.

Section recovery.
Context {JW : Json WalOp} {LW : JsonLaws WalOp}.
Context {JE : Json (list SSTEntry)} {LE : JsonLaws (list SSTEntry)}.
Context {JM : Json SSTableMeta} {LM : JsonLaws SSTableMeta}.

(** ** The WAL text *)

(** [w] holds the operations [ops], one complete line each. *)
Inductive wal_text : list WalOp → string → Prop :=
  | wal_nil : wal_text [] EmptyString
  | wal_cons op ops line w :
      from_str line = Some op → plain_line line → wal_text ops w →
      wal_text (op :: ops) (writeln line +:+ w).

Lemma wal_text_snoc ops w op line : wal_text ops w →
  from_str line = Some op → plain_line line → wal_text (ops ++ [op]) (w +:+ writeln line).
Proof.
  intros Hw Hf Hp. induction Hw as [|op' ops line' w Hf' Hp' _ IH]; simpl.
  - change (EmptyString +:+ writeln line) with (writeln line).
    rewrite <- (str_app_empty_r (writeln line)). apply wal_cons; [done..|constructor].
  - rewrite str_app_assoc. by apply wal_cons.
Qed.

Lemma replay_wal_text ops w acc : wal_text ops w →
  replay_lines (lines w) acc = Ok (foldl replay_op acc ops).
Proof.
  intros Hw. revert acc. induction Hw as [|op ops line w Hf (Hn & Ht & He) _ IH]; intros acc; [done|].
  rewrite lines_cons by done. simpl. rewrite Ht.
  destruct (String.eqb_spec line EmptyString); [done|]. rewrite Hf. apply IH.
Qed.

(** The memtable half of the replay. *)
Definition replay_mem (ops : list WalOp) : gmap string MemEntry :=
  foldl (λ m op, match op with
                 | WPut k v => <[k := mkMemEntry (Some v)]> m
                 | WDelete k => <[k := mkMemEntry None]> m
                 end) ∅ ops.

Lemma replay_op_mem ops b : (foldl replay_op (∅, b) ops).1 = replay_mem ops.
Proof.
  unfold replay_mem. generalize (∅ : gmap string MemEntry) as m. revert b.
  induction ops as [|op ops IH]; intros b m; [done|]. by destruct op; simpl; rewrite IH.
Qed.

(** ** Durability *)

Record durable (s : StateMachine) : Prop := {
  du_wf : wf s;
  du_wal : ∃ ops, wal_text ops (h_wal (host s)) ∧ memtable s = replay_mem ops;
  du_files id : is_Some (h_files (host s) !! (id, ExtSst)) ↔ id ∈ h_path <$> sstables s;
  du_room : room 0 s;
}.

Lemma flush_durable s : durable s → no_faults (host s) → room 1 s →
  durable (flush s).2 ∧ no_faults (host (flush s).2).
Proof.
  intros [Hwf Hw Hf Hr0] Hn Hroom.
  destruct (flush_wp s Hwf Hroom) as (Hwf' & Hs & _ & Hx & Hok & _).
  split; [|by apply Hs]. unfold room in *.
  assert (Hd : wp flush (λ _ s',
    (∃ ops, wal_text ops (h_wal (host s')) ∧ memtable s' = replay_mem ops) ∧
    ∀ id, is_Some (h_files (host s') !! (id, ExtSst)) ↔ id ∈ h_path <$> sstables s') s);
    [|destruct Hd; split; try done; unfold room; lia].
  unfold flush. do 2 wp_step. case_bool_decide as Hm; [by wp_step|].
  pose proof (wf_next _ Hwf) as Hnext.
  do 6 wp_step. wp_step. unfold on_host. wp_step. wp_use write_table_wp.
  cbn [host with_next_sst_id]. intros r h1 (F & Hr & Hok1). rewrite (Hr Hn).
  destruct (Hok1 (Hr Hn)) as [Hsf _]. do 5 wp_step. apply wp_wal_truncate.
  cbn [host with_memtable with_sstables with_host]. intros r2 h2 Hf2 _ _ Hw2 Hr2.
  assert (Hn1 : no_faults h1) by (by apply F). split.
  - exists []. split; [|done]. simpl. rewrite (Hw2 (Hr2 Hn1)). constructor.
  - intros id. simpl. rewrite Hf2, fmap_app, elem_of_app. simpl.
    rewrite list_elem_of_singleton.
    destruct (decide (id = next_sst_id s)) as [-> | Hne].
    + unfold sst_file in Hsf. split; [auto|]. intros _.
      destruct (h_files h1 !! _); [by eexists|done].
    + rewrite (frame_files _ _ _ F) by done. rewrite Hf. naive_solver.
Qed.

Lemma write_entry_durable op k v s :
  (∀ m, replay_mem (m ++ [op]) = <[k := mkMemEntry v]> (replay_mem m)) →
  durable s → no_faults (host s) → room 1 s →
  durable (write_entry op k v s).2 ∧ no_faults (host (write_entry op k v s).2).
Proof.
  intros Hop [Hwf (ops & Hw & Hm) Hf Hr0] Hn Hroom.
  apply (wp_elim (write_entry op k v) (λ _ s', durable s' ∧ no_faults (host s')) s
    (write_entry op k v s).1); [|by destruct (write_entry op k v s)].
  unfold write_entry. wp_step. apply append_wal_wp. intros r h' Hfile _ Hn' Hok.
  destruct (Hn' Hn) as [-> Hnf]. destruct (Hok eq_refl) as (line & _ & Hfs & Hp & Hwal).
  do 2 wp_step. set (s1 := put_entry k v (with_host h' s)).
  assert (Hd : durable s1).
  { split; [by eapply wf_ext; [..|done]| | |done].
    - exists (ops ++ [op]). split; simpl; [rewrite Hwal; by apply wal_text_snoc|by rewrite Hop, Hm].
    - intros id. simpl. rewrite Hfile. apply Hf. }
  unfold flush_if_full. do 2 wp_step. case_match; [|by wp_step].
  apply (flush_durable s1 Hd Hnf Hroom).
Qed.

Lemma compact_durable s : durable s → no_faults (host s) → room 1 s →
  durable (compact s).2 ∧ no_faults (host (compact s).2).
Proof.
  intros [Hwf (ops & Hw & Hm) Hf Hr0] Hn Hroom.
  destruct (compact_wp s Hwf Hroom) as (Hwf' & Hs & _ & Hmem & Hx & _).
  split; [|by apply Hs]. unfold room in *.
  assert (Hd : wp compact (λ _ s', h_wal (host s') = h_wal (host s) ∧
    ∀ id, is_Some (h_files (host s') !! (id, ExtSst)) ↔ id ∈ h_path <$> sstables s') s).
  2: { destruct Hd as [Hwal Hd]. split; try done; [|unfold room; lia].
       exists ops. by rewrite Hwal, Hmem. }
  unfold compact. do 2 wp_step. case_match; [by wp_step|].
  wp_step. unfold on_host. wp_step.
  pose proof (merge_tables_wp (sstables s) (host s) [] ∅
    (wf_tables _ Hwf) (map_Forall_empty _) (λ _, eq_refl)) as HM.
  rewrite with_no_faults in HM by done. wp_use HM.
  intros r h1 ((fs & -> & Hfs) & Hr & _). rewrite (Hfs Hn), with_no_faults by done.
  destruct r as [m|e]; [|by specialize (Hr Hn)].
  do 8 wp_step. cbn [host with_host with_next_sst_id next_sst_id].
  wp_use write_table_wp. intros r h2 (F & Hr2 & Hok). rewrite (Hr2 Hn).
  destruct (Hok (Hr2 Hn)) as [Hsf _]. do 3 wp_step. cbn [host with_host with_next_sst_id with_sstables].
  wp_use remove_tables_wp. intros r3 h3 (-> & W3 & _ & N3 & _ & F3). simpl.
  split; [rewrite W3; apply F|]. assert (Hn2 : no_faults h2) by (by apply F).
  assert (Hid : next_sst_id s ∉ h_path <$> sstables s).
  { intros (t & Ht' & Hin)%list_elem_of_fmap. pose proof (wf_table_numbers _ _ Hwf Hin). lia. }
  intros id. rewrite list_elem_of_singleton.
  destruct (decide (id = next_sst_id s)) as [-> | Hne].
  - split; [done|]. intros _. rewrite F3 by done. unfold sst_file in Hsf.
    destruct (h_files h2 !! _); [by eexists|done].
  - split; [|done]. destruct (decide (id ∈ h_path <$> sstables s)) as [Hin|Hout].
    + apply list_elem_of_fmap in Hin as (t & -> & Hin).
      rewrite (proj2 (N3 Hn2) t ExtSst Hin) by done. by intros [? ?].
    + rewrite F3 by done. rewrite (frame_files _ _ _ F) by done. rewrite Hf. done.
Qed.
(** ** [open] *)

Lemma wf_path_inj s t1 t2 : wf s → t1 ∈ sstables s → t2 ∈ sstables s →
  h_path t1 = h_path t2 → t1 = t2.
Proof.
  intros [_ Ho _ _]. induction Ho as [|t ts _ IH Ht]; [set_solver|].
  rewrite Forall_forall in Ht. intros [-> | H1]%elem_of_cons [-> | H2]%elem_of_cons E; auto.
  - specialize (Ht _ H2). lia.
  - specialize (Ht _ H1). lia.
Qed.

Lemma load_sst_meta_ok h id meta : meta_file h id = Some meta → no_faults h →
  load_sst_meta id h = (Ok meta, h).
Proof.
  intros Hf Hn. unfold load_sst_meta, fs_read_to_string, io_read, mbind, M_bind.
  rewrite (no_faults_outcome h Hn), (with_no_faults h Hn). unfold meta_file in Hf.
  destruct (h_files h !! (id, ExtMeta)); [|done]. simpl in Hf. by rewrite Hf.
Qed.

Lemma io_nop_ok h : no_faults h → io_nop h = (Ok tt, h).
Proof.
  intros Hn. unfold io_nop, io_call. by rewrite (no_faults_outcome h Hn), (with_no_faults h Hn).
Qed.

Definition is_sst (n : Z * sst_ext) : Prop := n.2 = ExtSst.

Lemma discover_ok s names ts next : wf s → no_faults (host s) → room 0 s →
  Forall (λ n, is_sst n → n.1 ∈ h_path <$> sstables s) names →
  ∃ hs next', discover names ts next (host s) = (Ok (ts ++ hs, next'), host s) ∧
    hs ⊆ sstables s ∧ h_path <$> hs = (filter is_sst names).*1 ∧
    next <= next' ∧ (next <= next_sst_id s → next' <= next_sst_id s) ∧
    Forall (λ t, h_path t < next') hs.
Proof.
  intros Hwf Hn Hroom Hnames. revert ts next.
  induction Hnames as [|[id ext] names Hid _ IH]; intros ts next; simpl.
  { exists [], next. rewrite app_nil_r. split_and!; try done; set_solver. }
  unfold mbind at 1, M_bind. rewrite io_nop_ok by done. 
  destruct ext.
  2,3: rewrite filter_cons_False by done; apply IH.
  rewrite filter_cons_True by done.
  specialize (Hid eq_refl). simpl in Hid. apply list_elem_of_fmap in Hid as (t & -> & Hin).
  pose proof (wf_table_numbers _ _ Hwf Hin) as Hnum. unfold room in Hroom.
  destruct (proj1 (Forall_forall _ _) (wf_tables _ Hwf) t Hin) as [es [_ Hmeta _ _ _ _]].
  simpl. unfold mbind, M_bind. rewrite (load_sst_meta_ok _ _ _ Hmeta Hn).
  rewrite u64_add_small by lia.
  destruct (IH (ts ++ [mkHandle (h_path t) (h_meta t)]) (Z.max next (h_path t + 1)))
    as (hs & next' & -> & Hsub & Hp & Hle & Hle' & Hlt).
  exists (t :: hs), next'. rewrite <- app_assoc. simpl. destruct t as [pt mt]. simpl in *.
  split_and!; [done|set_solver|f_equal; exact Hp|lia|lia|]. constructor; [simpl; lia|done].
Qed.

Lemma file_names_sst (files : gmap (Z * sst_ext) string) :
  NoDup (filter is_sst (map_to_list files).*1).*1.
Proof.
  pose proof (NoDup_fst_map_to_list files) as Hn. induction (map_to_list files).*1 as [|n ns IH];
    [constructor|]. apply NoDup_cons in Hn as [Hn Hns]. rewrite filter_cons. case_decide as Hd; [|auto].
  simpl. constructor; [|auto]. intros (n' & E & [Hd' Hin]%list_elem_of_filter)%list_elem_of_fmap.
  apply Hn. destruct n, n'. unfold is_sst in *. simpl in *. by subst.
Qed.

#[local] Instance handle_le_trans : Transitive handle_le.
Proof. intros a b c. unfold handle_le. lia. Qed.
#[local] Instance handle_le_total : Total handle_le.
Proof. intros a b. unfold handle_le. lia. Qed.

Lemma discovered_sorted s hs : wf s → hs ⊆ sstables s → NoDup (h_path <$> hs) →
  sstables s ⊆ hs → merge_sort handle_le hs = sstables s.
Proof.
  intros Hwf H1 Hnd H2.
  assert (Hsorted : StronglySorted handle_le (sstables s)).
  { pose proof (wf_order _ Hwf) as Ho. pose proof (wf_tables _ Hwf) as Ht. clear H1 H2.
    induction Ho as [|t ts _ IH Hlt]; [constructor|]. apply Forall_cons in Ht as [[es Hes] Ht].
    constructor; [auto|]. rewrite Forall_forall in *. intros u Hu. unfold handle_le.
    destruct (Ht u Hu) as [es' Hes']. rewrite (tok_id _ _ _ Hes), (tok_id _ _ _ Hes').
    specialize (Hlt u Hu). lia. }
  eapply StronglySorted_unique_strong; [|apply (StronglySorted_merge_sort _)|exact Hsorted|].
  - intros x y Hx Hy Hxy Hyx. rewrite merge_sort_Permutation in Hx. apply H1 in Hx.
    eapply wf_path_inj; [done..|].
    destruct (proj1 (Forall_forall _ _) (wf_tables _ Hwf) x Hx) as [? Sx].
    destruct (proj1 (Forall_forall _ _) (wf_tables _ Hwf) y Hy) as [? Sy].
    rewrite <- (tok_id _ _ _ Sx), <- (tok_id _ _ _ Sy). unfold handle_le in *. lia.
  - rewrite merge_sort_Permutation. apply NoDup_Permutation; [by eapply NoDup_fmap_1| |set_solver].
    pose proof (wf_order _ Hwf) as Ho. clear H1 H2 Hsorted.
    induction Ho as [|t ts _ IH Hlt]; constructor; [|done]. intros Hin.
    rewrite Forall_forall in Hlt. specialize (Hlt t Hin). lia.
Qed.

(** The machine [sm_open] builds from the files of [s]. *)
Lemma open_durable s : durable s → no_faults (host s) →
  ∃ s', sm_open (sm_config s) (host s) = (Ok s', host s) ∧
    durable s' ∧ memtable s' = memtable s ∧ sstables s' = sstables s ∧ host s' = host s ∧
    sm_config s' = sm_config s ∧ pending_txs s' = ∅.
Proof.
  intros [Hwf (ops & Hw & Hm) Hf Hroom] Hn.
  set (names := (map_to_list (h_files (host s))).*1).
  assert (Hnames : ∀ n, n ∈ names ↔ is_Some (h_files (host s) !! n)).
  { intros n. unfold names. rewrite list_elem_of_fmap. split.
    - intros ([n' x] & -> & Hin%elem_of_map_to_list). by eexists.
    - intros [x Hx]. exists (n, x). split; [done|]. by apply elem_of_map_to_list. }
  destruct (discover_ok s names [] 0 Hwf Hn Hroom) as (hs & next' & Hd & Hsub & Hp & Hle & Hle' & Hlt).
  { apply Forall_forall. intros [id x] Hin Hx. unfold is_sst in Hx. simpl in *. subst x.
    apply Hf. by apply Hnames. }
  assert (Hms : merge_sort handle_le hs = sstables s).
  { apply discovered_sorted; [done..|rewrite Hp; apply file_names_sst|].
    intros t Hin. assert (Hpt : h_path t ∈ h_path <$> hs).
    { rewrite Hp. apply list_elem_of_fmap. exists (h_path t, ExtSst). split; [done|].
      apply list_elem_of_filter. split; [done|]. apply Hnames, Hf. by apply list_elem_of_fmap_2. }
    apply list_elem_of_fmap in Hpt as (u & E & Hu).
    rewrite (wf_path_inj s t u Hwf Hin (Hsub _ Hu) E). done. }
  exists (mkSM (sm_config s) (replay_mem ops) (foldl replay_op (∅, 0) ops).2
    (sstables s) next' ∅ (host s)).
  split.
  - unfold sm_open, io_read, gets, mbind, M_bind. rewrite !io_nop_ok by done.
    rewrite (no_faults_outcome _ Hn), (with_no_faults _ Hn). fold names. rewrite Hd.
    rewrite !io_nop_ok by done. rewrite (no_faults_outcome _ Hn), (with_no_faults _ Hn).
    rewrite (replay_wal_text _ _ _ Hw). rewrite <- (replay_op_mem ops 0).
    destruct (foldl replay_op (∅, 0) ops) as [mt b]. simpl. by rewrite Hms.
  - split_and!; try done. pose proof (wf_next _ Hwf). unfold room in Hroom.
    split; simpl; [|by eauto|done|unfold room; simpl; lia].
    destruct Hwf as [Ht Ho Hi _]. split; simpl; try done.
    rewrite <- Hms. rewrite merge_sort_Permutation.
    rewrite Forall_forall in *. intros t Hin. split; [|by apply Hlt].
    apply (Hi t). by apply Hsub.
Qed.

(** ** Every history is durable *)

Lemma set_durable k v s : durable s → no_faults (host s) → room 1 s →
  durable (set k v s).2 ∧ no_faults (host (set k v s).2).
Proof.
  apply (write_entry_durable (WPut k v) k (Some v)). intros m. unfold replay_mem.
  by rewrite foldl_app.
Qed.

Lemma delete_durable k s : durable s → no_faults (host s) → room 1 s →
  durable (delete k s).2 ∧ no_faults (host (delete k s).2).
Proof.
  apply (write_entry_durable (WDelete k) k None). intros m. unfold replay_mem.
  by rewrite foldl_app.
Qed.

Lemma durable_pending p s : durable s → durable (with_pending p s).
Proof. intros [Hwf Hw Hf Hr]. split; try done. by eapply wf_ext; [..|done]. Qed.

Lemma apply_op_durable op s : durable s → no_faults (host s) → room 1 s →
  durable (apply_op op s).2 ∧ no_faults (host (apply_op op s).2) ∧
  next_sst_id (apply_op op s).2 <= next_sst_id s + 1.
Proof.
  intros Hd Hn Hr. destruct op as [k v|k]; simpl.
  - destruct (set_durable k v s Hd Hn Hr). destruct (set_wp k v s (du_wf _ Hd) Hr) as (_ & _ & ? & _). done.
  - destruct (delete_durable k s Hd Hn Hr). destruct (delete_wp k s (du_wf _ Hd) Hr) as (_ & _ & ? & _). done.
Qed.

Lemma apply_ops_durable ops s : durable s → no_faults (host s) → room (Z.of_nat (length ops)) s →
  durable (apply_ops ops s).2 ∧ no_faults (host (apply_ops ops s).2).
Proof.
  revert s. induction ops as [|op ops IH]; intros s Hd Hn Hr; [done|].
  unfold room in *. simpl length in Hr.
  destruct (apply_op_durable op s Hd Hn) as (Hd' & Hn' & Hle); [unfold room; lia|].
  assert (E : apply_ops (op :: ops) s = apply_ops ops (apply_op op s).2).
  { simpl. unfold mbind, M_bind. by destruct op. }
  rewrite E. apply IH; [done..|]. unfold room. lia.
Qed.

(** The calls the node makes while it serves, with the number of table
    numbers each may use. *)
Inductive lsm_call :=
  | KSet (k v : string)
  | KDelete (k : string)
  | KFlush
  | KCompact
  | KBegin (tx_id : string) (ops : list TxOp)
  | KVote (tx_id voter : string) (vote : Vote)
  | KDecide (tx_id : string) (d : TxDecision).

Definition run_call (c : lsm_call) : M StateMachine unit :=
  match c with
  | KSet k v => set k v
  | KDelete k => delete k
  | KFlush => flush
  | KCompact => compact
  | KBegin t ops => begin_tx t ops
  | KVote t v w => record_vote t v w
  | KDecide t d => decide_tx t d
  end.

Definition call_cost (c : lsm_call) (s : StateMachine) : Z :=
  match c with
  | KDecide t _ => Z.of_nat (length (default [] (tx_ops <$> pending_txs s !! t)))
  | _ => 1
  end.

Lemma run_call_durable c s : durable s → no_faults (host s) → room (call_cost c s) s →
  durable (run_call c s).2 ∧ no_faults (host (run_call c s).2).
Proof.
  intros Hd Hn Hr. destruct c as [k v|k| | |t ops|t v w|t d]; simpl in *.
  - by apply set_durable.
  - by apply delete_durable.
  - by apply flush_durable.
  - by apply compact_durable.
  - split; [by apply durable_pending|done].
  - unfold record_vote, modify. simpl. case_match; [split; [by apply durable_pending|done]|done].
  - unfold decide_tx, gets, modify, mbind, M_bind. simpl in *.
    destruct (pending_txs s !! t) as [tx|]; [|done]. simpl in *.
    destruct d; [|split; [by apply durable_pending|done]].
    apply apply_ops_durable; [by apply durable_pending|done|done].
Qed.

(** Machines reached from an empty data directory by any sequence of calls
    and of restarts (a restart drops the machine and opens its files again),
    with no failing system call. *)
Inductive history : StateMachine → Prop :=
  | history_new config clock :
      history (mkSM config ∅ 0 [] 0 ∅ (mkHost EmptyString ∅ [] clock))
  | history_call c s :
      history s → room (call_cost c s) s → history (run_call c s).2
  | history_restart config s s' h' :
      history s → sm_open config (host s) = (Ok s', h') → history s'.

Lemma durable_config config s : durable s →
  durable (mkSM config (memtable s) (memtable_bytes s) (sstables s) (next_sst_id s)
             (pending_txs s) (host s)).
Proof. intros [Hwf Hw Hf Hr]. split; try done. by eapply wf_ext; [..|done]. Qed.

Lemma history_durable s : history s → durable s ∧ no_faults (host s).
Proof.
  induction 1 as [config clock|c s _ [Hd Hn] Hr|config s s' h' _ [Hd Hn] Ho].
  - split; [|done]. split; simpl.
    + split; simpl; [constructor..|lia].
    + exists []. split; [constructor|done].
    + intros id. rewrite lookup_empty. split; [by intros []|set_solver].
    + done.
  - by apply run_call_durable.
  - destruct (open_durable _ (durable_config config s Hd) Hn) as (s1 & E & Hd1 & _ & _ & Hh & _).
    simpl in *. rewrite E in Ho. simplify_eq. rewrite Hh. done.
Qed.
End recovery.
