(* ===== verification/RecoveryTheorems.v ===== *)
(** * What survives a restart of the state machine

    The claims about [StateMachine::open] and about the memory accounting
    that drives the flushes: recovery of every acknowledged write, the bound
    on the memtable, and the crashes after which [open] refuses to start. *)

From stdpp Require Import prelude gmap strings sorting countable list.
From S2P Require Import Prelude Serde Protocol StateMachine StateMachineProps Instances Recovery.
#[local] Open Scope Z_scope.

(** ** Memory accounting *)

Definition entry_weight (k : string) (e : MemEntry) : Z := estimate_entry k + opt_len (me_value e).

Definition mem_weight (m : gmap string MemEntry) : Z :=
  map_fold (λ k e acc, entry_weight k e + acc) 0 m.

Lemma mem_weight_insert k e m : m !! k = None →
  mem_weight (<[k := e]> m) = entry_weight k e + mem_weight m.
Proof. intros Hk. unfold mem_weight.
  rewrite (map_fold_insert_L (λ k e acc, entry_weight k e + acc)); [done|intros; lia|done]. Qed.

Lemma mem_weight_split k e m : m !! k = Some e →
  mem_weight m = entry_weight k e + mem_weight (base.delete k m).
Proof.
  intros Hk. rewrite <- (insert_delete_id m k e) at 1 by done.
  apply mem_weight_insert, lookup_delete_eq.
Qed.

Lemma opt_len_nonneg v : 0 <= opt_len v.
Proof. destruct v; simpl; unfold str_len; lia. Qed.

Lemma mem_weight_nonneg m : 0 <= mem_weight m.
Proof.
  unfold mem_weight. apply (map_fold_weak_ind (λ r _, 0 <= r)); [done|]. intros k e m' r _ Hr.
  unfold entry_weight, estimate_entry, str_len. pose proof (opt_len_nonneg (me_value e)). lia.
Qed.

(** The counter [memtable_bytes] is the weight of the memtable. *)
Definition accounted (s : StateMachine) : Prop := memtable_bytes s = mem_weight (memtable s).

Lemma put_entry_accounted k v s : accounted s → accounted (put_entry k v s).
Proof.
  unfold accounted. intros Ha. simpl. rewrite Ha.
  destruct (memtable s !! k) as [e|] eqn:E.
  - rewrite <- insert_delete_eq, mem_weight_insert by apply lookup_delete_eq.
    rewrite (mem_weight_split k e) by done. unfold saturating_sub, entry_weight, estimate_entry, str_len.
    simpl. pose proof (mem_weight_nonneg (base.delete k (memtable s))). lia.
  - rewrite mem_weight_insert by done. unfold entry_weight. simpl. lia.
Qed.

Section theorems.
Context {JW : Json WalOp} {LW : JsonLaws WalOp}.
Context {JE : Json (list SSTEntry)} {LE : JsonLaws (list SSTEntry)}.
Context {JM : Json SSTableMeta} {LM : JsonLaws SSTableMeta}.

(** C10: crash recovery. Take any machine reached from an empty data directory
    by any sequence of writes, flushes, compactions, transactions and restarts, none
    of whose system calls fails. Dropping its memory and opening its files again succeeds, touches no file and rebuilds
    the same memtable, the same tables and so the same map; only the pending
    transactions are gone. *)
Theorem open_recovers s config :
  history s →
  ∃ s', sm_open config (host s) = (Ok s', host s) ∧ history s' ∧
    memtable s' = memtable s ∧ sstables s' = sstables s ∧
    contents s' = contents s ∧ pending_txs s' = ∅.
Proof.
  intros Hh. destruct (history_durable s Hh) as [Hd Hn].
  destruct (open_durable _ (durable_config config s Hd) Hn) as (s' & E & _ & Hm & Ht & Hs & _ & Hp).
  simpl in *. exists s'. split_and!; try done.
  - by eapply history_restart.
  - unfold contents. f_equal. apply layers_ext; [done..|by rewrite Hs].
Qed.

Lemma flush_accounted s : accounted s → accounted (flush s).2.
Proof.
  intros Ha. unfold flush, gets, mbind, M_bind. simpl. case_bool_decide; [done|]. simpl.
  unfold on_host, zoom. simpl. destruct (write_table _ _ _ _) as [[[]|e] h1]; [|exact Ha]. simpl.
  by destruct (wal_truncate _) as [[[]|e] h2].
Qed.

Lemma write_entry_accounted op k v s : accounted s →
  0 < memtable_size_threshold (sm_config s) →
  wp (write_entry op k v) (λ r s', accounted s' ∧
    (r = Ok tt → wf s → room 1 s → memtable_bytes s' < memtable_size_threshold (sm_config s'))) s.
Proof.
  intros Ha Ht. unfold write_entry. wp_step. apply append_wal_wp. intros r h' Hf _ _ _.
  destruct r as [[]|e]; [|split; [done|by intros [=]]].
  do 2 wp_step. set (s1 := put_entry k v (with_host h' s)).
  assert (Ha1 : accounted s1) by (by apply put_entry_accounted).
  unfold flush_if_full. do 2 wp_step.
  destruct (Z.leb_spec (memtable_size_threshold (sm_config s1)) (memtable_bytes s1)); [|by wp_step].
  split; [by apply flush_accounted|]. intros Hok Hwf Hroom.
  destruct (flush_wp s1) as (_ & Hs & _ & _ & _ & Hz); [by eapply wf_ext; [..|done]|done|].
  rewrite (sr_config _ _ Hs). destruct (Hz Hok) as [_ ->]; [done|].
  subst s1. simpl. apply insert_non_empty.
Qed.

(** ** A machine from its creation on *)

(** The counter is exact, the machine well formed, its configuration [config]. *)
Definition tracked (config : StateMachineConfig) (s : StateMachine) : Prop :=
  wf s ∧ accounted s ∧ sm_config s = config.

Lemma set_tracked config k v s : 0 < memtable_size_threshold config → room 1 s → tracked config s →
  tracked config (set k v s).2.
Proof.
  intros Ht Hr (Hwf & Ha & <-). destruct (set_wp k v s Hwf Hr) as (? & Hs & _).
  split_and!; [done| |apply Hs]. by apply (write_entry_accounted (WPut k v) k (Some v) s).
Qed.

Lemma delete_tracked config k s : 0 < memtable_size_threshold config → room 1 s → tracked config s →
  tracked config (delete k s).2.
Proof.
  intros Ht Hr (Hwf & Ha & <-). destruct (delete_wp k s Hwf Hr) as (? & Hs & _).
  split_and!; [done| |apply Hs]. by apply (write_entry_accounted (WDelete k) k None s).
Qed.

(** Compaction does not touch the counter. *)
Definition same_bytes (s s' : StateMachine) : Prop := memtable_bytes s' = memtable_bytes s.

#[local] Instance same_bytes_preorder : PreOrder same_bytes.
Proof. split; [by intros s|]. unfold same_bytes. intros s1 s2 s3. congruence. Qed.

Lemma compact_same_bytes : keeps same_bytes compact.
Proof. unfold compact. repeat keep_step; try (by apply keeps_modify); by apply keeps_zoom. Qed.

Lemma compact_tracked config s : room 1 s → tracked config s → tracked config (compact s).2.
Proof.
  intros Hr (Hwf & Ha & <-). destruct (compact_wp s Hwf Hr) as (? & Hs & _ & Hm & _).
  split_and!; [done| |apply Hs]. unfold accounted in *. rewrite Hm, <- Ha. apply compact_same_bytes.
Qed.

Lemma apply_ops_tracked config ops s : 0 < memtable_size_threshold config → room (Z.of_nat (length ops)) s →
  tracked config s → tracked config (apply_ops ops s).2.
Proof.
  intros Ht. revert s. induction ops as [|op ops IH]; intros s Hr Hs; [done|]. simpl.
  assert (Hr1 : room 1 s) by (unfold room in *; simpl in *; lia).
  assert (Ho : tracked config (apply_op op s).2 ∧ next_sst_id (apply_op op s).2 <= next_sst_id s + 1).
  { pose proof Hs as (Hwf & _). unfold apply_op, ignore. destruct op as [k v|k].
    - pose proof (set_tracked config k v s Ht Hr1 Hs). destruct (set_wp k v s Hwf Hr1) as (_ & _ & Hx & _).
      by destruct (set k v s).
    - pose proof (delete_tracked config k s Ht Hr1 Hs). destruct (delete_wp k s Hwf Hr1) as (_ & _ & Hx & _).
      by destruct (delete k s). }
  destruct Ho as [Hs1 Hx]. unfold mbind, M_bind.
  assert (Eo : (apply_op op s).1 = Ok tt) by (destruct op; unfold apply_op, ignore; by destruct (_ s)).
  destruct (apply_op op s) as [r s1]. simpl in *. subst r. apply IH; [|done]. unfold room in *. simpl in *. lia.
Qed.

Lemma run_call_tracked config c s : 0 < memtable_size_threshold config → room (call_cost c s) s →
  tracked config s → tracked config (run_call c s).2.
Proof.
  intros Ht Hr Hs. destruct c as [k v|k| | |t ops|t v w|t d]; simpl in *.
  - by apply set_tracked.
  - by apply delete_tracked.
  - pose proof Hs as (Hwf & Ha & <-). destruct (flush_wp s Hwf Hr) as (? & Hf & _). split_and!; [done| |apply Hf]. by apply flush_accounted.
  - by apply compact_tracked.
  - destruct Hs as (Hwf & Ha & <-). split_and!; [by eapply wf_ext; [..|done]|done|done].
  - destruct Hs as (Hwf & Ha & <-). unfold record_vote, modify. simpl. case_match; [|done].
    split_and!; [by eapply wf_ext; [..|done]|done|done].
  - assert (Hp : ∀ p, tracked config (with_pending p s)).
    { intros p. destruct Hs as (Hwf & Ha & <-). split_and!; [by eapply wf_ext; [..|done]|done|done]. }
    unfold decide_tx, gets, modify, mbind, M_bind. simpl in *.
    destruct (pending_txs s !! t) as [tx|]; [|done]. simpl in *. destruct d; [|apply Hp]. by apply apply_ops_tracked.
Qed.

(** Machines reached from an empty data directory by any sequence of calls, any of whose system calls may fail, but without
    opening the files again. *)
Inductive lifetime (config : StateMachineConfig) : StateMachine → Prop :=
  | lifetime_new clock faults :
      lifetime config (mkSM config ∅ 0 [] 0 ∅ (mkHost EmptyString ∅ faults clock))
  | lifetime_call c s :
      lifetime config s → room (call_cost c s) s → lifetime config (run_call c s).2.

Lemma lifetime_tracked config s : 0 < memtable_size_threshold config → lifetime config s → tracked config s.
Proof.
  intros Ht. induction 1 as [clock faults|c s _ IH Hr]; [|by apply run_call_tracked].
  split_and!; [split; simpl; [constructor..|lia]|done|done].
Qed.

(** C40: the memtable is bounded until the next restart. Take a machine that was created on an empty data directory with a
    positive threshold and has since served any sequence of writes, flushes, compactions and
    transactions, whichever of their system calls failed, with table numbers to spare. The counter that triggers a flush is exactly the
    weight of the memtable; and after a [set] or [delete] that returns [Ok] the memtable is lighter than the configured
    threshold. (After a restart the counter is too small: [open_undercounts].) *)
Theorem memtable_stays_bounded config s k v :
  0 < memtable_size_threshold config → lifetime config s → room 1 s →
  memtable_bytes s = mem_weight (memtable s) ∧
  ((set k v s).1 = Ok tt → mem_weight (memtable (set k v s).2) < memtable_size_threshold config) ∧
  ((delete k s).1 = Ok tt → mem_weight (memtable (delete k s).2) < memtable_size_threshold config).
Proof.
  intros Ht Hl Hroom. pose proof (lifetime_tracked config s Ht Hl) as Hs.
  pose proof (set_tracked config k v s Ht Hroom Hs) as (_ & As & Cs).
  pose proof (delete_tracked config k s Ht Hroom Hs) as (_ & Ad & Cd). destruct Hs as (Hwf & Ha & Ec). subst config.
  split_and!; [done|..]; intros Hok.
  - destruct (write_entry_accounted (WPut k v) k (Some v) s Ha Ht) as [_ Hlt]. specialize (Hlt Hok Hwf Hroom).
    change (write_entry (WPut k v) k (Some v) s) with (set k v s) in Hlt. by rewrite As, Cs in Hlt.
  - destruct (write_entry_accounted (WDelete k) k None s Ha Ht) as [_ Hlt]. specialize (Hlt Hok Hwf Hroom).
    change (write_entry (WDelete k) k None s) with (delete k s) in Hlt. by rewrite Ad, Cd in Hlt.
Qed.
End theorems.

(** ** Witnesses *)

Import Codec.

(** Two writes, a flush, a write: one table and one pair in the memtable. *)
Definition served : StateMachine :=
  (run_call (KSet "c" "3") (run_call KFlush (run_call (KDelete "b")
    (run_call (KSet "a" "1") (fresh_sm 1000 [])).2).2).2).2.

Lemma served_history : history served.
Proof.
  unfold served. do 4 (apply history_call; [|vm_compute; reflexivity]). apply (history_new _ 0).
Qed.

Lemma open_recovers_witness :
  ∃ s', sm_open default_config (host served) = (Ok s', host served) ∧
    contents s' = contents served ∧ (get "a" s').1 = Ok (Some "1").
Proof.
  destruct (open_recovers served default_config served_history) as (s' & E & _ & _ & _ & Hc & _).
  exists s'. split; [exact E|]. split; [exact Hc|].
  assert (E' : (sm_open default_config (host served)).1 = Ok s') by (rewrite E; reflexivity).
  vm_compute in E'. injection E' as <-. vm_compute. reflexivity.
Defined.

(** A write that fills the memtable, after one whose flush failed. *)
Definition full_sm : StateMachine := (run_call (KSet "j" "u") (fresh_sm 30 [Succeed; Succeed; Succeed; Succeed; FailAfter 0])).2.

Lemma memtable_stays_bounded_witness :
  0 < mem_weight (memtable full_sm) ∧ mem_weight (memtable (set "k" "v" full_sm).2) < 30.
Proof.
  split; [vm_compute; reflexivity|].
  destruct (memtable_stays_bounded (mkSMConfig 30) full_sm "k" "v") as (_ & H & _).
  - reflexivity.
  - apply (lifetime_call _ (KSet "j" "u")); [apply lifetime_new|vm_compute; reflexivity].
  - vm_compute. reflexivity.
  - apply H. vm_compute. reflexivity.
Defined.

(** ** Crashes [open] does not survive *)

(** a crash, or a failing write, between the data file and the sidecar of a new table
    makes the data directory unusable: the [set] that triggered the flush
    reports an error, and from then on every [open] fails, although the WAL
    still holds every acknowledged write. *)
Theorem open_fails_on_orphan_table :
  ∃ s', set "k" "v" (fresh_sm 0 [Succeed; Succeed; Succeed; Succeed; FailAfter 0]) = (Err IoFailed, s') ∧
    no_faults (host s') ∧ contents s' = {["k" := "v"]} ∧
    (sm_open default_config (host s')).1 = Err IoFailed.
Proof.
  exists (set "k" "v" (fresh_sm 0 [Succeed; Succeed; Succeed; Succeed; FailAfter 0])).2.
  split_and!; vm_compute; reflexivity.
Qed.

(** a torn append poisons the WAL: [append_wal] does not cut the partial line
    it may have left, so one failed write (reported to its caller) makes every
    later [open] return [InvalidData], acknowledged writes included. *)
Theorem open_fails_on_torn_wal :
  ∃ s1 s2, set "a" "1" (fresh_sm 1000 [Succeed; Succeed; FailAfter 3]) = (Ok tt, s1) ∧
    set "b" "2" s1 = (Err IoFailed, s2) ∧ no_faults (host s2) ∧
    contents s2 = {["a" := "1"]} ∧
    (sm_open default_config (host s2)).1 = Err InvalidData.
Proof.
  exists (set "a" "1" (fresh_sm 1000 [Succeed; Succeed; FailAfter 3])).2.
  exists (set "b" "2" (set "a" "1" (fresh_sm 1000 [Succeed; Succeed; FailAfter 3])).2).2.
  split_and!; vm_compute; reflexivity.
Qed.

(** The byte counter [open] rebuilds is too small: two pairs weigh 84 bytes,
    the replay counts 43 (it subtracts the key's estimate for new keys too). *)
Lemma open_undercounts :
  ∃ s s', (set "a" "1" ;; set "b" "2") (fresh_sm 1000 []) = (Ok tt, s) ∧
    memtable_bytes s = 84 ∧ sm_open default_config (host s) = (Ok s', host s) ∧
    memtable s' = memtable s ∧ memtable_bytes s' = 43.
Proof.
  exists ((set "a" "1" ;; set "b" "2") (fresh_sm 1000 [])).2.
  eexists. split_and!; vm_compute; reflexivity.
Qed.
