(* ===== verification/StorageTheorems.v ===== *)
(** * What the durable Raft state guarantees

    The claims about [src/rust/oxide-kv/src/raft/storage.rs]. *)

From stdpp Require Import prelude gmap strings sorting countable list.
From S2P Require Import Prelude Serde Protocol Storage StorageProps StateMachine Instances.
#[local] Open Scope Z_scope.

Section theorems.
Context {BL : Bincode LogEntry} {LB : BincodeLaws LogEntry}.
Context {JV : Json Value} {LV : JsonLaws Value}.
Context {JS : Json Snapshot} {LS : JsonLaws Snapshot}.

(** C39: term and vote are replaced atomically: whatever call fails, a later
    [read_meta] returns the pair just saved when [save_meta] returned [Ok] and
    the pair of before when it returned an error; log and snapshot are untouched. *)
Theorem save_meta_is_atomic term vote h r h' :
  u64 term → save_meta term vote h = (r, h') →
  stored_meta h' = (if is_ok r then (term, vote) else stored_meta h) ∧
  stored_log h' = stored_log h ∧ stored_snapshot h' = stored_snapshot h ∧
  (d_ok h → r = Ok tt).
Proof.
  intros Ht E. destruct (wp_elim _ _ _ _ _ (save_meta_wp term vote h Ht) E) as ([F _] & ? & Hok & Herr).
  split_and!; [|apply stored_log_ext, F; done|apply stored_snapshot_ext, F; done|done].
  destruct r as [[]|e]; [by apply Hok|by apply Herr].
Qed.

(** a snapshot is replaced atomically, with the same guarantee, and what
    [load_snapshot] returns after a successful [save_snapshot] is the snapshot saved. *)
Theorem save_snapshot_is_atomic snap h r h' :
  save_snapshot snap h = (r, h') →
  stored_snapshot h' = (if is_ok r then Some snap else stored_snapshot h) ∧
  stored_log h' = stored_log h ∧ stored_meta h' = stored_meta h ∧
  (d_ok h → r = Ok tt).
Proof.
  intros E. destruct (wp_elim _ _ _ _ _ (save_snapshot_wp snap h) E) as ([F _] & ? & Hok & Herr).
  split_and!; [|apply stored_log_ext, F; done|apply stored_meta_ext, F; done|done].
  destruct r as [[]|e]; [by apply Hok|by apply Herr].
Qed.

(** C38: the log round trip. On a WAL that holds the frames of [es],
    [append_wal_log] that returns [Ok] leaves the frames of [es] followed by the
    entry's; one that fails, even in the middle of the write, loses none of
    [es] and adds at most the entry; and [restore_wal_log] reads back exactly the frames. *)
Theorem append_restore_roundtrip e es h r h' :
  wal_holds es h → append_wal_log e h = (r, h') →
  stored_log h = es ∧
  (r = Ok tt → wal_holds (es ++ [e]) h' ∧ stored_log h' = es ++ [e]) ∧
  (stored_log h' = es ∨ stored_log h' = es ++ [e]) ∧
  stored_meta h' = stored_meta h ∧ stored_snapshot h' = stored_snapshot h ∧
  (d_ok h → r = Ok tt).
Proof.
  intros Hw E. destruct (wp_elim _ _ _ _ _ (append_wal_log_wp e es h Hw) E) as ([F _] & ? & Hok & Hs).
  split_and!; try done; [by apply wal_holds_stored| |apply stored_meta_ext, F; done|
    apply stored_snapshot_ext, F; done].
  intros Hr. split; [auto|]. by apply wal_holds_stored, Hok.
Qed.

(** log truncation after a snapshot keeps exactly the entries above the snapshot's
    index, in order, and reports their number; when one of its calls fails and it
    returns an error, the log is the old one. *)
Theorem rewrite_wal_keeps_suffix idx es h r h' :
  wal_holds es h → rewrite_wal_after_snapshot idx h = (r, h') →
  (d_ok h → r = Ok (length (filter (λ e, idx < le_index e) es)) ∧
     wal_holds (filter (λ e, idx < le_index e) es) h' ∧
     stored_log h' = filter (λ e, idx < le_index e) es) ∧
  (is_ok r = false → stored_log h' = es) ∧
  stored_meta h' = stored_meta h ∧ stored_snapshot h' = stored_snapshot h.
Proof.
  intros Hw E. pose proof (rewrite_wal_wp idx h) as HR. cbv zeta in HR.
  destruct (wp_elim _ _ _ _ _ HR E) as ([F _] & Hr & Hok & Herr).
  split_and!; [| |apply stored_meta_ext, F; done|apply stored_snapshot_ext, F; done].
  - intros Hn. rewrite (restore_quiet h Hn) in *. simpl in *. rewrite (wal_holds_stored es h Hw) in *.
    destruct (Hok _ (Hr Hn)) as [_ Hw']. split_and!; [auto|done|by apply wal_holds_stored].
  - destruct r as [n|e]; [done|]. intros _. rewrite (stored_log_ext _ _ (Herr e eq_refl)).
    by apply wal_holds_stored.
Qed.
End theorems.

(** ** Witnesses *)

Import Codec.

Definition entry_at (term index : Z) : LogEntry := mkLogEntry term index (CSet "k" "v").

Definition empty_disk (fs : list outcome) : Disk := mkDisk ∅ fs.

(** Two entries appended to an empty disk. *)
Definition two_entries : Disk :=
  (append_wal_log (entry_at 1 2) (append_wal_log (entry_at 1 1) (empty_disk [])).2).2.

Lemma two_entries_holds : wal_holds [entry_at 1 1; entry_at 1 2] two_entries.
Proof.
  destruct (append_wal_log_wp (entry_at 1 1) [] (empty_disk []) (frames_nil)) as (_ & Ho & H & _).
  destruct (append_wal_log_wp (entry_at 1 2) [entry_at 1 1] _ (H (Ho eq_refl))) as (_ & Ho' & H' & _).
  apply H'. vm_compute. reflexivity.
Qed.

Lemma save_meta_is_atomic_witness :
  stored_meta (save_meta 7 (Some "n1") (empty_disk [FailAfter 2])).2 = (0, None) ∧
  stored_meta (save_meta 7 (Some "n1") (empty_disk [])).2 = (7, Some "n1").
Proof.
  destruct (save_meta_is_atomic 7 (Some "n1") (empty_disk [FailAfter 2]) _ _
    ltac:(split; lia) (surjective_pairing _)) as [H1 _].
  destruct (save_meta_is_atomic 7 (Some "n1") (empty_disk []) _ _
    ltac:(split; lia) (surjective_pairing _)) as [H2 _].
  rewrite H1, H2. split; vm_compute; reflexivity.
Defined.

Lemma save_snapshot_is_atomic_witness :
  stored_snapshot (save_snapshot (mkSnapshot 3 1 ∅) (empty_disk [])).2 = Some (mkSnapshot 3 1 ∅).
Proof.
  destruct (save_snapshot_is_atomic (mkSnapshot 3 1 ∅) (empty_disk []) _ _
    (surjective_pairing _)) as [H _].
  rewrite H. vm_compute. reflexivity.
Defined.

Lemma append_restore_roundtrip_witness :
  stored_log (append_wal_log (entry_at 2 3) two_entries).2 =
    [entry_at 1 1; entry_at 1 2; entry_at 2 3].
Proof.
  destruct (append_restore_roundtrip (entry_at 2 3) [entry_at 1 1; entry_at 1 2] two_entries _ _
    two_entries_holds (surjective_pairing _)) as (_ & H & _ & _ & _ & Hok).
  apply H, Hok. vm_compute. reflexivity.
Defined.

Lemma rewrite_wal_keeps_suffix_witness :
  stored_log (rewrite_wal_after_snapshot 1 two_entries).2 = [entry_at 1 2].
Proof.
  destruct (rewrite_wal_keeps_suffix 1 [entry_at 1 1; entry_at 1 2] two_entries _ _
    two_entries_holds (surjective_pairing _)) as (H & _).
  destruct (H ltac:(vm_compute; reflexivity)) as (_ & _ & ->). reflexivity.
Defined.

(** A failed append is harmless on its own, but nothing cuts the partial frame
    it left: the next append succeeds, and what it wrote is not read back. *)
Lemma append_after_torn_append_is_lost :
  ∃ h1 h2, append_wal_log (entry_at 1 1) (empty_disk [Succeed; FailAfter 3]) = (Err IoFailed, h1) ∧
    append_wal_log (entry_at 1 1) h1 = (Ok tt, h2) ∧ stored_log h2 = [].
Proof.
  exists (append_wal_log (entry_at 1 1) (empty_disk [Succeed; FailAfter 3])).2.
  exists (append_wal_log (entry_at 1 1) (append_wal_log (entry_at 1 1) (empty_disk [Succeed; FailAfter 3])).2).2.
  split_and!; vm_compute; reflexivity.
Qed.
