(* ===== verification/NodeVotes.v ===== *)
(** * Terms and votes of a node, in memory and on disk

    [meta_le n n']: from [n] to [n'] the term does not go back, a vote is not
    changed within a term, and what is on disk stays in step with memory. Every
    operation of the node is shown to respect it. *)

From stdpp Require Import prelude gmap strings sorting countable list.
From S2P Require Import Prelude Serde Protocol StateMachine Storage StorageProps Rpc Node.
#[local] Open Scope Z_scope.

Section votes.
Context {JW : Json WalOp} {JE : Json (list SSTEntry)} {JM : Json SSTableMeta}.
Context {BL : Bincode LogEntry} {LB : BincodeLaws LogEntry}.
Context {JV : Json Value} {LV : JsonLaws Value}.
Context {JS : Json Snapshot} {LS : JsonLaws Snapshot}.

(** No call fails, and the files hold the term and the vote of the node. *)
Record synced (n : RaftNode) : Prop := {
  sy_term : u64 (current_term n);
  sy_disk : d_ok (storage n);
  sy_meta : stored_meta (storage n) = (current_term n, vote_for n);
}.

(** Later in time: a higher term, or the same one with the vote kept. *)
Definition later (n n' : RaftNode) : Prop :=
  current_term n < current_term n' ∨
  current_term n' = current_term n ∧ (vote_for n = None ∨ vote_for n' = vote_for n).

Definition meta_le (n n' : RaftNode) : Prop :=
  self_id n' = self_id n ∧ (synced n → synced n' ∧ later n n').

#[export] Instance meta_le_preorder : PreOrder meta_le.
Proof.
  split.
  - intros n. split; [done|]. intros Hs. split; [done|]. right. auto.
  - intros n1 n2 n3 [I1 H1] [I2 H2]. split; [congruence|]. intros Hs.
    destruct (H1 Hs) as [Hs2 L1]. destruct (H2 Hs2) as [Hs3 L2]. split; [done|].
    unfold later in *. destruct L1 as [?|[E1 V1]], L2 as [?|[E2 V2]]; [left; lia..|].
    right. split; [lia|]. destruct V1 as [?|V1]; [auto|].
    destruct V2 as [V2|V2]; [left|right]; congruence.
Qed.

(** A change that leaves term, vote and identity alone and touches the disk
    outside the meta file. *)
Lemma meta_le_same n n' :
  self_id n' = self_id n → current_term n' = current_term n → vote_for n' = vote_for n →
  (d_ok (storage n) → d_ok (storage n')) →
  stored_meta (storage n') = stored_meta (storage n) →
  meta_le n n'.
Proof.
  intros Hi Ht Hv Hd Hm. split; [done|]. intros [S1 S2 S3]. split; [|right; auto].
  split; [by rewrite Ht|auto|by rewrite Hm, Ht, Hv].
Qed.

Lemma d_frame_meta f d d' : d_frame f d d' → f ≠ FMeta → stored_meta d' = stored_meta d.
Proof. intros [F _] Hf. by apply stored_meta_ext, F. Qed.

Lemma rewrite_wal_frame idx : keeps (d_frame FWal) (rewrite_wal_after_snapshot idx).
Proof. intros h. apply (rewrite_wal_wp idx h). Qed.

Lemma save_snapshot_frame s : keeps (d_frame FSnapshot) (save_snapshot s).
Proof. intros h. apply (save_snapshot_wp s h). Qed.

(** ** The rules for [meta_le] *)

Lemma meta_on_disk {A} f (m : M Disk A) : f ≠ FMeta → keeps (d_frame f) m → keeps meta_le (on_disk m).
Proof.
  intros Hf Hm. apply keeps_zoom. intros n. apply meta_le_same; simpl; try done.
  - apply Hm.
  - by eapply d_frame_meta.
Qed.

Lemma meta_append e : keeps meta_le (on_disk (append_wal_log e)).
Proof. by apply (meta_on_disk FWal), append_wal_frame. Qed.
Lemma meta_rewrite idx : keeps meta_le (on_disk (rewrite_wal_after_snapshot idx)).
Proof. by apply (meta_on_disk FWal), rewrite_wal_frame. Qed.
Lemma meta_save_snapshot s : keeps meta_le (on_disk (save_snapshot s)).
Proof. by apply (meta_on_disk FSnapshot), save_snapshot_frame. Qed.

Lemma meta_on_sm {A} (m : M StateMachine A) : keeps meta_le (on_sm m).
Proof. apply keeps_zoom. intros n. by apply meta_le_same. Qed.

Lemma meta_on_disk_read {A} (f : Disk → A * Disk) :
  (∀ d, d_files (f d).2 = d_files d ∧ (d_ok d → d_ok (f d).2)) → keeps meta_le (on_disk_read f).
Proof.
  intros Hf n. unfold on_disk_read. destruct (Hf (storage n)) as [H1 H2].
  destruct (f (storage n)) as [a d]. simpl in *. apply meta_le_same; simpl; try done.
  apply stored_meta_ext. by rewrite H1.
Qed.

Lemma disk_read_files {A} (read : Disk → option A) d :
  d_files (disk_read read d).2 = d_files d ∧ (d_ok d → d_ok (disk_read read d).2).
Proof. unfold disk_read, next_outcome, d_ok. destruct d as [fs [|[|] ?]]; done. Qed.

Lemma meta_wal_size : keeps meta_le (on_disk_read wal_size_bytes).
Proof.
  apply meta_on_disk_read. intros d. unfold wal_size_bytes.
  pose proof (disk_read_files (λ h, d_files h !! (FWal, false)) d) as H.
  destruct (disk_read _ d). exact H.
Qed.

Lemma meta_load_snapshot : keeps meta_le (on_disk_read load_snapshot).
Proof.
  apply meta_on_disk_read. intros d. unfold load_snapshot.
  pose proof (disk_read_files (λ h, d_files h !! (FSnapshot, false)) d) as H.
  destruct (disk_read _ d). exact H.
Qed.

Lemma meta_catch {A B} (m : M RaftNode A) (f : A → B) g : keeps meta_le m → keeps meta_le (catch m f g).
Proof. intros Hm n. unfold catch. specialize (Hm n). by destruct (m n) as [[]]. Qed.

Lemma meta_expect {A} (m : M RaftNode A) : keeps meta_le m → keeps meta_le (expect m).
Proof. intros Hm n. unfold expect. specialize (Hm n). by destruct (m n) as [[]]. Qed.

(** A [modify] of a field other than term, vote, storage and identity. *)
Lemma meta_modify (f : RaftNode → RaftNode) :
  (∀ n, self_id (f n) = self_id n ∧ current_term (f n) = current_term n ∧
        vote_for (f n) = vote_for n ∧ storage (f n) = storage n) → keeps meta_le (modify f).
Proof.
  intros Hf. apply keeps_modify. intros n. destruct (Hf n) as (? & ? & ? & E).
  apply meta_le_same; try done; by rewrite E.
Qed.
End votes.

#[export] Hint Resolve meta_append meta_rewrite meta_save_snapshot meta_on_sm meta_wal_size
  meta_load_snapshot : oxide.
#[export] Hint Extern 1 (keeps meta_le (modify _)) => (apply meta_modify; intros; repeat case_match; done) : oxide.
#[export] Hint Extern 1 (keeps meta_le (catch _ _ _)) => (apply meta_catch; keep) : oxide.
#[export] Hint Extern 1 (keeps meta_le (expect _)) => (apply meta_expect; keep) : oxide.

(** ** Every operation keeps it *)

Section handlers.
Context {JW : Json WalOp} {JE : Json (list SSTEntry)} {JM : Json SSTableMeta}.
Context {BL : Bincode LogEntry} {LB : BincodeLaws LogEntry}.
Context {JV : Json Value} {LV : JsonLaws Value}.
Context {JS : Json Snapshot} {LS : JsonLaws Snapshot}.

Lemma meta_append_own cmd : keeps meta_le (append_own cmd).
Proof. unfold append_own. keep. Qed.
#[local] Hint Resolve meta_append_own : oxide.

Lemma meta_install_configuration c : keeps meta_le (install_configuration c).
Proof. unfold install_configuration. keep. Qed.
#[local] Hint Resolve meta_install_configuration : oxide.

Lemma meta_apply_command c : keeps meta_le (apply_command c).
Proof. unfold apply_command. keep. Qed.
#[local] Hint Resolve meta_apply_command : oxide.

Lemma meta_apply_loop fuel : keeps meta_le (apply_loop fuel).
Proof. induction fuel; simpl; keep. Qed.
#[local] Hint Resolve meta_apply_loop : oxide.

Lemma meta_apply_logs : keeps meta_le apply_logs.
Proof. unfold apply_logs. keep. Qed.
#[local] Hint Resolve meta_apply_logs : oxide.

Lemma meta_maybe_commit : keeps meta_le maybe_commit.
Proof. unfold maybe_commit. keep. Qed.
#[local] Hint Resolve meta_maybe_commit : oxide.

Lemma meta_append_args v p : keeps meta_le (append_args v p).
Proof. unfold append_args. keep. Qed.
#[local] Hint Resolve meta_append_args : oxide.

Lemma meta_send_appends v ps : keeps meta_le (send_appends v ps).
Proof. induction ps; simpl; keep. Qed.
#[local] Hint Resolve meta_send_appends : oxide.

Lemma meta_sync_logs : keeps meta_le sync_logs.
Proof. unfold sync_logs. keep. Qed.
#[local] Hint Resolve meta_sync_logs : oxide.

Lemma meta_maybe_snapshot t : keeps meta_le (maybe_snapshot t).
Proof. unfold maybe_snapshot. keep. Qed.
#[local] Hint Resolve meta_maybe_snapshot : oxide.

Lemma meta_heartbeat_tick t : keeps meta_le (heartbeat_tick t).
Proof. unfold heartbeat_tick. keep. Qed.

Lemma meta_begin_read : keeps meta_le begin_read.
Proof. unfold begin_read. keep. Qed.

Lemma meta_propose c : keeps meta_le (propose c).
Proof. unfold propose. keep. Qed.

Lemma meta_propose_loop cs i : keeps meta_le (propose_loop cs i).
Proof. revert i. induction cs; intros i; simpl; keep. Qed.
#[local] Hint Resolve meta_propose_loop : oxide.

Lemma meta_propose_batch cs : keeps meta_le (propose_batch cs).
Proof. unfold propose_batch. keep. Qed.

Lemma meta_propose_joint o w : keeps meta_le (propose_joint o w).
Proof. unfold propose_joint. keep. Qed.
#[local] Hint Resolve meta_propose_joint : oxide.

Lemma meta_propose_add_node s : keeps meta_le (propose_add_node s).
Proof. unfold propose_add_node. keep. Qed.
Lemma meta_propose_remove_node i : keeps meta_le (propose_remove_node i).
Proof. unfold propose_remove_node. keep. Qed.
Lemma meta_propose_abort_tx t : keeps meta_le (propose_abort_tx t).
Proof. unfold propose_abort_tx. keep. Qed.

Lemma meta_become_leader : keeps meta_le become_leader.
Proof. unfold become_leader, touch_heartbeat. keep. Qed.
#[local] Hint Resolve meta_become_leader : oxide.

Lemma meta_become_leader_checked : keeps meta_le become_leader_checked.
Proof. unfold become_leader_checked. keep. Qed.
#[local] Hint Resolve meta_become_leader_checked : oxide.

Lemma meta_request_votes : keeps meta_le request_votes.
Proof. unfold request_votes. keep. Qed.
#[local] Hint Resolve meta_request_votes : oxide.

Lemma meta_touch : keeps meta_le touch_heartbeat.
Proof. unfold touch_heartbeat. keep. Qed.
#[local] Hint Resolve meta_touch : oxide.

Lemma meta_pre_vote a : keeps meta_le (handle_pre_vote a).
Proof. unfold handle_pre_vote. keep. Qed.

(** ** Operations that change the term or the vote *)

(** The fields a vote handler may change. *)
Definition meta_update (t : Z) (v : option string) (st : NodeState) (hb : Z) (d : Disk)
    (n : RaftNode) : RaftNode :=
  with_storage d (with_last_heartbeat hb (with_state st (with_vote_for v (with_current_term t n)))).

Lemma persist_meta_wp n (Q : result unit → RaftNode → Prop) :
  (∀ d, d_frame FMeta (storage n) d →
     (u64 (current_term n) → d_ok (storage n) → stored_meta d = (current_term n, vote_for n)) →
     Q (Ok tt) (with_storage d n)) →
  wp persist_meta Q n.
Proof.
  intros HQ. unfold persist_meta. do 4 wp_step. unfold on_disk. wp_step. wp_step.
  destruct (decide (u64 (current_term n))) as [Hu|Hu].
  - wp_use save_meta_wp; [done|]. intros r d (F & Hn & Hok & _). apply HQ; [done|]. auto.
  - eapply wp_mono; [|intros r d HF; apply HQ; [exact HF|done]].
    apply (keeps_wp (d_frame FMeta)). unfold save_meta. keep.
    intros h. apply (replace_file_wp FMeta _ h).
Qed.

(** The node has a new term or a new vote; once it is on disk, [meta_le] holds. *)
Lemma meta_le_recorded n n1 d :
  self_id n1 = self_id n → (synced n → u64 (current_term n1) ∧ later n n1) →
  storage n1 = storage n →
  d_frame FMeta (storage n1) d →
  (u64 (current_term n1) → d_ok (storage n1) → stored_meta d = (current_term n1, vote_for n1)) →
  meta_le n (with_storage d n1).
Proof.
  intros Hi Hl Hd [_ F] Hm. split; [done|]. intros Hs. destruct (Hl Hs) as [Hu L].
  rewrite Hd in *. split; [|exact L]. split; simpl; [done|by apply F, Hs|].
  apply Hm; [done|apply Hs].
Qed.

Lemma adopt_term_wp t n (Q : result unit → RaftNode → Prop) : u64 t → current_term n < t →
  (∀ d, meta_le n (meta_update t None Follower (last_heartbeat n) d n) →
     d_frame FMeta (storage n) d →
     Q (Ok tt) (meta_update t None Follower (last_heartbeat n) d n)) →
  wp (adopt_term t) Q n.
Proof.
  intros Hu Ht HQ. unfold adopt_term. do 6 wp_step. apply persist_meta_wp. simpl.
  intros d F Hm. replace (with_storage d _) with (meta_update t None Follower (last_heartbeat n) d n)
    by (by destruct n). apply HQ; [|done].
  apply (meta_le_recorded n (with_last_heartbeat (last_heartbeat n)
    (with_state Follower (with_vote_for None (with_current_term t n)))) d); simpl; try done.
  intros _. split; [done|]. left. simpl. lia.
Qed.

(** What [handle_request_vote] decides, and what it leaves behind. *)
Definition may_vote (args : RequestVoteArgs) (n : RaftNode) : bool :=
  (current_term n <? rv_term args) ||
  ((rv_term args =? current_term n) &&
   (bool_decide (vote_for n = None) || bool_decide (vote_for n = Some (rv_candidate_id args)))).

Definition vote_decision (args : RequestVoteArgs) (n : RaftNode) : bool :=
  may_vote args n && log_up_to_date (rv_last_log_index args) (rv_last_log_term args) n.

Lemma log_up_to_date_ext i t n n' : log n' = log n → log_up_to_date i t n' = log_up_to_date i t n.
Proof. unfold log_up_to_date, get_last_log_info. by intros ->. Qed.

(** The state after the term check of [handle_request_vote]. *)
Lemma vote_term_check args n (k : unit → M RaftNode VoteResponseArgs) Q :
  u64 (rv_term args) → current_term n <= rv_term args →
  (∀ st d, let n1 := meta_update (rv_term args)
      (if current_term n <? rv_term args then None else vote_for n) st (last_heartbeat n) d n in
    meta_le n n1 → wp (k tt) Q n1) →
  wp ((if current_term n <? rv_term args then adopt_term (rv_term args) else mret tt) ≫= k) Q n.
Proof.
  intros Hu Hge Hk. wp_step. destruct (Z.ltb_spec (current_term n) (rv_term args)).
  - apply adopt_term_wp; [done..|]. intros d Hle _. by apply Hk.
  - wp_step. assert (E : rv_term args = current_term n) by lia.
    specialize (Hk (state n) (storage n)). simpl in Hk. rewrite E in Hk.
    replace (meta_update _ _ _ _ _ _) with n in Hk by (by destruct n). by apply Hk.
Qed.

Lemma handle_request_vote_wp args n : u64 (rv_term args) →
  wp (handle_request_vote args) (λ r n', meta_le n n' ∧
    r = Ok (mkVoteResponse (current_term n `max` rv_term args) (vote_decision args n)) ∧
    ∃ st hb d, n' = meta_update (current_term n `max` rv_term args)
      (if vote_decision args n then Some (rv_candidate_id args)
       else if current_term n <? rv_term args then None else vote_for n) st hb d n) n.
Proof.
  intros Hu. unfold handle_request_vote. do 2 wp_step.
  destruct (Z.ltb_spec (rv_term args) (current_term n)) as [Hlt|Hge].
  { wp_step. unfold vote_decision, may_vote.
    assert (E1 : (current_term n <? rv_term args) = false) by lia.
    assert (E2 : (rv_term args =? current_term n) = false) by lia. rewrite E1, E2. simpl.
    rewrite Z.max_l by lia. split_and!; [reflexivity|done|].
    exists (state n), (last_heartbeat n), (storage n). by destruct n. }
  assert (Hmax : current_term n `max` rv_term args = rv_term args) by lia. rewrite Hmax.
  apply vote_term_check; [done..|]. intros st d n1 Hle. subst n1. do 6 wp_step. simpl.
  assert (Ed : vote_decision args n =
    (bool_decide ((if current_term n <? rv_term args then None else vote_for n) = None)
     || bool_decide ((if current_term n <? rv_term args then None else vote_for n) = Some (rv_candidate_id args)))
    && log_up_to_date (rv_last_log_index args) (rv_last_log_term args) n).
  { unfold vote_decision, may_vote. destruct (Z.ltb_spec (current_term n) (rv_term args)); [done|].
    by replace (rv_term args =? current_term n) with true by lia. }
  rewrite (log_up_to_date_ext _ _ n) by done. rewrite <- Ed.
  destruct (vote_decision args n) eqn:Ev.
  - do 3 wp_step. apply persist_meta_wp. intros d' F Hm. simpl. unfold touch_heartbeat. do 3 wp_step.
    split_and!; [|done|].
    + etransitivity; [exact Hle|].
      set (n1 := meta_update _ _ st _ d n) in *.
      etransitivity; [apply (meta_le_recorded n1 (with_vote_for (Some (rv_candidate_id args)) n1) d');
        simpl; try done|].
      { intros Hs. split; [done|]. right. simpl. split; [done|].
        symmetry in Ed. apply andb_true_iff in Ed as [Ed _].
        apply orb_true_iff in Ed as [E|E]; apply bool_decide_eq_true_1 in E; rewrite E; auto. }
      by apply meta_le_same.
    + exists st, (clock n), d'. by destruct n.
  - wp_step. split_and!; [done|done|]. exists st, (last_heartbeat n), d. done.
Qed.

(** Sequencing at a given start state. *)
Lemma wp_le_bind {A B} (m : M RaftNode A) (k : A → M RaftNode B) n :
  wp m (λ _ n', meta_le n n') n → (∀ a, keeps meta_le (k a)) →
  wp (m ≫= k) (λ _ n', meta_le n n') n.
Proof.
  intros Hm Hk. wp_step. eapply wp_mono; [exact Hm|]. intros [a|e] n1 H; [|done].
  cbn beta iota. unfold wp. etransitivity; [exact H|apply Hk].
Qed.

Lemma adopt_le t n : u64 t → current_term n < t → wp (adopt_term t) (λ _ n', meta_le n n') n.
Proof. intros. by apply adopt_term_wp. Qed.

Lemma promote_le n : u64 (current_term n + 1) →
  wp promote_to_candidate_locked (λ _ n', meta_le n n' ∧
    current_term n' = current_term n + 1 ∧ vote_for n' = Some (self_id n) ∧ state n' = Candidate) n.
Proof.
  intros Hu. unfold promote_to_candidate_locked. do 6 wp_step. wp_step. apply persist_meta_wp. simpl.
  rewrite u64_add_small by (unfold u64 in Hu; lia).
  intros d F Hm. unfold touch_heartbeat. wp_step. split_and!; try done.
  etransitivity; [apply (meta_le_recorded n (with_vote_for (Some (self_id n)) (with_state Candidate
    (with_current_term (current_term n + 1) n))) d); simpl; try done|by apply meta_le_same].
  intros _. split; [done|]. left. simpl. lia.
Qed.

Lemma become_candidate_le n : u64 (current_term n + 1) →
  wp become_candidate (λ _ n', meta_le n n') n.
Proof.
  intros Hu. apply wp_le_bind; [|eauto with oxide].
  eapply wp_mono; [by apply promote_le|]. by intros r n' [? _].
Qed.

Lemma enter_pre_candidate_le v n : u64 (current_term n + 1) →
  wp (enter_pre_candidate v) (λ _ n', meta_le n n') n.
Proof.
  intros Hu. unfold enter_pre_candidate. do 2 wp_step. case_match; [|wp_step; reflexivity]. do 2 wp_step.
  set (n1 := with_state PreCandidate n). assert (H1 : meta_le n n1) by (by apply meta_le_same).
  case_match; [|by wp_step].
  eapply wp_mono; [|intros r n' Hle; etransitivity; [exact H1|exact Hle]].
  do 2 wp_step. apply (wp_le_bind _ _ n1); [|keep].
  rewrite bool_decide_true by done. apply wp_le_bind; [|keep].
  eapply wp_mono; [by apply promote_le|]. by intros r n' [? _].
Qed.

Lemma process_pre_vote_reply_le total probed votes reply n : u64 (current_term n + 1) →
  wp (process_pre_vote_reply total probed votes reply) (λ _ n', meta_le n n') n.
Proof.
  intros Hu. unfold process_pre_vote_reply. case_match.
  { do 3 wp_step. case_match; [by apply meta_le_same|reflexivity]. }
  case_match; [wp_step; reflexivity|]. cbv zeta. case_match; [wp_step; reflexivity|].
  do 2 wp_step. case_match; [wp_step; reflexivity|].
  apply wp_le_bind; [|keep]. eapply wp_mono; [by apply promote_le|]. by intros r n' [? _].
Qed.

Lemma on_append_reply_le peer args reply n : u64 (ar_term reply) →
  wp (on_append_reply peer args reply) (λ _ n', meta_le n n') n.
Proof.
  intros Hu. unfold on_append_reply. case_match.
  { apply keeps_wp. keep. }
  do 2 wp_step. case_match eqn:E; [apply adopt_le; [done|lia]|]. apply keeps_wp. keep.
Qed.

(** The task of [request_votes] compares the reply's term with the term of its own round only,
    so this needs that the node has not moved past the reply's term. *)
Lemma on_vote_reply_le total term votes reply n : u64 (vr_term reply) →
  (vr_granted reply = false → term < vr_term reply → current_term n < vr_term reply) →
  wp (on_vote_reply total term votes reply) (λ _ n', meta_le n n') n.
Proof.
  intros Hu Hg. unfold on_vote_reply. case_match.
  { apply keeps_wp. keep. }
  case_match eqn:E; [|wp_step; reflexivity]. apply wp_le_bind; [|keep]. apply adopt_le; [done|].
  apply Hg; [done|lia].
Qed.

Lemma handle_tx_vote_request_le req n : u64 (tv_term req) →
  wp (handle_tx_vote_request req) (λ _ n', meta_le n n') n.
Proof.
  intros Hu. unfold handle_tx_vote_request. do 2 wp_step. case_match; [wp_step; reflexivity|].
  case_match eqn:E.
  - apply wp_le_bind; [apply adopt_le; [done|lia]|keep].
  - apply keeps_wp. keep.
Qed.

Lemma tx_step_down_le t n : u64 t → current_term n < t → wp (tx_step_down t) (λ _ n', meta_le n n') n.
Proof.
  intros Hu Ht. unfold tx_step_down. do 2 wp_step. case_bool_decide; [by apply adopt_le|wp_step; reflexivity].
Qed.

Lemma meta_append_loop es : keeps meta_le (append_loop es).
Proof. induction es as [|e es IH]; simpl; unfold append_entry; keep. Qed.
#[local] Hint Resolve meta_append_loop : oxide.

Lemma handle_append_entries_le args n : u64 (ae_term args) →
  wp (handle_append_entries args) (λ _ n', meta_le n n') n.
Proof.
  intros Hu. unfold handle_append_entries. do 4 wp_step. case_match; [wp_step; reflexivity|].
  case_match; [wp_step; reflexivity|]. apply wp_le_bind; [|keep].
  case_match eqn:E; [|wp_step; reflexivity]. do 4 wp_step. apply persist_meta_wp. simpl.
  intros d F Hm. apply (meta_le_recorded n (with_vote_for None (with_current_term (ae_term args) n)) d);
    simpl; try done. intros _. split; [done|]. left. simpl. lia.
Qed.

Lemma handle_install_snapshot_le args n : u64 (is_term args) →
  wp (handle_install_snapshot args) (λ _ n', meta_le n n') n.
Proof.
  intros Hu. unfold handle_install_snapshot. do 4 wp_step. case_match; [wp_step; reflexivity|].
  case_match; [wp_step; reflexivity|]. apply wp_le_bind; [|keep].
  case_match eqn:E; [apply adopt_le; [done|lia]|wp_step; reflexivity].
Qed.
End handlers.
