(* ===== verification/NodeEvents.v ===== *)
(** * Everything that happens to a node

    The events a node reacts to, one per lock acquisition of the code, the
    step each one takes, and the traces they form, restarts included. *)

From stdpp Require Import prelude gmap strings sorting countable list.
From S2P Require Import Prelude Serde Protocol StateMachine Storage StorageProps Rpc Node NodeVotes.
#[local] Open Scope Z_scope.

Inductive event :=
  | EvRpc (msg : RaftMessage)                     (** a peer's request arrives *)
  | EvTxVote (req : TxVoteRequest)
  | EvTxStepDown (t : Z)                          (** the coordinator sees a higher term *)
  | EvCampaign                                    (** [become_candidate] *)
  | EvPreCampaign (v : VoteRound)                 (** second half of [become_pre_candidate] *)
  | EvVoteReply (total : nat) (term : Z) (votes : nat) (reply : VoteResponseArgs)
  | EvPreVoteReply (total : nat) (probed_term : Z) (votes : nat) (reply : VoteResponseArgs)
  | EvAppendReply (peer : string) (args : AppendEntriesArgs) (reply : AppendReplyArgs)
  | EvPropose (cs : list Command)
  | EvAddNode (s : ServerId)
  | EvRemoveNode (id : string)
  | EvAbortTx (tx_id : string)
  | EvHeartbeat (threshold : Z)
  | EvRead
  | EvClock (now : Z)
  | EvRestart (config : StateMachineConfig) (ps : list string) (now : Z).

(** The term a message carries. *)
Definition msg_term (msg : RaftMessage) : Z :=
  match msg with
  | RequestVote a | RequestPreVote a => rv_term a
  | VoteResponse r | PreVoteResponse r => vr_term r
  | AppendEntries a => ae_term a
  | AppendReply r => ar_term r
  | InstallSnapshot a => is_term a
  | InstallSnapshotReply r => ir_term r
  | JoinCluster _ => 0
  | JoinClusterReply r => jr_term r
  end.

Section events.
Context {JW : Json WalOp} {JE : Json (list SSTEntry)} {JM : Json SSTableMeta}.
Context {BL : Bincode LogEntry} {LB : BincodeLaws LogEntry}.
Context {JV : Json Value} {LV : JsonLaws Value}.
Context {JS : Json Snapshot} {LS : JsonLaws Snapshot}.

Definition drop_result {A} (x : result A * RaftNode) : option RaftMessage * RaftNode := (None, x.2).

(** The reply sent back, if any, and the node after. *)
Definition run_event (ev : event) (n : RaftNode) : option RaftMessage * RaftNode :=
  match ev with
  | EvRpc msg =>
      match handle_raft_rpc msg n with
      | (Ok r, n') => (r, n')
      | (Err _, n') => (None, n')
      end
  | EvTxVote req => drop_result (handle_tx_vote_request req n)
  | EvTxStepDown t => drop_result (tx_step_down t n)
  | EvCampaign => drop_result (become_candidate n)
  | EvPreCampaign v => drop_result (enter_pre_candidate v n)
  | EvVoteReply total term votes reply => drop_result (on_vote_reply total term votes reply n)
  | EvPreVoteReply total t votes reply => drop_result (process_pre_vote_reply total t votes reply n)
  | EvAppendReply peer args reply => drop_result (on_append_reply peer args reply n)
  | EvPropose cs => drop_result (propose_batch cs n)
  | EvAddNode s => drop_result (propose_add_node s n)
  | EvRemoveNode i => drop_result (propose_remove_node i n)
  | EvAbortTx t => drop_result (propose_abort_tx t n)
  | EvHeartbeat th => drop_result (heartbeat_tick th n)
  | EvRead => drop_result (begin_read n)
  | EvClock now => (None, with_clock now n)
  | EvRestart config ps now =>
      drop_result (boot config (self_id n) ps (host (state_machine n)) (storage n) now)
  end.

(** Terms on the wire are [u64], no counter is about to wrap, and a refusal that
    makes the node step down in [request_votes] or in the coordinator does not come from the past. *)
Definition allowed (ev : event) (n : RaftNode) : Prop :=
  match ev with
  | EvRpc msg => u64 (msg_term msg)
  | EvTxVote req => u64 (tv_term req)
  | EvTxStepDown t => u64 t ∧ current_term n < t
  | EvCampaign | EvPreCampaign _ | EvPreVoteReply _ _ _ _ => u64 (current_term n + 1)
  | EvVoteReply _ term _ reply =>
      u64 (vr_term reply) ∧
      (vr_granted reply = false → term < vr_term reply → current_term n < vr_term reply)
  | EvAppendReply _ _ reply => u64 (ar_term reply)
  | _ => True
  end.

Lemma keeps_fst_snd {A} (R : RaftNode → RaftNode → Prop) (m : M RaftNode A) n :
  keeps R m → R n (drop_result (m n)).2.
Proof. intros Hm. apply Hm. Qed.

Lemma meta_replay_command c : keeps meta_le (replay_command c).
Proof. unfold replay_command. keep. Qed.

Lemma meta_replay_entries es : keeps meta_le (replay_entries es).
Proof. induction es; simpl; keep. apply meta_replay_command. Qed.

Lemma meta_restore : keeps meta_le restore_from_snapshot.
Proof. unfold restore_from_snapshot. keep. Qed.

Lemma load_initial_state_ok d : d_ok d →
  load_initial_state d = ((stored_meta d, stored_log d), d).
Proof.
  intros Hn. unfold load_initial_state.
  assert (E : read_meta d = (stored_meta d, d)).
  { unfold stored_meta. rewrite quiet_ok by done. unfold read_meta, disk_read.
    unfold d_ok in Hn. destruct d as [fs flt]. simpl in *. subst flt. simpl. by case_match. }
  rewrite E, restore_quiet by done. done.
Qed.

(** A restart reads back the term and the vote. *)
Lemma boot_le config ps now n :
  meta_le n (boot config (self_id n) ps (host (state_machine n)) (storage n) now).2.
Proof.
  unfold boot. destruct (sm_open config _) as [r files].
  assert (Hnew : ∀ sm, meta_le n (raft_node_new (self_id n) ps sm (storage n) now)).
  { intros sm. unfold raft_node_new. split; [by destruct (load_initial_state _) as [[[]]]|].
    intros [S1 S2 S3]. rewrite (load_initial_state_ok _ S2), S3. simpl.
    split; [split; simpl; done|]. right. auto. }
  destruct r as [sm|e]; [|apply Hnew].
  set (n1 := if bool_decide _ then _ else _).
  assert (H1 : meta_le n n1).
  { etransitivity; [apply (Hnew sm)|]. subst n1. case_bool_decide; [by apply meta_le_same|reflexivity]. }
  etransitivity; [exact H1|].
  assert (Hk : keeps meta_le (_ ← restore_from_snapshot; replay_logs)); [|apply Hk].
  unfold replay_logs. keep; [apply meta_restore|apply meta_replay_entries].
Qed.

Lemma handle_raft_rpc_le msg n : u64 (msg_term msg) →
  wp (handle_raft_rpc msg) (λ _ n', meta_le n n') n.
Proof.
  intros Hu. destruct msg; simpl in *; try (wp_step; reflexivity).
  - apply wp_le_bind; [|keep]. eapply wp_mono; [by apply handle_request_vote_wp|]. by intros ?? [? _].
  - apply wp_le_bind; [by apply handle_append_entries_le|keep].
  - apply wp_le_bind; [by apply handle_install_snapshot_le|keep].
  - apply wp_le_bind; [apply keeps_wp, meta_pre_vote|keep].
  - apply keeps_wp. keep.
Qed.

Lemma run_event_le ev n : allowed ev n → meta_le n (run_event ev n).2.
Proof.
  intros Ha. destruct ev; simpl in *; try (apply keeps_fst_snd).
  - pose proof (handle_raft_rpc_le _ n Ha) as H. unfold wp in H.
    by destruct (handle_raft_rpc msg n) as [[]].
  - by apply handle_tx_vote_request_le.
  - destruct Ha. by apply tx_step_down_le.
  - by apply become_candidate_le.
  - by apply enter_pre_candidate_le.
  - destruct Ha. by apply on_vote_reply_le.
  - by apply process_pre_vote_reply_le.
  - by apply on_append_reply_le.
  - apply meta_propose_batch.
  - apply meta_propose_add_node.
  - apply meta_propose_remove_node.
  - apply meta_propose_abort_tx.
  - apply meta_heartbeat_tick.
  - apply meta_begin_read.
  - by apply meta_le_same.
  - apply boot_le.
Qed.

(** ** Traces *)

(** The votes an event makes known: a granted reply, and the vote the node has
    on record afterwards. *)
Definition votes_shown (ev : event) (r : option RaftMessage) (n' : RaftNode) : list (Z * string) :=
  match ev, r with
  | EvRpc (RequestVote args), Some (VoteResponse reply) =>
      if vr_granted reply then [(vr_term reply, rv_candidate_id args)] else []
  | _, _ => []
  end ++
  match vote_for n' with Some c => [(current_term n', c)] | None => [] end.

Inductive trace (n0 : RaftNode) : list (Z * string) → RaftNode → Prop :=
  | trace_start : trace n0 [] n0
  | trace_event vs n ev r n' :
      trace n0 vs n → allowed ev n → run_event ev n = (r, n') →
      trace n0 (vs ++ votes_shown ev r n') n'.

Lemma votes_shown_recorded ev n r n' t c : allowed ev n → run_event ev n = (r, n') →
  (t, c) ∈ votes_shown ev r n' → t = current_term n' ∧ vote_for n' = Some c.
Proof.
  intros Ha Hr. unfold votes_shown. rewrite elem_of_app. intros [Hin|Hin].
  2:{ destruct (vote_for n'); [|by apply elem_of_nil in Hin].
      apply list_elem_of_singleton in Hin. by simplify_eq. }
  destruct ev as [[]| | | | | | | | | | | | | | |]; try by apply elem_of_nil in Hin.
  destruct r as [[]|]; try by apply elem_of_nil in Hin.
  destruct (vr_granted reply) eqn:Eg; [|by apply elem_of_nil in Hin].
  apply list_elem_of_singleton in Hin. simplify_eq. simpl in Hr, Ha.
  pose proof (handle_request_vote_wp args n Ha) as (_ & E & st & hb & d & En').
  unfold mbind, M_bind in Hr.
  destruct (handle_request_vote args n) as [[r|e] n1]; simpl in *; [|by simplify_eq].
  injection Hr as <- <-. injection E as ->. simpl in *. rewrite En', Eg. done.
Qed.

Definition votes_hold (vs : list (Z * string)) (n : RaftNode) : Prop :=
  (∀ t c, (t, c) ∈ vs → t < current_term n ∨ t = current_term n ∧ vote_for n = Some c) ∧
  (∀ t c c', (t, c) ∈ vs → (t, c') ∈ vs → c = c').

Lemma trace_invariant n0 vs n : synced n0 → trace n0 vs n → synced n ∧ votes_hold vs n.
Proof.
  intros H0. induction 1 as [|vs n ev r n' _ [Hs [H1 H2]] Ha Hr].
  { split; [done|]. split; intros *; by rewrite elem_of_nil. }
  pose proof (run_event_le ev n Ha) as Hle. rewrite Hr in Hle. cbn [snd] in Hle. destruct Hle as [_ Hle].
  destruct (Hle Hs) as [Hs' L]. split; [done|].
  assert (Hold : ∀ t c, (t, c) ∈ vs → t < current_term n' ∨ t = current_term n' ∧ vote_for n' = Some c).
  { intros t c Hin. destruct (H1 t c Hin) as [?|[-> Hv]], L as [?|[Et Ev]]; try (left; lia).
    right. split; [done|]. destruct Ev as [Ev|Ev]; congruence. }
  pose proof (votes_shown_recorded ev n r n') as Hnew. split.
  - intros t c [Hin|Hin]%elem_of_app; [auto|]. right. by apply (Hnew t c).
  - intros t c c' [Hin|Hin]%elem_of_app [Hin'|Hin']%elem_of_app.
    + eauto.
    + destruct (Hnew t c' Ha Hr Hin'), (Hold t c Hin) as [?|[]]; [lia|congruence].
    + destruct (Hnew t c Ha Hr Hin), (Hold t c' Hin') as [?|[]]; [lia|congruence].
    + destruct (Hnew t c Ha Hr Hin), (Hnew t c' Ha Hr Hin'). congruence.
Qed.
End events.
