(* ===== verification/Refinement.v ===== *)
(** * The state machine implements the reference model

    [agrees]: the map a machine stores and the transactions it stages are
    those of the reference model. Applying log entries on a node keeps the two
    in step. *)

From stdpp Require Import prelude gmap strings sorting countable list.
From S2P Require Import Prelude Serde Protocol StateMachine StateMachineProps Storage StorageProps Rpc.
From S2P Require Import Node ReferenceModel.
#[local] Open Scope Z_scope.

(** The map and the staged transactions after a list of commands. *)
Definition apply_all (cmds : list Command) (x : gmap string string * gmap string (list TxOp)) :
    gmap string string * gmap string (list TxOp) :=
  foldl (λ x c, rm_effect c x.1 x.2) x cmds.

(** Table numbers a command may use. *)
Definition command_cost (p : gmap string (list TxOp)) (c : Command) : Z :=
  match c with
  | CSet _ _ | CDelete _ => 1
  | CDecideTx t _ => Z.of_nat (length (default [] (p !! t)))
  | _ => 0
  end.

Fixpoint total_cost (x : gmap string string * gmap string (list TxOp)) (cmds : list Command) : Z :=
  match cmds with
  | [] => 0
  | c :: cmds' => command_cost x.2 c + total_cost (rm_effect c x.1 x.2) cmds'
  end.

Lemma command_cost_nonneg p c : 0 <= command_cost p c.
Proof. destruct c; simpl; lia. Qed.

Lemma total_cost_nonneg x cmds : 0 <= total_cost x cmds.
Proof.
  revert x. induction cmds as [|c cmds IH]; intros x; simpl; [lia|].
  pose proof (command_cost_nonneg x.2 c). pose proof (IH (rm_effect c x.1 x.2)). lia.
Qed.

(** ** The loop of the reference model *)

(** Entries [a + 1 .. b] of a log. *)
Definition slice (a b : Z) (l : list LogEntry) : list Command :=
  le_command <$> take (Z.to_nat (b - a)) (drop (Z.to_nat a) l).

Lemma slice_nil a b l : b <= a → slice a b l = [].
Proof. intros. unfold slice. by replace (Z.to_nat (b - a)) with 0%nat by lia. Qed.

Lemma slice_cons a b l e : 0 <= a < b → l !! Z.to_nat a = Some e →
  slice a b l = le_command e :: slice (a + 1) b l.
Proof.
  intros Hab He. unfold slice. rewrite (drop_S _ _ _ He).
  replace (Z.to_nat (b - a)) with (S (Z.to_nat (b - (a + 1)))) by lia.
  by replace (Z.to_nat (a + 1)) with (S (Z.to_nat a)) by lia.
Qed.

Lemma slice_prefix a b l l' : 0 <= a → b <= Z.of_nat (length l) → l `prefix_of` l' → slice a b l' = slice a b l.
Proof.
  intros Ha Hb [k ->]. unfold slice. f_equal.
  destruct (decide (Z.to_nat a <= length l)%nat).
  - rewrite drop_app_le, take_app_le; [done| |done]. rewrite length_drop. lia.
  - by replace (Z.to_nat (b - a)) with 0%nat by lia.
Qed.

Lemma rm_loop_spec fuel n commit rm k :
  0 < rm_next_index rm → commit < U64 - 1 → commit <= log_len n →
  (Z.to_nat (commit - rm_next_index rm + 1) <= fuel)%nat →
  let cmds := slice (rm_next_index rm - 1) commit (log n) in
  let x := apply_all cmds (rm_state rm, rm_pending rm) in
  rm_loop fuel n commit rm k =
    ((k + length cmds)%nat, mkRM x.1 x.2 (rm_next_index rm `max` (commit + 1))).
Proof.
  revert rm k. induction fuel as [|fuel IH]; intros rm k Hpos Hu Hlen Hf.
  { rewrite slice_nil by lia. simpl. rewrite Z.max_l by lia. destruct rm. simpl. f_equal. lia. }
  simpl. destruct (Z.leb_spec (rm_next_index rm) commit).
  2:{ rewrite slice_nil by lia. simpl. rewrite Z.max_l by lia. destruct rm. simpl. f_equal. lia. }
  unfold get_log_entry. replace (rm_next_index rm =? 0) with false by lia.
  unfold log_len in Hlen.
  destruct (lookup_lt_is_Some_2 (log n) (Z.to_nat (rm_next_index rm - 1))) as [e He]; [lia|].
  rewrite He, (slice_cons _ _ _ e) by (done || lia). unfold rm_apply. rewrite Z.ltb_irrefl. simpl.
  rewrite u64_add_small by lia.
  destruct (rm_effect (le_command e) (rm_state rm) (rm_pending rm)) as [m p] eqn:E.
  rewrite IH by (simpl; unfold log_len; lia). simpl.
  replace (rm_next_index rm - 1 + 1) with (rm_next_index rm + 1 - 1) by lia.
  f_equal; [lia|]. f_equal. lia.
Qed.

Section refinement.
Context {JW : Json WalOp} {LW : JsonLaws WalOp}.
Context {JE : Json (list SSTEntry)} {LE : JsonLaws (list SSTEntry)}.
Context {JM : Json SSTableMeta} {LM : JsonLaws SSTableMeta}.
Context {BL : Bincode LogEntry}.

Definition agrees (x : gmap string string * gmap string (list TxOp)) (s : StateMachine) : Prop :=
  contents s = x.1 ∧ tx_ops <$> pending_txs s = x.2.

(** A machine that agrees with [x], satisfies its invariant, and has [k] table numbers left. *)
Record refines (k : Z) (x : gmap string string * gmap string (list TxOp)) (s : StateMachine) : Prop := {
  rf_agrees : agrees x s;
  rf_wf : wf s;
  rf_room : room k s;
  rf_faults : no_faults (host s);
}.

(** The state-machine part of applying a command. *)
Definition sm_apply (c : Command) : M StateMachine unit :=
  match c with
  | CSet key value => ignore (set key value)
  | CDelete key => ignore (delete key)
  | CBeginTx tx_id ops => ignore (begin_tx tx_id ops)
  | CDecideTx tx_id decision => ignore (decide_tx tx_id decision)
  | _ => mret tt
  end.

Lemma op_effect_rm : op_effect = rm_op.
Proof. done. Qed.

Lemma sm_apply_refines c k x s : 0 <= k → refines (command_cost x.2 c + k) x s →
  refines k (rm_effect c x.1 x.2) (sm_apply c s).2 ∧ (sm_apply c s).1 = Ok tt.
Proof.
  intros Hk [[Hc Hp] Hwf Hr Hn]. destruct x as [m p]. simpl in *. unfold room in *.
  pose proof (command_cost_nonneg p c). split; [|by destruct c].
  destruct c; simpl in *; try (split; [by split|done|unfold room; lia|done]).
  - destruct (set_wp key value s Hwf) as (W & Hs & Hx & HL & Hok); [unfold room; lia|].
    specialize (Hok Hn). split; [split; simpl| |unfold room; lia|by apply Hs]; [|by rewrite (sr_pending _ _ Hs)|done].
    destruct HL as [->|[? _]]; [by rewrite Hc|done].
  - destruct (delete_wp key s Hwf) as (W & Hs & Hx & HL & Hok); [unfold room; lia|].
    specialize (Hok Hn). split; [split; simpl| |unfold room; lia|by apply Hs]; [|by rewrite (sr_pending _ _ Hs)|done].
    destruct HL as [->|[? _]]; [by rewrite Hc|done].
  - split; simpl; [split; simpl|by eapply wf_ext; [..|done]|unfold room; simpl; lia|done].
    + exact Hc.
    + by rewrite fmap_insert, Hp.
  - assert (Ep : p !! tx_id = tx_ops <$> pending_txs s !! tx_id) by (by rewrite <- Hp, lookup_fmap).
    destruct (decide_tx_wp tx_id decision s Hwf) as (_ & W & _ & Hpend & Hx & _ & Hcont);
      [unfold room; rewrite <- Ep; lia|].
    destruct (Hcont Hn) as [Hn' Hc']. rewrite <- Ep in Hx.
    split; [split; simpl|done|unfold room; simpl in *; lia|done].
    + rewrite Hc', Ep, Hc. destruct (pending_txs s !! tx_id); [|done]. by destruct decision.
    + rewrite Hpend, fmap_delete, Hp, Ep. destruct (pending_txs s !! tx_id) eqn:E; [done|].
      simpl. apply delete_id. by rewrite Ep.
Qed.

(** ** Applying the log of a node *)

(** What applying an entry cannot touch. *)
Definition apply_frame (n n' : RaftNode) : Prop :=
  last_applied n' = last_applied n ∧ commit_index n' = commit_index n ∧
  current_term n' = current_term n ∧ vote_for n' = vote_for n ∧ state n' = state n ∧
  self_id n' = self_id n ∧ match_index n' = match_index n ∧ next_index n' = next_index n ∧
  log n `prefix_of` log n' ∧ (state n ≠ Leader → log n' = log n ∧ storage n' = storage n).

#[export] Instance apply_frame_preorder : PreOrder apply_frame.
Proof.
  split.
  - intros n. unfold apply_frame. split_and!; done.
  - intros n1 n2 n3 (?&?&?&?&S1&?&?&?&P1&F1) (?&?&?&?&S2&?&?&?&P2&F2). unfold apply_frame.
    split_and!; try congruence; [by etransitivity|].
    intros Hne. destruct (F1 Hne) as [L1 D1]. destruct F2 as [L2 D2]; [congruence|].
    split; congruence.
Qed.

Lemma apply_frame_of (f : RaftNode → RaftNode) :
  (∀ n, last_applied (f n) = last_applied n ∧ commit_index (f n) = commit_index n ∧
        current_term (f n) = current_term n ∧ vote_for (f n) = vote_for n ∧ state (f n) = state n ∧
        self_id (f n) = self_id n ∧ match_index (f n) = match_index n ∧ next_index (f n) = next_index n ∧
        log (f n) = log n ∧ storage (f n) = storage n) →
  keeps apply_frame (modify f).
Proof.
  intros Hf. apply keeps_modify. intros n. destruct (Hf n) as (?&?&?&?&?&?&?&?&?&?).
  unfold apply_frame. split_and!; try done. by exists []; rewrite app_nil_r.
Qed.

Lemma install_configuration_frame c n : apply_frame n (install_configuration c n).2 ∧
  state_machine (install_configuration c n).2 = state_machine n ∧
  (install_configuration c n).1 = Ok tt.
Proof.
  unfold install_configuration, gets, modify, mbind, M_bind, ignore. simpl.
  assert (E0 : ∀ ps pn, apply_frame n (with_pending_post_joint_simple pn (with_peers ps (with_current_config c n)))).
  { intros ps pn. unfold apply_frame. simpl. split_and!; done. }
  destruct (state n) eqn:Es; simpl; try (split_and!; [|done..]; exact (E0 (peers_of c (self_id n)) (pending_post_joint_simple n))).
  destruct (pending_post_joint_simple n) as [sn|] eqn:Ep; simpl;
    [|split_and!; [|done..]; exact (E0 (peers_of c (self_id n)) (pending_post_joint_simple n))].
  destruct (second_phase_matches c sn); [|split_and!; [|done..]; apply E0].
  unfold append_own, gets, mbind, M_bind, on_disk, zoom, modify. simpl.
  destruct (append_wal_log _ _) as [[[]|e] d]; simpl; unfold apply_frame; simpl; split_and!; try done.
  - by eexists.
Qed.

Lemma apply_command_eq c n : (∀ cf, c ≠ CInstallConfiguration cf) →
  apply_command c n = (Ok tt, with_state_machine (sm_apply c (state_machine n)).2 n).
Proof.
  intros Hc.
  assert (E : ∀ m : M StateMachine unit,
    ignore (on_sm m) n = (Ok tt, with_state_machine (ignore m (state_machine n)).2 n)).
  { intros m. unfold ignore, on_sm, zoom. simpl. by destruct (m (state_machine n)). }
  destruct c; try (by destruct (Hc config)); unfold apply_command, sm_apply; try apply E; by destruct n.
Qed.

Lemma apply_command_frame c n : (apply_command c n).1 = Ok tt ∧ apply_frame n (apply_command c n).2.
Proof.
  assert ((∃ cf, c = CInstallConfiguration cf) ∨ ∀ cf, c ≠ CInstallConfiguration cf) as [[cf ->]|Hc]
    by (destruct c; eauto).
  - simpl. by destruct (install_configuration_frame cf n) as (? & _ & ->).
  - rewrite apply_command_eq by done. split; [done|]. unfold apply_frame. simpl. split_and!; done.
Qed.

(** [apply_logs] moves [last_applied] forward and, apart from what the leader
    appends, nothing else of the protocol state; it cannot fail. *)
Definition loop_frame (n n' : RaftNode) : Prop :=
  apply_frame n (with_last_applied (last_applied n) n') ∧
  last_applied n <= last_applied n' <= last_applied n `max` commit_index n.

Lemma apply_loop_frame fuel n : wp (apply_loop fuel) (λ r n', r = Ok tt ∧ loop_frame n n') n.
Proof.
  revert n. induction fuel as [|fuel IH]; intros n.
  { apply (wp_ret tt). split; [done|]. split; [by destruct n|lia]. }
  simpl. do 2 wp_step. destruct (Z.ltb_spec (last_applied n) (commit_index n)).
  2:{ wp_step. split; [done|]. split; [by destruct n|lia]. }
  do 2 wp_step. destruct (log n !! _) as [e|].
  2:{ wp_step. split; [done|]. split; [by destruct n|lia]. }
  wp_step. unfold wp at 1. destruct (apply_command_frame (le_command e) n) as [-> F].
  set (n1 := (apply_command (le_command e) n).2) in *.
  do 2 wp_step. eapply wp_mono; [apply IH|]. intros r n2 (-> & F2 & Hl). split; [done|].
  pose proof F as (Fa & Fc & _). simpl in *. split; [|lia].
  etransitivity; [exact F|]. unfold apply_frame in *. simpl in *. naive_solver lia.
Qed.

Lemma apply_logs_frame n : wp apply_logs (λ r n', r = Ok tt ∧ loop_frame n n') n.
Proof. unfold apply_logs. do 2 wp_step. apply apply_loop_frame. Qed.

Lemma apply_command_refines c k x n : 0 <= k →
  refines (command_cost x.2 c + k) x (state_machine n) →
  wp (apply_command c) (λ r n', r = Ok tt ∧ apply_frame n n' ∧
    refines k (rm_effect c x.1 x.2) (state_machine n')) n.
Proof.
  intros Hk HR. unfold wp. assert ((∃ cf, c = CInstallConfiguration cf) ∨ ∀ cf, c ≠ CInstallConfiguration cf) as [[cf ->]|Hc]
    by (destruct c; eauto).
  - simpl. destruct (install_configuration_frame cf n) as (H1 & -> & ->).
    split_and!; [done..|]. by destruct x.
  - rewrite apply_command_eq by done. simpl. split_and!; [done| |].
    + unfold apply_frame. simpl. split_and!; done.
    + by apply sm_apply_refines.
Qed.

Lemma apply_loop_refines fuel n x k :
  0 <= k → 0 <= last_applied n → commit_index n <= log_len n →
  (Z.to_nat (commit_index n - last_applied n) <= fuel)%nat →
  let cmds := slice (last_applied n) (commit_index n) (log n) in
  refines (total_cost x cmds + k) x (state_machine n) →
  wp (apply_loop fuel) (λ r n', r = Ok tt ∧
    apply_frame n (with_last_applied (last_applied n) n') ∧
    last_applied n' = last_applied n `max` commit_index n ∧
    refines k (apply_all cmds x) (state_machine n')) n.
Proof.
  revert n x. induction fuel as [|fuel IH]; intros n x Hk Ha Hc Hf cmds HR; subst cmds.
  { rewrite slice_nil in * by lia. apply (wp_ret tt). split_and!; [done|by destruct n|lia|].
    by simpl in *. }
  simpl. do 2 wp_step. destruct (Z.ltb_spec (last_applied n) (commit_index n)).
  2:{ wp_step. rewrite slice_nil in * by lia. split_and!; [done|by destruct n|lia|]. by simpl in *. }
  unfold log_len in Hc. do 2 wp_step.
  destruct (lookup_lt_is_Some_2 (log n) (Z.to_nat (last_applied n))) as [e He]; [lia|].
  rewrite He. rewrite (slice_cons _ _ _ e) in * by (done || lia). simpl in HR.
  pose proof (total_cost_nonneg (rm_effect (le_command e) x.1 x.2)
    (slice (last_applied n + 1) (commit_index n) (log n))) as Hnn.
  wp_step. eapply wp_mono.
  { apply (apply_command_refines (le_command e)
      (total_cost (rm_effect (le_command e) x.1 x.2) (slice (last_applied n + 1) (commit_index n) (log n)) + k) x);
      [lia|]. by rewrite Z.add_assoc. }
  intros r n1 (-> & F & HR1). do 2 wp_step. pose proof F as (Fa & Fc & _ & _ & _ & _ & _ & _ & Fl & _).
  assert (Hlen : (length (log n) <= length (log n1))%nat) by (by apply prefix_length).
  eapply wp_mono; [apply (IH (with_last_applied (last_applied n1 + 1) n1)
    (rm_effect (le_command e) x.1 x.2)); simpl; try lia|].
  - unfold log_len. simpl. lia.
  - rewrite Fa, Fc, (slice_prefix _ _ (log n)) by (done || lia). exact HR1.
  - cbn [last_applied commit_index log with_last_applied].
    rewrite Fa, Fc, (slice_prefix _ _ (log n)) by (done || lia).
    intros r' n2 (-> & F2 & Hl & HR2). split_and!; [done| |lia|done].
    etransitivity; [exact F|]. unfold apply_frame in *. simpl in *. naive_solver lia.
Qed.
End refinement.
