(* ===== verification/NodeLog.v ===== *)
(** * The replicated log of a node

    The reference definition of what AppendEntries does to a log
    ([merge_log]), the loop that implements it, log matching between two logs, and
    the correspondence of log and WAL. *)

From stdpp Require Import prelude gmap strings sorting countable list.
From S2P Require Import Prelude Serde Protocol StateMachine StateMachineProps Storage StorageProps Rpc.
From S2P Require Import Node ReferenceModel Refinement.
#[local] Open Scope Z_scope.

(** Position [i] holds index [i + 1]; [indexed_from p]: position 0 holds [p + 1]. *)
Definition indexed_from (p : nat) (es : list LogEntry) : Prop :=
  ∀ i e, es !! i = Some e → le_index e = Z.of_nat (p + i) + 1.
Abbreviation indexed := (indexed_from 0).

(** Raft's log matching: logs that agree on the term at a position agree up to it. *)
Definition log_matching (l1 l2 : list LogEntry) : Prop :=
  ∀ i e1 e2, l1 !! i = Some e1 → l2 !! i = Some e2 → le_term e1 = le_term e2 →
    take (S i) l1 = take (S i) l2.

(** The log after a message whose entries belong at positions [p], [p + 1], ...:
    entries whose term matches are kept, the first conflict cuts the log. *)
Fixpoint merge_log (l : list LogEntry) (p : nat) (es : list LogEntry) : list LogEntry :=
  match es with
  | [] => l
  | e :: es' =>
      match l !! p with
      | Some x => if le_term x =? le_term e then merge_log l (S p) es' else take p l ++ e :: es'
      | None => l ++ e :: es'
      end
  end.

Lemma indexed_from_cons p e es : indexed_from p (e :: es) →
  le_index e = Z.of_nat p + 1 ∧ indexed_from (S p) es.
Proof.
  intros H. split.
  - rewrite (H 0%nat e) by done. lia.
  - intros i x Hx. rewrite (H (S i) x) by done. lia.
Qed.

Lemma indexed_app l es : indexed l → indexed_from (length l) es → indexed (l ++ es).
Proof.
  intros Hl He i x [Hx|[Hle Hx]]%lookup_app_Some; [by apply Hl|].
  rewrite (He _ _ Hx). lia.
Qed.

Lemma indexed_take k l : indexed l → indexed (take k l).
Proof. intros Hl i x Hx. apply lookup_take_Some in Hx as [Hx _]. by apply Hl. Qed.

Lemma indexed_drop p l : indexed l → indexed_from p (drop p l).
Proof. intros Hl i x Hx. rewrite lookup_drop in Hx. by apply Hl. Qed.

Lemma indexed_prefix l l' : l `prefix_of` l' → indexed l' → indexed l.
Proof. intros [k ->] Hl i x Hx. apply Hl. by apply lookup_app_l_Some. Qed.

Lemma merge_log_end l p es : p = length l → merge_log l p es = l ++ es.
Proof.
  intros ->. destruct es; simpl; [by rewrite app_nil_r|]. by rewrite lookup_ge_None_2.
Qed.

Lemma merge_log_length l p es : (p <= length l)%nat → (p + length es <= length (merge_log l p es))%nat.
Proof.
  revert p. induction es as [|e es IH]; intros p Hp; simpl; [lia|].
  destruct (l !! p) as [x|] eqn:E.
  - apply lookup_lt_Some in E. case_match; [specialize (IH (S p)); lia|].
    rewrite length_app, length_take. simpl. lia.
  - apply lookup_ge_None in E. rewrite length_app. simpl. lia.
Qed.

Lemma merge_log_indexed l p es : indexed l → indexed_from p es → (p <= length l)%nat →
  indexed (merge_log l p es).
Proof.
  intros Hl. revert p. induction es as [|e es IH]; intros p He Hp; simpl; [done|].
  destruct (l !! p) as [x|] eqn:E.
  - apply lookup_lt_Some in E. case_match.
    + apply IH; [by apply indexed_from_cons in He as [_ ?]|lia].
    + apply indexed_app; [by apply indexed_take|]. by rewrite length_take, Nat.min_l by lia.
  - apply lookup_ge_None in E. apply indexed_app; [done|]. by replace (length l) with p by lia.
Qed.

(** Positions before [p] are untouched, and so is a log that already has every entry. *)
Lemma merge_log_take l p es : (p <= length l)%nat → take p (merge_log l p es) = take p l.
Proof.
  revert p. induction es as [|e es IH]; intros p Hp; simpl; [done|].
  destruct (l !! p) as [x|] eqn:E.
  - apply lookup_lt_Some in E. case_match.
    + assert (Ht : ∀ k : list LogEntry, take p k = take p (take (S p) k)).
      { intros k. rewrite take_take. f_equal. lia. }
      rewrite Ht, (Ht l). f_equal. apply IH. lia.
    + rewrite take_app_le by (rewrite length_take; lia). rewrite take_take. f_equal. lia.
  - by rewrite take_app_le.
Qed.

Lemma merge_log_present l p es :
  (∀ i e, es !! i = Some e → ∃ x, l !! (p + i)%nat = Some x ∧ le_term x = le_term e) →
  merge_log l p es = l.
Proof.
  revert p. induction es as [|e es IH]; intros p H; simpl; [done|].
  destruct (H 0%nat e eq_refl) as (x & Hx & Ht). rewrite Nat.add_0_r in Hx. rewrite Hx.
  rewrite Ht, Z.eqb_refl. apply IH. intros i y Hy.
  destruct (H (S i) y Hy) as (z & Hz & ?). exists z. split; [|done]. rewrite <- Hz. f_equal. lia.
Qed.

(** ** Log matching *)

Lemma merge_log_matching L l p : (p <= length l)%nat →
  take p l = take p L → log_matching L l →
  merge_log l p (drop p L) = l ∧ L `prefix_of` l ∨ merge_log l p (drop p L) = L.
Proof.
  intros Hp Ht HM. remember (length L - p)%nat as k eqn:Ek. revert p Ek Hp Ht.
  induction k as [|k IH]; intros p Ek Hp Ht.
  - rewrite drop_ge by lia. left. split; [done|]. exists (drop p l).
    rewrite <- (take_ge L p) by lia. rewrite <- Ht. by rewrite take_drop.
  - destruct (lookup_lt_is_Some_2 L p) as [e He]; [lia|]. rewrite (drop_S _ _ _ He). simpl.
    destruct (l !! p) as [x|] eqn:Ex.
    + pose proof (lookup_lt_Some _ _ _ Ex). destruct (Z.eqb_spec (le_term x) (le_term e)) as [E|E].
      * apply IH; [lia|lia|]. symmetry. by eapply HM.
      * right. rewrite Ht, <- (drop_S _ _ _ He). apply take_drop.
    + apply lookup_ge_None in Ex. right. rewrite <- (drop_S _ _ _ He).
      rewrite <- (take_ge l p) by lia. rewrite Ht. apply take_drop.
Qed.

Lemma log_matching_prefix l1 l2 k : l2 `prefix_of` l1 → log_matching l1 k → log_matching l2 k.
Proof.
  intros [r ->] HM i e1 e2 H1 H2 Ht. rewrite <- (HM i e1 e2); [|by apply lookup_app_l_Some|done..].
  apply lookup_lt_Some in H1. by rewrite take_app_le by lia.
Qed.

Lemma log_matching_refl l : log_matching l l.
Proof. by intros i e1 e2. Qed.

Lemma log_matching_sym l1 l2 : log_matching l1 l2 → log_matching l2 l1.
Proof. intros H i e1 e2 H1 H2 Ht. symmetry. by eapply H. Qed.

(** ** The loop of the handler *)

Section loop.
Context {JW : Json WalOp} {JE : Json (list SSTEntry)} {JM : Json SSTableMeta}.
Context {BL : Bincode LogEntry} {LB : BincodeLaws LogEntry}.
Context {JV : Json Value} {LV : JsonLaws Value}.
Context {JS : Json Snapshot} {LS : JsonLaws Snapshot}.

(** Log and WAL agree, and no call fails. *)
Definition wal_synced (l : list LogEntry) (d : Disk) : Prop := d_ok d ∧ wal_holds l d.

Lemma append_synced e l d : wal_synced l d → wal_synced (l ++ [e]) (append_wal_log e d).2 ∧
  (append_wal_log e d).1 = Ok tt.
Proof.
  intros [Hd Hw]. destruct (append_wal_log_wp e l d Hw) as ([_ F] & Hr & Hok & _).
  split; [|auto]. split; auto.
Qed.

Lemma append_entry_at e n : 1 <= le_index e <= log_len n + 1 → log_len n + 1 < U64 →
  wp (append_entry e) (λ r n', r = Ok tt ∧ ∃ d,
    n' = with_storage d (with_log (merge_log (log n) (Z.to_nat (le_index e - 1)) [e]) n) ∧
    d_frame FWal (storage n) d ∧
    (log n `prefix_of` log n' → wal_synced (log n) (storage n) → wal_synced (log n') d)) n.
Proof.
  intros Hi Hu. unfold log_len in *. unfold append_entry. do 2 wp_step.
  rewrite u64_sub_small by lia. set (p := Z.to_nat (le_index e - 1)). simpl.
  destruct (Z.ltb_spec (le_index e - 1) (Z.of_nat (length (log n)))) as [Hlt|Hge].
  - destruct (lookup_lt_is_Some_2 (log n) p) as [x Hx]; [lia|]. rewrite Hx.
    destruct (Z.eqb_spec (le_term x) (le_term e)) as [Et|Et].
    + wp_step. split; [done|]. exists (storage n). split; [by destruct n|]. split; [by split|done].
    + do 3 wp_step. unfold on_disk. wp_step. simpl. unfold wp. split; [done|].
      exists (append_wal_log e (storage n)).2. split; [done|]. split; [apply append_wal_frame|].
      intros [k Hk]. exfalso. simpl in Hk.
      assert (Hp : (take p (log n) ++ [e]) !! p = Some x).
      { rewrite Hk. by apply lookup_app_l_Some. }
      rewrite lookup_app_r in Hp by (rewrite length_take; lia).
      rewrite length_take, Nat.min_l, Nat.sub_diag in Hp by lia. simpl in Hp. by simplify_eq.
  - rewrite lookup_ge_None_2 by lia. do 3 wp_step. unfold on_disk. wp_step. simpl. unfold wp.
    split; [done|]. exists (append_wal_log e (storage n)).2. split; [done|].
    split; [apply append_wal_frame|]. intros _ Hw. by apply append_synced.
Qed.

Lemma merge_log_step l p e es : (p <= length l)%nat →
  merge_log (merge_log l p [e]) (S p) es = merge_log l p (e :: es) ∧
  (S p <= length (merge_log l p [e]))%nat.
Proof.
  intros Hp. simpl. destruct (l !! p) as [x|] eqn:E.
  - apply lookup_lt_Some in E. case_match; [split; [done|lia]|].
    rewrite length_app, length_take. simpl. split; [|lia].
    rewrite merge_log_end by (rewrite length_app, length_take; simpl; lia). by rewrite <- app_assoc.
  - apply lookup_ge_None in E. rewrite length_app. simpl. split; [|lia].
    rewrite merge_log_end by (rewrite length_app; simpl; lia). by rewrite <- app_assoc.
Qed.

(** A log that survives the whole message as a prefix survives each entry. *)
Lemma merge_log_prefix_step l p e es : (p <= length l)%nat →
  l `prefix_of` merge_log l p (e :: es) → l `prefix_of` merge_log l p [e].
Proof.
  intros Hp. simpl. destruct (l !! p) as [x|] eqn:E; [|by eexists].
  case_match eqn:Et; [done|]. intros [k Hk]. exfalso.
  pose proof (lookup_lt_Some _ _ _ E).
  assert (Hl : (take p l ++ e :: es) !! p = Some x) by (rewrite Hk; by apply lookup_app_l_Some).
  rewrite lookup_app_r in Hl by (rewrite length_take; lia).
  rewrite length_take, Nat.min_l, Nat.sub_diag in Hl by lia. simpl in Hl. simplify_eq. lia.
Qed.

Lemma merge_log_prefix_rest l p e es : (p <= length l)%nat →
  l `prefix_of` merge_log l p (e :: es) →
  merge_log l p [e] `prefix_of` merge_log l p (e :: es).
Proof.
  intros Hp. simpl. destruct (l !! p) as [x|] eqn:E.
  - case_match; [done|]. intros _. exists es. by rewrite <- app_assoc.
  - intros _. exists es. by rewrite <- app_assoc.
Qed.

Lemma append_loop_wp es n p : indexed_from p es → (p <= length (log n))%nat →
  Z.of_nat (length (log n) + p + 2 * length es) + 1 < U64 →
  wp (append_loop es) (λ r n', r = Ok tt ∧ ∃ d,
    n' = with_storage d (with_log (merge_log (log n) p es) n) ∧
    d_frame FWal (storage n) d ∧
    (log n `prefix_of` log n' → wal_synced (log n) (storage n) → wal_synced (log n') d)) n.
Proof.
  revert n p. induction es as [|e es IH]; intros n p Hi Hp Hu.
  { apply (wp_ret tt). split; [done|]. exists (storage n). split; [by destruct n|]. by split. }
  apply indexed_from_cons in Hi as [He Hi]. simpl length in Hu.
  change (append_loop (e :: es)) with (append_entry e ;; append_loop es). wp_step.
  wp_use append_entry_at; [unfold log_len; lia..|].
  replace (Z.to_nat (le_index e - 1)) with p by lia. intros r n1 (-> & d & -> & F & Hw).
  destruct (merge_log_step (log n) p e es Hp) as [Em Hl]. cbn beta iota.
  eapply wp_mono; [apply (IH _ (S p)); [done|exact Hl|]|].
  { assert ((length (merge_log (log n) p [e]) <= length (log n) + 1)%nat); [|simpl in *; lia].
    simpl. destruct (log n !! p) as [x|] eqn:E; [case_match|]; rewrite ?length_app, ?length_take; simpl; lia. }
  cbn [log with_storage with_log storage]. rewrite Em. intros r n2 (-> & d2 & -> & F2 & Hw2).
  split; [done|]. exists d2. split; [done|]. split; [by eapply d_frame_trans|]. simpl.
  intros Hpre Hs. apply Hw2; [by apply merge_log_prefix_rest|]. apply Hw; [|done].
  by eapply merge_log_prefix_step.
Qed.

(** ** The AppendEntries handler *)

Definition ae_accepts (args : AppendEntriesArgs) (n : RaftNode) : bool :=
  (current_term n <=? ae_term args)
  && negb ((ae_term args =? current_term n) && bool_decide (state n = Leader))
  && prev_matches args (log n).

(** A message whose entries are numbered from [prev_log_index + 1]. *)
Record ae_wf (args : AppendEntriesArgs) (n : RaftNode) : Prop := {
  aw_prev : 0 <= ae_prev_log_index args;
  aw_index : indexed_from (Z.to_nat (ae_prev_log_index args)) (ae_entries args);
  aw_room : log_len n + ae_prev_log_index args + 2 * Z.of_nat (length (ae_entries args)) + 1 < U64;
}.

Definition ae_log (args : AppendEntriesArgs) (n : RaftNode) : list LogEntry :=
  if ae_accepts args n
  then merge_log (log n) (Z.to_nat (ae_prev_log_index args)) (ae_entries args)
  else log n.

Definition ae_commit (args : AppendEntriesArgs) (n : RaftNode) : Z :=
  if ae_accepts args n && (commit_index n <? ae_leader_commit args)
  then ae_leader_commit args `min` Z.of_nat (length (ae_log args n))
  else commit_index n.

Lemma prev_matches_length args l : 0 <= ae_prev_log_index args → prev_matches args l = true →
  (Z.to_nat (ae_prev_log_index args) <= length l)%nat.
Proof.
  intros Hp. unfold prev_matches. rewrite orb_true_iff, Z.leb_le, bool_decide_eq_true.
  intros [?|H]; [lia|]. destruct (l !! _) eqn:E; [|done]. apply lookup_lt_Some in E. lia.
Qed.

(** The term check, with what it leaves behind. *)
Lemma ae_term_check args n (Q : result AppendReplyArgs → RaftNode → Prop) k :
  current_term n <= ae_term args →
  (∀ v d, d_frame FMeta (storage n) d →
     wp (k tt) Q (with_storage d (with_vote_for v (with_current_term (ae_term args) n)))) →
  wp ((if current_term n <? ae_term args
       then modify (with_current_term (ae_term args)) ;; modify (with_vote_for None) ;; persist_meta
       else mret tt) ≫= k) Q n.
Proof.
  intros Ht Hk. wp_step. destruct (Z.ltb_spec (current_term n) (ae_term args)).
  - do 4 wp_step. unfold persist_meta. do 5 wp_step. unfold on_disk. wp_step. simpl. unfold wp at 1.
    apply Hk. unfold save_meta. assert (Hf : keeps (d_frame FMeta)
      (s ← of_option OtherError (to_string (meta_value (ae_term args) None)); replace_file FMeta s)).
    { keep. intros h. apply (replace_file_wp FMeta _ h). }
    apply Hf.
  - wp_step. replace n with (with_storage (storage n) (with_vote_for (vote_for n)
      (with_current_term (ae_term args) n))).
    + apply Hk. by split.
    + replace (ae_term args) with (current_term n) by lia. by destruct n.
Qed.

Lemma handle_append_entries_wp args n : ae_wf args n →
  wp (handle_append_entries args) (λ r n',
    r = Ok (mkAppendReply (current_term n `max` ae_term args) (ae_accepts args n)) ∧
    log n' = ae_log args n ∧ commit_index n' = ae_commit args n ∧
    (current_term n' = current_term n `max` ae_term args ∧ (ae_accepts args n = true → state n' = Follower)) ∧
    last_applied n <= last_applied n' <= last_applied n `max` ae_commit args n ∧
    (log n `prefix_of` log n' → wal_synced (log n) (storage n) → wal_synced (log n') (storage n'))) n.
Proof.
  intros [Hp Hi Hu]. unfold handle_append_entries, ae_commit, ae_log, ae_accepts. do 4 wp_step.
  destruct (Z.ltb_spec (ae_term args) (current_term n)) as [Hlt|Hge].
  { wp_step. replace (current_term n <=? ae_term args) with false by lia. simpl. rewrite Z.max_l by lia.
    split_and!; try done; lia. }
  replace (current_term n <=? ae_term args) with true by lia. simpl.
  rewrite Z.max_r by lia.
  destruct ((ae_term args =? current_term n) && bool_decide (state n = Leader)) eqn:El.
  { wp_step. simpl. assert (ae_term args = current_term n) by lia.
    split_and!; try done; try lia. congruence. }
  simpl. apply ae_term_check; [done|]. intros v d F. do 2 wp_step. unfold touch_heartbeat. do 6 wp_step.
  simpl. destruct (prev_matches args (log n)) eqn:Em; cbn [negb].
  2:{ wp_step. simpl. split_and!; try done; try lia. intros _ [H1 H2]. split; [by apply F|].
      eapply wal_holds_ext; [|exact H2]. by apply F. }
  simpl. pose proof (prev_matches_length _ _ Hp Em) as Hl. set (p := Z.to_nat (ae_prev_log_index args)) in *.
  wp_step. match goal with |- wp _ _ ?m => set (n1 := m) end.
  eapply wp_mono; [apply (append_loop_wp (ae_entries args) n1 p Hi); unfold log_len in *; simpl; lia|].
  cbn [log with_last_heartbeat with_state with_storage with_vote_for with_current_term storage n1].
  intros r n2 (-> & d2 & -> & F2 & Hw). do 2 wp_step. cbn [commit_index with_storage with_log].
  assert (Hsync : log n `prefix_of` merge_log (log n) p (ae_entries args) →
    wal_synced (log n) (storage n) → wal_synced (merge_log (log n) p (ae_entries args)) d2).
  { intros Hpre [H1 H2]. apply Hw; [done|]. split; [by apply F|].
    eapply wal_holds_ext; [|exact H2]. by apply F. }
  change (commit_index n1) with (commit_index n).
  destruct (Z.ltb_spec (commit_index n) (ae_leader_commit args)) as [Hc|Hc].
  - do 3 wp_step. eapply wp_mono; [apply apply_logs_frame|].
    intros r n3 (-> & (Fa & Fc & Ft & Fs & Fs2 & _ & _ & _ & _ & Fl) & Hla). wp_step. simpl in *.
    destruct (Fl ltac:(done)) as [Fl1 Fl2]. unfold log_len in *. simpl in *.
    rewrite Fl1, Fl2, Fc, Ft. split_and!; try done; lia.
  - do 3 wp_step. simpl. split_and!; try done; lia.
Qed.
End loop.
