(* ===== verification/NodeLeader.v ===== *)
(** * The leader's operations, elections, snapshots and the transaction vote

    What each operation does to the node, as lemmas the claims are built from. *)

From stdpp Require Import prelude gmap strings sorting countable list.
From S2P Require Import Prelude Serde Protocol StateMachine StateMachineProps Storage StorageProps Rpc.
From S2P Require Import Node NodeVotes ReferenceModel Refinement NodeLog.
#[local] Open Scope Z_scope.

(** The entries of a batch: consecutive indices from [i], one term. *)
Fixpoint batch_entries (t i : Z) (cs : list Command) : list LogEntry :=
  match cs with
  | [] => []
  | c :: cs' => mkLogEntry t i c :: batch_entries t (i + 1) cs'
  end.

Lemma batch_entries_length t i cs : length (batch_entries t i cs) = length cs.
Proof. revert i. induction cs as [|c cs IH]; intros i; simpl; [done|]. by rewrite IH. Qed.

Lemma batch_entries_indexed t p cs : indexed_from p (batch_entries t (Z.of_nat p + 1) cs).
Proof.
  revert p. induction cs as [|c cs IH]; intros p i e; [done|]. destruct i as [|i]; simpl.
  - intros [= <-]. simpl. lia.
  - intros He. replace (Z.of_nat p + 1 + 1) with (Z.of_nat (S p) + 1) in He by lia.
    rewrite (IH _ _ _ He). lia.
Qed.

Section leader.
Context {JW : Json WalOp} {LW : JsonLaws WalOp}.
Context {JE : Json (list SSTEntry)} {LE : JsonLaws (list SSTEntry)}.
Context {JM : Json SSTableMeta} {LM : JsonLaws SSTableMeta}.
Context {BL : Bincode LogEntry} {LB : BincodeLaws LogEntry}.
Context {JV : Json Value} {LV : JsonLaws Value}.
Context {JS : Json Snapshot} {LS : JsonLaws Snapshot}.

(** ** Proposals *)

Lemma append_own_wp cmd n : let e := mkLogEntry (current_term n) (log_len n + 1) cmd in
  wp (append_own cmd) (λ r n', ∃ d, d_frame FWal (storage n) d ∧
    match r with
    | Ok i => i = log_len n + 1 ∧ n' = with_storage d (with_log (log n ++ [e]) n)
    | Err _ => n' = with_storage d n
    end ∧
    (wal_synced (log n) (storage n) → is_ok r = true ∧ wal_synced (log n ++ [e]) d)) n.
Proof.
  intros e. unfold append_own. do 5 wp_step. unfold on_disk. wp_step. unfold wp at 1.
  fold e. pose proof (append_wal_frame e (storage n)) as F.
  pose proof (append_synced e (log n) (storage n)) as Hs.
  destruct (append_wal_log e (storage n)) as [[[]|x] d]; simpl in *.
  - do 3 wp_step. exists d. split_and!; [done..|]. intros Hw. by destruct (Hs Hw).
  - exists d. split_and!; [done..|]. intros Hw. by destruct (Hs Hw).
Qed.

Lemma propose_loop_wp cs i n :
  wp (propose_loop cs i) (λ r n', ∃ k d, (k <= length cs)%nat ∧ d_frame FWal (storage n) d ∧
    n' = with_storage d (with_log (log n ++ take k (batch_entries (current_term n) i cs)) n) ∧
    (r = Ok tt ↔ k = length cs) ∧
    (wal_synced (log n) (storage n) → r = Ok tt ∧ wal_synced (log n') d)) n.
Proof.
  revert i n. induction cs as [|c cs IH]; intros i n.
  { apply (wp_ret tt). exists 0%nat, (storage n). simpl. rewrite app_nil_r.
    split_and!; [lia|by split|by destruct n|done|done]. }
  simpl. do 3 wp_step. unfold on_disk. wp_step. unfold wp at 1.
  set (e := mkLogEntry (current_term n) i c). pose proof (append_wal_frame e (storage n)) as F.
  pose proof (append_synced e (log n) (storage n)) as Hs.
  destruct (append_wal_log e (storage n)) as [[[]|x] d]; simpl in *.
  - do 2 wp_step. eapply wp_mono; [apply IH|]. simpl. intros r n' (k & d2 & Hk & F2 & -> & Hr & Hw).
    exists (S k), d2. rewrite <- app_assoc. simpl. split_and!; [lia|by eapply d_frame_trans|done|rewrite Hr; lia|].
    intros Hsy. destruct (Hs Hsy) as [Hsy' _]. destruct (Hw Hsy') as [-> Hw']. split; [done|].
    simpl in Hw'. by rewrite <- app_assoc in Hw'.
  - exists 0%nat, d. simpl. rewrite app_nil_r. split_and!; [lia|done|by destruct n|done|].
    intros Hsy. by destruct (Hs Hsy).
Qed.

(** ** Commitment *)

Lemma maybe_commit_wp n : log_len n < 2 ^ 63 → 0 <= commit_index n →
  wp maybe_commit (λ r n', r = Ok tt ∧
    (commit_index n' = commit_index n ∧ n' = n ∨
     state n = Leader ∧ commit_index n < commit_index n' <= log_len n ∧
     config_quorum_reached (current_config n) (match_index n) (self_id n) (log_len n) (commit_index n') = true ∧
     (∃ e, log n !! Z.to_nat (commit_index n' - 1) = Some e ∧ le_term e = current_term n) ∧
     (∀ j, commit_index n' < j <= log_len n →
        config_quorum_reached (current_config n) (match_index n) (self_id n) (log_len n) j = false) ∧
     loop_frame (with_commit_index (commit_index n') n) n')) n.
Proof.
  intros Hlen Hc. unfold maybe_commit. do 2 wp_step. case_bool_decide as Hs; simpl; [|wp_step; by auto].
  destruct (quorum_index_spec (current_config n) (match_index n) (self_id n) (log_len n))
    as (Hh & Hq & Hgt); [unfold log_len in *; lia|].
  cbv zeta in *. do 2 wp_step.
  generalize dependent (config_quorum_reached_index (current_config n) (match_index n) (self_id n) (log_len n)).
  intros h Hh Hq Hgt. do 2 wp_step.
  destruct (Z.ltb_spec (commit_index n) h); [|wp_step; by auto].
  do 4 wp_step. unfold log_len in Hh.
  destruct (lookup_lt_is_Some_2 (log n) (Z.to_nat (h - 1))) as [e He]; [lia|]. rewrite He. simpl.
  destruct (Z.eqb_spec (le_term e) (current_term n)); [|wp_step; by auto].
  do 2 wp_step. eapply wp_mono; [apply apply_logs_frame|]. intros r n' [-> F]. split; [done|]. right.
  pose proof F as [(_ & Fc & _) _]. simpl in Fc. rewrite Fc. unfold log_len.
  split_and!; try done; try lia; [apply Hq; lia|eauto].
Qed.

(** ** Counting votes *)

(** The replies to one round of [request_votes], in the order they come. *)
Fixpoint collect_votes (total : nat) (term : Z) (votes : nat) (replies : list VoteResponseArgs) :
    M RaftNode nat :=
  match replies with
  | [] => mret votes
  | reply :: replies' =>
      votes' ← on_vote_reply total term votes reply;
      collect_votes total term votes' replies'
  end.

Definition grants (replies : list VoteResponseArgs) : nat :=
  length (filter (λ r, vr_granted r = true) replies).

(** One reply, while no refusal names a higher term. *)
Lemma on_vote_reply_wp total term votes reply n :
  (vr_granted reply = false → vr_term reply <= term) → current_term n = term →
  state n = Candidate ∨ state n = Leader →
  (state n = Leader ↔ (Nat.div2 total < votes)%nat) →
  wp (on_vote_reply total term votes reply) (λ r n',
    r = Ok (votes + grants [reply])%nat ∧ current_term n' = term ∧
    (state n' = Candidate ∨ state n' = Leader) ∧
    (state n' = Leader ↔ (Nat.div2 total < votes + grants [reply])%nat)) n.
Proof.
  intros Hr Ht Hst Hl. unfold on_vote_reply, grants. rewrite filter_cons, filter_nil.
  destruct (vr_granted reply) eqn:Eg.
  - rewrite decide_True by done. simpl. rewrite Nat.add_1_r.
    destruct (Nat.ltb_spec (Nat.div2 total) (S votes)).
    + do 3 wp_step. replace (current_term (id n) =? term) with true by (simpl; lia). rewrite andb_true_r.
      case_bool_decide as Hc; simpl in Hc.
      * unfold become_leader. do 2 wp_step. rewrite bool_decide_false by (by rewrite Hc).
        do 4 wp_step. unfold touch_heartbeat. do 2 wp_step. simpl. split_and!; [done|done|by right|].
        split; [done|done].
      * do 2 wp_step. destruct Hst as [Hst|Hst]; [done|]. split_and!; [done|done|by right|]. done.
    + do 3 wp_step. split_and!; [done..|]. rewrite Hl. lia.
  - rewrite decide_False by done. simpl. rewrite Nat.add_0_r.
    specialize (Hr eq_refl). replace (term <? vr_term reply) with false by lia. wp_step. done.
Qed.

Lemma collect_votes_wp total term votes replies n :
  Forall (λ r, vr_granted r = false → vr_term r <= term) replies → current_term n = term →
  state n = Candidate ∨ state n = Leader →
  (state n = Leader ↔ (Nat.div2 total < votes)%nat) →
  wp (collect_votes total term votes replies) (λ r n',
    r = Ok (votes + grants replies)%nat ∧ current_term n' = term ∧
    (state n' = Leader ↔ (Nat.div2 total < votes + grants replies)%nat)) n.
Proof.
  intros Hall. revert votes n. induction Hall as [|reply replies Hr _ IH]; intros votes n Ht Hst Hl.
  { apply (wp_ret votes). unfold grants. simpl. by rewrite Nat.add_0_r. }
  simpl. wp_step. wp_use on_vote_reply_wp; [done..|]. intros r n1 (-> & Ht1 & Hst1 & Hl1).
  cbn beta iota. eapply wp_mono; [by apply IH|]. intros r n2.
  assert (E : (votes + grants [reply] + grants replies = votes + grants (reply :: replies))%nat).
  { unfold grants. rewrite !filter_cons, filter_nil. case_decide; simpl; lia. }
  by rewrite E.
Qed.

(** ** Installing a snapshot *)

Lemma set_all_wp ps s : NoDup ps.*1 → wf s → no_faults (host s) → room (Z.of_nat (length ps)) s →
  wp (set_all ps) (λ r s', r = Ok tt ∧ wf s' ∧ no_faults (host s') ∧ pending_txs s' = pending_txs s ∧
    contents s' = list_to_map ps ∪ contents s) s.
Proof.
  revert s. induction ps as [|[k v] ps IH]; intros s Hnd Hwf Hn Hr.
  { apply (wp_ret tt). simpl. by rewrite (left_id_L ∅ (∪)). }
  simpl in Hnd. apply NoDup_cons in Hnd as [Hk Hnd]. simpl. do 2 wp_step.
  unfold room in Hr. simpl length in Hr.
  wp_use set_wp; [done|unfold room; lia|]. intros r s1 (Hwf1 & Hs & Hx & HL & Hok).
  cbn beta iota. destruct HL as [HL|[? _]]; [|by rewrite Hok in *].
  eapply wp_mono; [apply IH; [done..|by apply Hs|unfold room; lia]|].
  intros r' s2 (-> & ? & ? & Hp & Hc). split_and!; [done..|by rewrite Hp, (sr_pending _ _ Hs)|].
  rewrite Hc, HL. simpl. rewrite <- insert_union_r by (by apply not_elem_of_list_to_map_1).
  by rewrite insert_union_l.
Qed.

Lemma wp_expect {S A} (m : M S A) (Q : result A → S → Prop) s :
  wp m (λ r s', match r with Ok a => Q (Ok a) s' | Err _ => Q (Err Panicked) s' end) s →
  wp (expect m) Q s.
Proof. unfold wp, expect. by destruct (m s) as [[]]. Qed.

(** The term check of [handle_install_snapshot], with what it leaves behind. *)
Lemma adopt_check {A} t n (Q : result A → RaftNode → Prop) k :
  current_term n <= t →
  (∀ v st d, d_frame FMeta (storage n) d →
     wp (k tt) Q (with_storage d (with_vote_for v (with_state st (with_current_term t n))))) →
  wp ((if current_term n <? t then adopt_term t else mret tt) ≫= k) Q n.
Proof.
  intros Ht Hk. wp_step. destruct (Z.ltb_spec (current_term n) t).
  - unfold adopt_term. do 6 wp_step. apply persist_meta_wp. intros d F _. by apply Hk.
  - wp_step. replace n with (with_storage (storage n) (with_vote_for (vote_for n)
      (with_state (state n) (with_current_term t n)))); [apply Hk; by split|].
    replace t with (current_term n) by lia. by destruct n.
Qed.

(** Replacing the contents of a machine, as the handler does it. *)
Lemma load_snapshot_wp data s : wf s → no_faults (host s) → Z.of_nat (size data) < U64 →
  wp (expect clear_for_snapshot ;; set_all (map_to_list data)) (λ r s', r = Ok tt ∧
    contents s' = data ∧ pending_txs s' = ∅) s.
Proof.
  intros Hwf Hn Hsz. wp_step. apply wp_expect. wp_use clear_for_snapshot_wp; [done|].
  intros r s2 (Hwf2 & _ & Hn2 & Hc2). destruct (Hn2 Hn) as [-> Hnf2].
  destruct (Hc2 eq_refl) as (Hm & _ & Ht2 & Hx2 & Hp2 & _). cbn beta iota.
  eapply wp_mono; [apply set_all_wp; [apply NoDup_fst_map_to_list|done..|]|].
  { unfold room. rewrite Hx2, length_map_to_list. lia. }
  intros r' s3 (-> & _ & _ & Hp & Hc). split_and!; [done| |by rewrite Hp].
  rewrite Hc, list_to_map_to_list. unfold contents, layers. rewrite Hm, Ht2. simpl.
  unfold mem_layer, visible. rewrite fmap_empty, (left_id_L ∅ (∪)), omap_empty. apply (right_id_L ∅ (∪)).
Qed.
End leader.
