(* ===== verification/NodeReplay.v ===== *)
(** * Replaying a log over a state that already reflects part of it

    After a restart without a snapshot the state machine still holds what it had
    applied, and [replay_logs] applies the whole log again. This is sound because
    the effect of a log on one key is either the identity or a constant. *)

From stdpp Require Import prelude gmap strings sorting countable list.
From S2P Require Import Prelude Serde Protocol StateMachine StateMachineProps Storage Rpc.
From S2P Require Import Node ReferenceModel Refinement.
#[local] Open Scope Z_scope.

(** On key [k], [f] either passes the value through or writes a fixed one. *)
Definition key_effect (f : gmap string string → gmap string string) (k : string) : Prop :=
  (∀ m, f m !! k = m !! k) ∨ (∃ v, ∀ m, f m !! k = v).

Lemma key_effect_compose f g k : key_effect f k → key_effect g k → key_effect (λ m, g (f m)) k.
Proof.
  intros [Hf|[v Hf]] [Hg|[w Hg]].
  - left. intros m. by rewrite Hg, Hf.
  - right. exists w. intros m. apply Hg.
  - right. exists v. intros m. by rewrite Hg, Hf.
  - right. exists w. intros m. apply Hg.
Qed.

Lemma key_effect_insert k' v k : key_effect (λ m, <[k' := v]> m) k.
Proof.
  destruct (decide (k' = k)) as [->|Hne]; [right; exists (Some v)|left]; intros m.
  - apply lookup_insert_eq.
  - by apply lookup_insert_ne.
Qed.

Lemma key_effect_delete k' k : key_effect (λ m, base.delete k' m) k.
Proof.
  destruct (decide (k' = k)) as [->|Hne]; [right; exists None|left]; intros m.
  - apply lookup_delete_eq.
  - by apply lookup_delete_ne.
Qed.

Lemma key_effect_ops ops k : key_effect (λ m, foldl rm_op m ops) k.
Proof.
  induction ops as [|op ops IH]; simpl; [left; done|].
  apply (key_effect_compose (λ m, rm_op m op) (λ m, foldl rm_op m ops)); [|done].
  destruct op; [apply key_effect_insert|apply key_effect_delete].
Qed.

Lemma rm_effect_pending c m m' p : (rm_effect c m p).2 = (rm_effect c m' p).2.
Proof. destruct c; simpl; try done. by destruct (p !! tx_id). Qed.

Lemma key_effect_command c p k : key_effect (λ m, (rm_effect c m p).1) k.
Proof.
  destruct c; simpl; try (left; done).
  - apply key_effect_insert.
  - apply key_effect_delete.
  - destruct (p !! tx_id); simpl; [|left; done]. destruct decision; [apply key_effect_ops|left; done].
Qed.

Lemma apply_all_pending cmds m m' p : (apply_all cmds (m, p)).2 = (apply_all cmds (m', p)).2.
Proof.
  unfold apply_all. revert m m' p. induction cmds as [|c cmds IH]; intros m m' p; simpl; [done|].
  rewrite (surjective_pairing (rm_effect c m p)), (surjective_pairing (rm_effect c m' p)).
  rewrite (rm_effect_pending c m' m p). apply IH.
Qed.

Lemma key_effect_all cmds p k : key_effect (λ m, (apply_all cmds (m, p)).1) k.
Proof.
  unfold apply_all. revert p. induction cmds as [|c cmds IH]; intros p; simpl; [left; done|].
  destruct (key_effect_compose _ _ k (key_effect_command c p k) (IH (rm_effect c ∅ p).2)) as [H|[v H]];
    [left|right; exists v]; intros m; rewrite <- (H m);
    by rewrite (surjective_pairing (rm_effect c m p)), (rm_effect_pending c m ∅ p).
Qed.

Lemma apply_all_app c1 c2 x : apply_all (c1 ++ c2) x = apply_all c2 (apply_all c1 x).
Proof. apply foldl_app. Qed.

(** Applying a log to what a prefix of it left behind is applying it to nothing. *)
Lemma apply_all_again pre post p :
  apply_all (pre ++ post) ((apply_all pre (∅, p)).1, p) = apply_all (pre ++ post) (∅, p).
Proof.
  set (m := (apply_all pre (∅, p)).1).
  apply injective_projections; [|apply apply_all_pending]. apply map_eq. intros k.
  rewrite !apply_all_app.
  rewrite (surjective_pairing (apply_all pre (m, p))), (surjective_pairing (apply_all pre (∅, p))).
  rewrite (apply_all_pending pre m ∅ p). fold m.
  destruct (key_effect_all post (apply_all pre (∅, p)).2 k) as [H2|[w H2]]; simpl in H2; rewrite !H2; [|done].
  destruct (key_effect_all pre p k) as [H1|[v H1]]; simpl in H1; [by rewrite H1|].
  unfold m at 2. by rewrite !H1.
Qed.

Section replay.
Context {JW : Json WalOp} {LW : JsonLaws WalOp}.
Context {JE : Json (list SSTEntry)} {LE : JsonLaws (list SSTEntry)}.
Context {JM : Json SSTableMeta} {LM : JsonLaws SSTableMeta}.

(** What a replay leaves alone. *)
Definition replay_frame (n n' : RaftNode) : Prop :=
  log n' = log n ∧ current_term n' = current_term n ∧ vote_for n' = vote_for n ∧
  commit_index n' = commit_index n ∧ storage n' = storage n ∧ state n' = state n ∧
  self_id n' = self_id n.

Lemma replay_command_eq c n : ∃ ps cf,
  replay_command c n =
    (Ok tt, with_peers ps (with_current_config cf (with_state_machine (sm_apply c (state_machine n)).2 n))).
Proof.
  assert (E : ∀ m : M StateMachine unit, ∃ ps cf, ignore (on_sm m) n =
    (Ok tt, with_peers ps (with_current_config cf (with_state_machine (ignore m (state_machine n)).2 n)))).
  { intros m. exists (peers n), (current_config n). unfold ignore, on_sm, zoom. simpl.
    by destruct (m (state_machine n)), n. }
  destruct c; unfold replay_command, sm_apply; try apply E;
    try (exists (peers n), (current_config n); by destruct n).
  eexists _, _. by destruct n.
Qed.

Lemma replay_entries_refines es n x k : 0 <= k →
  refines (total_cost x (le_command <$> es) + k) x (state_machine n) →
  wp (replay_entries es) (λ r n', r = Ok tt ∧ replay_frame n n' ∧
    refines k (apply_all (le_command <$> es) x) (state_machine n')) n.
Proof.
  revert n x. induction es as [|e es IH]; intros n x Hk HR.
  { apply (wp_ret tt). split_and!; done. }
  change (replay_entries (e :: es)) with (replay_command (le_command e) ;; replay_entries es).
  rewrite fmap_cons in *. simpl in HR.
  wp_step. unfold wp at 1. destruct (replay_command_eq (le_command e) n) as (ps & cf & ->). simpl.
  pose proof (total_cost_nonneg (rm_effect (le_command e) x.1 x.2) (le_command <$> es)).
  eapply wp_mono; [apply (IH _ (rm_effect (le_command e) x.1 x.2)); [done|]|].
  - simpl. apply sm_apply_refines; [lia|]. by rewrite Z.add_assoc.
  - intros r n' (-> & F & HR'). split_and!; done.
Qed.
End replay.
