(* ===== verification/Samples.v ===== *)
(** * Sample nodes

    Concrete nodes, built by running the model, for the witnesses and the
    executions of the claim files. *)

From stdpp Require Import prelude gmap strings sorting countable list.
From S2P Require Import Prelude Serde Protocol StateMachine StateMachineProps Storage StorageProps.
From S2P Require Import Instances Rpc Node NodeVotes ReferenceModel Refinement NodeLog.
#[local] Open Scope Z_scope.

Import Codec.

(** A new node on empty files. *)
Definition new_node (self : string) (ps : list string) : RaftNode :=
  raft_node_new self ps (fresh_sm 1000 []) (mkDisk ∅ []) 0.

Lemma new_node_synced self ps : synced (new_node self ps).
Proof. split; [split; vm_compute; congruence|reflexivity|vm_compute; reflexivity]. Qed.

Lemma fresh_machine n : wf (fresh_sm n []).
Proof. split; simpl; [constructor..|lia]. Qed.

Definition yes (t : Z) : VoteResponseArgs := mkVoteResponse t true.
Definition no (t : Z) : VoteResponseArgs := mkVoteResponse t false.

(** Node [a] of three stands for election in term 1 ... *)
Definition cand_a : RaftNode := (become_candidate (new_node "a" ["b"; "c"])).2.

(** ... wins it ... *)
Definition leader_a : RaftNode := (on_vote_reply 3 1 1 (yes 1) cand_a).2.

(** ... and appends two entries. *)
Definition leader_2 : RaftNode := (propose_batch [CSet "x" "1"; CSet "y" "2"] leader_a).2.

(** The message [leader_2] has for [b], which has nothing yet. *)
Definition leader_2_next : RaftNode := with_next_index {["b" := 1; "c" := 3]} leader_2.

Lemma leader_2_log : log leader_2 = [mkLogEntry 1 1 (CSet "x" "1"); mkLogEntry 1 2 (CSet "y" "2")].
Proof. vm_compute. reflexivity. Qed.

Lemma wal_synced_empty n : log n = [] → d_files (storage n) !! (FWal, false) = None →
  d_ok (storage n) → wal_synced (log n) (storage n).
Proof.
  intros -> E Hd. split; [done|]. unfold wal_holds, file_or_empty. rewrite E. constructor.
Qed.

Lemma leader_a_synced : wal_synced (log leader_a) (storage leader_a).
Proof. apply wal_synced_empty; vm_compute; reflexivity. Qed.

Lemma indexed_nil p : indexed_from p [].
Proof. by intros i e. Qed.

Lemma indexed_cons_2 p e es : le_index e = Z.of_nat p + 1 → indexed_from (S p) es →
  indexed_from p (e :: es).
Proof.
  intros He Hes [|i] x; simpl; [intros [= <-]; lia|]. intros Hx. rewrite (Hes i x Hx). lia.
Qed.

Lemma leader_2_indexed : indexed (log leader_2).
Proof. rewrite leader_2_log. repeat apply indexed_cons_2; try reflexivity. apply indexed_nil. Qed.
