(* ===== verification/NodeTheorems.v ===== *)
(** * What a Raft node guarantees: votes, elections, replication

    The claims about [src/rust/oxide-kv/src/raft/node.rs], with a witness for each. *)

From stdpp Require Import prelude gmap strings sorting countable list.
From S2P Require Import Prelude Serde Protocol StateMachine StateMachineProps Storage StorageProps.
From S2P Require Import Instances Rpc Node NodeVotes NodeEvents ReferenceModel Refinement NodeLog NodeLeader Samples.
#[local] Open Scope Z_scope.

Section theorems.
Context {JW : Json WalOp} {LW : JsonLaws WalOp}.
Context {JE : Json (list SSTEntry)} {LE : JsonLaws (list SSTEntry)}.
Context {JM : Json SSTableMeta} {LM : JsonLaws SSTableMeta}.
Context {BL : Bincode LogEntry} {LB : BincodeLaws LogEntry}.
Context {JV : Json Value} {LV : JsonLaws Value}.
Context {JS : Json Snapshot} {LS : JsonLaws Snapshot}.

(** C8: one vote per term. Follow a node through any sequence of requests,
    replies, timeouts, proposals, heartbeats and restarts from disk, with no failing
    disk call, no term counter about to wrap, and no refusal to its own vote request that
    carries a term it has already passed: no two votes it shows for one term (in
    a granted reply or as its recorded vote, its vote for itself included) name
    different candidates. *)
Theorem one_vote_per_term n0 vs n t c c' :
  synced n0 → trace n0 vs n → (t, c) ∈ vs → (t, c') ∈ vs → c = c'.
Proof. intros H0 Ht. apply (trace_invariant n0 vs n H0 Ht). Qed.

(** election safety. In a cluster with a fixed list of servers, each going
    through any sequence of events and restarts with the provisos of one vote per
    term (no failing disk call, no wrapping term, no late refusal), two candidates that each have the votes of a
    majority in the same term are the same candidate. *)
Theorem election_safety (servers : list string) (start finish : string → RaftNode)
    (votes : string → list (Z * string)) t c1 c2 :
  (∀ s, s ∈ servers → synced (start s) ∧ trace (start s) (votes s) (finish s)) →
  (length servers < 2 * length (filter (λ s, (t, c1) ∈ votes s) servers))%nat →
  (length servers < 2 * length (filter (λ s, (t, c2) ∈ votes s) servers))%nat →
  c1 = c2.
Proof.
  intros Hs H1 H2. destruct (majorities_meet _ _ _ H1 H2) as (s & Hin & V1 & V2).
  destruct (Hs s Hin) as [H0 Ht]. by eapply (trace_invariant (start s) (votes s)).
Qed.

(** the vote a node gives. [handle_request_vote] answers with the higher
    of the two terms; it grants exactly when the candidate's term is not old, no
    other candidate has this node's vote in that term, and the candidate's log is
    at least as up to date; a granted vote is in memory and, when no call
    fails, on disk; log, commit index and state machine are untouched. *)
Theorem request_vote_decision args n r n' :
  u64 (rv_term args) → handle_request_vote args n = (r, n') →
  r = Ok (mkVoteResponse (current_term n `max` rv_term args) (vote_decision args n)) ∧
  current_term n' = current_term n `max` rv_term args ∧
  vote_for n' = (if vote_decision args n then Some (rv_candidate_id args)
                 else if current_term n <? rv_term args then None else vote_for n) ∧
  (synced n → synced n') ∧
  log n' = log n ∧ commit_index n' = commit_index n ∧ state_machine n' = state_machine n.
Proof.
  intros Hu E. destruct (wp_elim _ _ _ _ _ (handle_request_vote_wp args n Hu) E)
    as ([_ Hle] & -> & st & hb & d & ->). split_and!; try done. intros Hs. by apply Hle.
Qed.

(** a pre-vote is only a probe: whatever the request, the handler changes
    nothing but the time of the last heartbeat, writes nothing to disk, answers with its own term, and
    grants only to a term its own or the next one and to a log at least as up to date as its own. *)
Theorem pre_vote_is_a_probe args n :
  u64 (current_term n + 1) →
  ∃ granted, handle_pre_vote args n =
      (Ok (mkVoteResponse (current_term n) granted), with_last_heartbeat (clock n) n) ∧
    (granted = true ↔
       (rv_term args = current_term n + 1 ∨ rv_term args = current_term n ∧ state n ≠ Leader) ∧
       log_up_to_date (rv_last_log_index args) (rv_last_log_term args) n = true).
Proof.
  intros Hu. unfold handle_pre_vote, touch_heartbeat, gets, modify, mbind, M_bind. simpl.
  rewrite u64_add_small by (unfold u64 in Hu; lia).
  destruct ((rv_term args <? current_term n) || (current_term n + 1 <? rv_term args)) eqn:E1.
  { exists false. split; [done|]. split; [done|]. intros [[?|[? _]] _]; lia. }
  change (state (with_last_heartbeat (clock n) n)) with (state n).
  destruct ((rv_term args =? current_term n) && bool_decide (state n = Leader)) eqn:E2.
  { exists false. split; [done|]. apply andb_true_iff in E2 as [Et El].
    apply bool_decide_eq_true in El. split; [done|]. intros [[?|[_ ?]] _]; [lia|done]. }
  eexists. split; [done|]. rewrite (log_up_to_date_ext _ _ n) by done.
  apply andb_false_iff in E2. rewrite bool_decide_eq_false in E2.
  split; [intros Hl|by intros [_ ?]]. split; [|done].
  destruct (decide (rv_term args = current_term n)); [right; split; [done|]|left; lia].
  destruct E2; [lia|done].
Qed.

(** winning an election takes a strict majority. A candidate that has
    voted for itself and collects the replies of its round, in any order, none
    of them a refusal from a higher term, ends as leader of that term exactly when
    its vote and the granted ones are more than half of the nodes. *)
Theorem majority_elects total term replies n r n' :
  Forall (λ reply, vr_granted reply = false → vr_term reply <= term) replies →
  (1 < total)%nat → state n = Candidate → current_term n = term →
  collect_votes total term 1 replies n = (r, n') →
  r = Ok (1 + grants replies)%nat ∧ current_term n' = term ∧
  (state n' = Leader ↔ (total < 2 * (1 + grants replies))%nat).
Proof.
  intros Hall Htot Hst Ht E.
  assert (Hl : state n = Leader ↔ (Nat.div2 total < 1)%nat).
  { rewrite Hst. split; [done|]. intros Hd%Nat.lt_1_r. exfalso.
    destruct total as [|[|total]]; [lia..|done]. }
  destruct (wp_elim _ _ _ _ _ (collect_votes_wp total term 1 replies n Hall Ht (or_introl Hst) Hl) E)
    as (-> & -> & ->).
  split_and!; [done..|]. rewrite Nat.div2_div.
  pose proof (Nat.div_mod_eq total 2). pose proof (Nat.mod_upper_bound total 2). lia.
Qed.

(** ** Replication *)

(** C18: AppendEntries on a follower. For a message whose entries are numbered from
    [prev_log_index + 1], the handler accepts exactly when the term is not old, the
    node does not lead that term, and the entry before the first one matches; then
    the log is the merge of the message into it (matching entries stay, the first
    conflict cuts the log, nothing before it changes) and the commit index
    follows the leader's up to the end of the log; refused, both stay. Indices stay
    those of the positions, and a log that only grew is still what the WAL holds. *)
Theorem append_entries_merges args n r n' :
  ae_wf args n → indexed (log n) → handle_append_entries args n = (r, n') →
  r = Ok (mkAppendReply (current_term n `max` ae_term args) (ae_accepts args n)) ∧
  log n' = ae_log args n ∧ indexed (log n') ∧ commit_index n' = ae_commit args n ∧
  take (Z.to_nat (ae_prev_log_index args)) (log n') = take (Z.to_nat (ae_prev_log_index args)) (log n) ∧
  (log n `prefix_of` log n' → wal_synced (log n) (storage n) → wal_synced (log n') (storage n')).
Proof.
  intros Hw Hi E. destruct (wp_elim _ _ _ _ _ (handle_append_entries_wp args n Hw) E)
    as (-> & Hl & -> & _ & _ & Hs). rewrite Hl in *. split_and!; try done.
  - unfold ae_log. case_match eqn:Ea; [|done]. apply merge_log_indexed; [done|apply Hw|].
    apply andb_true_iff in Ea as [_ Ea]. by apply (prev_matches_length args), Ea; apply Hw.
  - unfold ae_log. case_match eqn:Ea; [|done]. apply merge_log_take.
    apply andb_true_iff in Ea as [_ Ea]. by apply (prev_matches_length args), Ea; apply Hw.
Qed.

(** a successful AppendEntries replicates the leader's whole log. Let the
    leader build the message for a peer whose [next_index] lies within its
    log, and let the peer's log match the leader's in Raft's sense. If the peer
    answers success, the leader's log is a prefix of the peer's new log, which
    is either its old one or the leader's, and matches every log that
    matched both. *)
Theorem append_entries_replicates leader peer args leader' n r n' :
  indexed (log leader) → log_len leader + log_len leader < 2 ^ 62 → log_len n < 2 ^ 62 →
  1 <= default 1 (next_index leader !! peer) <= log_len leader + 1 →
  append_args (sync_view leader) peer leader = (Ok args, leader') →
  log_matching (log leader) (log n) →
  handle_append_entries args n = (r, n') →
  leader' = leader ∧
  (ae_accepts args n = true →
     log leader `prefix_of` log n' ∧ (log n' = log n ∨ log n' = log leader) ∧
     (∀ l, log_matching l (log leader) → log_matching l (log n) → log_matching l (log n'))).
Proof.
  intros Hi Hlen Hlen' Hnext Hargs HM E. unfold append_args, gets, mbind, M_bind in Hargs. simpl in Hargs.
  set (next := default 1 (next_index leader !! peer)) in *.
  set (p := Z.to_nat (next - 1)).
  rewrite u64_sub_small in Hargs by (unfold log_len in *; lia).
  assert (Hargs' : ae_prev_log_index args = next - 1 ∧
    ae_prev_log_term args = (if next - 1 =? 0 then 0 else default 0 (le_term <$> log leader !! Z.to_nat (next - 1 - 1))) ∧
    ae_entries args = drop p (log leader) ∧ leader' = leader).
  { destruct (Z.leb_spec next (log_len leader)).
    - replace ((1 <=? next) && (next - 1 <=? log_len leader)) with true in Hargs by lia.
      by injection Hargs as <- <-.
    - injection Hargs as <- <-. split_and!; try done. simpl.
      rewrite drop_ge; [done|]. unfold log_len in *. lia. }
  destruct Hargs' as (Ep & Et & Ee & ->). split; [done|]. intros Ha.
  assert (Hw : ae_wf args n).
  { split; rewrite ?Ep, ?Ee; [lia|by apply indexed_drop|]. rewrite length_drop. unfold log_len in *. lia. }
  destruct (wp_elim _ _ _ _ _ (handle_append_entries_wp args n Hw) E) as (_ & Hl & _).
  unfold ae_log in Hl. rewrite Ha in Hl. rewrite Ep, Ee in Hl.
  apply andb_true_iff in Ha as [_ Hm]. pose proof (prev_matches_length _ _ (aw_prev _ _ Hw) Hm) as Hpl.
  rewrite Ep in Hpl. fold p in Hl, Hpl.
  assert (Htake : take p (log n) = take p (log leader)).
  { unfold prev_matches in Hm. rewrite Ep, Et in Hm.
    destruct (decide (p = 0%nat)) as [->|Hp0]; [done|].
    replace (next - 1 <=? 0) with false in Hm by lia. replace (next - 1 =? 0) with false in Hm by lia.
    apply bool_decide_eq_true in Hm.
    destruct (lookup_lt_is_Some_2 (log leader) (Z.to_nat (next - 1 - 1))) as [e He]; [unfold log_len in *; lia|].
    destruct (log n !! Z.to_nat (next - 1 - 1)) as [x|] eqn:Ex; [|done]. rewrite He in Hm. simpl in Hm.
    simplify_eq. replace p with (S (Z.to_nat (next - 1 - 1))) by lia. symmetry. by eapply HM. }
  destruct (merge_log_matching (log leader) (log n) p Hpl Htake HM) as [[E1 Hpre]|E1]; rewrite E1 in Hl;
    rewrite Hl; split_and!; auto.
Qed.
End theorems.

(** ** Witnesses *)

Import Codec.

Definition ask (t : Z) (c : string) : RequestVoteArgs := mkRequestVote t c 0 0.

(** [a] is asked by [b] in term 1 and says yes, then is asked by [c] and says no. *)
Definition asked_once : RaftNode := (run_event (EvRpc (RequestVote (ask 1 "b"))) (new_node "a" ["b"; "c"])).2.
Definition asked_twice : RaftNode := (run_event (EvRpc (RequestVote (ask 1 "c"))) asked_once).2.

Lemma asked_trace : ∃ vs, trace (new_node "a" ["b"; "c"]) vs asked_twice ∧ (1, "b") ∈ vs.
Proof.
  eexists. split.
  - eapply (trace_event _ _ asked_once (EvRpc (RequestVote (ask 1 "c")))); [|unfold allowed, u64; simpl; lia|apply surjective_pairing].
    eapply (trace_event _ _ (new_node "a" ["b"; "c"]) (EvRpc (RequestVote (ask 1 "b"))));
      [constructor|unfold allowed, u64; simpl; lia|apply surjective_pairing].
  - apply elem_of_app. left. apply elem_of_app. right.
    assert (E : votes_shown (EvRpc (RequestVote (ask 1 "b")))
      (run_event (EvRpc (RequestVote (ask 1 "b"))) (new_node "a" ["b"; "c"])).1
      asked_once = [(1, "b"); (1, "b")])
      by (vm_compute; reflexivity).
    rewrite E. left.
Qed.

Lemma one_vote_per_term_witness :
  ∃ vs, trace (new_node "a" ["b"; "c"]) vs asked_twice ∧ (1, "b") ∈ vs ∧
    ∀ c, (1, c) ∈ vs → c = "b".
Proof.
  destruct asked_trace as (vs & Ht & Hin). exists vs. split; [exact Ht|]. split; [exact Hin|].
  intros c Hc. exact (one_vote_per_term (new_node "a" ["b"; "c"]) vs asked_twice 1 c "b"
    (new_node_synced _ _) Ht Hc Hin).
Defined.

Lemma election_safety_witness :
  ∃ vs, trace (new_node "a" ["b"; "c"]) vs asked_twice ∧
    ∀ c, (1 < 2 * length (filter (λ _ : string, (1%Z, c) ∈ vs) ["a"]))%nat → c = "b".
Proof.
  destruct asked_trace as (vs & Ht & Hin). exists vs. split; [exact Ht|]. intros c Hc.
  apply (election_safety ["a"] (λ _, new_node "a" ["b"; "c"]) (λ _, asked_twice) (λ _, vs) 1 c "b").
  - intros s _. split; [apply new_node_synced|exact Ht].
  - exact Hc.
  - rewrite filter_cons_True by exact Hin. simpl. lia.
Defined.

Lemma request_vote_decision_witness :
  vote_for (handle_request_vote (ask 1 "b") (new_node "a" ["b"; "c"])).2 = Some "b".
Proof.
  destruct (request_vote_decision (ask 1 "b") (new_node "a" ["b"; "c"]) _ _
    ltac:(split; simpl; lia) (surjective_pairing _)) as (_ & _ & H & _).
  rewrite H. vm_compute. reflexivity.
Defined.

Lemma pre_vote_is_a_probe_witness :
  ∃ g, handle_pre_vote (ask 1 "b") (new_node "a" ["b"; "c"]) =
    (Ok (mkVoteResponse (current_term (new_node "a" ["b"; "c"])) g),
     with_last_heartbeat (clock (new_node "a" ["b"; "c"])) (new_node "a" ["b"; "c"])).
Proof.
  destruct (pre_vote_is_a_probe (ask 1 "b") (new_node "a" ["b"; "c"]) ltac:(split; vm_compute; congruence))
    as (g & H & _).
  exists g. exact H.
Defined.

Lemma majority_elects_witness :
  state (collect_votes 3 1 1 [no 1; yes 1] cand_a).2 = Leader ∧
  ¬ state (collect_votes 3 1 1 [no 1; no 1] cand_a).2 = Leader.
Proof.
  split.
  - destruct (majority_elects 3 1 [no 1; yes 1] cand_a _ _
      ltac:(repeat constructor; simpl; lia) ltac:(lia) ltac:(vm_compute; reflexivity)
      ltac:(vm_compute; reflexivity) (surjective_pairing _)) as (_ & _ & H).
    apply H. vm_compute. lia.
  - destruct (majority_elects 3 1 [no 1; no 1] cand_a _ _
      ltac:(repeat constructor; simpl; lia) ltac:(lia) ltac:(vm_compute; reflexivity)
      ltac:(vm_compute; reflexivity) (surjective_pairing _)) as (_ & _ & H).
    rewrite H. vm_compute. lia.
Defined.

(** The message with both entries, for a node that has none. *)
Definition both_entries : AppendEntriesArgs :=
  mkAppendEntries 1 "a" 0 0 [mkLogEntry 1 1 (CSet "x" "1"); mkLogEntry 1 2 (CSet "y" "2")] 1.

Lemma append_entries_merges_witness :
  log (handle_append_entries both_entries (new_node "b" ["a"; "c"])).2 = ae_entries both_entries ∧
  commit_index (handle_append_entries both_entries (new_node "b" ["a"; "c"])).2 = 1.
Proof.
  assert (Hw : ae_wf both_entries (new_node "b" ["a"; "c"])).
  { split; [simpl; lia| |vm_compute; reflexivity].
    repeat apply indexed_cons_2; try reflexivity. apply indexed_nil. }
  destruct (append_entries_merges both_entries (new_node "b" ["a"; "c"]) _ _ Hw
    ltac:(apply indexed_nil) (surjective_pairing _)) as (_ & H1 & _ & H2 & _).
  rewrite H1, H2. split; vm_compute; reflexivity.
Defined.

Lemma append_entries_replicates_witness :
  ∃ args, (append_args (sync_view leader_2_next) "b" leader_2_next).1 = Ok args ∧
    log leader_2_next `prefix_of` log (handle_append_entries args (new_node "b" ["a"; "c"])).2.
Proof.
  exists (mkAppendEntries 1 "a" 0 0 [mkLogEntry 1 1 (CSet "x" "1"); mkLogEntry 1 2 (CSet "y" "2")] 0).
  split; [vm_compute; reflexivity|].
  assert (Ha : append_args (sync_view leader_2_next) "b" leader_2_next =
    (Ok (mkAppendEntries 1 "a" 0 0 [mkLogEntry 1 1 (CSet "x" "1"); mkLogEntry 1 2 (CSet "y" "2")] 0),
     leader_2_next)) by (vm_compute; reflexivity).
  destruct (append_entries_replicates leader_2_next "b" _ leader_2_next (new_node "b" ["a"; "c"]) _ _
    leader_2_indexed ltac:(vm_compute; reflexivity) ltac:(vm_compute; reflexivity)
    ltac:(vm_compute; split; congruence) Ha ltac:(intros i e1 e2 _ H; discriminate H)
    (surjective_pairing _)) as [_ H].
  apply H. vm_compute. reflexivity.
Defined.
