(* ===== verification/NodeApplyTheorems.v ===== *)
(** * What a Raft node guarantees: commitment, application, membership, snapshots

    The second half of the claims about [src/rust/oxide-kv/src/raft/node.rs]. *)

From stdpp Require Import prelude gmap strings sorting countable list.
From S2P Require Import Prelude Serde Protocol StateMachine StateMachineProps Storage StorageProps.
From S2P Require Import Instances Rpc Node NodeVotes NodeEvents ReferenceModel Refinement NodeLog NodeLeader NodeReplay Samples.
#[local] Open Scope Z_scope.

Section theorems.
Context {JW : Json WalOp} {LW : JsonLaws WalOp}.
Context {JE : Json (list SSTEntry)} {LE : JsonLaws (list SSTEntry)}.
Context {JM : Json SSTableMeta} {LM : JsonLaws SSTableMeta}.
Context {BL : Bincode LogEntry} {LB : BincodeLaws LogEntry}.
Context {JV : Json Value} {LV : JsonLaws Value}.
Context {JS : Json Snapshot} {LS : JsonLaws Snapshot}.

(** [apply_logs] gets as far as the commit index when the log does. *)
Lemma apply_loop_all fuel n : 0 <= last_applied n <= commit_index n → commit_index n <= log_len n →
  Z.to_nat (commit_index n - last_applied n) = fuel → wp (apply_loop fuel) (λ _ n', last_applied n' = commit_index n) n.
Proof.
  revert n. induction fuel as [|fuel IH]; intros n Ha Hc Hf; [apply (wp_ret tt); lia|].
  simpl. do 2 wp_step. destruct (Z.ltb_spec (last_applied n) (commit_index n)); [|lia].
  do 2 wp_step. unfold log_len in Hc. destruct (lookup_lt_is_Some_2 (log n) (Z.to_nat (last_applied n))) as [e ->]; [lia|].
  wp_step. unfold wp at 1. destruct (apply_command_frame (le_command e) n) as [-> F].
  set (n1 := (apply_command (le_command e) n).2) in *. destruct F as (Fa & Fc & _ & _ & _ & _ & _ & _ & Fl & _).
  apply prefix_length in Fl. do 2 wp_step.
  eapply wp_mono; [apply IH|]; simpl; rewrite ?Fa, ?Fc; [lia|unfold log_len; simpl; lia|lia|]. by intros _ n2 ->.
Qed.

Lemma apply_logs_all n : 0 <= last_applied n <= commit_index n → commit_index n <= log_len n →
  last_applied (apply_logs n).2 = commit_index n.
Proof. intros Ha Hc. by apply (apply_loop_all _ n Ha Hc). Qed.

Lemma maybe_commit_cases n : (maybe_commit n).2 = n ∨
  ∃ h, (maybe_commit n).2 = (apply_logs (with_commit_index h n)).2.
Proof.
  unfold maybe_commit, gets, modify, mbind, M_bind. simpl. destruct (negb _); [by left|]. destruct (_ <? _); [|by left].
  destruct (_ =? _); [|by left]. right. eauto.
Qed.

(** C12: what a leader commits. [maybe_commit] never moves the commit index
    back, nor the applied index; it moves the commit index only on a leader, only to an entry of the current term that
    the configuration's quorum rule accepts for the recorded [match_index], to
    the highest index that rule accepts. Then it runs [apply_logs] under the new commit index, which applies
    everything up to it. *)
Theorem commit_needs_quorum n r n' :
  log_len n < 2 ^ 63 → 0 <= last_applied n <= commit_index n → maybe_commit n = (r, n') →
  r = Ok tt ∧ commit_index n <= commit_index n' ∧ current_term n' = current_term n ∧
  last_applied n <= last_applied n' <= commit_index n' ∧
  (commit_index n' ≠ commit_index n →
     state n = Leader ∧ commit_index n' <= log_len n ∧
     config_quorum_reached (current_config n) (match_index n) (self_id n) (log_len n) (commit_index n') = true ∧
     (∃ e, log n !! Z.to_nat (commit_index n' - 1) = Some e ∧ le_term e = current_term n) ∧
     (∀ j, commit_index n' < j <= log_len n →
        config_quorum_reached (current_config n) (match_index n) (self_id n) (log_len n) j = false) ∧
     n' = (apply_logs (with_commit_index (commit_index n') n)).2 ∧ last_applied n' = commit_index n').
Proof.
  intros Hl Hc E. pose proof (maybe_commit_cases n) as Hcases. rewrite E in Hcases. simpl in Hcases.
  destruct (wp_elim _ _ _ _ _ (maybe_commit_wp n Hl ltac:(lia)) E)
    as [-> [[Ec ->]|(Hs & Hx & Hq & He & Hgt & [F Ha])]].
  - split_and!; try done; lia.
  - destruct F as (_ & Fc & Ft & _). simpl in *. split_and!; try done; try lia.
    intros _. assert (En : n' = (apply_logs (with_commit_index (commit_index n') n)).2).
    { destruct Hcases as [->|[h Eh]]; [lia|]. assert (commit_index n' = h) as <-; [|done].
      pose proof (apply_logs_frame (with_commit_index h n)) as [_ [(_ & Gc & _) _]]. rewrite <- Eh in Gc. done. }
    split_and!; try done; try lia. rewrite En at 1. rewrite apply_logs_all; [done|unfold log_len in *; simpl; lia..].
Qed.

(** C9: the applied log is the reference model. Take a node whose commit index lies within its log, over a well-formed state
    machine that agrees with the reference model, with no failing system call and enough table numbers for the writes to come.
    [apply_logs] ends, applies every committed entry exactly
    once and in order, and leaves a well-formed state machine that agrees, map and staged
    transactions, with the reference model drained over the same log. (Where a call fails, [apply_logs] goes on and the write
    is lost.) *)
Theorem apply_logs_refines n rm r n' :
  0 <= last_applied n <= commit_index n → commit_index n <= log_len n → commit_index n < U64 - 1 →
  rm_next_index rm = last_applied n + 1 →
  refines (total_cost (rm_state rm, rm_pending rm) (slice (last_applied n) (commit_index n) (log n)))
    (rm_state rm, rm_pending rm) (state_machine n) →
  apply_logs n = (r, n') →
  r = Ok tt ∧ last_applied n' = commit_index n ∧ commit_index n' = commit_index n ∧
  log n `prefix_of` log n' ∧
  (rm_drain n (commit_index n) rm).1 = Z.to_nat (commit_index n - last_applied n) ∧
  let rm' := (rm_drain n (commit_index n) rm).2 in
  rm_next_index rm' = last_applied n' + 1 ∧
  contents (state_machine n') = rm_state rm' ∧
  tx_ops <$> pending_txs (state_machine n') = rm_pending rm' ∧
  wf (state_machine n') ∧ no_faults (host (state_machine n')).
Proof.
  intros Ha Hc Hu Hi HR E. set (x := (rm_state rm, rm_pending rm)) in *.
  pose proof (apply_loop_refines (Z.to_nat (commit_index n - last_applied n)) n x 0
    ltac:(lia) ltac:(lia) Hc ltac:(lia) ltac:(by rewrite Z.add_0_r)) as HW.
  destruct (wp_elim _ _ n r n' HW E) as (-> & F & Hla & [[Hcont Hpend] Hwf _ Hn]).
  destruct F as (_ & Fc & _ & _ & _ & _ & _ & _ & Fl & _). simpl in *.
  unfold rm_drain. rewrite rm_loop_spec by (unfold log_len in *; lia).
  rewrite Hi. replace (last_applied n + 1 - 1) with (last_applied n) by lia. fold x. simpl.
  split_and!; try done; try lia.
  unfold slice. rewrite length_fmap, length_take, length_drop. unfold log_len in Hc. lia.
Qed.

(** C26: recovery by replay. A node restarts with the log [log n] over a well-formed state
    machine that still holds what it had applied, a prefix of that log, and no
    staged transaction; no system call fails, and there are enough table numbers for the writes of the log. [replay_logs]
    then ends with exactly the map and the
    staged transactions the whole log produces from nothing: replaying is idempotent. (Like [apply_logs], it goes on when
    a call fails.) *)
Theorem replay_is_idempotent n pre post r n' :
  le_command <$> log n = pre ++ post →
  refines (total_cost ((apply_all pre (∅, ∅)).1, ∅) (pre ++ post))
    ((apply_all pre (∅, ∅)).1, ∅) (state_machine n) →
  replay_logs n = (r, n') →
  r = Ok tt ∧ last_applied n' = log_len n ∧ log n' = log n ∧
  contents (state_machine n') = (apply_all (pre ++ post) (∅, ∅)).1 ∧
  tx_ops <$> pending_txs (state_machine n') = (apply_all (pre ++ post) (∅, ∅)).2.
Proof.
  intros El HR E. rewrite <- (apply_all_again pre post ∅). rewrite <- El in *.
  assert (HW : wp replay_logs (λ r n', r = Ok tt ∧ last_applied n' = log_len n ∧ log n' = log n ∧
    agrees (apply_all (le_command <$> log n) ((apply_all pre (∅, ∅)).1, ∅)) (state_machine n')) n).
  { unfold replay_logs. do 3 wp_step. eapply wp_mono;
      [apply (replay_entries_refines (log n) n ((apply_all pre (∅, ∅)).1, ∅) 0);
       [lia|by rewrite Z.add_0_r]|].
    intros r1 n1 (-> & (Fl & _) & HR1). wp_step. simpl. unfold log_len. rewrite Fl.
    split_and!; [done..|apply HR1]. }
  destruct (wp_elim _ _ _ _ _ HW E) as (-> & ? & ? & ? & ?). done.
Qed.

(** proposals. A batch offered to a node that does not lead changes nothing. On a
    leader it is appended in order, with the current term and the indices that
    follow the log, to the log and to the WAL; the answer is [true] exactly when
    all of it was appended, and when an append fails a proper prefix of it is
    left in the log. *)
Theorem propose_batch_appends cs n r n' :
  indexed (log n) → propose_batch cs n = (r, n') →
  (state n ≠ Leader → r = Ok false ∧ n' = n) ∧
  (state n = Leader → ∃ k ok, r = Ok ok ∧ (k <= length cs)%nat ∧ (ok = true ↔ k = length cs) ∧
     log n' = log n ++ take k (batch_entries (current_term n) (log_len n + 1) cs) ∧
     indexed (log n') ∧
     (wal_synced (log n) (storage n) → ok = true ∧ wal_synced (log n') (storage n'))).
Proof.
  intros Hi E. unfold propose_batch, gets, mbind, M_bind in E. simpl in E. split; intros Hs.
  - rewrite bool_decide_false in E by done. by injection E as <- <-.
  - rewrite bool_decide_true in E by done. unfold catch in E.
    pose proof (propose_loop_wp cs (log_len n + 1) n) as HW. unfold wp in HW.
    destruct (propose_loop cs (log_len n + 1) n) as [r1 n1].
    destruct HW as (k & d & Hk & _ & En & Hr & Hw). simpl in *.
    assert (Hidx : indexed (log n1)).
    { rewrite En. simpl. apply indexed_app; [done|].
      intros i e He. apply lookup_take_Some in He as [He _]. by apply batch_entries_indexed in He. }
    exists k. destruct r1 as [[]|x]; simplify_eq; eexists; split_and!; try done;
      rewrite ?En in *; simpl in *.
    + naive_solver.
    + intros Hy. by destruct (Hw Hy).
    + split; [done|]. intros ->. by destruct Hr as [_ Hr]; specialize (Hr eq_refl).
    + intros Hy. by destruct (Hw Hy).
Qed.

(** C33: membership changes take two phases. On a leader whose WAL holds its
    log, adding a server that is not a member appends the joint configuration of the
    old and the new servers; when that entry is applied the leader runs under
    both majorities, dials all the servers but itself, and appends by itself the simple
    configuration of the new servers, in the next free slot, exactly once. *)
Theorem add_node_takes_two_phases s n r n1 :
  state n = Leader → contains (current_config n) (node_id s) = false →
  wal_synced (log n) (storage n) → propose_add_node s n = (r, n1) →
  let old := all_servers (current_config n) in
  let new := old ++ [s] in
  r = Ok (inl (log_len n + 1)) ∧
  log n1 = log n ++ [mkLogEntry (current_term n) (log_len n + 1) (CInstallConfiguration (Joint old new))] ∧
  current_config n1 = current_config n ∧
  ∃ n2, install_configuration (Joint old new) n1 = (Ok tt, n2) ∧
    current_config n2 = Joint old new ∧ peers n2 = peers_of (Joint old new) (self_id n) ∧
    log n2 = log n1 ++ [mkLogEntry (current_term n) (log_len n + 2) (CInstallConfiguration (Simple new))] ∧
    wal_synced (log n2) (storage n2) ∧
    pending_post_joint_simple n2 = None.
Proof.
  intros Hs Hc Hw E old new. unfold propose_add_node, propose_joint, catch, gets, modify, mbind, M_bind in E.
  simpl in E. rewrite bool_decide_true in E by done. simpl in E. rewrite Hc in E. fold old new in E.
  pose proof (append_own_wp (CInstallConfiguration (Joint old new)) n) as HW. unfold wp in HW.
  destruct (append_own _ n) as [[i|x] n0]; cbn [fst snd] in HW;
    destruct HW as (d & _ & HE & Hok); [|by destruct (Hok Hw)].
  destruct HE as [-> ->]. destruct (Hok Hw) as [_ Hw1]. injection E as <- <-.
  split_and!; [done..|].
  unfold install_configuration, gets, modify, mbind, M_bind, ignore. simpl. rewrite Hs, bool_decide_true by done.
  match goal with |- context [append_own ?c ?m] => pose proof (append_own_wp c m) as HW2; unfold wp in HW2;
    destruct (append_own c m) as [[i|x] n2] end; cbn [fst snd] in HW2; destruct HW2 as (d2 & _ & HE2 & Hok2);
    [|by destruct (Hok2 Hw1)].
  destruct HE2 as [-> ->]. destruct (Hok2 Hw1) as [_ Hw2].
  unfold log_len in *. simpl in *. rewrite length_app in *. simpl in *.
  eexists. split; [done|]. simpl.
  replace (Z.of_nat (length (log n) + 1) + 1) with (Z.of_nat (length (log n)) + 2) in * by lia.
  split_and!; done.
Qed.

(** C32: InstallSnapshot. Accepted by a node whose calls do not fail, it makes
    the state machine hold exactly the snapshot's map with nothing staged,
    stores the snapshot, drops from log and WAL the entries it covers, and never
    moves the commit and applied indices back. *)
Theorem install_snapshot_replaces_state args n r n' :
  wf (state_machine n) → no_faults (host (state_machine n)) → d_ok (storage n) →
  Z.of_nat (size (snap_data (is_snapshot args))) < U64 →
  current_term n < is_term args ∨ current_term n = is_term args ∧ state n ≠ Leader →
  handle_install_snapshot args n = (r, n') →
  r = Ok (mkInstallSnapshotReply (is_term args)) ∧
  contents (state_machine n') = snap_data (is_snapshot args) ∧ pending_txs (state_machine n') = ∅ ∧
  stored_snapshot (storage n') = Some (is_snapshot args) ∧
  log n' = filter (λ e, is_last_included_index args < le_index e) (log n) ∧
  (wal_holds (log n) (storage n) → wal_holds (log n') (storage n')) ∧
  commit_index n' = commit_index n `max` is_last_included_index args ∧
  last_applied n' = last_applied n `max` is_last_included_index args.
Proof.
  intros Hwf Hn Hd Hsz Hterm. revert r n'.
  assert (HW : wp (handle_install_snapshot args) (λ r n',
    r = Ok (mkInstallSnapshotReply (is_term args)) ∧
    contents (state_machine n') = snap_data (is_snapshot args) ∧ pending_txs (state_machine n') = ∅ ∧
    stored_snapshot (storage n') = Some (is_snapshot args) ∧
    log n' = filter (λ e, is_last_included_index args < le_index e) (log n) ∧
    (wal_holds (log n) (storage n) → wal_holds (log n') (storage n')) ∧
    commit_index n' = commit_index n `max` is_last_included_index args ∧
    last_applied n' = last_applied n `max` is_last_included_index args) n);
    [|intros r n' E; exact (wp_elim _ _ _ _ _ HW E)].
  unfold handle_install_snapshot. do 4 wp_step.
  replace (is_term args <? current_term n) with false by lia.
  replace ((is_term args =? current_term n) && bool_decide (state n = Leader)) with false
    by (symmetry; apply andb_false_iff; rewrite bool_decide_eq_false; destruct Hterm as [?|[? ?]]; [left; lia|by right]).
  apply adopt_check; [lia|]. intros v st d F. do 2 wp_step. unfold touch_heartbeat. do 4 wp_step.
  unfold on_disk. wp_step. cbn [storage with_last_heartbeat with_state with_storage].
  wp_use save_snapshot_wp. intros r1 d1 (F1 & Hr1 & Hs1 & _).
  assert (Hd1 : d_ok d1) by (by apply F1, F).
  pose proof (load_snapshot_wp (snap_data (is_snapshot args)) (state_machine n) Hwf Hn Hsz) as HL.
  unfold wp, mbind, M_bind, expect in HL. wp_step. unfold expect, on_sm, zoom. unfold wp at 1.
  cbn [state_machine with_storage with_last_heartbeat with_state with_vote_for with_current_term].
  destruct (clear_for_snapshot (state_machine n)) as [[[]|e] s2]; [|by destruct HL as [? _]].
  cbn [fst snd]. wp_step. unfold wp at 1. cbn [state_machine with_state_machine].
  destruct (set_all _ s2) as [r3 s3]. cbn [fst snd] in *. destruct HL as (-> & Hc & Hp).
  do 4 wp_step. apply (wp_zoom storage with_storage). cbn [storage with_log with_state_machine with_storage].
  pose proof (rewrite_wal_wp (is_last_included_index args) d1) as HR. cbv zeta in HR.
  wp_use HR. rewrite restore_quiet by done. cbn [fst]. intros r4 d4 (F4 & Hr4 & Hw4 & _).
  do 6 wp_step. simpl. specialize (Hr1 (proj2 F Hd)).
  split_and!; try done.
  - rewrite (stored_snapshot_ext d1) by (by apply F4). auto.
  - intros Hw. destruct (Hw4 _ (Hr4 Hd1)) as [_ Hw5].
    replace (stored_log d1) with (log n) in Hw5; [done|]. symmetry. apply wal_holds_stored.
    eapply wal_holds_ext; [|exact Hw]. rewrite (proj1 F1), (proj1 F) by done. done.
Qed.

(** The transaction vote. A node answers a coordinator's request with a yes only
    if the request carries its own term, its log is not ahead of the
    coordinator's, and the transaction is staged in its state machine, where
    its yes is then recorded; a request with an old term changes nothing, and one
    with a newer term is refused after adopting the term. *)
Theorem tx_vote_is_guarded req n r n' :
  u64 (tv_term req) → handle_tx_vote_request req n = (r, n') →
  ∃ reply, r = Ok reply ∧ tr_term reply = current_term n `max` tv_term req ∧
    current_term n' = tr_term reply ∧
    (tr_granted reply = true →
       tv_term req = current_term n ∧
       log_up_to_date (tv_last_log_index req) (tv_last_log_term req) n = true ∧
       ∃ tx, pending_txs (state_machine n') !! tv_tx_id req = Some tx ∧
         tx_votes tx !! self_id n = Some VoteYes) ∧
    (tv_term req < current_term n → n' = n ∧ tr_granted reply = false) ∧
    (current_term n < tv_term req →
       state n' = Follower ∧ vote_for n' = None ∧ log n' = log n ∧ tr_granted reply = false).
Proof.
  intros Hu. revert r n'.
  assert (HW : wp (handle_tx_vote_request req) (λ r n', ∃ reply, r = Ok reply ∧
    tr_term reply = current_term n `max` tv_term req ∧ current_term n' = tr_term reply ∧
    (tr_granted reply = true →
       tv_term req = current_term n ∧
       log_up_to_date (tv_last_log_index req) (tv_last_log_term req) n = true ∧
       ∃ tx, pending_txs (state_machine n') !! tv_tx_id req = Some tx ∧
         tx_votes tx !! self_id n = Some VoteYes) ∧
    (tv_term req < current_term n → n' = n ∧ tr_granted reply = false) ∧
    (current_term n < tv_term req →
       state n' = Follower ∧ vote_for n' = None ∧ log n' = log n ∧ tr_granted reply = false)) n);
    [|intros r n' E; exact (wp_elim _ _ _ _ _ HW E)].
  unfold handle_tx_vote_request. do 2 wp_step.
  destruct (Z.ltb_spec (tv_term req) (current_term n)).
  { wp_step. eexists. split; [done|]. simpl. split_and!; try done; lia. }
  destruct (Z.ltb_spec (current_term n) (tv_term req)).
  { wp_step. apply adopt_term_wp; [done..|]. intros d _ _. wp_step. eexists. split; [done|]. simpl.
    split_and!; try done; lia. }
  do 4 wp_step. destruct (log_up_to_date _ _ n) eqn:El; cbn [negb].
  2:{ wp_step. eexists. split; [done|]. simpl. split_and!; try done; lia. }
  do 2 wp_step. match goal with |- wp _ _ ?m => set (n1 := m) end.
  assert (Hn1 : current_term n1 = current_term n ∧ self_id n1 = self_id n) by (subst n1; by case_match).
  destruct Hn1 as [Ht1 Hi1]. wp_step. eapply wp_mono; [apply apply_logs_frame|].
  intros r1 n2 (-> & (_ & _ & Ft & _ & _ & Fi & _) & _). simpl in Ft, Fi. do 2 wp_step.
  destruct (pending_tx (tv_tx_id req) (state_machine n2)) as [view|] eqn:Ev.
  - do 4 wp_step. unfold on_sm. wp_step. unfold record_vote. do 2 wp_step.
    unfold pending_tx in Ev. destruct (pending_txs (state_machine n2) !! tv_tx_id req) as [tx|] eqn:Ep; [|done].
    eexists. split; [done|]. cbn [tr_term tr_granted current_term with_state_machine state_machine].
    split_and!; try done; try lia. intros _. split_and!; [lia|done|]. simpl. rewrite lookup_insert_eq.
    eexists. split; [done|]. simpl. rewrite Fi, Hi1. apply lookup_insert_eq.
  - wp_step. eexists. split; [done|]. simpl. split_and!; try done; lia.
Qed.

(** what survives a restart of the node. When the files hold the term, the
    vote and the log, and no call fails, a node built from them has the same
    term, vote and log, starts as a follower with nothing known to be
    committed or applied, and its files still hold them. *)
Theorem restart_recovers_meta_and_log n sm ps now :
  synced n → wal_synced (log n) (storage n) →
  let n' := raft_node_new (self_id n) ps sm (storage n) now in
  current_term n' = current_term n ∧ vote_for n' = vote_for n ∧ log n' = log n ∧
  state n' = Follower ∧ commit_index n' = 0 ∧ last_applied n' = 0 ∧ state_machine n' = sm ∧
  all_servers (current_config n') = server_of (self_id n) :: (server_of <$> ps) ∧
  synced n' ∧ wal_synced (log n') (storage n').
Proof.
  intros [S1 S2 S3] [_ Hw]. unfold raft_node_new. rewrite load_initial_state_ok by done.
  rewrite S3, (wal_holds_stored (log n)) by done. simpl. split_and!; done.
Qed.
End theorems.

(** ** Witnesses *)

Import Codec.

(** [b] has acknowledged both entries of the leader. *)
Definition acked_2 : RaftNode := with_match_index {["b" := 2]} leader_2.

Lemma commit_needs_quorum_witness :
  commit_index (maybe_commit acked_2).2 = 2 ∧
  config_quorum_reached (current_config acked_2) (match_index acked_2) (self_id acked_2) (log_len acked_2)
    (commit_index (maybe_commit acked_2).2) = true.
Proof.
  destruct (commit_needs_quorum acked_2 _ _ ltac:(vm_compute; reflexivity)
    ltac:(vm_compute; split; congruence) (surjective_pairing _)) as (_ & _ & _ & _ & H).
  split; [vm_compute; reflexivity|]. apply H. vm_compute. congruence.
Defined.

(** Both entries are committed and none is applied. *)
Definition committed_2 : RaftNode := with_commit_index 2 leader_2.

Lemma committed_2_refines : refines 2 (∅, ∅) (state_machine committed_2).
Proof.
  assert (E : state_machine committed_2 = fresh_sm 1000 []) by (vm_compute; reflexivity).
  rewrite E. split; [split; vm_compute; reflexivity|apply fresh_machine|reflexivity|reflexivity].
Qed.

Lemma apply_logs_refines_witness :
  contents (state_machine (apply_logs committed_2).2) = {["x" := "1"; "y" := "2"]} ∧
  last_applied (apply_logs committed_2).2 = 2.
Proof.
  assert (Hc : total_cost (rm_state rm_new, rm_pending rm_new)
    (slice (last_applied committed_2) (commit_index committed_2) (log committed_2)) = 2)
    by (vm_compute; reflexivity).
  destruct (apply_logs_refines committed_2 rm_new _ _ ltac:(vm_compute; split; congruence)
    ltac:(vm_compute; congruence) ltac:(vm_compute; reflexivity) ltac:(vm_compute; reflexivity)
    ltac:(rewrite Hc; exact committed_2_refines) (surjective_pairing _))
    as (_ & H1 & _ & _ & _ & _ & H2 & _).
  rewrite H1, H2. split; vm_compute; reflexivity.
Defined.

(** The first entry is already in the state machine when the log is replayed. *)
Definition half_applied : RaftNode :=
  with_state_machine (set "x" "1" (fresh_sm 1000 [])).2 leader_2.

Lemma half_applied_refines : refines 2 ({["x" := "1"]}, ∅) (state_machine half_applied).
Proof.
  assert (HR : refines 3 (∅, ∅) (fresh_sm 1000 []))
    by (split; [split; vm_compute; reflexivity|apply fresh_machine|reflexivity|reflexivity]).
  exact (proj1 (sm_apply_refines (CSet "x" "1") 2 (∅, ∅) (fresh_sm 1000 []) ltac:(lia) HR)).
Qed.

Lemma replay_is_idempotent_witness :
  contents (state_machine (replay_logs half_applied).2) = {["x" := "1"; "y" := "2"]}.
Proof.
  destruct (replay_is_idempotent half_applied [CSet "x" "1"] [CSet "y" "2"] _ _
    ltac:(vm_compute; reflexivity) half_applied_refines (surjective_pairing _)) as (_ & _ & _ & H & _).
  rewrite H. vm_compute. reflexivity.
Defined.

Lemma propose_batch_appends_witness :
  ∃ ok, (propose_batch [CSet "x" "1"; CSet "y" "2"] leader_a).1 = Ok ok ∧ ok = true.
Proof.
  destruct (propose_batch_appends [CSet "x" "1"; CSet "y" "2"] leader_a _ _
    ltac:(apply indexed_nil) (surjective_pairing _)) as [_ H].
  destruct (H ltac:(vm_compute; reflexivity)) as (k & ok & E & _ & _ & _ & _ & Hw).
  exists ok. split; [exact E|]. apply Hw. exact leader_a_synced.
Defined.

Lemma add_node_takes_two_phases_witness :
  (propose_add_node (server_of "d") leader_a).1 = Ok (inl 1) ∧
  log_len (install_configuration (Joint (server_of <$> ["a"; "b"; "c"]) (server_of <$> ["a"; "b"; "c"; "d"]))
    (propose_add_node (server_of "d") leader_a).2).2 = 2.
Proof.
  destruct (add_node_takes_two_phases (server_of "d") leader_a _ _ ltac:(vm_compute; reflexivity)
    ltac:(vm_compute; reflexivity) leader_a_synced (surjective_pairing _))
    as (H1 & H2 & _ & n2 & H3 & _ & _ & H4 & _).
  split; [rewrite H1; vm_compute; reflexivity|].
  change (Joint (server_of <$> ["a"; "b"; "c"]) (server_of <$> ["a"; "b"; "c"; "d"])) with
    (Joint (all_servers (current_config leader_a)) (all_servers (current_config leader_a) ++ [server_of "d"])).
  rewrite H3. unfold log_len. simpl. rewrite H4, H2. vm_compute. reflexivity.
Defined.

Definition some_snapshot : InstallSnapshotArgs :=
  mkInstallSnapshot 1 "a" 5 1 (mkSnapshot 5 1 {["x" := "1"]}).

Lemma install_snapshot_replaces_state_witness :
  contents (state_machine (handle_install_snapshot some_snapshot (new_node "b" ["a"])).2) = {["x" := "1"]} ∧
  commit_index (handle_install_snapshot some_snapshot (new_node "b" ["a"])).2 = 5.
Proof.
  destruct (install_snapshot_replaces_state some_snapshot (new_node "b" ["a"]) _ _ (fresh_machine 1000)
    ltac:(reflexivity) ltac:(reflexivity) ltac:(vm_compute; reflexivity)
    ltac:(left; vm_compute; reflexivity) (surjective_pairing _)) as (_ & H1 & _ & _ & _ & _ & H2 & _).
  rewrite H1, H2. split; vm_compute; reflexivity.
Defined.

(** A follower of term 1 with a staged transaction. *)
Definition staged_b : RaftNode :=
  with_current_term 1 (with_state_machine (begin_tx "tx" [TxPut "x" "1"] (fresh_sm 1000 [])).2
    (new_node "b" ["a"])).

Lemma tx_vote_is_guarded_witness :
  ∃ reply, (handle_tx_vote_request (mkTxVoteRequest 1 "tx" 0 0) staged_b).1 = Ok reply ∧
    tr_term reply = 1.
Proof.
  destruct (tx_vote_is_guarded (mkTxVoteRequest 1 "tx" 0 0) staged_b _ _ ltac:(split; simpl; lia)
    (surjective_pairing _)) as (reply & H1 & H2 & _).
  exists reply. split; [exact H1|]. rewrite H2. vm_compute. reflexivity.
Defined.

Lemma restart_recovers_meta_and_log_witness :
  log (raft_node_new "a" [] (fresh_sm 1000 []) (storage (new_node "a" [])) 7) = [] ∧
  current_term (raft_node_new "a" [] (fresh_sm 1000 []) (storage (new_node "a" [])) 7) = 0.
Proof.
  destruct (restart_recovers_meta_and_log (new_node "a" []) (fresh_sm 1000 []) [] 7
    (new_node_synced _ _) ltac:(apply wal_synced_empty; vm_compute; reflexivity)) as (H1 & _ & H2 & _).
  split; [exact H2|exact H1].
Defined.
