(* ===== verification/NodeFindings.v ===== *)
(** * Where the node falls short

    Executions of the model, and two general facts, that show the node doing something
    its comments or the protocol rule out. *)

From stdpp Require Import prelude gmap strings sorting countable list.
From S2P Require Import Prelude Serde Protocol StateMachine StateMachineProps Storage StorageProps.
From S2P Require Import Instances Rpc Node NodeVotes NodeEvents NodeLog NodeLeader Samples.
#[local] Open Scope Z_scope.

Import Codec.

(** ** Elections *)

(** A late refusal takes a node back to an older term and clears its vote: the
    task of [request_votes] compares the reply's term with its own round's and not
    with the node's. The node then votes twice in one term. *)
Definition voted_5 : RaftNode := (handle_request_vote (mkRequestVote 5 "b" 0 0) cand_a).2.

Lemma late_refusal_allows_second_vote :
  current_term voted_5 = 5 ∧ vote_for voted_5 = Some "b" ∧
  let n := (on_vote_reply 3 1 1 (no 3) voted_5).2 in
  current_term n = 3 ∧ vote_for n = None ∧
  (handle_request_vote (mkRequestVote 5 "c" 0 0) n).1 = Ok (mkVoteResponse 5 true).
Proof. cbv zeta. split_and!; vm_compute; reflexivity. Qed.

(** In a cluster of two the only peer's yes is not a quorum of probes: no reply
    ever makes the node a candidate. *)
Lemma two_nodes_never_campaign probed reply n :
  ∃ k, (process_pre_vote_reply 2 probed 0 reply n).1 = Ok (k, []) ∧
    current_term (process_pre_vote_reply 2 probed 0 reply n).2 = current_term n ∧
    (state n = PreCandidate → state (process_pre_vote_reply 2 probed 0 reply n).2 ≠ Candidate).
Proof.
  unfold process_pre_vote_reply. case_match; [|case_match]; simpl.
  - eexists. split; [done|]. case_bool_decide; simpl; split; congruence.
  - eexists. split; [done|]. split; [done|]. congruence.
  - eexists. split; [done|]. split; [done|]. congruence.
Qed.

(** A node whose probes were refused or lost stays a pre-candidate: the election
    timer fires again, and does nothing. *)
Lemma pre_candidate_is_stuck v n :
  state n = PreCandidate → enter_pre_candidate v n = (Ok [], n).
Proof.
  intros Hs. unfold enter_pre_candidate, gets, mbind, M_bind. simpl. by rewrite Hs.
Qed.

(** [become_leader] starts from the [match_index] of an earlier term: of five
    nodes, [a] leads term 1 and [b] acknowledges two entries; [c] leads term 2 and
    replaces [a]'s log; [a] leads term 3. One acknowledgement, from [d],
    then commits an entry that only [a] and [d] have. *)
Definition five_1 : RaftNode :=
  (propose_batch [CSet "x" "1"; CSet "y" "2"]
    (collect_votes 5 1 1 [yes 1; yes 1] (become_candidate (new_node "a" ["b"; "c"; "d"; "e"])).2).2).2.
Definition five_1_acked : RaftNode :=
  (on_append_reply "b" (mkAppendEntries 1 "a" 0 0 (log five_1) 0) (mkAppendReply 1 true) five_1).2.
Definition five_2 : RaftNode :=
  (handle_append_entries (mkAppendEntries 2 "c" 0 0 [mkLogEntry 2 1 (CSet "z" "3")] 0) five_1_acked).2.
Definition five_3 : RaftNode :=
  (propose_batch [CSet "w" "4"] (collect_votes 5 3 1 [yes 3; yes 3] (become_candidate five_2).2).2).2.

Lemma stale_match_index_commits :
  commit_index five_1_acked = 0 ∧ log five_2 = [mkLogEntry 2 1 (CSet "z" "3")] ∧
  state five_3 = Leader ∧ current_term five_3 = 3 ∧ match_index five_3 !! "b" = Some 2 ∧
  commit_index (on_append_reply "d" (mkAppendEntries 3 "a" 0 0 (log five_3) 0)
    (mkAppendReply 3 true) five_3).2 = 2.
Proof. cbv zeta. split_and!; vm_compute; reflexivity. Qed.

(** ** Log and files *)

(** A conflicting entry is cut from the log but not from the WAL: after a restart
    the node has both entries, at indices that no longer fit. *)
Definition follower_1 : RaftNode :=
  (handle_append_entries (mkAppendEntries 1 "a" 0 0 [mkLogEntry 1 1 (CSet "x" "1")] 0)
    (new_node "b" ["a"; "c"])).2.
Definition follower_2 : RaftNode :=
  (handle_append_entries (mkAppendEntries 2 "c" 0 0 [mkLogEntry 2 1 (CSet "y" "2")] 0) follower_1).2.

Lemma conflict_stays_in_wal :
  log follower_2 = [mkLogEntry 2 1 (CSet "y" "2")] ∧
  log (raft_node_new "b" ["a"; "c"] (fresh_sm 1000 []) (storage follower_2) 0) =
    [mkLogEntry 1 1 (CSet "x" "1"); mkLogEntry 2 1 (CSet "y" "2")].
Proof. cbv zeta. split; vm_compute; reflexivity. Qed.

(** After InstallSnapshot the log is empty and positions no longer stand for
    indices: the next AppendEntries, right after the snapshot's last
    entry, is refused, and a heartbeat moves the commit index back. *)
Definition snapshot_b : RaftNode :=
  (handle_install_snapshot (mkInstallSnapshot 1 "a" 5 1 (mkSnapshot 5 1 {["x" := "1"]})) (new_node "b" ["a"; "c"])).2.

Lemma snapshot_breaks_replication :
  commit_index snapshot_b = 5 ∧
  (handle_append_entries (mkAppendEntries 1 "a" 5 1 [mkLogEntry 1 6 (CSet "y" "2")] 6) snapshot_b).1
    = Ok (mkAppendReply 1 false) ∧
  commit_index (handle_append_entries (mkAppendEntries 1 "a" 0 0 [] 6) snapshot_b).2 = 0.
Proof. cbv zeta. split_and!; vm_compute; reflexivity. Qed.

(** A restart applies entries that were never committed. *)
Lemma restart_applies_uncommitted :
  commit_index follower_1 = 0 ∧ contents (state_machine follower_1) = ∅ ∧
  let n := (boot default_config "b" ["a"; "c"] (host (state_machine follower_1)) (storage follower_1) 0).2 in
  commit_index n = 0 ∧ last_applied n = 1 ∧ contents (state_machine n) = {["x" := "1"]}.
Proof. cbv zeta. split_and!; vm_compute; reflexivity. Qed.

(** A transaction vote commits what the leader has not: the handler moves its
    commit index to the coordinator's last index. *)
Lemma tx_vote_commits_early :
  commit_index follower_1 = 0 ∧
  let n := (handle_tx_vote_request (mkTxVoteRequest 1 "tx" 1 1) follower_1).2 in
  commit_index n = 1 ∧ contents (state_machine n) = {["x" := "1"]}.
Proof. cbv zeta. split_and!; vm_compute; reflexivity. Qed.

(** ** Reads *)

(** The read lease needs one acknowledgement, whatever the size of the
    cluster: of five nodes, the answer of [b] alone confirms a read. *)
Lemma one_ack_confirms_read :
  let n := (on_append_reply "b" (mkAppendEntries 1 "a" 0 0 [] 0) (mkAppendReply 1 true) five_1).2 in
  length (all_servers (current_config n)) = 5%nat ∧
  confirm_read 10000 0 (mkReadIndex 0 0) n = true.
Proof. cbv zeta. split; vm_compute; reflexivity. Qed.
