(* ===== verification/Duplicates.v ===== *)
(** * Duplicate delivery

    The fault scheduler may deliver a message twice ([ScheduleOutcome::Duplicate]). The vote
    and replication handlers absorb the second copy. *)

From stdpp Require Import prelude gmap strings sorting countable list.
From S2P Require Import Prelude Serde Protocol StateMachine StateMachineProps Storage StorageProps Instances Rpc Node.
From S2P Require Import NodeVotes NodeEvents ReferenceModel Refinement NodeLog Samples.
#[local] Open Scope Z_scope.

(** The merged log has, at every position of the message, an entry of the message's term. *)
Lemma merge_log_has l p es i e : (p <= length l)%nat → es !! i = Some e →
  ∃ x, merge_log l p es !! (p + i)%nat = Some x ∧ le_term x = le_term e.
Proof.
  revert p i. induction es as [|y es IH]; intros p i Hp Hi; [done|]. simpl.
  assert (Happ : ∀ k, length k = p → ∃ x, (k ++ y :: es) !! (p + i)%nat = Some x ∧ le_term x = le_term e).
  { intros k Hk. exists e. split; [|done]. rewrite lookup_app_r by lia. by replace (p + i - length k)%nat with i by lia. }
  destruct (l !! p) as [x|] eqn:Ex.
  - pose proof (lookup_lt_Some _ _ _ Ex). destruct (Z.eqb_spec (le_term x) (le_term y)) as [E|E].
    + destruct i as [|i].
      * simpl in Hi. simplify_eq. exists x. split; [|done]. rewrite Nat.add_0_r.
        assert (Ht : take (S p) (merge_log l (S p) es) = take (S p) l) by (apply merge_log_take; lia).
        rewrite <- (lookup_take_lt _ (S p)) by lia. rewrite Ht, lookup_take_lt by lia. done.
      * rewrite Nat.add_succ_r, <- Nat.add_succ_l. apply IH; [lia|done].
    + apply Happ. rewrite length_take. lia.
  - apply lookup_ge_None in Ex. apply Happ. lia.
Qed.

Lemma merge_log_idemp l p es : (p <= length l)%nat → merge_log (merge_log l p es) p es = merge_log l p es.
Proof. intros Hp. apply merge_log_present. intros i e. by apply merge_log_has. Qed.

Lemma prev_matches_take args l l' : 0 <= ae_prev_log_index args →
  take (Z.to_nat (ae_prev_log_index args)) l' = take (Z.to_nat (ae_prev_log_index args)) l →
  prev_matches args l' = prev_matches args l.
Proof.
  intros Hp Ht. unfold prev_matches. destruct (Z.leb_spec (ae_prev_log_index args) 0); [done|]. simpl.
  set (p := Z.to_nat (ae_prev_log_index args)) in *.
  rewrite <- (lookup_take_lt l' p), <- (lookup_take_lt l p) by lia. by rewrite Ht.
Qed.

Section duplicates.
Context {JW : Json WalOp} {JE : Json (list SSTEntry)} {JM : Json SSTableMeta}.
Context {BL : Bincode LogEntry} {LB : BincodeLaws LogEntry}.
Context {JV : Json Value} {LV : JsonLaws Value}.
Context {JS : Json Snapshot} {LS : JsonLaws Snapshot}.

(** After a message was handled, it is accepted again exactly when it was accepted. *)
Lemma ae_accepts_again args n n1 : ae_wf args n → log n1 = ae_log args n →
  current_term n1 = current_term n `max` ae_term args → (ae_accepts args n = true → state n1 = Follower) →
  (ae_accepts args n = false → current_term n <= ae_term args → state n = Leader → ae_term args = current_term n →
     state n1 = Leader) →
  ae_accepts args n1 = ae_accepts args n.
Proof.
  intros Hw Hl Ht Hf Hlead. unfold ae_log in Hl. destruct (ae_accepts args n) eqn:Ea.
  - unfold ae_accepts in *. apply andb_true_iff in Ea as [Ea Em]. apply andb_true_iff in Ea as [Ec _].
    rewrite Hf by done. rewrite bool_decide_false by done. rewrite andb_false_r. rewrite Hl.
    rewrite (prev_matches_take args (log n)); [|apply Hw|apply merge_log_take, prev_matches_length; [apply Hw|done]].
    rewrite Em. simpl. rewrite !andb_true_r. apply Z.leb_le. lia.
  - unfold ae_accepts in *. rewrite Hl. destruct (Z.leb_spec (current_term n) (ae_term args)) as [Hle|Hgt].
    + destruct (prev_matches args (log n)); [|by rewrite andb_false_r]. rewrite andb_true_r in *. simpl in Ea.
      apply negb_false_iff, andb_true_iff in Ea as [E1%Z.eqb_eq E2%bool_decide_eq_true].
      rewrite (Hlead eq_refl Hle E2 E1), bool_decide_true by done. rewrite Ht, E1, Z.max_id, Z.eqb_refl.
      by rewrite andb_false_r.
    + by replace (current_term n1 <=? ae_term args) with false by lia.
Qed.

(** A leader that refuses a message of its own term is left as it was. *)
Lemma leader_refuses args n : state n = Leader → ae_term args = current_term n →
  (handle_append_entries args n).2 = n.
Proof.
  intros Hs Ht. unfold handle_append_entries, gets, mbind, M_bind. simpl.
  rewrite Ht, Z.ltb_irrefl, Z.eqb_refl, bool_decide_true by done. done.
Qed.

Lemma append_twice args n : ae_wf args n →
  let n1 := (handle_append_entries args n).2 in ae_wf args n1 →
  (handle_append_entries args n1).1 = (handle_append_entries args n).1 ∧
  log (handle_append_entries args n1).2 = log n1 ∧
  commit_index (handle_append_entries args n1).2 = commit_index n1 ∧
  current_term (handle_append_entries args n1).2 = current_term n1.
Proof.
  intros Hw n1 Hw1.
  destruct (handle_append_entries_wp args n Hw) as (R1 & L1 & C1 & (T1 & S1) & _).
  destruct (handle_append_entries_wp args n1 Hw1) as (R2 & L2 & C2 & (T2 & _) & _).
  fold n1 in L1, C1, T1, S1.
  assert (Ha : ae_accepts args n1 = ae_accepts args n).
  { apply ae_accepts_again; try done. intros _ _ Hs Ht. unfold n1. by rewrite leader_refuses. }
  assert (Hlog : ae_log args n1 = log n1).
  { unfold ae_log in *. rewrite Ha. destruct (ae_accepts args n) eqn:Ea; [|done]. rewrite L1.
    apply merge_log_idemp. apply andb_true_iff in Ea as [_ Em]. apply prev_matches_length; [apply Hw|done]. }
  rewrite R1, R2, L2, C2, T2, Ha, Hlog, T1. split_and!; [do 2 f_equal; lia|done| |lia].
  unfold ae_commit in *. rewrite Ha, Hlog, C1. rewrite L1.
  destruct (ae_accepts args n); simpl; [|done].
  destruct (Z.ltb_spec (commit_index n) (ae_leader_commit args)); [|by replace (_ <? _) with false by lia].
  destruct (_ `min` _ <? _); reflexivity.
Qed.

Lemma vote_twice args n : u64 (rv_term args) →
  let n1 := (handle_request_vote args n).2 in
  (handle_request_vote args n1).1 = (handle_request_vote args n).1 ∧
  current_term (handle_request_vote args n1).2 = current_term n1 ∧
  vote_for (handle_request_vote args n1).2 = vote_for n1 ∧
  log (handle_request_vote args n1).2 = log n1.
Proof.
  intros Hu n1.
  destruct (handle_request_vote_wp args n Hu) as (_ & R1 & st & hb & d & E1). fold n1 in E1.
  destruct (handle_request_vote_wp args n1 Hu) as (_ & R2 & st2 & hb2 & d2 & E2).
  assert (Ht : current_term n1 = current_term n `max` rv_term args) by (by rewrite E1).
  assert (Hv : vote_for n1 = if vote_decision args n then Some (rv_candidate_id args)
    else if current_term n <? rv_term args then None else vote_for n) by (by rewrite E1).
  assert (Hl : log n1 = log n) by (by rewrite E1).
  assert (Hd : vote_decision args n1 = vote_decision args n).
  { unfold vote_decision in *. rewrite (log_up_to_date_ext _ _ n n1 Hl).
    destruct (log_up_to_date _ _ n); [|by rewrite !andb_false_r]. rewrite !andb_true_r in *.
    unfold may_vote in *. rewrite Ht, Hv. destruct (Z.ltb_spec (current_term n) (rv_term args)); simpl.
    - replace (_ <? rv_term args) with false by lia. rewrite Z.max_r, Z.eqb_refl by lia. simpl.
      by apply bool_decide_true.
    - rewrite Z.max_l by lia. replace (_ <? rv_term args) with false by lia. simpl.
      destruct (rv_term args =? current_term n); [|done]. simpl.
      destruct (bool_decide (vote_for n = None) || _) eqn:Eb; [|done].
      by apply bool_decide_true. }
  rewrite R1, R2, E2, Hd. simpl. rewrite Ht, Hv. replace (_ <? rv_term args) with false by lia.
  split_and!; [do 2 f_equal; lia|lia| |done]. by destruct (vote_decision args n).
Qed.

(** Duplicates are absorbed. Delivering the same vote request, or the same AppendEntries, a second
    time gives the same reply and leaves term, vote, log and commit index as the first delivery left
    them, whether the message is accepted or refused. *)
Theorem duplicates_are_absorbed n :
  (∀ args, u64 (rv_term args) →
     let n1 := (handle_request_vote args n).2 in
     let '(r2, n2) := handle_request_vote args n1 in
     r2 = (handle_request_vote args n).1 ∧ current_term n2 = current_term n1 ∧ vote_for n2 = vote_for n1 ∧
     log n2 = log n1) ∧
  (∀ args, ae_wf args n →
     let n1 := (handle_append_entries args n).2 in
     ae_wf args n1 →
     let '(r2, n2) := handle_append_entries args n1 in
     r2 = (handle_append_entries args n).1 ∧ log n2 = log n1 ∧ commit_index n2 = commit_index n1 ∧
     current_term n2 = current_term n1).
Proof.
  split.
  - intros args Hu n1. pose proof (vote_twice args n Hu) as H. cbv zeta in H. fold n1 in H.
    by destruct (handle_request_vote args n1).
  - intros args Hw n1 Hw1. pose proof (append_twice args n Hw Hw1) as H. cbv zeta in H. fold n1 in H.
    by destruct (handle_append_entries args n1).
Qed.
End duplicates.

(** ** Witness *)

Import Codec.

Definition two_entries : AppendEntriesArgs :=
  mkAppendEntries 1 "a" 0 0 [mkLogEntry 1 1 (CSet "x" "1"); mkLogEntry 1 2 (CSet "y" "2")] 1.

Lemma duplicates_are_absorbed_witness :
  let n1 := (handle_append_entries two_entries (new_node "b" ["a"; "c"])).2 in
  log n1 = ae_entries two_entries ∧ log (handle_append_entries two_entries n1).2 = log n1.
Proof.
  assert (Hi : indexed_from 0 (ae_entries two_entries)).
  { repeat apply indexed_cons_2; try reflexivity. apply indexed_nil. }
  destruct (duplicates_are_absorbed (new_node "b" ["a"; "c"])) as [_ H].
  specialize (H two_entries ltac:(split; [simpl; lia|exact Hi|vm_compute; reflexivity])
    ltac:(split; [simpl; lia|exact Hi|vm_compute; reflexivity])).
  split; [vm_compute; reflexivity|].
  destruct (handle_append_entries two_entries (handle_append_entries two_entries (new_node "b" ["a"; "c"])).2).
  apply H.
Defined.
