(* ===== verification/RaftSpec.v ===== *)
(** * Raft as a specification

    The protocol the nodes run, without disks, clocks, state machines or a network:
    each server has a term, a vote, a role, a log and a commit index, and the
    history is kept beside them: who was elected with which log, how the
    leaders' logs grew, which votes were asked for and given, which prefixes were sent and
    acknowledged. [astep] says what may happen, [estep] what may happen when servers also restart;
    [ClusterSteps] and [ClusterRestart] show that the code does nothing else.

    [safe] is the invariant, and [agreement] its consequence: what two servers
    have committed is the same. *)

From stdpp Require Import prelude gmap strings list.
From S2P Require Import Prelude Protocol NodeLog.
#[local] Open Scope Z_scope.

Inductive role := RFollower | RCandidate | RLeader.

Record anode := mkANode {
  a_term : Z;
  a_vote : option string;
  a_role : role;
  a_log : list LogEntry;
  a_commit : nat;
}.

#[export] Instance anode_inhabited : Inhabited anode := populate (mkANode 0 None RFollower [] 0).

(** A vote: by whom, in which term, for whom; the log of the voter and the log the candidate
    presented; and whether nobody had been elected in that term yet. *)
Record vote := mkVote {
  v_by : string;
  v_term : Z;
  v_for : string;
  v_log : list LogEntry;
  v_clog : list LogEntry;
  v_early : bool;
}.

Record astate := mkAState {
  a_nodes : gmap string anode;
  a_elected : gmap Z (string * list LogEntry);   (** per term: the leader, and its log when it was elected *)
  a_llog : gmap Z (list LogEntry);                (** per term: the leader's log as it grew *)
  a_reqs : list (Z * string * list LogEntry);        (** votes asked for: term, candidate, its log *)
  a_votes : list vote;
  a_apps : list (Z * nat * nat * nat);               (** sent: term, position, number of entries, commit index *)
  a_acks : list (string * Z * nat);                  (** server, term: its log agreed with the leader's up to here *)
}.

(** ** Helpers *)

Definition last_term (l : list LogEntry) : Z := default 0 (le_term <$> last l).

(** [l] is at least as up to date as [l']. *)
Definition up_to_date (l l' : list LogEntry) : Prop :=
  last_term l' < last_term l ∨ last_term l = last_term l' ∧ (length l' <= length l)%nat.

Definition set_node (s : string) (x : anode) (a : astate) : astate :=
  mkAState (<[s := x]> (a_nodes a)) (a_elected a) (a_llog a) (a_reqs a) (a_votes a) (a_apps a) (a_acks a).

Section spec.
Context (servers : list string).

Definition majority (P : string → Prop) : Prop :=
  ∃ Q, NoDup Q ∧ Q ⊆ servers ∧ (length servers < 2 * length Q)%nat ∧ ∀ s, s ∈ Q → P s.

Definition voted_for (a : astate) (t : Z) (c s : string) : Prop :=
  ∃ v, v ∈ a_votes a ∧ v_by v = s ∧ v_term v = t ∧ v_for v = c.

Definition acked (a : astate) (t : Z) (k : nat) (s : string) : Prop :=
  ∃ k', (s, t, k') ∈ a_acks a ∧ (k <= k')%nat.

Definition commit_to (m : nat) (l : list LogEntry) (commit : nat) : nat :=
  if (commit <? m)%nat then (m `min` length l)%nat else commit.

(** A position a leader may count as committed. *)
Definition chosen (a : astate) (t : Z) (k : nat) : Prop :=
  is_Some (a_elected a !! t) ∧ (0 < k)%nat ∧ (∃ e, a_llog a !!! t !! (k - 1)%nat = Some e ∧ le_term e = t) ∧
  majority (acked a t k).

(** The first [m] entries of [l], a log seen in term [t], are committed. *)
Definition decided (a : astate) (t : Z) (l : list LogEntry) (m : nat) : Prop :=
  m = 0%nat ∨ ∃ t1 k1, chosen a t1 k1 ∧ (m <= k1)%nat ∧ t1 <= t ∧ take m l = take m (a_llog a !!! t1).

(** ** Steps *)

Inductive astep (a : astate) : astate → Prop :=
  | step_adopt s t : let n := a_nodes a !!! s in
      a_term n < t →
      astep a (set_node s (mkANode t None RFollower (a_log n) (a_commit n)) a)
  | step_rest s : let n := a_nodes a !!! s in
      a_role n ≠ RLeader →
      astep a (set_node s (mkANode (a_term n) (a_vote n) RFollower (a_log n) (a_commit n)) a)
  | step_promote s : let n := a_nodes a !!! s in let t := a_term n + 1 in
      astep a (mkAState (<[s := mkANode t (Some s) RCandidate (a_log n) (a_commit n)]> (a_nodes a))
        (a_elected a) (a_llog a) ((t, s, a_log n) :: a_reqs a)
        (mkVote s t s (a_log n) (a_log n) (bool_decide (a_elected a !! t = None)) :: a_votes a) (a_apps a) (a_acks a))
  | step_ask s : let n := a_nodes a !!! s in
      astep a (mkAState (a_nodes a) (a_elected a) (a_llog a) ((a_term n, s, a_log n) :: a_reqs a)
        (a_votes a) (a_apps a) (a_acks a))
  | step_grant s c l : let n := a_nodes a !!! s in let t := a_term n in
      (t, c, l) ∈ a_reqs a → a_vote n = None ∨ a_vote n = Some c → up_to_date l (a_log n) →
      astep a (mkAState (<[s := mkANode t (Some c) (a_role n) (a_log n) (a_commit n)]> (a_nodes a))
        (a_elected a) (a_llog a) (a_reqs a)
        (mkVote s t c (a_log n) l (bool_decide (a_elected a !! t = None)) :: a_votes a) (a_apps a) (a_acks a))
  | step_elect s : let n := a_nodes a !!! s in let t := a_term n in
      a_role n = RCandidate → majority (voted_for a t s) →
      astep a (mkAState (<[s := mkANode t (a_vote n) RLeader (a_log n) (a_commit n)]> (a_nodes a))
        (<[t := (s, a_log n)]> (a_elected a)) (<[t := a_log n]> (a_llog a)) (a_reqs a)
        (a_votes a) (a_apps a) ((s, t, length (a_log n)) :: a_acks a))
  | step_propose s e : let n := a_nodes a !!! s in let t := a_term n in
      a_role n = RLeader → le_term e = t →
      astep a (mkAState (<[s := mkANode t (a_vote n) RLeader (a_log n ++ [e]) (a_commit n)]> (a_nodes a))
        (a_elected a) (<[t := a_log n ++ [e]]> (a_llog a)) (a_reqs a)
        (a_votes a) (a_apps a) ((s, t, S (length (a_log n))) :: a_acks a))
  | step_send s p k m : let n := a_nodes a !!! s in
      a_role n = RLeader → (p + k <= length (a_log n))%nat → (m <= a_commit n)%nat → (m <= p + k)%nat →
      astep a (mkAState (a_nodes a) (a_elected a) (a_llog a) (a_reqs a) (a_votes a)
        ((a_term n, p, k, m) :: a_apps a) (a_acks a))
  | step_accept s p k m : let n := a_nodes a !!! s in let t := a_term n in let L := a_llog a !!! t in
      (t, p, k, m) ∈ a_apps a → a_role n ≠ RLeader →
      p = 0%nat ∨ (∃ x y, a_log n !! (p - 1)%nat = Some x ∧ L !! (p - 1)%nat = Some y ∧ le_term x = le_term y) →
      let l' := merge_log (a_log n) p (take k (drop p L)) in
      astep a (mkAState (<[s := mkANode t (a_vote n) RFollower l' (commit_to m l' (a_commit n))]> (a_nodes a))
        (a_elected a) (a_llog a) (a_reqs a) (a_votes a) (a_apps a) ((s, t, (p + k)%nat) :: a_acks a))
  | step_commit s k : let n := a_nodes a !!! s in
      a_role n = RLeader → chosen a (a_term n) k → (a_commit n <= k)%nat →
      astep a (set_node s (mkANode (a_term n) (a_vote n) RLeader (a_log n) k) a)
  | step_learn s t k : let n := a_nodes a !!! s in
      acked a t k s → decided a t (a_llog a !!! t) k → (a_commit n <= k)%nat →
      astep a (set_node s (mkANode (a_term n) (a_vote n) (a_role n) (a_log n) k) a).


(** A server that restarts from its files has its term, vote and log; its role and some of what it
    knew to be committed are lost. *)
Inductive arestart (a : astate) : astate → Prop :=
  | restart_server s k : let n := a_nodes a !!! s in
      (k <= a_commit n)%nat →
      arestart a (set_node s (mkANode (a_term n) (a_vote n) RFollower (a_log n) k) a).

Definition estep (a a' : astate) : Prop := astep a a' ∨ arestart a a'.
End spec.
