(* ===== verification/RaftSafety.v ===== *)
(** * Safety of the specification

    [safe] collects what holds in every reachable state of [RaftSpec]. From it:
    logs match, later leaders have what earlier ones could commit, and
    committed prefixes agree. *)

From stdpp Require Import prelude gmap strings list.
From S2P Require Import Prelude Protocol NodeLog RaftSpec.
#[local] Open Scope Z_scope.

(** ** Lists *)

Lemma take_eq_le {A} (i j : nat) (l l' : list A) : (i <= j)%nat → take j l = take j l' → take i l = take i l'.
Proof.
  intros Hi H. assert (E : ∀ x : list A, take i x = take i (take j x)).
  { intros x. rewrite take_take. f_equal. lia. }
  by rewrite E, (E l'), H.
Qed.

Lemma take_eq_length {A} (i : nat) (l l' : list A) : take i l = take i l' → (i <= length l)%nat → (i <= length l')%nat.
Proof. intros H Hl. apply (f_equal length) in H. rewrite !length_take in H. lia. Qed.

Lemma take_eq_lookup {A} (i k : nat) (l l' : list A) : take k l = take k l' → (i < k)%nat → l !! i = l' !! i.
Proof. intros H Hi. rewrite <- (lookup_take_lt l k i), <- (lookup_take_lt l' k i) by done. by rewrite H. Qed.

Lemma take_prefix {A} (i : nat) (l l' : list A) : l `prefix_of` l' → (i <= length l)%nat → take i l' = take i l.
Proof. intros [k ->] Hi. by rewrite take_app_le. Qed.

(** What merging a segment of [L] does to a log that matches it. *)
Section merge.
Context (L l : list LogEntry) (p k : nat).
Context (HM : log_matching L l) (Hpk : (p + k <= length L)%nat).

Let L' := take (p + k) L.

Lemma segment_eq : take k (drop p L) = drop p L'.
Proof. subst L'. by rewrite take_drop_commute. Qed.

Lemma merge_cases : (p <= length l)%nat → take p l = take p L →
  let l' := merge_log l p (take k (drop p L)) in
  l' = l ∧ L' `prefix_of` l ∨ l' = L'.
Proof.
  intros Hp Ht. cbv zeta. rewrite segment_eq. apply merge_log_matching; [done| |].
  - subst L'. rewrite take_take. replace (p `min` (p + k))%nat with p by lia. done.
  - eapply log_matching_prefix; [|exact HM]. exists (drop (p + k) L). subst L'. by rewrite take_drop.
Qed.

Lemma merge_agrees : (p <= length l)%nat → take p l = take p L →
  take (p + k) (merge_log l p (take k (drop p L))) = take (p + k) L.
Proof.
  intros Hp Ht. destruct (merge_cases Hp Ht) as [[-> [r ->]]| ->]; subst L'.
  - rewrite take_app_le by (rewrite length_take; lia). rewrite take_take. f_equal. lia.
  - rewrite take_take. f_equal. lia.
Qed.

(** A prefix shared with [L] survives. *)
Lemma merge_keeps K : (p <= length l)%nat → take p l = take p L → take K l = take K L → (K <= length L)%nat →
  take K (merge_log l p (take k (drop p L))) = take K L.
Proof.
  intros Hp Ht HK HL. destruct (decide (K <= p + k)%nat) as [Hle|Hgt].
  - eapply take_eq_le; [exact Hle|]. by apply merge_agrees.
  - rewrite merge_log_present; [done|]. intros i e He.
    apply lookup_take_Some in He as [He Hi]. rewrite lookup_drop in He. exists e. split; [|done].
    rewrite <- He. apply (take_eq_lookup _ K); [done|lia].
Qed.
End merge.

Lemma lookup_app_elem {A} (l1 l2 : list A) i x : (l1 ++ l2) !! i = Some x → (length l1 <= i)%nat → x ∈ l2.
Proof. intros H Hi. rewrite lookup_app_r in H by done. by eapply list_elem_of_lookup_2. Qed.

Section safety.
Context (servers : list string).

Lemma majority_mono (P Q : string → Prop) : (∀ s, P s → Q s) → majority servers P → majority servers Q.
Proof. intros H (X & ? & ? & ? & ?). exists X. naive_solver. Qed.

Lemma majorities_overlap P Q : majority servers P → majority servers Q → ∃ s, P s ∧ Q s.
Proof.
  intros (X & NX & SX & LX & HX) (Y & NY & SY & LY & HY).
  destruct (decide (Exists (λ s, s ∈ Y) X)) as [(s & ? & ?)%Exists_exists|HN]; [eauto|].
  exfalso. assert (NoDup (X ++ Y)) as ND.
  { apply NoDup_app. split_and!; [done| |done]. intros s H1 H2. apply HN, Exists_exists. eauto. }
  assert (length (X ++ Y) <= length servers)%nat.
  { apply submseteq_length, NoDup_submseteq; [done|]. intros s [?|?]%elem_of_app; auto. }
  rewrite length_app in *. lia.
Qed.

(** ** The invariant *)

(** Every entry of [l] is where the leader of its term put it, after the same entries. *)
Definition explained (a : astate) (l : list LogEntry) : Prop :=
  ∀ i e, l !! i = Some e →
    is_Some (a_elected a !! le_term e) ∧ take (S i) l = take (S i) (a_llog a !!! le_term e).

(** [l], held by [s] before term [b], has what [s] acknowledged, as long as the
    leaders it followed afterwards had it. *)
Definition retains (a : astate) (l : list LogEntry) (s : string) (b : Z) : Prop :=
  ∀ t k K, (s, t, k) ∈ a_acks a → t < b → (K <= k)%nat →
    (∀ t' c E, t < t' < b → acked a t' 0 s → a_elected a !! t' = Some (c, E) → take K E = take K (a_llog a !!! t)) →
    take K l = take K (a_llog a !!! t).

Definition early_voter (a : astate) (t : Z) (c : string) (E : list LogEntry) (s : string) : Prop :=
  ∃ v, v ∈ a_votes a ∧ v_by v = s ∧ v_term v = t ∧ v_for v = c ∧ v_early v = true ∧ v_clog v = E.

Record election_ok (a : astate) (t : Z) (c : string) (E : list LogEntry) : Prop := {
  el_term : 1 <= t <= a_term (a_nodes a !!! c);
  el_role : a_term (a_nodes a !!! c) = t → a_role (a_nodes a !!! c) ≠ RCandidate;
  el_old : ∀ e, e ∈ E → le_term e < t;
  el_new : ∃ new, a_llog a !!! t = E ++ new ∧ ∀ e, e ∈ new → le_term e = t;
  el_quorum : majority servers (early_voter a t c E);
  el_log : explained a (a_llog a !!! t);
}.

Record safe (a : astate) : Prop := {
  sf_pos : ∀ s, 0 <= a_term (a_nodes a !!! s);
  sf_vote : ∀ v, v ∈ a_votes a → let n := a_nodes a !!! v_by v in
    v_term v < a_term n ∨ v_term v = a_term n ∧ a_vote n = Some (v_for v);
  sf_once : ∀ v v', v ∈ a_votes a → v' ∈ a_votes a → v_by v = v_by v' → v_term v = v_term v' → v_for v = v_for v';
  sf_logs : ∀ v, v ∈ a_votes a → up_to_date (v_clog v) (v_log v) ∧ explained a (v_clog v) ∧ explained a (v_log v);
  sf_early : ∀ v, v ∈ a_votes a → a_elected a !! v_term v = None →
    v_early v = true ∧ (v_term v, v_for v, v_clog v) ∈ a_reqs a;
  sf_reqs : ∀ t c l, (t, c, l) ∈ a_reqs a → let n := a_nodes a !!! c in
    explained a l ∧ t <= a_term n ∧ (a_term n = t → a_role n = RCandidate → a_log n = l);
  sf_cand : ∀ s, let n := a_nodes a !!! s in a_role n = RCandidate →
    1 <= a_term n ∧ (∀ e, e ∈ a_log n → le_term e < a_term n) ∧ voted_for a (a_term n) s s;
  sf_elect : ∀ t c E, a_elected a !! t = Some (c, E) → election_ok a t c E;
  sf_lead : ∀ s, let n := a_nodes a !!! s in a_role n = RLeader →
    (∃ E, a_elected a !! a_term n = Some (s, E)) ∧ a_llog a !!! a_term n = a_log n;
  sf_log : ∀ s, let n := a_nodes a !!! s in explained a (a_log n) ∧ ∀ e, e ∈ a_log n → le_term e <= a_term n;
  sf_apps : ∀ t p k m, (t, p, k, m) ∈ a_apps a →
    is_Some (a_elected a !! t) ∧ (p + k <= length (a_llog a !!! t))%nat ∧ (m <= p + k)%nat ∧
    decided servers a t (a_llog a !!! t) m;
  sf_acks : ∀ s t k, (s, t, k) ∈ a_acks a →
    t <= a_term (a_nodes a !!! s) ∧ is_Some (a_elected a !! t) ∧ (k <= length (a_llog a !!! t))%nat;
  sf_node : ∀ s, let n := a_nodes a !!! s in retains a (a_log n) s (a_term n + 1);
  sf_voter : ∀ v, v ∈ a_votes a → v_early v = true → retains a (v_log v) (v_by v) (v_term v);
  sf_commit : ∀ s, let n := a_nodes a !!! s in decided servers a (a_term n) (a_log n) (a_commit n);
}.

(** ** Consequences *)

Lemma explained_matching a l l' : explained a l → explained a l' → log_matching l l'.
Proof.
  intros H H' i e e' He He' Ht. destruct (H i e He) as [_ ->], (H' i e' He') as [_ ->]. by rewrite Ht.
Qed.

Lemma explained_last a l e : explained a l → last l = Some e →
  is_Some (a_elected a !! le_term e) ∧ l = take (length l) (a_llog a !!! le_term e) ∧ last_term l = le_term e.
Proof.
  intros H Hl. rewrite last_lookup in Hl. pose proof (lookup_lt_Some _ _ _ Hl) as Hlt. destruct (H _ _ Hl) as [? E].
  replace (S (pred (length l))) with (length l) in E by lia. rewrite (take_ge l) in E by lia.
  split_and!; [done..|]. unfold last_term. by rewrite last_lookup, Hl.
Qed.

Section state.
Context (a : astate) (H : safe a).

Lemma llog_terms t c E i e : a_elected a !! t = Some (c, E) → a_llog a !!! t !! i = Some e →
  le_term e <= t ∧ (le_term e = t → (length E <= i)%nat).
Proof.
  intros He Hi. destruct (sf_elect a H _ _ _ He) as [_ _ Hold (new & Hn & Hnew) _ _]. rewrite Hn in Hi.
  apply lookup_app_Some in Hi as [Hi|[? Hi]].
  - apply list_elem_of_lookup_2, Hold in Hi. split; [lia|]. intros. lia.
  - apply list_elem_of_lookup_2, Hnew in Hi. split; [lia|done].
Qed.

Lemma llog_prefix t c E : a_elected a !! t = Some (c, E) → E `prefix_of` a_llog a !!! t.
Proof. intros He. destruct (sf_elect a H _ _ _ He) as [_ _ _ (new & -> & _) _ _]. by exists new. Qed.

(** A candidate with a log as up to date as that of a voter that holds [k] chosen
    entries holds them too, if the leaders in between do. *)
Lemma up_to_date_holds t k l l' : chosen servers a t k → explained a l → explained a l' → up_to_date l l' →
  take k l' = take k (a_llog a !!! t) →
  (∀ e, e ∈ l → t < le_term e → ∀ c E, a_elected a !! le_term e = Some (c, E) → take k E = take k (a_llog a !!! t)) →
  take k l = take k (a_llog a !!! t).
Proof.
  intros ([[c0 E0] H0] & Hk & (e0 & He0 & Ht0) & _) Hl Hl' Hup Hv IH.
  assert (Hlen : (k <= length (a_llog a !!! t))%nat) by (apply lookup_lt_Some in He0; lia).
  pose proof (take_eq_length _ _ _ (eq_sym Hv) Hlen) as Hlen'.
  destruct (last l') as [ev|] eqn:Eev; [|apply last_None in Eev; subst; simpl in *; lia].
  destruct (explained_last _ _ _ Hl' Eev) as ([[cv Ev] Hev] & Ev' & Hlt').
  assert (Ht : t <= le_term ev).
  { destruct (llog_terms _ _ _ (k - 1) e0 Hev) as [? _]; [|lia].
    rewrite <- He0, <- (take_eq_lookup _ k _ _ Hv) by lia.
    rewrite Ev'. symmetry. apply lookup_take_lt. lia. }
  assert (1 <= t) by apply (sf_elect a H _ _ _ H0).
  destruct (last l) as [el|] eqn:Eel.
  2:{ unfold up_to_date in Hup. unfold last_term in Hup at 2 3. rewrite Eel in Hup. simpl in Hup. lia. }
  destruct (explained_last _ _ _ Hl Eel) as ([[cl El] Hel] & El' & Hlt). unfold up_to_date in Hup.
  rewrite Hlt, Hlt' in Hup. rewrite <- Hv. destruct Hup as [Hup|[Eq Hle]].
  - assert (Hin : el ∈ l) by (rewrite last_lookup in Eel; by eapply list_elem_of_lookup_2).
    pose proof (IH el Hin ltac:(lia) _ _ Hel) as HE. rewrite Hv, <- HE.
    pose proof (take_eq_length _ _ _ (eq_sym HE) Hlen) as HlE.
    assert (Hpos : (length El <= pred (length l))%nat).
    { eapply llog_terms; [exact Hel| |done]. rewrite last_lookup in Eel. rewrite El' in Eel.
      assert (length l ≠ 0%nat) by (destruct l; simpl in *; [done|lia]).
      rewrite length_take in Eel. pose proof (f_equal length El') as Hln. rewrite length_take in Hln.
      rewrite lookup_take_lt in Eel by lia. by rewrite Hln, <- Eel; f_equal; lia. }
    rewrite <- (take_prefix k _ _ (llog_prefix _ _ _ Hel)) by done.
    rewrite El', take_take. f_equal. lia.
  - rewrite El', Ev', !take_take, Eq. f_equal. lia.
Qed.

(** Leader completeness: what could be committed in a term is in the log of every
    later leader when it is elected. *)
Lemma leader_complete t k t' c E : chosen servers a t k → a_elected a !! t' = Some (c, E) → t < t' →
  take k E = take k (a_llog a !!! t).
Proof.
  intros Hc. revert c E. induction (Z.lt_wf 0 t') as [t' _ IH]. intros c E He Hlt.
  destruct (sf_elect a H _ _ _ He) as [Hpos _ Hold _ Hq _].
  destruct Hc as (Hel & Hk & Hent & Hm).
  destruct (majorities_overlap _ _ Hq Hm) as (s & (v & Hv & <- & <- & <- & Hearly & <-) & k' & Hack & Hk').
  destruct (sf_logs a H v Hv) as (Hup & Hx & Hx').
  assert (Hpos' : 1 <= t). { destruct Hel as [[??] ?]. by eapply sf_elect. }
  eapply up_to_date_holds; [by split|exact Hx|exact Hx'|exact Hup| |].
  - eapply (sf_voter a H v Hv Hearly); [exact Hack|done|done|].
    intros t' c' E' Hr _ He'. eapply (IH t'); [lia|exact He'|lia].
  - intros e Hin Hlt' c' E' He'. apply Hold in Hin. eapply (IH (le_term e)); [lia|exact He'|done].
Qed.

(** A decided prefix is in the log of the leader of every term since. *)
Lemma decided_llog t l m t' c E : decided servers a t l m → a_elected a !! t' = Some (c, E) → t <= t' →
  take m l = take m (a_llog a !!! t') ∧ (m <= length (a_llog a !!! t'))%nat.
Proof.
  intros [->|(t1 & k1 & Hc & Hm & Ht & Hl)] He Hle; [split; [done|lia]|].
  assert (Hlen : (k1 <= length (a_llog a !!! t1))%nat).
  { destruct Hc as (_ & ? & (e & Hx & _) & _). apply lookup_lt_Some in Hx. lia. }
  rewrite Hl. destruct (decide (t1 = t')) as [->|]; [split; [done|lia]|].
  pose proof (leader_complete _ _ _ _ _ Hc He ltac:(lia)) as HE.
  pose proof (take_eq_length _ _ _ (eq_sym HE) Hlen) as HlE.
  pose proof (llog_prefix _ _ _ He) as Hp. split.
  - symmetry. eapply take_eq_le; [exact Hm|]. by rewrite (take_prefix _ _ _ Hp).
  - apply prefix_length in Hp. lia.
Qed.

Lemma chosen_elected t k : chosen servers a t k → ∃ c E, a_elected a !! t = Some (c, E).
Proof. intros ([[c E] ?] & _). eauto. Qed.

(** Agreement. *)
Lemma decided_agree t l m t' l' m' : decided servers a t l m → decided servers a t' l' m' → (m <= m')%nat →
  take m l = take m l'.
Proof.
  intros D D' Hm. destruct (D') as [->|(t1' & k1' & Hc' & Hk' & Ht' & E')].
  { by replace m with 0%nat by lia. }
  destruct (D) as [->|(t1 & k1 & Hc & Hk & Ht & E)]; [done|].
  destruct (chosen_elected _ _ Hc) as (c & X & HX). destruct (chosen_elected _ _ Hc') as (c' & X' & HX').
  rewrite E. pose proof (take_eq_le _ _ _ _ Hm E') as E''. rewrite E''.
  destruct (Z.le_ge_cases t1 t1') as [Hle|Hle].
  - eapply (decided_llog t1 (a_llog a !!! t1) m t1'); [right; exists t1, k1; split_and!; [done..|lia|done]|exact HX'|done].
  - symmetry. eapply (decided_llog t1' (a_llog a !!! t1') m t1); [|exact HX|done].
    right. exists t1', k1'. split_and!; [done|lia|lia|done].
Qed.

Lemma logs_match s s' : log_matching (a_log (a_nodes a !!! s)) (a_log (a_nodes a !!! s')).
Proof. eapply explained_matching; apply (sf_log a H). Qed.
End state.
End safety.
