(* ===== verification/RaftInvariant.v ===== *)
(** * The specification stays safe

    Every step of [RaftSpec] preserves [safe]; with the initial states, every
    reachable state is safe. *)

From stdpp Require Import prelude gmap strings list.
From S2P Require Import Prelude Protocol NodeLog RaftSpec RaftSafety.
#[local] Open Scope Z_scope.

Lemma elem_of_snoc {A} (l : list A) x y : x ∈ l ++ [y] → x ∈ l ∨ x = y.
Proof. rewrite elem_of_app, list_elem_of_singleton. done. Qed.

(** Is [s'] the node that changed? *)
Ltac node_case s' s :=
  let E := fresh "E" in
  destruct (decide (s' = s)) as [E|];
  [first [is_var s'; subst s'|rewrite ?E in *]; rewrite ?lookup_total_insert_eq in *
  |rewrite ?lookup_total_insert_ne in * by done].

Section invariant.
Context (servers : list string).

#[local] Abbreviation safe := (safe servers).
#[local] Abbreviation chosen := (chosen servers).
#[local] Abbreviation decided := (decided servers).

(** ** Histories grow *)

Record extends (a a' : astate) : Prop := {
  ex_elected : ∀ t x, a_elected a !! t = Some x → a_elected a' !! t = Some x;
  ex_llog : ∀ t, is_Some (a_elected a !! t) → a_llog a !!! t `prefix_of` a_llog a' !!! t;
  ex_votes : a_votes a ⊆ a_votes a';
  ex_acks : a_acks a ⊆ a_acks a';
}.

Section extends.
Context (a a' : astate) (X : extends a a').

Lemma elected_ext t : is_Some (a_elected a !! t) → is_Some (a_elected a' !! t).
Proof. intros [x Hx]. exists x. by apply X. Qed.

Lemma llog_take_ext t i : is_Some (a_elected a !! t) → (i <= length (a_llog a !!! t))%nat →
  take i (a_llog a' !!! t) = take i (a_llog a !!! t).
Proof. intros He Hi. apply take_prefix; [by apply X|done]. Qed.

Lemma llog_length_ext t i : is_Some (a_elected a !! t) → (i <= length (a_llog a !!! t))%nat →
  (i <= length (a_llog a' !!! t))%nat.
Proof. intros He Hi. apply (ex_llog a a' X), prefix_length in He. lia. Qed.

Lemma explained_ext l : explained a l → explained a' l.
Proof.
  intros Hl i e He. destruct (Hl i e He) as [H1 H2]. split; [by apply elected_ext|].
  rewrite llog_take_ext; [done..|]. eapply take_eq_length; [exact H2|]. apply lookup_lt_Some in He. lia.
Qed.

Lemma acked_ext t k s : acked a t k s → acked a' t k s.
Proof. intros (k' & ? & ?). exists k'. split; [by apply X|done]. Qed.

Lemma chosen_ext t k : chosen a t k → chosen a' t k.
Proof.
  intros (He & Hk & (e & Hl & Ht) & Hm). split_and!; [by apply elected_ext|done| |].
  - exists e. split; [|done]. eapply prefix_lookup_Some; [exact Hl|by apply X].
  - eapply majority_mono; [|exact Hm]. intros s. apply acked_ext.
Qed.

Lemma decided_ext t l m : decided a t l m → decided a' t l m.
Proof.
  intros [->|(t1 & k1 & Hc & Hm & Ht & Hl)]; [by left|]. right. exists t1, k1.
  split_and!; [by apply chosen_ext|done..|]. destruct Hc as (He & ? & (e & Hx & _) & _).
  rewrite llog_take_ext; [done..|]. apply lookup_lt_Some in Hx. lia.
Qed.

Lemma voted_for_ext t c s : voted_for a t c s → voted_for a' t c s.
Proof. intros (v & ? & ?). exists v. split; [by apply X|done]. Qed.

Lemma early_voter_ext t c E s : early_voter a t c E s → early_voter a' t c E s.
Proof. intros (v & ? & ?). exists v. split; [by apply X|done]. Qed.
End extends.

Lemma decided_mono a t t' l m : decided a t l m → t <= t' → decided a t' l m.
Proof. intros [->|(t1 & k1 & ? & ? & ? & ?)] ?; [by left|]. right. exists t1, k1. split_and!; [done..|lia|done]. Qed.

(** ** Steps that only change a node *)

(** [x] may replace the node [n] when only a term, a vote, a role or a commit index changed. *)
Record node_step (a : astate) (n x : anode) : Prop := {
  ns_term : a_term n <= a_term x;
  ns_log : a_log x = a_log n;
  ns_vote : a_term x = a_term n → ∀ c, a_vote n = Some c → a_vote x = Some c;
  ns_cand : a_role x = RCandidate → a_role n = RCandidate ∧ a_term x = a_term n;
  ns_lead : a_role x = RLeader → a_role n = RLeader ∧ a_term x = a_term n;
  ns_commit : decided a (a_term x) (a_log x) (a_commit x);
}.

Lemma retains_later a l s b b' : retains a l s b → b <= b' → (∀ t k, (s, t, k) ∈ a_acks a → t < b) →
  retains a l s b'.
Proof.
  intros Hr Hb Hk t k K Hin Ht HK Hl. eapply Hr; [exact Hin|by eapply Hk|done|].
  intros t' c E Ht'. apply Hl. lia.
Qed.

Lemma safe_set_node a s x : safe a → node_step a (a_nodes a !!! s) x → safe (set_node s x a).
Proof.
  intros H [Ht Hl Hv Hc Hr Hd]. split; simpl.
  - intros s'. pose proof (sf_pos _ _ H s') as Hp. node_case s' s; lia.
  - intros v Hin. pose proof (sf_vote _ _ H v Hin) as Hold. simpl in Hold. node_case (v_by v) s; [|done].
    destruct (decide (a_term x = a_term (a_nodes a !!! s))); [|left; destruct Hold as [?|[? ?]]; lia].
    destruct Hold as [?|[? ?]]; [left; lia|right; split; [lia|auto]].
  - apply H.
  - apply H.
  - apply H.
  - intros t c l Hin. destruct (sf_reqs _ _ H t c l Hin) as (? & ? & Hcl). split; [done|].
    node_case c s; [|done]. split; [lia|]. intros E Hcand. destruct (Hc Hcand). rewrite Hl. apply Hcl; [lia|done].
  - intros s' Hcand. pose proof (sf_cand _ _ H s') as Hold. simpl in Hold. node_case s' s; [|by apply Hold].
    destruct (Hc Hcand) as [? ->]. rewrite Hl. by apply Hold.
  - intros t c E He. destruct (sf_elect _ _ H t c E He) as [H1 H2 H3 H4 H5 H6]. split; simpl; try done.
    + node_case c s; [lia|done].
    + node_case c s; [|done]. intros E' Hcand. destruct (Hc Hcand). apply H2; [lia|done].
  - intros s' Hlead. pose proof (sf_lead _ _ H s') as Hold. simpl in Hold. node_case s' s; [|by apply Hold].
    destruct (Hr Hlead) as [? ->]. rewrite Hl. by apply Hold.
  - intros s'. destruct (sf_log _ _ H s') as [H1 H2]. node_case s' s; [|done]. rewrite Hl. split; [done|].
    intros e He. specialize (H2 e He). lia.
  - apply H.
  - intros s' t k Hin. destruct (sf_acks _ _ H s' t k Hin) as (? & ? & ?). split; [|done]. node_case s' s; [lia|done].
  - intros s'. pose proof (sf_node _ _ H s') as Hold. simpl in Hold. node_case s' s; [|done]. rewrite Hl.
    eapply retains_later; [exact Hold|lia|]. intros t k Hin. destruct (sf_acks _ _ H s t k Hin). lia.
  - apply H.
  - intros s'. pose proof (sf_commit _ _ H s') as Hold. node_case s' s; [done|exact Hold].
Qed.

Lemma safe_candidate a s : let n := a_nodes a !!! s in safe a →
  1 <= a_term n → voted_for a (a_term n) s s → (∀ e, e ∈ a_log n → le_term e < a_term n) →
  (∀ l, (a_term n, s, l) ∈ a_reqs a → a_log n = l) → (∀ E, a_elected a !! a_term n ≠ Some (s, E)) →
  safe (set_node s (mkANode (a_term n) (a_vote n) RCandidate (a_log n) (a_commit n)) a).
Proof.
  intros n H Hpos Hv Hlog Hreq Hel. split; simpl; try apply H.
  - intros s'. pose proof (sf_pos _ _ H s'). by node_case s' s.
  - intros v Hin. pose proof (sf_vote _ _ H v Hin) as Hold. simpl in Hold. by node_case (v_by v) s.
  - intros t c l Hin. destruct (sf_reqs _ _ H t c l Hin) as (? & ? & Hcl). split; [done|].
    node_case c s; [|done]. split; [done|]. simpl. intros <- _. by apply Hreq.
  - intros s' Hcand. pose proof (sf_cand _ _ H s') as Hold. simpl in Hold. node_case s' s; [done|by apply Hold].
  - intros t c E He. destruct (sf_elect _ _ H t c E He) as [H1 H2 H3 H4 H5 H6]. split; simpl; try done.
    + by node_case c s.
    + node_case c s; [|done]. simpl. intros <-. by apply Hel in He.
  - intros s' Hlead. pose proof (sf_lead _ _ H s') as Hold. simpl in Hold. node_case s' s; [done|by apply Hold].
  - intros s'. destruct (sf_log _ _ H s') as [H1 H2]. by node_case s' s.
  - intros s' t k Hin. destruct (sf_acks _ _ H s' t k Hin) as (? & ? & ?). split; [|done]. by node_case s' s.
  - intros s'. pose proof (sf_node _ _ H s') as Hold. simpl in Hold. by node_case s' s.
  - intros s'. pose proof (sf_commit _ _ H s') as Hold. by node_case s' s.
Qed.

(** ** Steps that only add to the history *)

Lemma safe_ask a s : let n := a_nodes a !!! s in safe a →
  safe (mkAState (a_nodes a) (a_elected a) (a_llog a) ((a_term n, s, a_log n) :: a_reqs a)
    (a_votes a) (a_apps a) (a_acks a)).
Proof.
  intros n H. split; simpl; try apply H.
  - intros v Hin He. destruct (sf_early _ _ H v Hin He). split; [done|by right].
  - intros t c l [[= -> -> ->]|Hin]%elem_of_cons; [|by apply (sf_reqs _ _ H t c l)].
    split; [apply (sf_log _ _ H s)|]. by split.
  - intros t c E He. by destruct (sf_elect _ _ H t c E He).
Qed.

Lemma safe_send a s p k m : let n := a_nodes a !!! s in safe a →
  a_role n = RLeader → (p + k <= length (a_log n))%nat → (m <= a_commit n)%nat → (m <= p + k)%nat →
  safe (mkAState (a_nodes a) (a_elected a) (a_llog a) (a_reqs a) (a_votes a)
    ((a_term n, p, k, m) :: a_apps a) (a_acks a)).
Proof.
  intros n H Hl Hpk Hm Hm'. subst n. split; simpl; try apply H.
  - intros t c E He. by destruct (sf_elect _ _ H t c E He).
  - intros t p' k' m' [[= -> -> -> ->]|Hin]%elem_of_cons; [|by apply (sf_apps _ _ H)].
    destruct (sf_lead _ _ H s Hl) as [[E HE] HL]. rewrite HL. split_and!; [by eexists|done..|].
    destruct (sf_commit _ _ H s) as [Hz|(t1 & k1 & Hc & Hk & Ht & Hd)]; [left; lia|].
    right. exists t1, k1. split_and!; [done| |done|].
    + lia.
    + eapply take_eq_le; [exact Hm|exact Hd].
Qed.

Lemma safe_vote a v : let n := a_nodes a !!! v_by v in safe a →
  v_term v = a_term n → a_vote n = Some (v_for v) → up_to_date (v_clog v) (v_log v) →
  explained a (v_clog v) → explained a (v_log v) →
  v_early v = bool_decide (a_elected a !! v_term v = None) → (v_term v, v_for v, v_clog v) ∈ a_reqs a →
  (v_early v = true → retains a (v_log v) (v_by v) (v_term v)) →
  safe (mkAState (a_nodes a) (a_elected a) (a_llog a) (a_reqs a) (v :: a_votes a) (a_apps a) (a_acks a)).
Proof.
  intros n H Ht Hv Hup Hc Hl He Hr Hret. subst n.
  set (a' := mkAState _ _ _ _ _ _ _).
  assert (X : extends a a') by (split; simpl; [done|done|set_solver|done]).
  assert (Hone : ∀ v', v' ∈ a_votes a → v_by v = v_by v' → v_term v = v_term v' → v_for v = v_for v').
  { intros v' Hin Eb Et. destruct (sf_vote _ _ H v' Hin) as [?|[_ E]]; rewrite <- Eb in *; [lia|congruence]. }
  split; simpl; try apply H.
  - intros v' [->|Hin]%elem_of_cons; [|by apply (sf_vote _ _ H)]. right. done.
  - intros v1 v2 [->|H1]%elem_of_cons [->|H2]%elem_of_cons Eb Et; [done|by apply Hone| |by eapply (sf_once _ _ H)].
    symmetry. by apply Hone.
  - intros v' [->|Hin]%elem_of_cons; [done|by apply (sf_logs _ _ H)].
  - intros v' [->|Hin]%elem_of_cons E; [|by apply (sf_early _ _ H)]. rewrite He. split; [by case_bool_decide|done].
  - intros s' Hcand. destruct (sf_cand _ _ H s' Hcand) as (? & ? & ?). split_and!; [done..|by apply (voted_for_ext a)].
  - intros t c E Hel. destruct (sf_elect _ _ H t c E Hel) as [H1 H2 H3 H4 H5 H6]. split; simpl; try done.
    eapply majority_mono; [|exact H5]. intros s'. by apply (early_voter_ext a).
  - intros v' [->|Hin]%elem_of_cons; [done|by apply (sf_voter _ _ H)].
Qed.

(** ** Steps that acknowledge *)

Lemma decided_length a t l m : decided a t l m → (m <= length l)%nat.
Proof.
  intros [->|(t1 & k1 & (_ & _ & (e & Hx & _) & _) & Hm & _ & Hl)]; [lia|].
  eapply take_eq_length; [symmetry; exact Hl|]. apply lookup_lt_Some in Hx. lia.
Qed.

Lemma decided_prefix a t l l' m : decided a t l m → l `prefix_of` l' → decided a t l' m.
Proof.
  intros D Hp. pose proof (decided_length _ _ _ _ D). destruct D as [->|(t1 & k1 & ? & ? & ? & Hl)]; [by left|].
  right. exists t1, k1. split_and!; [done..|]. by rewrite (take_prefix m l l').
Qed.

Lemma explained_prefix a l l' : explained a l' → l `prefix_of` l' → explained a l.
Proof.
  intros H Hp i e He. destruct (H i e) as [? <-]; [by eapply prefix_lookup_Some|]. split; [done|].
  symmetry. apply take_prefix; [done|]. apply lookup_lt_Some in He. lia.
Qed.

(** What a log retained it still retains, and a new acknowledgement must be justified. *)
Lemma retains_old a a' l s b t k K : safe a → extends a a' → retains a l s b →
  (s, t, k) ∈ a_acks a → t < b → (K <= k)%nat →
  (∀ t' c E, t < t' < b → acked a' t' 0 s → a_elected a' !! t' = Some (c, E) → take K E = take K (a_llog a' !!! t)) →
  take K l = take K (a_llog a' !!! t).
Proof.
  intros H X Hr Hin Ht HK Hl. destruct (sf_acks _ _ H _ _ _ Hin) as (_ & Hel & Hk).
  rewrite (llog_take_ext a a' X) in * by (done || lia).
  eapply Hr; [exact Hin|done|done|]. intros t' c E Ht' Hack He. eapply Hl; [done|by apply (acked_ext a)|by apply X].
Qed.

Lemma retains_ack a a' l s b s0 t0 k0 : safe a → extends a a' → a_acks a' = (s0, t0, k0) :: a_acks a →
  retains a l s b →
  (s = s0 → t0 < b → ∀ K, (K <= k0)%nat → take K l = take K (a_llog a' !!! t0)) →
  retains a' l s b.
Proof.
  intros H X Ha Hr Hn t k K Hin Ht HK Hl. rewrite Ha in Hin. apply elem_of_cons in Hin as [[= -> -> ->]|Hin].
  - by apply Hn.
  - by eapply retains_old.
Qed.

Lemma retains_voter a a' v s0 k0 : safe a → extends a a' →
  a_acks a' = (s0, a_term (a_nodes a !!! s0), k0) :: a_acks a →
  v ∈ a_votes a → v_early v = true → retains a' (v_log v) (v_by v) (v_term v).
Proof.
  intros H X Ha Hin He. eapply retains_ack; [exact H|exact X|exact Ha|by apply (sf_voter _ _ H)|].
  intros Eb Ht. destruct (sf_vote _ _ H v Hin) as [?|[? _]]; rewrite Eb in *; lia.
Qed.

Lemma not_yet_elected a s : safe a → a_role (a_nodes a !!! s) = RCandidate →
  majority servers (voted_for a (a_term (a_nodes a !!! s)) s) → a_elected a !! a_term (a_nodes a !!! s) = None.
Proof.
  intros H Hr Hm. destruct (a_elected a !! _) as [[c E]|] eqn:He; [|done]. exfalso.
  destruct (sf_elect _ _ H _ _ _ He) as [_ H2 _ _ H5 _].
  destruct (majorities_overlap _ _ _ Hm H5) as (x & (v & Hv & Eb & Et & Ef) & (v' & Hv' & Eb' & Et' & Ef' & _)).
  assert (c = s) as ->; [|by apply H2].
  rewrite <- Ef, <- Ef'. eapply (sf_once _ _ H); [done|done|congruence|congruence].
Qed.

(** *** A new leader *)

Section elect.
Context (a : astate) (s : string) (H : safe a).
#[local] Abbreviation n := (a_nodes a !!! s).
#[local] Abbreviation t := (a_term n).
#[local] Abbreviation a' := (mkAState (<[s := mkANode t (a_vote n) RLeader (a_log n) (a_commit n)]> (a_nodes a))
    (<[t := (s, a_log n)]> (a_elected a)) (<[t := a_log n]> (a_llog a)) (a_reqs a)
    (a_votes a) (a_apps a) ((s, t, length (a_log n)) :: a_acks a)).
Context (Hr : a_role n = RCandidate) (Hm : majority servers (voted_for a t s)).

Lemma elect_other t' : is_Some (a_elected a !! t') → t' ≠ t.
Proof. pose proof (not_yet_elected a s H Hr Hm). intros [x Hx] ->. congruence. Qed.

Lemma elect_llog t' : is_Some (a_elected a !! t') → a_llog a' !!! t' = a_llog a !!! t'.
Proof. intros Ht'%elect_other. simpl. by rewrite lookup_total_insert_ne. Qed.

Lemma elect_extends : extends a a'.
Proof.
  split; [|intros t' Ht'; by rewrite elect_llog|done|simpl; set_solver].
  intros t' x Hx. simpl. rewrite lookup_insert_ne; [done|]. symmetry. apply elect_other. by eexists.
Qed.

(** Its voters had voted for the log it has now. *)
Lemma elect_ok t' c E : a_elected a' !! t' = Some (c, E) → election_ok servers a' t' c E.
Proof.
  destruct (sf_cand _ _ H s Hr) as (Hpos & Hold & _). simpl. rewrite lookup_insert_Some. intros [[<- [= <- <-]]|[? He]].
  - split; simpl; rewrite ?lookup_total_insert_eq; simpl; try done.
    + exists []. rewrite app_nil_r. split; [done|set_solver].
    + eapply majority_mono; [|exact Hm]. intros x (v & Hv & Eb & Et & Ef). exists v.
      destruct (sf_early _ _ H v Hv) as [? Hreq]; [rewrite Et; by apply not_yet_elected|]. rewrite Et, Ef in Hreq.
      destruct (sf_reqs _ _ H _ _ _ Hreq) as (_ & _ & El). split_and!; try done. symmetry. by apply El.
    + apply (explained_ext a a' elect_extends), (sf_log _ _ H s).
  - destruct (sf_elect _ _ H t' c E He) as [H1 H2 H3 H4 H5 H6]. split; rewrite ?elect_llog by (by eexists); simpl; try done.
    + by node_case c s.
    + by node_case c s.
    + by apply (explained_ext a a' elect_extends).
Qed.

Lemma safe_elect : safe a'.
Proof.
  pose proof elect_extends as X. pose proof elect_llog as HL. split; cbv zeta.
  - intros s'. pose proof (sf_pos _ _ H s'). simpl. by node_case s' s.
  - intros v Hin. pose proof (sf_vote _ _ H v Hin) as Hv. simpl in *. by node_case (v_by v) s.
  - apply H.
  - intros v Hin. destruct (sf_logs _ _ H v Hin) as (? & ? & ?). split_and!; [done|by apply (explained_ext a)..].
  - intros v Hin. simpl. rewrite lookup_insert_None. intros [? _]. by apply (sf_early _ _ H).
  - intros t' c l Hin. destruct (sf_reqs _ _ H t' c l Hin) as (? & ? & ?). split; [by apply (explained_ext a)|].
    simpl. by node_case c s.
  - intros s'. pose proof (sf_cand _ _ H s') as Hc. simpl in *. by node_case s' s.
  - apply elect_ok.
  - intros s' Hl. pose proof (sf_lead _ _ H s') as Hlead. simpl in *. node_case s' s.
    + simpl. split; [exists (a_log n); by rewrite lookup_insert_eq|by rewrite ?lookup_total_insert_eq].
    + destruct (Hlead Hl) as [[E HE] Hlog]. pose proof (elect_other _ (ex_intro _ _ HE)).
      rewrite lookup_insert_ne, lookup_total_insert_ne by done. eauto.
  - intros s'. destruct (sf_log _ _ H s') as [H1 H2]. apply (explained_ext a a' X) in H1. simpl. by node_case s' s.
  - intros t' p k m Hin. destruct (sf_apps _ _ H t' p k m Hin) as (H1 & H2 & H3 & H4). rewrite HL by done.
    split_and!; [by apply (elected_ext a a' X)|done..|by apply (decided_ext a a' X)].
  - intros s' t' k [[= -> -> ->]|Hin]%elem_of_cons.
    + simpl. rewrite !lookup_total_insert_eq, lookup_insert_eq. split_and!; [done|by eexists|done].
    + destruct (sf_acks _ _ H s' t' k Hin) as (H1 & H2 & H3). rewrite HL by done.
      split_and!; [simpl; by node_case s' s|by apply (elected_ext a a' X)|done].
  - intros s'. pose proof (sf_node _ _ H s') as Hn. cbv zeta in *.
    assert (E : a_log (a_nodes a' !!! s') = a_log (a_nodes a !!! s') ∧ a_term (a_nodes a' !!! s') = a_term (a_nodes a !!! s'))
      by (simpl; by node_case s' s).
    destruct E as [-> ->]. eapply retains_ack; [exact H|exact X|done|exact Hn|].
    intros -> _ K _. simpl. by rewrite lookup_total_insert_eq.
  - intros v Hin He. by eapply retains_voter.
  - intros s'. pose proof (sf_commit _ _ H s') as Hc. apply (decided_ext a a' X) in Hc. simpl in *. by node_case s' s.
Qed.
End elect.

(** *** A proposal *)

Section propose.
Context (a : astate) (s : string) (e : LogEntry) (H : safe a).
#[local] Abbreviation n := (a_nodes a !!! s).
#[local] Abbreviation t := (a_term n).
#[local] Abbreviation l' := (a_log n ++ [e]).
#[local] Abbreviation a' := (mkAState (<[s := mkANode t (a_vote n) RLeader l' (a_commit n)]> (a_nodes a))
    (a_elected a) (<[t := l']> (a_llog a)) (a_reqs a)
    (a_votes a) (a_apps a) ((s, t, S (length (a_log n))) :: a_acks a)).
Context (Hr : a_role n = RLeader) (Ht : le_term e = t).

Lemma propose_llog t' : a_llog a !!! t' `prefix_of` a_llog a' !!! t'.
Proof.
  destruct (sf_lead _ _ H s Hr) as [_ HL]. simpl. destruct (decide (t' = t)) as [->|].
  - rewrite lookup_total_insert_eq, HL. by exists [e].
  - by rewrite lookup_total_insert_ne.
Qed.

Lemma propose_extends : extends a a'.
Proof. split; simpl; [done|intros t' _; apply propose_llog|done|set_solver]. Qed.

Lemma propose_explained : explained a' l'.
Proof.
  destruct (sf_lead _ _ H s Hr) as [[E HE] _]. intros i x Hi. destruct (decide (i = length (a_log n))) as [->|Hne].
  - rewrite lookup_app_r, Nat.sub_diag in Hi by lia. injection Hi as <-. rewrite Ht. simpl. rewrite lookup_total_insert_eq.
    split; [by exists (s, E)|done].
  - assert (Hlt : (i < length (a_log n))%nat) by (apply lookup_lt_Some in Hi; rewrite length_app in Hi; simpl in Hi; lia).
    rewrite lookup_app_l in Hi by done. rewrite take_app_le by lia.
    by apply (explained_ext a a' propose_extends (a_log n)), Hi; apply (sf_log _ _ H s).
Qed.

Lemma propose_elect_ok t' c E' : a_elected a !! t' = Some (c, E') → election_ok servers a' t' c E'.
Proof.
  intros He. destruct (sf_lead _ _ H s Hr) as [_ HL]. pose proof propose_explained as Hx.
  destruct (sf_elect _ _ H t' c E' He) as [H1 H2 H3 H4 H5 H6]. split; simpl; try done.
  - by node_case c s.
  - by node_case c s.
  - destruct H4 as (new & Hn & Hnew). destruct (decide (t' = t)) as [->|].
    + rewrite lookup_total_insert_eq. exists (new ++ [e]). split; [by rewrite app_assoc, <- Hn, HL|].
      intros x [?| ->]%elem_of_snoc; auto.
    + rewrite lookup_total_insert_ne by done. eauto.
  - destruct (decide (t' = t)) as [->|].
    + by rewrite lookup_total_insert_eq.
    + rewrite lookup_total_insert_ne by done. by apply (explained_ext a a' propose_extends).
Qed.

Lemma propose_retains s' : retains a' (a_log (a_nodes a' !!! s')) s' (a_term (a_nodes a' !!! s') + 1).
Proof.
  pose proof propose_extends as X. pose proof (sf_node _ _ H s') as Hn. cbv zeta in *. simpl. node_case s' s.
  - simpl. intros t' k K Hin Hlt HK Hhyp. apply elem_of_cons in Hin as [[= -> ->]|Hin]; [simpl; by rewrite lookup_total_insert_eq|].
    destruct (sf_acks _ _ H _ _ _ Hin) as (_ & Hel & Hk).
    pose proof (retains_old a a' _ _ _ _ _ _ H X Hn Hin Hlt HK Hhyp) as Eq. rewrite <- Eq.
    apply take_prefix; [by exists [e]|]. eapply take_eq_length; [symmetry; exact Eq|].
    pose proof (prefix_length _ _ (propose_llog t')). lia.
  - eapply retains_ack; [exact H|exact X|done|exact Hn|done].
Qed.

Lemma safe_propose : safe a'.
Proof.
  pose proof propose_extends as X. pose proof propose_llog as Hll. destruct (sf_lead _ _ H s Hr) as [[E HE] HL]. split; cbv zeta.
  - intros s'. pose proof (sf_pos _ _ H s'). simpl. by node_case s' s.
  - intros v Hin. pose proof (sf_vote _ _ H v Hin) as Hv. simpl in *. by node_case (v_by v) s.
  - apply H.
  - intros v Hin. destruct (sf_logs _ _ H v Hin) as (? & ? & ?). split_and!; [done|by apply (explained_ext a)..].
  - apply H.
  - intros t' c l Hin. destruct (sf_reqs _ _ H t' c l Hin) as (? & ? & ?). split; [by apply (explained_ext a)|].
    simpl. by node_case c s.
  - intros s'. pose proof (sf_cand _ _ H s') as Hc. simpl in *. by node_case s' s.
  - apply propose_elect_ok.
  - intros s' Hl. pose proof (sf_lead _ _ H s') as Hlead. simpl in *. node_case s' s.
    + simpl. rewrite ?lookup_total_insert_eq. eauto.
    + destruct (Hlead Hl) as [[E' HE'] Hlog]. rewrite lookup_total_insert_ne; [by eauto|]. intros Et. rewrite <- Et in HE'. congruence.
  - intros s'. destruct (sf_log _ _ H s') as [H1 H2]. simpl. node_case s' s; simpl.
    + split; [exact propose_explained|]. intros x [?| ->]%elem_of_snoc; [by apply H2|]. by rewrite Ht.
    + split; [by apply (explained_ext a a' X)|done].
  - intros t' p k m Hin. destruct (sf_apps _ _ H t' p k m Hin) as (H1 & H2 & H3 & H4).
    split_and!; [done|pose proof (prefix_length _ _ (Hll t')); lia|done|].
    eapply decided_prefix; [by apply (decided_ext a a' X)|apply Hll].
  - intros s' t' k [[= -> -> ->]|Hin]%elem_of_cons.
    + simpl. rewrite !lookup_total_insert_eq. split_and!; [done|by eexists|]. rewrite length_app. simpl. lia.
    + destruct (sf_acks _ _ H s' t' k Hin) as (H1 & H2 & H3). pose proof (prefix_length _ _ (Hll t')).
      split_and!; [simpl; by node_case s' s|done|lia].
  - apply propose_retains.
  - intros v Hin He. by eapply retains_voter.
  - intros s'. pose proof (sf_commit _ _ H s') as Hc. apply (decided_ext a a' X) in Hc. simpl in *. node_case s' s; [|done].
    eapply decided_prefix; [exact Hc|by exists [e]].
Qed.
End propose.

(** *** An acknowledgement *)

Section accept.
Context (a : astate) (s : string) (p k m : nat) (H : safe a).
#[local] Abbreviation n := (a_nodes a !!! s).
#[local] Abbreviation t := (a_term n).
#[local] Abbreviation L := (a_llog a !!! t).
#[local] Abbreviation l' := (merge_log (a_log n) p (take k (drop p L))).
Context (Hin : (t, p, k, m) ∈ a_apps a).
Context (Hprev : p = 0%nat ∨ (∃ x y, a_log n !! (p - 1)%nat = Some x ∧ L !! (p - 1)%nat = Some y ∧ le_term x = le_term y)).

Lemma accept_elected : ∃ c E, a_elected a !! t = Some (c, E).
Proof. destruct (sf_apps _ _ H _ _ _ _ Hin) as ([[c E] ?] & _). eauto. Qed.

Lemma accept_matching : log_matching L (a_log n).
Proof.
  destruct accept_elected as (c & E & HE). eapply explained_matching; [|apply (sf_log _ _ H s)].
  by destruct (sf_elect _ _ H _ _ _ HE).
Qed.

Lemma accept_prev : (p <= length (a_log n))%nat ∧ take p (a_log n) = take p L.
Proof.
  destruct Hprev as [->|(x & y & Hx & Hy & Ht)]; [split; [lia|done]|].
  pose proof (lookup_lt_Some _ _ _ Hx). destruct (decide (p = 0%nat)) as [->|]; [split; [lia|done]|]. split; [lia|].
  pose proof (accept_matching (p - 1)%nat y x Hy Hx (eq_sym Ht)) as E.
  by replace (S (p - 1)) with p in E by lia.
Qed.

Lemma accept_bound : (p + k <= length L)%nat.
Proof. by destruct (sf_apps _ _ H _ _ _ _ Hin) as (_ & ? & _). Qed.

Lemma accept_agrees : take (p + k) l' = take (p + k) L.
Proof. destruct accept_prev. apply merge_agrees; [exact accept_matching|exact accept_bound|done..]. Qed.

Lemma accept_keeps K : take K (a_log n) = take K L → (K <= length L)%nat → take K l' = take K L.
Proof. destruct accept_prev. intros. apply merge_keeps; [exact accept_matching|exact accept_bound|done..]. Qed.

Lemma accept_explained : explained a l' ∧ ∀ e, e ∈ l' → le_term e <= t.
Proof.
  destruct accept_prev as [Hp Ht], accept_elected as (c & E & HE), (sf_log _ _ H s) as [Hx Hb].
  destruct (merge_cases _ _ p k accept_matching accept_bound Hp Ht) as [[-> _]| ->]; [done|]. split.
  - eapply explained_prefix; [by destruct (sf_elect _ _ H _ _ _ HE)|]. exists (drop (p + k) L). by rewrite take_drop.
  - intros e He. apply list_elem_of_lookup in He as [i Hi]. apply lookup_take_Some in Hi as [Hi _].
    by eapply (llog_terms servers a H).
Qed.

Lemma accept_decided : decided a t l' (commit_to m l' (a_commit n)).
Proof.
  destruct accept_elected as (c & E & HE). unfold commit_to. destruct (Nat.ltb_spec (a_commit n) m) as [Hlt|_].
  - destruct (sf_apps _ _ H _ _ _ _ Hin) as (_ & Hb & Hm & [->|(t1 & k1 & Hc & Hk & Ht & Hd)]); [lia|].
    pose proof accept_agrees as Ea. pose proof (take_eq_length _ _ _ (eq_sym Ea) Hb).
    rewrite Nat.min_l by lia. right. exists t1, k1. split_and!; [done..|]. rewrite <- Hd. eapply take_eq_le; [exact Hm|exact Ea].
  - pose proof (sf_commit _ _ H s) as D. cbv zeta in D. destruct (decided_llog _ _ H _ _ _ _ _ _ D HE) as [E1 E2]; [lia|].
    destruct D as [Hz|(t1 & k1 & Hc & Hk & Ht & Hd)]; [by left|]. right. exists t1, k1. split_and!; [done..|].
    rewrite accept_keeps by done. by rewrite <- E1.
Qed.

Lemma accept_retains a' : extends a a' → a_llog a' = a_llog a → a_elected a' = a_elected a →
  a_acks a' = (s, t, (p + k)%nat) :: a_acks a → retains a' l' s (t + 1).
Proof.
  intros X EL Ee Ea t0 k0 K Hk Ht0 HK Hl. rewrite EL in *. rewrite Ea in Hk. apply elem_of_cons in Hk as [[= -> ->]|Hk].
  { eapply take_eq_le; [exact HK|exact accept_agrees]. }
  destruct (sf_acks _ _ H _ _ _ Hk) as (_ & Hel & Hlen). destruct accept_elected as (c & E & HE).
  assert (HL : take K L = take K (a_llog a !!! t0) ∧ (K <= length L)%nat).
  { destruct (decide (t0 = t)) as [->|]; [split; [done|lia]|].
    assert (Hx : take K E = take K (a_llog a !!! t0)).
    { eapply (Hl t); [lia| |by rewrite Ee]. exists (p + k)%nat. rewrite Ea. split; [left|lia]. }
    pose proof (take_eq_length _ _ _ (eq_sym Hx) ltac:(lia)). pose proof (llog_prefix _ _ H _ _ _ HE) as Hp.
    pose proof (prefix_length _ _ Hp). rewrite (take_prefix _ _ _ Hp) by done. split; [done|lia]. }
  destruct HL as [HL HLl]. rewrite <- HL. apply accept_keeps; [|done]. rewrite HL.
  eapply (sf_node _ _ H s); [exact Hk|done|done|]. intros t' c' E' Ht' Hack He.
  eapply Hl; [done|by apply (acked_ext a)|by rewrite Ee].
Qed.

Lemma safe_accept : a_role n ≠ RLeader →
  safe (mkAState (<[s := mkANode t (a_vote n) RFollower l' (commit_to m l' (a_commit n))]> (a_nodes a))
    (a_elected a) (a_llog a) (a_reqs a) (a_votes a) (a_apps a) ((s, t, (p + k)%nat) :: a_acks a)).
Proof.
  intros Hr. set (a' := mkAState _ _ _ _ _ _ _).
  assert (X : extends a a') by (split; simpl; [done|done|done|set_solver]).
  split; cbv zeta; try apply H.
  - intros s'. pose proof (sf_pos _ _ H s'). simpl. by node_case s' s.
  - intros v Hv. pose proof (sf_vote _ _ H v Hv) as Ho. simpl in *. by node_case (v_by v) s.
  - intros t' c l Hq. destruct (sf_reqs _ _ H t' c l Hq) as (? & ? & ?). split; [done|]. simpl. by node_case c s.
  - intros s'. pose proof (sf_cand _ _ H s') as Hc. simpl in *. by node_case s' s.
  - intros t' c E' He. destruct (sf_elect _ _ H t' c E' He) as [H1 H2 H3 H4 H5 H6]. split; simpl; try done; by node_case c s.
  - intros s'. pose proof (sf_lead _ _ H s') as Hl. simpl in *. by node_case s' s.
  - intros s'. pose proof (sf_log _ _ H s') as Hl. simpl. node_case s' s; [exact accept_explained|done].
  - intros t' p' k' m' Hq. destruct (sf_apps _ _ H _ _ _ _ Hq) as (? & ? & ? & ?).
    split_and!; [done..|by apply (decided_ext a)].
  - intros s' t' k' [[= -> -> ->]|Hq]%elem_of_cons; simpl.
    + rewrite lookup_total_insert_eq. destruct accept_elected as (c & E & HE). pose proof accept_bound.
      split_and!; [done|by eexists|done].
    + destruct (sf_acks _ _ H s' t' k' Hq) as (? & ? & ?). split; [by node_case s' s|done].
  - intros s'. pose proof (sf_node _ _ H s') as Hn. cbv zeta in Hn. simpl. node_case s' s.
    + by apply accept_retains.
    + eapply retains_ack; [exact H|exact X|done|exact Hn|done].
  - intros v Hv He. by eapply retains_voter.
  - intros s'. pose proof (sf_commit _ _ H s') as Hc. cbv zeta in Hc. apply (decided_ext a a' X).
    simpl. node_case s' s; [exact accept_decided|exact Hc].
Qed.
End accept.

(** ** Votes *)

Lemma safe_grant a s c l : let n := a_nodes a !!! s in let t := a_term n in safe a →
  (t, c, l) ∈ a_reqs a → a_vote n = None ∨ a_vote n = Some c → up_to_date l (a_log n) →
  safe (mkAState (<[s := mkANode t (Some c) (a_role n) (a_log n) (a_commit n)]> (a_nodes a))
    (a_elected a) (a_llog a) (a_reqs a)
    (mkVote s t c (a_log n) l (bool_decide (a_elected a !! t = None)) :: a_votes a) (a_apps a) (a_acks a)).
Proof.
  intros n t H Hreq Hv Hup.
  assert (H1 : safe (set_node s (mkANode t (Some c) (a_role n) (a_log n) (a_commit n)) a)).
  { apply safe_set_node; [done|]. split; simpl; try done; [intros _ c' E; fold n in E; destruct Hv; congruence|apply (sf_commit _ _ H s)]. }
  eapply (safe_vote _ (mkVote s t c (a_log n) l (bool_decide (a_elected a !! t = None))) H1);
    simpl; rewrite ?lookup_total_insert_eq; try done.
  - apply (sf_reqs _ _ H _ _ _ Hreq).
  - apply (sf_log _ _ H s).
  - intros He. case_bool_decide as Hn; [|done]. intros t' k K Hin Hlt HK Hl.
    eapply (sf_node _ _ H s); [exact Hin|fold n; fold t; lia|done|].
    intros t0 c0 E0 Ht0 Hack He0. eapply Hl; [|done|exact He0]. split; [lia|].
    destruct (decide (t0 = t)) as [->|]; [congruence|]. fold n in Ht0. fold t in Ht0. lia.
Qed.

Lemma safe_promote a s : let n := a_nodes a !!! s in let t := a_term n + 1 in safe a →
  safe (mkAState (<[s := mkANode t (Some s) RCandidate (a_log n) (a_commit n)]> (a_nodes a))
    (a_elected a) (a_llog a) ((t, s, a_log n) :: a_reqs a)
    (mkVote s t s (a_log n) (a_log n) (bool_decide (a_elected a !! t = None)) :: a_votes a) (a_apps a) (a_acks a)).
Proof.
  intros n t H. set (x := mkANode t (Some s) RFollower (a_log n) (a_commit n)).
  assert (Ht : a_term n < t) by (unfold t; lia).
  assert (H1 : safe (set_node s x a)).
  { apply safe_set_node; [done|]. split; simpl; try done; [fold n; lia|fold n; lia|].
    eapply decided_mono; [apply (sf_commit _ _ H s)|]. fold n. lia. }
  pose proof (safe_ask _ s H1) as H2. simpl in H2. rewrite lookup_total_insert_eq in H2. simpl in H2.
  pose proof (safe_vote _ (mkVote s t s (a_log n) (a_log n) (bool_decide (a_elected a !! t = None))) H2) as H3.
  simpl in H3. rewrite lookup_total_insert_eq in H3.
  destruct (sf_log _ _ H s) as [Hx Hb]. fold n in Hx, Hb.
  specialize (H3 eq_refl eq_refl (or_intror (conj eq_refl (le_n _))) Hx Hx eq_refl ltac:(left)
    (λ _, sf_node _ _ H s)).
  pose proof (safe_candidate _ s H3) as H4. simpl in H4. rewrite lookup_total_insert_eq in H4. simpl in H4.
  unfold set_node in H4. simpl in H4. rewrite insert_insert_eq in H4. apply H4.
  - pose proof (sf_pos _ _ H s) as Hp. fold n in Hp. unfold t. lia.
  - exists (mkVote s t s (a_log n) (a_log n) (bool_decide (a_elected a !! t = None))). split; [left|done].
  - intros e He. specialize (Hb e He). lia.
  - intros l [[= <-]|Hin]%elem_of_cons; [done|]. destruct (sf_reqs _ _ H _ _ _ Hin) as (_ & Hle & _). fold n in Hle. lia.
  - intros E He. destruct (sf_elect _ _ H _ _ _ He) as [Hle _ _ _ _ _]. fold n in Hle. lia.
Qed.

(** A server that acknowledged a decided prefix still has it. *)
Lemma learn_decided a s t k : let n := a_nodes a !!! s in safe a →
  acked a t k s → decided a t (a_llog a !!! t) k → decided a (a_term n) (a_log n) k.
Proof.
  intros n H (k' & Hin & Hk) D. destruct (sf_acks _ _ H _ _ _ Hin) as (Ht & Hel & Hlen). fold n in Ht.
  assert (E : take k (a_log n) = take k (a_llog a !!! t)).
  { eapply (sf_node _ _ H s); [exact Hin|fold n; lia|done|]. intros t' c E Ht' _ He.
    destruct (decided_llog _ _ H _ _ _ _ _ _ D He) as [E1 E2]; [lia|].
    destruct D as [->|(t1 & k1 & Hc & Hm & Ht1 & Hd)]; [done|].
    pose proof (leader_complete _ _ H _ _ _ _ _ Hc He ltac:(lia)) as E3.
    rewrite Hd. eapply take_eq_le; [exact Hm|exact E3]. }
  destruct D as [->|(t1 & k1 & Hc & Hm & Ht1 & Hd)]; [by left|]. right. exists t1, k1.
  split_and!; [done|done|lia|congruence].
Qed.

(** ** Every step *)

Theorem astep_safe a a' : safe a → astep servers a a' → safe a'.
Proof.
  intros H Hs. pose proof (sf_commit _ _ H) as Hc. cbv zeta in Hc. destruct Hs.
  - apply safe_set_node; [done|]. split; simpl; try done; [fold n; lia|fold n; lia|].
    eapply decided_mono; [apply Hc|]. fold n. lia.
  - apply safe_set_node; [done|]. split; simpl; try done. apply Hc.
  - by apply safe_promote.
  - by apply safe_ask.
  - by apply safe_grant.
  - by apply safe_elect.
  - by apply safe_propose.
  - by apply safe_send.
  - by apply safe_accept.
  - apply safe_set_node; [done|]. split; simpl; try done. right. exists (a_term n), k.
    split_and!; [done..|]. destruct (sf_lead _ _ H s ltac:(assumption)) as [_ E]. fold n in E. by rewrite E.
  - apply safe_set_node; [done|]. split; simpl; try done. by eapply learn_decided.
Qed.

Lemma decided_less a t l m m' : (m' <= m)%nat → decided a t l m → decided a t l m'.
Proof.
  intros Hle [->|(t1 & k1 & Hc & Hk & Ht & E)]; [left; lia|]. right. exists t1, k1.
  split_and!; [done|lia|done|]. by eapply take_eq_le.
Qed.

Theorem estep_safe a a' : safe a → estep servers a a' → safe a'.
Proof.
  intros H [Hs|[s k n Hk]]; [by eapply astep_safe|]. apply safe_set_node; [done|]. split; simpl; try done.
  eapply decided_less; [exact Hk|]. apply (sf_commit _ _ H).
Qed.

Definition initial (a : astate) : Prop :=
  (∀ s, let n := a_nodes a !!! s in 0 <= a_term n ∧ a_role n = RFollower ∧ a_log n = [] ∧ a_commit n = 0%nat) ∧
  a_elected a = ∅ ∧ a_reqs a = [] ∧ a_votes a = [] ∧ a_apps a = [] ∧ a_acks a = [].

Lemma initial_safe a : initial a → safe a.
Proof.
  intros (Hn & Ee & Er & Ev & Ea & Ek).
  assert (Hx : explained a []) by (by intros i e).
  split; cbv zeta; rewrite ?Ee, ?Er, ?Ev, ?Ea, ?Ek; 
    try (intros; match goal with Hnil : _ ∈ [] |- _ => by apply not_elem_of_nil in Hnil end).
  - intros s. apply Hn.
  - intros s Hr. destruct (Hn s) as (_ & E & _). congruence.
  - intros t c E He. by rewrite lookup_empty in He.
  - intros s Hr. destruct (Hn s) as (_ & E & _). congruence.
  - intros s. destruct (Hn s) as (_ & _ & -> & _). split; [done|]. intros e He. by apply not_elem_of_nil in He.
  - intros s t k K Hin. rewrite Ek in Hin. by apply not_elem_of_nil in Hin.
  - intros s. destruct (Hn s) as (_ & _ & _ & ->). by left.
Qed.

Lemma reachable_safe a0 a : initial a0 → rtc (astep servers) a0 a → safe a.
Proof. intros H0%initial_safe Hr. induction Hr; [done|]. apply IHHr. by eapply astep_safe. Qed.
End invariant.
