(* ===== verification/NodeCore.v ===== *)
(** * What the protocol sees of a node

    The fields of a node that other nodes can come to depend on ([core]), and what each
    handler does to them when no membership change is in the log: disk, clock and state machine only
    ride along. *)

From stdpp Require Import prelude gmap strings sorting countable list.
From S2P Require Import Prelude Serde Protocol StateMachine StateMachineProps Storage StorageProps Rpc.
From S2P Require Import Node NodeVotes ReferenceModel Refinement NodeLog NodeLeader.
#[local] Open Scope Z_scope.

Record core := mkCore {
  k_term : Z;
  k_vote : option string;
  k_state : NodeState;
  k_log : list LogEntry;
  k_commit : Z;
  k_next : gmap string Z;
  k_match : gmap string Z;
  k_self : string;
  k_peers : list string;
  k_config : Configuration;
  k_pending : option Configuration;
}.

Definition core_of (n : RaftNode) : core :=
  mkCore (current_term n) (vote_for n) (state n) (log n) (commit_index n) (next_index n) (match_index n)
    (self_id n) (peers n) (current_config n) (pending_post_joint_simple n).

(** An entry that is not a membership change. *)
Definition plain_command (c : Command) : Prop := match c with CInstallConfiguration _ => False | _ => True end.
Definition plain (e : LogEntry) : Prop := plain_command (le_command e).

Lemma plain_merge l p es : Forall plain l → Forall plain es → Forall plain (merge_log l p es).
Proof.
  intros Hl. revert p. induction es as [|e es IH]; intros p Hes; simpl; [done|].
  destruct (l !! p) as [x|]; [case_match; [apply IH; by inversion Hes|]|]; apply Forall_app; split; try done.
  by apply Forall_take.
Qed.

Lemma plain_batch t i cs : Forall plain_command cs → Forall plain (batch_entries t i cs).
Proof. intros H. revert i. induction H; intros i; simpl; by constructor. Qed.

Section core.
Context {JW : Json WalOp} {JE : Json (list SSTEntry)} {JM : Json SSTableMeta}.
Context {BL : Bincode LogEntry} {LB : BincodeLaws LogEntry}.
Context {JV : Json Value} {LV : JsonLaws Value}.
Context {JS : Json Snapshot} {LS : JsonLaws Snapshot}.

(** ** Rules for what does not matter *)

Lemma wp_disk {A} (m : M Disk A) (Q : result unit → RaftNode → Prop) n :
  (∀ d, Q (Ok tt) (with_storage d n)) → wp (ignore (on_disk m)) Q n.
Proof. intros H. unfold wp, ignore, on_disk, zoom. destruct (m (storage n)). apply H. Qed.

Lemma wp_persist (Q : result unit → RaftNode → Prop) n :
  (∀ d, Q (Ok tt) (with_storage d n)) → wp persist_meta Q n.
Proof. intros H. unfold persist_meta. do 4 wp_step. by apply wp_disk. Qed.

Lemma wp_adopt t (Q : result unit → RaftNode → Prop) n :
  (∀ d, Q (Ok tt) (with_storage d (with_vote_for None (with_state Follower (with_current_term t n))))) →
  wp (adopt_term t) Q n.
Proof. intros H. unfold adopt_term. do 6 wp_step. by apply wp_persist. Qed.

Lemma wp_touch (Q : result unit → RaftNode → Prop) n :
  Q (Ok tt) (with_last_heartbeat (clock n) n) → wp touch_heartbeat Q n.
Proof. intros H. unfold touch_heartbeat. by wp_step. Qed.

Lemma apply_loop_plain fuel n (Q : result unit → RaftNode → Prop) : Forall plain (log n) →
  (∀ sm la, Q (Ok tt) (with_last_applied la (with_state_machine sm n))) → wp (apply_loop fuel) Q n.
Proof.
  revert n Q. induction fuel as [|fuel IH]; intros n Q Hp HQ.
  { apply (wp_ret tt). specialize (HQ (state_machine n) (last_applied n)). by destruct n. }
  simpl. do 2 wp_step. case_match; [|wp_step; specialize (HQ (state_machine n) (last_applied n)); by destruct n].
  do 2 wp_step. destruct (log n !! _) as [e|] eqn:He;
    [|wp_step; specialize (HQ (state_machine n) (last_applied n)); by destruct n].
  assert (Hc : ∀ cf, le_command e ≠ CInstallConfiguration cf).
  { intros cf E. eapply Forall_lookup_1 in Hp; [|exact He]. unfold plain in Hp. by rewrite E in Hp. }
  wp_step. unfold wp at 1. rewrite apply_command_eq by done. cbn beta iota delta [fst snd]. do 2 wp_step. apply IH; [done|]. intros sm la. apply HQ.
Qed.

Lemma wp_apply_logs (Q : result unit → RaftNode → Prop) n : Forall plain (log n) →
  (∀ sm la, Q (Ok tt) (with_last_applied la (with_state_machine sm n))) → wp apply_logs Q n.
Proof. intros. unfold apply_logs. do 2 wp_step. by apply apply_loop_plain. Qed.

(** ** Votes *)

Lemma request_vote_core args n :
  wp (handle_request_vote args) (λ r n',
    r = Ok (mkVoteResponse (current_term n `max` rv_term args) (vote_decision args n)) ∧
    core_of n' = mkCore (current_term n `max` rv_term args)
      (if vote_decision args n then Some (rv_candidate_id args)
       else if current_term n <? rv_term args then None else vote_for n)
      (if current_term n <? rv_term args then Follower else state n)
      (log n) (commit_index n) (next_index n) (match_index n) (self_id n) (peers n) (current_config n)
      (pending_post_joint_simple n)) n.
Proof.
  unfold handle_request_vote. do 2 wp_step. unfold vote_decision, may_vote.
  destruct (Z.ltb_spec (rv_term args) (current_term n)) as [Hlt|Hge].
  { wp_step. replace (current_term n <? rv_term args) with false by lia.
    replace (rv_term args =? current_term n) with false by lia. simpl. by rewrite Z.max_l by lia. }
  rewrite Z.max_r by lia. wp_step. destruct (Z.ltb_spec (current_term n) (rv_term args)) as [Hlt|Hle].
  - apply wp_adopt. intros d. do 6 wp_step. simpl.
    rewrite (log_up_to_date_ext _ _ n) by done. destruct (log_up_to_date _ _ n).
    + do 3 wp_step. apply wp_persist. intros d'. wp_step. apply wp_touch. by wp_step.
    + by wp_step.
  - wp_step. do 6 wp_step. replace (rv_term args =? current_term n) with true by lia. simpl.
    replace (rv_term args) with (current_term n) by lia.
    destruct ((bool_decide _ || _) && _); [|by wp_step].
    do 3 wp_step. apply wp_persist. intros d'. wp_step. apply wp_touch. by wp_step.
Qed.

(** Does the message pass the term checks? *)
Definition ae_current (args : AppendEntriesArgs) (n : RaftNode) : bool :=
  (current_term n <=? ae_term args) && negb ((ae_term args =? current_term n) && bool_decide (state n = Leader)).

Lemma append_core args n : ae_wf args n → Forall plain (log n) → Forall plain (ae_entries args) →
  wp (handle_append_entries args) (λ r n',
    r = Ok (mkAppendReply (current_term n `max` ae_term args) (ae_accepts args n)) ∧
    core_of n' = if ae_current args n then
      core_of (with_commit_index (ae_commit args n) (with_log (ae_log args n) (with_state Follower
        (with_vote_for (if current_term n <? ae_term args then None else vote_for n)
          (with_current_term (ae_term args) n)))))
      else core_of n) n.
Proof.
  intros [Hp Hi Hu] Hpl Hpe. unfold handle_append_entries, ae_commit, ae_log, ae_accepts, ae_current. do 4 wp_step.
  destruct (Z.ltb_spec (ae_term args) (current_term n)) as [Hlt|Hge].
  { wp_step. replace (current_term n <=? ae_term args) with false by lia. simpl. by rewrite Z.max_l by lia. }
  replace (current_term n <=? ae_term args) with true by lia. rewrite Z.max_r by lia. simpl.
  destruct ((ae_term args =? current_term n) && bool_decide (state n = Leader)) eqn:El.
  { wp_step. simpl. by replace (ae_term args) with (current_term n) by lia. }
  simpl. wp_step.
  eapply (wp_mono _ (λ r n1, r = Ok tt ∧ ∃ d, n1 = with_storage d (with_vote_for
    (if current_term n <? ae_term args then None else vote_for n) (with_current_term (ae_term args) n)))).
  { destruct (Z.ltb_spec (current_term n) (ae_term args)).
    - do 4 wp_step. apply wp_persist. eauto.
    - wp_step. split; [done|]. exists (storage n). replace (ae_term args) with (current_term n) by lia. by destruct n. }
  intros r n1 (-> & d & ->). do 3 wp_step. apply wp_touch. do 4 wp_step. simpl.
  destruct (prev_matches args (log n)) eqn:Em; cbn [negb]; [|by wp_step].
  pose proof (prev_matches_length _ _ Hp Em) as Hl. set (p := Z.to_nat (ae_prev_log_index args)) in *.
  wp_step. match goal with |- wp _ _ ?m => set (n2 := m) end.
  eapply wp_mono; [apply (append_loop_wp (ae_entries args) n2 p Hi); unfold log_len in *; simpl; lia|].
  intros r n3 (-> & d2 & -> & _ & _). do 3 wp_step. cbn [commit_index with_storage with_log].
  change (commit_index n2) with (commit_index n).
  destruct (commit_index n <? ae_leader_commit args).
  - do 2 wp_step. apply wp_apply_logs; [simpl; by apply plain_merge|]. intros sm la. by wp_step.
  - wp_step. wp_step. done.
Qed.

(** The commit index may stay, or move to an index of the current term that a quorum has. *)
Definition may_commit (n : RaftNode) (c : Z) : Prop :=
  c = commit_index n ∨
  state n = Leader ∧ commit_index n < c <= log_len n ∧
  config_quorum_reached (current_config n) (match_index n) (self_id n) (log_len n) c = true ∧
  ∃ e, log n !! Z.to_nat (c - 1) = Some e ∧ le_term e = current_term n.

Lemma maybe_commit_core n : log_len n < 2 ^ 63 → 0 <= commit_index n → Forall plain (log n) →
  wp maybe_commit (λ r n', r = Ok tt ∧ ∃ c, core_of n' = core_of (with_commit_index c n) ∧ may_commit n c) n.
Proof.
  intros Hlen Hc Hp.
  assert (Same : Ok () = Ok () ∧ ∃ c, core_of n = core_of (with_commit_index c n) ∧ may_commit n c)
    by (split; [done|]; exists (commit_index n); split; [done|by left]).
  unfold maybe_commit. do 2 wp_step. case_bool_decide as Hs; simpl; [|by wp_step].
  destruct (quorum_index_spec (current_config n) (match_index n) (self_id n) (log_len n))
    as (Hh & Hq & _); [unfold log_len in *; lia|].
  cbv zeta in *. do 2 wp_step.
  generalize dependent (config_quorum_reached_index (current_config n) (match_index n) (self_id n) (log_len n)).
  intros h Hh Hq. do 2 wp_step. destruct (Z.ltb_spec (commit_index n) h); [|by wp_step].
  do 4 wp_step. unfold log_len in Hh.
  destruct (lookup_lt_is_Some_2 (log n) (Z.to_nat (h - 1))) as [e He]; [lia|]. rewrite He. simpl.
  destruct (Z.eqb_spec (le_term e) (current_term n)); [|by wp_step].
  do 2 wp_step. apply wp_apply_logs; [done|]. intros sm la. split; [done|]. exists h. split; [done|]. right.
  unfold log_len. split_and!; try done; try lia; [apply Hq; lia|eauto].
Qed.

(** ** Replies *)

Definition reply_core (peer : string) (args : AppendEntriesArgs) (reply : AppendReplyArgs) (n n' : RaftNode) : Prop :=
  if ar_success reply then
    let last_idx := u64_add (ae_prev_log_index args) (Z.of_nat (length (ae_entries args))) in
    let n1 := with_next_index (<[peer := u64_add last_idx 1]> (next_index n))
                (with_match_index (<[peer := last_idx]> (match_index n)) n) in
    ∃ c, core_of n' = core_of (with_commit_index c n1) ∧ may_commit n1 c
  else if current_term n <? ar_term reply then
    core_of n' = core_of (with_vote_for None (with_state Follower (with_current_term (ar_term reply) n)))
  else core_of n' = core_of n ∨
    ∃ next, next_index n !! peer = Some next ∧ 1 < next ∧
      core_of n' = core_of (with_next_index (<[peer := next - 1]> (next_index n)) n).

Lemma append_reply_core peer args reply n : log_len n < 2 ^ 63 → 0 <= commit_index n → Forall plain (log n) →
  wp (on_append_reply peer args reply) (λ _ n', reply_core peer args reply n n') n.
Proof.
  intros Hlen Hc Hp. unfold on_append_reply, reply_core. destruct (ar_success reply).
  - do 6 wp_step. match goal with |- wp _ _ ?x => set (n1 := x) end.
    eapply wp_mono; [apply (maybe_commit_core n1); done|]. intros r n' (_ & c & E & Hm). exists c. by rewrite E.
  - do 2 wp_step. destruct (current_term n <? ar_term reply); [by apply wp_adopt|]. do 2 wp_step.
    destruct (next_index n !! peer) as [next|]; simpl; [|wp_step; by left].
    destruct (Z.ltb_spec 1 next); wp_step; [right; eauto|by left].
Qed.

(** ** Elections *)

Definition lead (n : RaftNode) : RaftNode :=
  with_next_index (list_to_map ((λ p, (p, log_len n + 1)) <$> peers n)) (with_state Leader n).

Lemma wp_become_leader (Q : result unit → RaftNode → Prop) n : state n ≠ Leader →
  (∀ hb, Q (Ok tt) (with_last_heartbeat hb (lead n))) → wp become_leader Q n.
Proof.
  intros Hs HQ. unfold become_leader. do 2 wp_step. rewrite bool_decide_false by done.
  do 4 wp_step. by apply wp_touch.
Qed.

Definition promoted (n : RaftNode) : RaftNode :=
  with_vote_for (Some (self_id n)) (with_state Candidate (with_current_term (u64_add (current_term n) 1) n)).

Lemma wp_promote (Q : result unit → RaftNode → Prop) n :
  (∀ d hb, Q (Ok tt) (with_last_heartbeat hb (with_storage d (promoted n)))) → wp promote_to_candidate_locked Q n.
Proof.
  intros HQ. unfold promote_to_candidate_locked. do 7 wp_step. apply wp_persist. intros d. by apply wp_touch.
Qed.

Lemma vote_reply_core total term votes reply n :
  wp (on_vote_reply total term votes reply) (λ r n',
    r = Ok (if vr_granted reply then S votes else votes) ∧
    core_of n' =
      if vr_granted reply then
        if (Nat.div2 total <? S votes)%nat && (bool_decide (state n = Candidate) && (current_term n =? term))
        then core_of (lead n) else core_of n
      else if term <? vr_term reply
      then core_of (with_vote_for None (with_state Follower (with_current_term (vr_term reply) n)))
      else core_of n) n.
Proof.
  unfold on_vote_reply. destruct (vr_granted reply).
  - wp_step. destruct (Nat.div2 total <? S votes)%nat; cbn [andb]; [|do 2 wp_step; done].
    do 2 wp_step. unfold id. case_bool_decide as Hs; cbn [andb]; [|do 2 wp_step; done].
    destruct (current_term n =? term); [|do 2 wp_step; done].
    apply wp_become_leader; [congruence|]. intros hb. by wp_step.
  - destruct (term <? vr_term reply); [|by wp_step]. wp_step. apply wp_adopt. intros d. by wp_step.
Qed.

(** [request_votes] asks, or leads at once without peers. *)
Lemma request_votes_core n :
  wp request_votes (λ r n',
    if bool_decide (peers n = []) then r = Ok [] ∧
      core_of n' = if bool_decide (state n = Candidate) then core_of (lead n) else core_of n
    else n' = n ∧ r = Ok ((λ p, (p, RequestVote (vo_args (vote_round (current_term n) n)))) <$> peers n)) n.
Proof.
  unfold request_votes. do 2 wp_step.
  assert (E : vo_peers (vote_round (current_term n) n) = peers n ∧ vo_term (vote_round (current_term n) n) = current_term n).
  { unfold vote_round. by destruct (get_last_log_info n). }
  destruct E as [Ep Et]. unfold total_nodes. rewrite Ep, Et. case_bool_decide as Hp.
  - rewrite Hp. simpl. do 3 wp_step. unfold id. rewrite Z.eqb_refl, andb_true_r.
    case_bool_decide as Hs; [|do 2 wp_step; done]. apply wp_become_leader; [congruence|]. intros hb. by wp_step.
  - destruct (Nat.eqb_spec (length (peers n) + 1) 1) as [E|_]; [|by wp_step].
    destruct (peers n); [done|simpl in E; lia].
Qed.

(** Entering a pre-election only changes the state, unless there are no peers. *)
Lemma pre_candidate_core v n : vo_peers v = peers n →
  wp (enter_pre_candidate v) (λ r n',
    (∀ out to msg, r = Ok out → (to, msg) ∈ out → ∃ args, msg = RequestPreVote args) ∧
    (core_of n' = core_of n ∨
     state n = Follower ∧
     (core_of n' = core_of (with_state PreCandidate n) ∨ peers n = [] ∧ core_of n' = core_of (lead (promoted n))))) n.
Proof.
  intros Hp. assert (Hnil : ∀ (out : outgoing) to msg, Ok [] = Ok out → (to, msg) ∈ out → ∃ args, msg = RequestPreVote args).
  { intros out to msg [= <-] Hin. by apply not_elem_of_nil in Hin. }
  unfold enter_pre_candidate. do 2 wp_step. unfold id.
  case_bool_decide as Hs; cbn [andb]; [|wp_step; split; [done|by left]].
  destruct (u64_add (current_term n) 1 =? vo_term v); [|wp_step; split; [done|by left]].
  do 2 wp_step. unfold total_nodes. rewrite Hp. destruct (peers n) eqn:Ep.
  - cbn [length Nat.add Nat.eqb]. do 3 wp_step. rewrite bool_decide_true by done. wp_step. apply wp_promote.
    intros d hb. unfold become_leader_checked. do 3 wp_step. rewrite bool_decide_true by done. cbn [negb].
    wp_step. apply wp_become_leader; [discriminate|]. intros hb'. do 3 wp_step.
    split; [done|]. right. split; [done|]. by right.
  - cbn [length Nat.add Nat.eqb]. replace (length l + 1 =? 0)%nat with false by (symmetry; apply Nat.eqb_neq; lia).
    wp_step. split; [|right; split; [done|by left]].
    intros out to msg [= <-] Hin.
    apply elem_of_cons in Hin as [[= -> ->]|Hin]; [eauto|]. apply list_elem_of_fmap in Hin as (q & [= -> ->] & _). eauto.
Qed.

(** The reply to a probe: back to follower, or nothing, or a candidacy. *)
Lemma pre_vote_reply_core total t votes reply n :
  wp (process_pre_vote_reply total t votes reply) (λ r n',
    (∃ v, r = Ok (v, [])) ∧
      (core_of n' = core_of n ∨ state n = PreCandidate ∧ core_of n' = core_of (with_state Follower n)) ∨
    state n = PreCandidate ∧
     ∃ d hb, let n1 := with_last_heartbeat hb (with_storage d (promoted n)) in
       (request_votes n1).2 = n' ∧
       match (request_votes n1).1 with Ok out => r = Ok (S votes, out) | Err e => r = Err e end) n.
Proof.
  unfold process_pre_vote_reply. destruct (t <? vr_term reply).
  { do 3 wp_step. left. split; [eauto|]. case_bool_decide; [right; auto|by left]. }
  destruct (negb (vr_granted reply)); [wp_step; left; eauto|].
  destruct (S votes <=? Nat.div2 total)%nat; [wp_step; left; eauto|].
  do 2 wp_step. case_bool_decide as Hs; simpl; [|wp_step; left; eauto]. wp_step. apply wp_promote. intros d hb.
  wp_step. unfold wp at 1. destruct (request_votes _) as [[out|e] n'] eqn:E; cbn [fst snd].
  - wp_step. right. split; [done|]. exists d, hb. cbv zeta. by rewrite E.
  - right. split; [done|]. exists d, hb. cbv zeta. by rewrite E.
Qed.

(** ** Proposals *)

Lemma propose_batch_core cs n :
  wp (propose_batch cs) (λ _ n', core_of n' = core_of n ∨
    state n = Leader ∧ ∃ k, core_of n' =
      core_of (with_log (log n ++ take k (batch_entries (current_term n) (log_len n + 1) cs)) n)) n.
Proof.
  unfold propose_batch. do 2 wp_step. case_bool_decide as Hs; [|wp_step; by left]. do 2 wp_step.
  unfold wp, catch. pose proof (propose_loop_wp cs (log_len n + 1) n) as H. unfold wp in H.
  destruct (propose_loop _ _ n) as [[] n']; cbn [fst snd] in *; destruct H as (k & d & _ & _ & -> & _);
    (right; split; [done|]; by exists k).
Qed.

Lemma propose_abort_core tx n :
  wp (propose_abort_tx tx) (λ _ n', core_of n' = core_of n ∨
    state n = Leader ∧ core_of n' =
      core_of (with_log (log n ++ [mkLogEntry (current_term n) (log_len n + 1) (CDecideTx tx Abort)]) n)) n.
Proof.
  unfold propose_abort_tx. do 2 wp_step. case_bool_decide as Hs; simpl; [|wp_step; by left]. do 2 wp_step.
  destruct (is_tx_pending _ _); simpl; [|wp_step; by left]. unfold wp, catch.
  pose proof (append_own_wp (CDecideTx tx Abort) n) as H. cbv zeta in H. unfold wp in H.
  destruct (append_own _ n) as [[i|e] n']; cbn [fst snd] in *; destruct H as (d & _ & H & _); [destruct H as [_ ->]|subst n'].
  - right. auto.
  - by left.
Qed.

(** ** The rest *)

Definition same_core (n n' : RaftNode) : Prop := core_of n' = core_of n.
#[export] Instance same_core_preorder : PreOrder same_core.
Proof. split; [by intros n|]. unfold same_core. intros n1 n2 n3 H1 H2. congruence. Qed.

Lemma same_on_disk {A} (m : M Disk A) : keeps same_core (on_disk m).
Proof. intros n. unfold on_disk, zoom. by destruct (m (storage n)). Qed.
Lemma same_on_sm {A} (m : M StateMachine A) : keeps same_core (on_sm m).
Proof. intros n. unfold on_sm, zoom. by destruct (m (state_machine n)). Qed.
Lemma same_expect {A} (m : M RaftNode A) : keeps same_core m → keeps same_core (expect m).
Proof. intros H n. specialize (H n). unfold expect. by destruct (m n) as [[]]. Qed.
Lemma same_catch {A B} (m : M RaftNode A) (f : A → B) g : keeps same_core m → keeps same_core (catch m f g).
Proof. intros H n. specialize (H n). unfold catch. by destruct (m n) as [[]]. Qed.

Lemma snapshot_core th : keeps same_core (maybe_snapshot th).
Proof.
  unfold maybe_snapshot. keep; try apply same_on_disk.
  - intros n. unfold on_disk_read. by destruct (wal_size_bytes _).
  - apply same_expect, same_on_sm.
  - apply same_catch, same_on_disk.
Qed.

Lemma pre_vote_core args : keeps same_core (handle_pre_vote args).
Proof. unfold handle_pre_vote, touch_heartbeat. keep. by intros n. Qed.

(** The transaction vote adopts a term, or moves the commit index to the one it is given. *)
Lemma tx_vote_core req n : Forall plain (log n) →
  wp (handle_tx_vote_request req) (λ _ n',
    core_of n' = core_of n ∨
    current_term n < tv_term req ∧
      core_of n' = core_of (with_vote_for None (with_state Follower (with_current_term (tv_term req) n))) ∨
    commit_index n < tv_last_log_index req <= log_len n ∧
      core_of n' = core_of (with_commit_index (tv_last_log_index req) n)) n.
Proof.
  intros Hp. unfold handle_tx_vote_request. do 2 wp_step.
  destruct (tv_term req <? current_term n); [wp_step; by left|].
  destruct (Z.ltb_spec (current_term n) (tv_term req)).
  { wp_step. apply wp_adopt. intros d. wp_step. auto. }
  do 4 wp_step. destruct (log_up_to_date _ _ n); simpl; [|wp_step; by left]. do 3 wp_step.
  set (n1 := if (_ && _) then _ else _).
  assert (Hn1 : log n1 = log n ∧ (core_of n1 = core_of n ∨ commit_index n < tv_last_log_index req <= log_len n ∧
    core_of n1 = core_of (with_commit_index (tv_last_log_index req) n))).
  { subst n1. destruct (_ && _) eqn:E; [|auto]. split; [done|]. right. split; [lia|done]. }
  destruct Hn1 as [Hl Hn1]. apply wp_apply_logs; [by rewrite Hl|]. intros sm la. do 2 wp_step.
  match goal with |- wp ?m _ ?x => assert (Hk : keeps same_core m) end.
  { keep. apply same_on_sm. }
  eapply wp_mono; [by apply keeps_wp|]. unfold same_core. intros r n' ->.
  destruct Hn1 as [E|[H1 E]]; [left|right; right; split; [done|]]; by rewrite <- E.
Qed.

End core.
