(* ===== verification/NodeApplied.v ===== *)
(** * What a node has applied

    A critical section leaves the state machine of a node alone, or ends by applying
    the log up to the commit index. So the state machine always is the reference model
    run over the first [last_applied] entries. *)

From stdpp Require Import prelude gmap strings sorting countable list.
From S2P Require Import Prelude Serde Protocol StateMachine StateMachineProps Storage StorageProps Rpc.
From S2P Require Import Node NodeVotes ReferenceModel Refinement NodeLog NodeReplay NodeLeader NodeCore.
#[local] Open Scope Z_scope.

Section applied.
Context {JW : Json WalOp} {LW : JsonLaws WalOp}.
Context {JE : Json (list SSTEntry)} {LE : JsonLaws (list SSTEntry)}.
Context {JM : Json SSTableMeta} {LM : JsonLaws SSTableMeta}.
Context {BL : Bincode LogEntry} {LB : BincodeLaws LogEntry}.
Context {JV : Json Value} {LV : JsonLaws Value}.
Context {JS : Json Snapshot} {LS : JsonLaws Snapshot}.

(** ** Sections that apply nothing *)

Definition quiet (s s' : StateMachine) : Prop := ∀ k x, refines k x s → refines k x s'.

Definition idle (n n' : RaftNode) : Prop :=
  last_applied n' = last_applied n ∧ quiet (state_machine n) (state_machine n').

(** ... nor touch the log or the commit index. *)
Definition still (n n' : RaftNode) : Prop := idle n n' ∧ log n' = log n ∧ commit_index n' = commit_index n.

#[export] Instance idle_preorder : PreOrder idle.
Proof.
  split; [by intros n; split; [|intros k x]|]. intros n1 n2 n3 [E1 Q1] [E2 Q2].
  split; [congruence|]. intros k x Hx. by apply Q2, Q1.
Qed.
#[export] Instance still_preorder : PreOrder still.
Proof.
  split; [by intros n|]. intros n1 n2 n3 (I1 & L1 & C1) (I2 & L2 & C2). split_and!; [by etransitivity|congruence..].
Qed.

Lemma idle_modify (f : RaftNode → RaftNode) :
  (∀ n, last_applied (f n) = last_applied n ∧ state_machine (f n) = state_machine n) → keeps idle (modify f).
Proof. intros Hf. apply keeps_modify. intros n. destruct (Hf n) as [E1 E2]. split; [done|]. rewrite E2. by intros k x. Qed.

Lemma idle_on_disk {A} (m : M Disk A) : keeps idle (on_disk m).
Proof. apply keeps_zoom. intros n. split; [done|]. by intros k x. Qed.

Lemma idle_on_disk_read {A} (f : Disk → A * Disk) : keeps idle (on_disk_read f).
Proof. intros n. unfold on_disk_read. destruct (f (storage n)). split; [done|]. by intros k x. Qed.

Lemma idle_catch {A B} (m : M RaftNode A) (f : A → B) g : keeps idle m → keeps idle (catch m f g).
Proof. intros Hm n. unfold catch. specialize (Hm n). by destruct (m n) as [[]]. Qed.

Lemma idle_expect {A} (m : M RaftNode A) : keeps idle m → keeps idle (expect m).
Proof. intros Hm n. unfold expect. specialize (Hm n). by destruct (m n) as [[]]. Qed.

Lemma still_on_sm {A} (m : M StateMachine A) : keeps quiet m → keeps still (on_sm m).
Proof. intros Hm. apply keeps_zoom. intros n. split; [|done]. split; [done|]. apply Hm. Qed.

Lemma idle_on_sm {A} (m : M StateMachine A) : keeps quiet m → keeps idle (on_sm m).
Proof. intros Hm n. by apply still_on_sm. Qed.

Lemma record_vote_quiet tx voter v : keeps quiet (record_vote tx voter v).
Proof.
  apply keeps_modify. intros s k x [[Hc Hp] Hw Hr Hf]. destruct (pending_txs s !! tx) as [p|] eqn:E; [|by split].
  split; [split|by eapply wf_ext; [..|done]|done|done]; [done|].
  simpl. rewrite fmap_insert, Hp, insert_id; [done|]. rewrite <- Hp, lookup_fmap, E. done.
Qed.

Lemma snapshot_data_quiet : keeps quiet snapshot_data.
Proof.
  intros s k x HR. destruct (snapshot_data s) as [r s'] eqn:E.
  destruct (wp_elim _ _ _ _ _ (snapshot_data_wp s (rf_wf _ _ _ HR)) E) as (_ & Hn & _).
  by destruct (Hn (rf_faults _ _ _ HR)) as [_ ->].
Qed.
End applied.

#[export] Hint Resolve idle_on_disk idle_on_disk_read record_vote_quiet snapshot_data_quiet still_on_sm idle_on_sm : oxide.
#[export] Hint Extern 1 (keeps idle (modify _)) => (apply idle_modify; intros; repeat case_match; done) : oxide.
#[export] Hint Extern 1 (keeps idle (catch _ _ _)) => (apply idle_catch; keep) : oxide.
#[export] Hint Extern 1 (keeps idle (expect _)) => (apply idle_expect; keep) : oxide.

Section sections.
Context {JW : Json WalOp} {LW : JsonLaws WalOp}.
Context {JE : Json (list SSTEntry)} {LE : JsonLaws (list SSTEntry)}.
Context {JM : Json SSTableMeta} {LM : JsonLaws SSTableMeta}.
Context {BL : Bincode LogEntry} {LB : BincodeLaws LogEntry}.
Context {JV : Json Value} {LV : JsonLaws Value}.
Context {JS : Json Snapshot} {LS : JsonLaws Snapshot}.

Lemma idle_touch : keeps idle touch_heartbeat.
Proof. unfold touch_heartbeat. keep. Qed.
Lemma idle_persist : keeps idle persist_meta.
Proof. unfold persist_meta. keep. Qed.
#[local] Hint Resolve idle_touch idle_persist : oxide.
Lemma idle_adopt t : keeps idle (adopt_term t).
Proof. unfold adopt_term. keep. Qed.
#[local] Hint Resolve idle_adopt : oxide.
Lemma idle_request_vote args : keeps idle (handle_request_vote args).
Proof. unfold handle_request_vote. keep. Qed.
Lemma idle_pre_vote args : keeps idle (handle_pre_vote args).
Proof. unfold handle_pre_vote. keep. Qed.
Lemma idle_append_entry e : keeps idle (append_entry e).
Proof. unfold append_entry. keep. Qed.
#[local] Hint Resolve idle_append_entry : oxide.
Lemma idle_append_loop es : keeps idle (append_loop es).
Proof. induction es; simpl; keep. Qed.
Lemma idle_become_leader : keeps idle become_leader.
Proof. unfold become_leader. keep. Qed.
Lemma idle_promote : keeps idle promote_to_candidate_locked.
Proof. unfold promote_to_candidate_locked. keep. Qed.
#[local] Hint Resolve idle_become_leader idle_promote : oxide.
Lemma idle_vote_reply total t votes reply : keeps idle (on_vote_reply total t votes reply).
Proof. unfold on_vote_reply. keep. Qed.
Lemma idle_request_votes : keeps idle request_votes.
Proof. unfold request_votes. keep. Qed.
#[local] Hint Resolve idle_request_votes : oxide.
Lemma idle_pre_vote_reply total t votes reply : keeps idle (process_pre_vote_reply total t votes reply).
Proof. unfold process_pre_vote_reply. keep. Qed.
Lemma idle_pre_candidate v : keeps idle (enter_pre_candidate v).
Proof. unfold enter_pre_candidate, become_leader_checked. keep. Qed.
Lemma idle_append_args v peer : keeps idle (append_args v peer).
Proof. unfold append_args. keep. Qed.
Lemma idle_append_own cmd : keeps idle (append_own cmd).
Proof. unfold append_own. keep. Qed.
#[local] Hint Resolve idle_append_own : oxide.
Lemma idle_propose_loop cs i : keeps idle (propose_loop cs i).
Proof. revert i. induction cs; intros i; simpl; keep. Qed.
#[local] Hint Resolve idle_propose_loop : oxide.
Lemma idle_propose_batch cs : keeps idle (propose_batch cs).
Proof. unfold propose_batch. keep. Qed.
Lemma idle_abort_tx tx : keeps idle (propose_abort_tx tx).
Proof. unfold propose_abort_tx. keep. Qed.
Lemma idle_snapshot th : keeps idle (maybe_snapshot th).
Proof. unfold maybe_snapshot. keep. Qed.
Lemma idle_step_down t : keeps idle (tx_step_down t).
Proof. unfold tx_step_down. keep. Qed.

(** ** Sections that apply the log *)

Definition progress (n n' : RaftNode) : Prop :=
  idle n n' ∨ ∃ m, idle n m ∧ still (apply_logs m).2 n'.

Lemma idle_progress {A} (m : M RaftNode A) : keeps idle m → keeps progress m.
Proof. intros Hm n. by left. Qed.

Lemma progress_apply_logs : keeps progress apply_logs.
Proof. intros n. right. by exists n. Qed.

Lemma progress_before {A B} (m : M RaftNode A) (k : A → M RaftNode B) :
  keeps idle m → (∀ a, keeps progress (k a)) → keeps progress (m ≫= k).
Proof.
  intros Hm Hk n. specialize (Hm n). unfold mbind, M_bind. destruct (m n) as [[a|e] n1]; cbn [snd] in *; [|by left].
  destruct (Hk a n1) as [Hi|(m1 & Hi & Hst)]; [left|right; exists m1; split; [|done]]; by etransitivity.
Qed.

Lemma progress_after {A B} (m : M RaftNode A) (k : A → M RaftNode B) :
  keeps progress m → (∀ a, keeps still (k a)) → keeps progress (m ≫= k).
Proof.
  intros Hm Hk n. specialize (Hm n). unfold mbind, M_bind. destruct (m n) as [[a|e] n1]; cbn [snd] in *; [|done].
  specialize (Hk a n1). destruct Hm as [Hi|(m1 & Hi & Hst)].
  - left. etransitivity; [exact Hi|apply Hk].
  - right. exists m1. split; [done|]. by etransitivity.
Qed.

(** Follows the structure of a section to the place where it applies the log. *)
Ltac advance := repeat
  match goal with
  | |- keeps progress _ => apply idle_progress; keep; fail
  | |- keeps progress (mbind _ _) => apply progress_before; [keep; fail|intros ?]
  | |- keeps progress (match ?x with _ => _ end) => destruct x
  | |- keeps progress _ => solve [eauto with oxide]
  end.

#[local] Hint Resolve progress_apply_logs idle_append_loop : oxide.

Lemma progress_maybe_commit : keeps progress maybe_commit.
Proof. unfold maybe_commit. advance. Qed.
#[local] Hint Resolve progress_maybe_commit : oxide.

Lemma progress_append_reply peer args reply : keeps progress (on_append_reply peer args reply).
Proof. unfold on_append_reply. advance. Qed.

Lemma progress_append_entries args : keeps progress (handle_append_entries args).
Proof. unfold handle_append_entries. advance. apply progress_after; [advance|keep]. Qed.

Lemma progress_send_appends v ps : keeps idle (send_appends v ps).
Proof. induction ps; simpl; keep. apply idle_append_args. Qed.
#[local] Hint Resolve progress_send_appends : oxide.

Lemma progress_sync_logs : keeps progress sync_logs.
Proof. unfold sync_logs. advance. apply progress_after; [advance|keep]. Qed.

Lemma progress_tx_vote req : keeps progress (handle_tx_vote_request req).
Proof. unfold handle_tx_vote_request. advance. apply progress_after; [advance|keep]. Qed.

Lemma progress_rpc msg : (∀ args, msg ≠ InstallSnapshot args) → keeps progress (handle_raft_rpc msg).
Proof.
  intros Hm. destruct msg; try (apply idle_progress; unfold handle_raft_rpc; keep; fail).
  - apply idle_progress. unfold handle_raft_rpc. keep. apply idle_request_vote.
  - apply progress_after; [apply progress_append_entries|keep].
  - by destruct (Hm args).
  - apply idle_progress. unfold handle_raft_rpc. keep. apply idle_pre_vote.
Qed.

(** ** The invariant *)

Lemma apply_all_cost x c1 c2 : total_cost x (c1 ++ c2) = total_cost x c1 + total_cost (apply_all c1 x) c2.
Proof.
  revert x. induction c1 as [|c c1 IH]; intros x; simpl; [done|]. rewrite IH. unfold apply_all. simpl. lia.
Qed.

Lemma slice_app a b c l : 0 <= a <= b → b <= c → slice a c l = slice a b l ++ slice b c l.
Proof.
  intros Hab Hbc. unfold slice. rewrite <- fmap_app. f_equal.
  replace (Z.to_nat (c - a)) with (Z.to_nat (b - a) + Z.to_nat (c - b))%nat by lia.
  rewrite <- take_take_drop, drop_drop. do 4 f_equal. lia.
Qed.

Lemma slice_take (k : nat) c l l' : take k l = take k l' → c <= Z.of_nat k → slice 0 c l = slice 0 c l'.
Proof.
  intros E Hc. unfold slice. rewrite !drop_0, Z.sub_0_r. f_equal.
  transitivity (take (Z.to_nat c) (take k l)); [|rewrite E]; rewrite take_take; f_equal; lia.
Qed.

Section invariant.
Context (B : Z) (x0 : gmap string string * gmap string (list TxOp)).

(** The state machine is the reference model over the applied entries, while the table numbers last. *)
Record applied (n : RaftNode) : Prop := {
  ad_bounds : 0 <= last_applied n <= commit_index n;
  ad_refines : let cmds := slice 0 (last_applied n) (log n) in
    total_cost x0 cmds <= B → refines (B - total_cost x0 cmds) (apply_all cmds x0) (state_machine n);
}.

Lemma applied_still n n' : applied n → still n n' → applied n'.
Proof.
  intros [Hb HR] [[El Q] [Eg Ec]]. split; rewrite El; [by rewrite Ec|]. rewrite Eg. intros cmds Hc. by apply Q, HR.
Qed.

Lemma apply_loop_reaches fuel n : 0 <= last_applied n → commit_index n <= log_len n →
  (Z.to_nat (commit_index n - last_applied n) <= fuel)%nat →
  wp (apply_loop fuel) (λ _ n', last_applied n' = last_applied n `max` commit_index n) n.
Proof.
  revert n. induction fuel as [|fuel IH]; intros n Ha Hc Hf; [apply (wp_ret tt); lia|].
  simpl. do 2 wp_step. destruct (Z.ltb_spec (last_applied n) (commit_index n)); [|wp_step; lia].
  unfold log_len in Hc. do 2 wp_step.
  destruct (lookup_lt_is_Some_2 (log n) (Z.to_nat (last_applied n))) as [e He]; [lia|]. rewrite He.
  wp_step. unfold wp at 1. destruct (apply_command_frame (le_command e) n) as [-> F]. set (n1 := (apply_command _ n).2) in *.
  do 2 wp_step. destruct F as (Fa & Fc & _ & _ & _ & _ & _ & _ & Fl & _). apply prefix_length in Fl.
  eapply wp_mono; [apply IH; unfold log_len; simpl; lia|]. intros r n2. simpl. lia.
Qed.

Lemma apply_logs_applied m : applied m → commit_index m <= log_len m → wp apply_logs (λ _ m', applied m') m.
Proof.
  intros [Hb HR] Hc. set (c1 := slice 0 (last_applied m) (log m)) in *.
  set (c2 := slice (last_applied m) (commit_index m) (log m)).
  assert (Es : slice 0 (commit_index m) (log m) = c1 ++ c2) by (apply slice_app; lia).
  pose proof (apply_loop_reaches (Z.to_nat (commit_index m - last_applied m)) m ltac:(lia) Hc ltac:(lia)) as Hreach.
  pose proof (apply_logs_frame m) as Hframe. unfold wp in *.
  change (apply_logs m) with (apply_loop (Z.to_nat (commit_index m - last_applied m)) m) in *.
  destruct (apply_loop _ m) as [r m'] eqn:El. cbn [fst snd] in *. destruct Hframe as (_ & F & _).
  destruct F as (_ & Fc & _ & _ & _ & _ & _ & _ & Fl & _). simpl in Fc, Fl.
  split; [lia|]. cbv zeta. rewrite Hreach, Z.max_r, (slice_prefix _ _ (log m)), Es by (done || unfold log_len in *; lia).
  rewrite apply_all_cost, apply_all_app. intros Hcost. pose proof (total_cost_nonneg (apply_all c1 x0) c2).
  pose proof (apply_loop_refines (Z.to_nat (commit_index m - last_applied m)) m (apply_all c1 x0)
    (B - (total_cost x0 c1 + total_cost (apply_all c1 x0) c2)) ltac:(lia) ltac:(lia) Hc ltac:(lia)) as HW.
  unfold wp in HW. rewrite El in HW. apply HW. fold c2.
  replace (total_cost (apply_all c1 x0) c2 + _) with (B - total_cost x0 c1) by lia. apply HR. lia.
Qed.

Lemma progress_applied n n' : applied n → progress n n' → Forall plain (log n') →
  commit_index n <= commit_index n' <= log_len n' →
  take (Z.to_nat (commit_index n)) (log n') = take (Z.to_nat (commit_index n)) (log n) → applied n'.
Proof.
  intros [Hb HR] Hp Hpl Hc Ht.
  assert (Es : slice 0 (last_applied n) (log n') = slice 0 (last_applied n) (log n)) by (eapply slice_take; [exact Ht|lia]).
  destruct Hp as [[El Q]|(m & [El Q] & Hst)].
  - split; rewrite El; [lia|]. rewrite Es. intros cmds Hcost. by apply Q, HR.
  - destruct (apply_logs m) as [r m'] eqn:Em. cbn [snd] in Hst. pose proof Hst as (_ & Eg & Ec).
    destruct (wp_elim _ _ _ _ _ (apply_logs_frame m) Em) as (_ & F & _).
    destruct F as (_ & Fc & _ & _ & _ & _ & _ & _ & Fl & _). simpl in Fc, Fl.
    assert (Hpm : Forall plain (log m)) by (rewrite Eg in Hpl; destruct Fl as [z Hz]; rewrite Hz in Hpl; by apply Forall_app in Hpl as [? _]).
    assert (Hlog : wp apply_logs (λ _ m', log m' = log m) m) by (by apply wp_apply_logs).
    apply (wp_elim _ _ _ _ _ Hlog) in Em as Elog.
    eapply applied_still; [|exact Hst]. assert (Ha : wp apply_logs (λ _ m', applied m') m); [|by apply (wp_elim _ _ _ _ _ Ha) in Em].
    apply apply_logs_applied; [|unfold log_len in *; rewrite <- Elog, <- Eg, <- Fc, <- Ec; lia].
    split; rewrite El; [lia|]. rewrite <- Elog, <- Eg, Es. intros cmds Hcost. by apply Q, HR.
Qed.
End invariant.
End sections.
