(* ===== verification/NodeLease.v ===== *)
(** * The lease of a leader

    [last_quorum_heartbeat_at] is when the node last took an acknowledgement; nothing else moves it. A node
    acknowledges entries only as a follower, in the term of their leader. *)

From stdpp Require Import prelude gmap strings sorting countable list.
From S2P Require Import Prelude Serde Protocol StateMachine Storage Rpc Node.
#[local] Open Scope Z_scope.

Definition same_lease (n n' : RaftNode) : Prop := last_quorum_heartbeat_at n' = last_quorum_heartbeat_at n.

(** The role and the term. *)
Definition same_office (n n' : RaftNode) : Prop := state n' = state n ∧ current_term n' = current_term n.

#[export] Instance same_lease_preorder : PreOrder same_lease.
Proof. split; [done|]. intros n1 n2 n3 E1 E2. by etransitivity. Qed.
#[export] Instance same_office_preorder : PreOrder same_office.
Proof. split; [done|]. intros n1 n2 n3 [E1 E2] [E3 E4]. split; congruence. Qed.

(** Relations between fields that the files and the state machine have no part in. *)
Section outside.
Context (R : relation RaftNode) `{!PreOrder R}.
Context (HR : ∀ n d, R n (with_storage d n)) (HS : ∀ n sm, R n (with_state_machine sm n)).

Lemma outside_on_disk {A} (m : M Disk A) : keeps R (on_disk m).
Proof. apply keeps_zoom. intros n. apply HR. Qed.
Lemma outside_on_disk_read {A} (f : Disk → A * Disk) : keeps R (on_disk_read f).
Proof. intros n. unfold on_disk_read. destruct (f (storage n)). apply HR. Qed.
Lemma outside_on_sm {A} (m : M StateMachine A) : keeps R (on_sm m).
Proof. apply keeps_zoom. intros n. apply HS. Qed.
Lemma outside_catch {A B} (m : M RaftNode A) (f : A → B) g : keeps R m → keeps R (catch m f g).
Proof. intros Hm n. unfold catch. specialize (Hm n). by destruct (m n) as [[]]. Qed.
Lemma outside_expect {A} (m : M RaftNode A) : keeps R m → keeps R (expect m).
Proof. intros Hm n. unfold expect. specialize (Hm n). by destruct (m n) as [[]]. Qed.
End outside.

#[local] Hint Extern 1 (keeps _ (on_disk _)) => (by apply outside_on_disk) : oxide.
#[local] Hint Extern 1 (keeps _ (on_disk_read _)) => (by apply outside_on_disk_read) : oxide.
#[local] Hint Extern 1 (keeps _ (on_sm _)) => (by apply outside_on_sm) : oxide.
#[local] Hint Extern 1 (keeps _ (catch _ _ _)) => (apply outside_catch; keep) : oxide.
#[local] Hint Extern 1 (keeps _ (expect _)) => (apply outside_expect; keep) : oxide.
#[local] Hint Extern 1 (keeps _ (modify _)) => (apply keeps_modify; intros; unfold same_lease, same_office; simpl; repeat case_match; done) : oxide.

Section sections.
Context {JW : Json WalOp} {JE : Json (list SSTEntry)} {JM : Json SSTableMeta}.
Context {BL : Bincode LogEntry} {JV : Json Value} {JS : Json Snapshot}.

(** ** Applying and appending change neither *)

Lemma lease_append_own cmd : keeps same_lease (append_own cmd).
Proof. unfold append_own. keep. Qed.
Lemma office_append_own cmd : keeps same_office (append_own cmd).
Proof. unfold append_own. keep. Qed.
#[local] Hint Resolve lease_append_own office_append_own : oxide.
Lemma lease_apply_command cmd : keeps same_lease (apply_command cmd).
Proof. unfold apply_command, install_configuration. keep. Qed.
Lemma office_apply_command cmd : keeps same_office (apply_command cmd).
Proof. unfold apply_command, install_configuration. keep. Qed.
#[local] Hint Resolve lease_apply_command office_apply_command : oxide.
Lemma lease_apply_loop fuel : keeps same_lease (apply_loop fuel).
Proof. induction fuel; simpl; keep. Qed.
Lemma office_apply_loop fuel : keeps same_office (apply_loop fuel).
Proof. induction fuel; simpl; keep. Qed.
#[local] Hint Resolve lease_apply_loop office_apply_loop : oxide.
Lemma lease_apply_logs : keeps same_lease apply_logs.
Proof. unfold apply_logs. keep. Qed.
Lemma office_apply_logs : keeps same_office apply_logs.
Proof. unfold apply_logs. keep. Qed.
#[local] Hint Resolve lease_apply_logs office_apply_logs : oxide.
Lemma lease_append_loop es : keeps same_lease (append_loop es).
Proof. induction es; simpl; unfold append_entry; keep. Qed.
Lemma office_append_loop es : keeps same_office (append_loop es).
Proof. induction es; simpl; unfold append_entry; keep. Qed.
#[local] Hint Resolve lease_append_loop office_append_loop : oxide.

(** ** The lease *)

Lemma lease_maybe_commit : keeps same_lease maybe_commit.
Proof. unfold maybe_commit. keep. Qed.
Lemma lease_touch : keeps same_lease touch_heartbeat.
Proof. unfold touch_heartbeat. keep. Qed.
Lemma lease_persist : keeps same_lease persist_meta.
Proof. unfold persist_meta. keep. Qed.
#[local] Hint Resolve lease_maybe_commit lease_touch lease_persist : oxide.
Lemma lease_adopt t : keeps same_lease (adopt_term t).
Proof. unfold adopt_term. keep. Qed.
#[local] Hint Resolve lease_adopt : oxide.
Lemma lease_become_leader : keeps same_lease become_leader.
Proof. unfold become_leader. keep. Qed.
Lemma lease_promote : keeps same_lease promote_to_candidate_locked.
Proof. unfold promote_to_candidate_locked. keep. Qed.
#[local] Hint Resolve lease_become_leader lease_promote : oxide.
Lemma lease_request_votes : keeps same_lease request_votes.
Proof. unfold request_votes. keep. Qed.
#[local] Hint Resolve lease_request_votes : oxide.
Lemma lease_vote_reply total t votes reply : keeps same_lease (on_vote_reply total t votes reply).
Proof. unfold on_vote_reply. keep. Qed.
Lemma lease_pre_vote_reply total t votes reply : keeps same_lease (process_pre_vote_reply total t votes reply).
Proof. unfold process_pre_vote_reply. keep. Qed.
Lemma lease_pre_candidate v : keeps same_lease (enter_pre_candidate v).
Proof. unfold enter_pre_candidate, become_leader_checked. keep. Qed.
Lemma lease_append_args v peer : keeps same_lease (append_args v peer).
Proof. unfold append_args. keep. Qed.
#[local] Hint Resolve lease_append_args : oxide.
Lemma lease_send_appends v ps : keeps same_lease (send_appends v ps).
Proof. induction ps; simpl; keep. Qed.
#[local] Hint Resolve lease_send_appends : oxide.
Lemma lease_sync_logs : keeps same_lease sync_logs.
Proof. unfold sync_logs. keep. Qed.
Lemma lease_propose_loop cs i : keeps same_lease (propose_loop cs i).
Proof. revert i. induction cs; intros i; simpl; keep. Qed.
#[local] Hint Resolve lease_propose_loop : oxide.
Lemma lease_propose_batch cs : keeps same_lease (propose_batch cs).
Proof. unfold propose_batch. keep. Qed.
Lemma lease_abort_tx tx : keeps same_lease (propose_abort_tx tx).
Proof. unfold propose_abort_tx. keep. Qed.
Lemma lease_snapshot th : keeps same_lease (maybe_snapshot th).
Proof. unfold maybe_snapshot. keep. Qed.
Lemma lease_step_down t : keeps same_lease (tx_step_down t).
Proof. unfold tx_step_down. keep. Qed.
Lemma lease_tx_vote req : keeps same_lease (handle_tx_vote_request req).
Proof. unfold handle_tx_vote_request. keep. Qed.
Lemma lease_record_vote tx voter v : keeps same_lease (ignore (on_sm (record_vote tx voter v))).
Proof. keep. Qed.

Lemma lease_rpc msg : keeps same_lease (handle_raft_rpc msg).
Proof.
  destruct msg; unfold handle_raft_rpc, handle_request_vote, handle_append_entries, handle_install_snapshot, handle_pre_vote; keep.
Qed.

(** A refusal does not move it. *)
Lemma lease_refusal peer args reply : ar_success reply = false → keeps same_lease (on_append_reply peer args reply).
Proof. intros E. unfold on_append_reply. rewrite E. keep. Qed.

(** ** Acknowledging *)

Lemma office_persist : keeps same_office persist_meta.
Proof. unfold persist_meta. keep. Qed.
Lemma office_touch : keeps same_office touch_heartbeat.
Proof. unfold touch_heartbeat. keep. Qed.
#[local] Hint Resolve office_persist office_touch : oxide.

(** What [handle_append_entries] does once it has accepted the term. *)
Lemma accepted_office args : keeps same_office (
  touch_heartbeat ;; t ← gets current_term; ok ← gets (λ n, prev_matches args (log n));
  if negb ok then mret (mkAppendReply t false) else
  append_loop (ae_entries args) ;; commit ← gets commit_index;
  (if commit <? ae_leader_commit args then
     modify (λ n, with_commit_index (ae_leader_commit args `min` log_len n) n) ;; apply_logs
   else mret tt) ;;
  mret (mkAppendReply t true)).
Proof. keep. Qed.

Lemma acknowledges args n : wp (handle_append_entries args) (λ r n', ∀ rep, r = Ok rep → ar_success rep = true →
  state n' = Follower ∧ current_term n' = ae_term args) n.
Proof.
  unfold handle_append_entries. do 4 wp_step. destruct (Z.ltb_spec (ae_term args) (current_term n)) as [|Hle].
  { wp_step. by intros rep [= <-]. }
  destruct ((ae_term args =? current_term n) && _). { wp_step. by intros rep [= <-]. }
  apply wp_bind. apply (wp_mono _ (λ r n1, r = Ok tt → current_term n1 = ae_term args)).
  - destruct (Z.ltb_spec (current_term n) (ae_term args)); [|wp_step; lia]. do 4 wp_step.
    eapply wp_mono; [apply keeps_wp, office_persist|]. by intros r n1 [_ E] _.
  - intros [[]|e] n1 E1; [|done]. wp_step. wp_step. eapply wp_mono; [apply keeps_wp, accepted_office|].
    intros r n2 [E2 E3] rep _ _. simpl in *. rewrite E2, E3. auto.
Qed.
End sections.
