(* ===== verification/NodeDurable.v ===== *)
(** * What the files of a node hold

    While no call of the disk fails, the WAL of a node is its log and the meta file holds its term and
    vote, as long as no entry is cut out of the log and no snapshot is taken. So the node can be restarted
    from its files ([durable]). *)

From stdpp Require Import prelude gmap strings sorting countable list.
From S2P Require Import Prelude Serde Protocol StateMachine Storage StorageProps Rpc Node NodeVotes NodeEvents Refinement NodeLog NodeCore.
#[local] Open Scope Z_scope.

Section durable.
Context {JW : Json WalOp} {JE : Json (list SSTEntry)} {JM : Json SSTableMeta}.
Context {BL : Bincode LogEntry} {LB : BincodeLaws LogEntry}.
Context {JV : Json Value} {LV : JsonLaws Value}.
Context {JS : Json Snapshot} {LS : JsonLaws Snapshot}.

(** The WAL holds the log, and there is no snapshot. *)
Definition whole (n : RaftNode) : Prop :=
  wal_synced (log n) (storage n) ∧ stored_snapshot (storage n) = None.

Definition logged (n n' : RaftNode) : Prop := whole n → whole n'.

#[export] Instance logged_preorder : PreOrder logged.
Proof. split; [intros n Hw; exact Hw|]. intros n1 n2 n3 H1 H2 Hw. auto. Qed.

Lemma logged_modify (f : RaftNode → RaftNode) :
  (∀ n, log (f n) = log n ∧ storage (f n) = storage n) → keeps logged (modify f).
Proof. intros Hf. apply keeps_modify. intros n. destruct (Hf n) as [E1 E2]. unfold logged, whole. by rewrite E1, E2. Qed.

Lemma whole_frame f l d d' : d_frame f d d' → f ≠ FWal → f ≠ FSnapshot →
  wal_synced l d ∧ stored_snapshot d = None → wal_synced l d' ∧ stored_snapshot d' = None.
Proof.
  intros [F Fo] H1 H2 [[Hd Hw] Hs]. split; [split; [auto|]|].
  - eapply wal_holds_ext; [|exact Hw]. by apply F.
  - rewrite <- Hs. apply stored_snapshot_ext. by apply F.
Qed.

Lemma logged_on_disk {A} f (m : M Disk A) : keeps (d_frame f) m → f ≠ FWal → f ≠ FSnapshot → keeps logged (on_disk m).
Proof. intros Hm H1 H2. apply keeps_zoom. intros n. unfold logged, whole. simpl. by eapply whole_frame. Qed.

Lemma save_meta_frame t v : keeps (d_frame FMeta) (save_meta t v).
Proof. unfold save_meta. keep. intros h. apply (replace_file_wp FMeta _ h). Qed.

Lemma logged_save_meta t v : keeps logged (on_disk (save_meta t v)).
Proof. by apply (logged_on_disk FMeta); [apply save_meta_frame|..]. Qed.

Lemma logged_on_sm {A} (m : M StateMachine A) : keeps logged (on_sm m).
Proof. apply keeps_zoom. intros n Hw. exact Hw. Qed.

Lemma logged_catch {A B} (m : M RaftNode A) (f : A → B) g : keeps logged m → keeps logged (catch m f g).
Proof. intros Hm n. unfold catch. specialize (Hm n). by destruct (m n) as [[]]. Qed.

Lemma logged_expect {A} (m : M RaftNode A) : keeps logged m → keeps logged (expect m).
Proof. intros Hm n. unfold expect. specialize (Hm n). by destruct (m n) as [[]]. Qed.

(** An entry is written before it is appended. *)
Lemma logged_push {A} e (k : M RaftNode A) : keeps logged k →
  keeps logged (on_disk (append_wal_log e) ;; modify (λ n, with_log (log n ++ [e]) n) ;; k).
Proof.
  intros Hk n [Hw Hs]. unfold on_disk, zoom, modify, mbind, M_bind.
  destruct (append_synced e _ _ Hw) as [Hw' Er]. pose proof (append_wal_frame e (storage n)) as [F _].
  destruct (append_wal_log e (storage n)) as [r d]. cbn [fst snd] in *. subst r. apply Hk. split; [done|].
  rewrite <- Hs. apply stored_snapshot_ext. by apply F.
Qed.

Lemma logged_append_own cmd : keeps logged (append_own cmd).
Proof. unfold append_own. do 2 (apply keeps_bind; [apply _|keep|intros ?]). apply logged_push. keep. Qed.
End durable.

#[export] Hint Resolve logged_save_meta logged_on_sm logged_append_own : oxide.
#[export] Hint Extern 1 (keeps logged (modify _)) => (apply logged_modify; intros; repeat case_match; done) : oxide.
#[export] Hint Extern 1 (keeps logged (catch _ _ _)) => (apply logged_catch; keep) : oxide.
#[export] Hint Extern 1 (keeps logged (expect _)) => (apply logged_expect; keep) : oxide.

Section operations.
Context {JW : Json WalOp} {JE : Json (list SSTEntry)} {JM : Json SSTableMeta}.
Context {BL : Bincode LogEntry} {LB : BincodeLaws LogEntry}.
Context {JV : Json Value} {LV : JsonLaws Value}.
Context {JS : Json Snapshot} {LS : JsonLaws Snapshot}.

Lemma logged_persist : keeps logged persist_meta.
Proof. unfold persist_meta. keep. Qed.
#[local] Hint Resolve logged_persist : oxide.
Lemma logged_adopt t : keeps logged (adopt_term t).
Proof. unfold adopt_term. keep. Qed.
#[local] Hint Resolve logged_adopt : oxide.
Lemma logged_touch : keeps logged touch_heartbeat.
Proof. unfold touch_heartbeat. keep. Qed.
#[local] Hint Resolve logged_touch : oxide.
Lemma logged_install c : keeps logged (install_configuration c).
Proof. unfold install_configuration. keep. Qed.
#[local] Hint Resolve logged_install : oxide.
Lemma logged_apply_command c : keeps logged (apply_command c).
Proof. destruct c; simpl; keep. Qed.
#[local] Hint Resolve logged_apply_command : oxide.
Lemma logged_apply_loop fuel : keeps logged (apply_loop fuel).
Proof. induction fuel; simpl; keep. Qed.
#[local] Hint Resolve logged_apply_loop : oxide.
Lemma logged_apply_logs : keeps logged apply_logs.
Proof. unfold apply_logs. keep. Qed.
#[local] Hint Resolve logged_apply_logs : oxide.
Lemma logged_maybe_commit : keeps logged maybe_commit.
Proof. unfold maybe_commit. keep. Qed.
#[local] Hint Resolve logged_maybe_commit : oxide.
Lemma logged_request_vote args : keeps logged (handle_request_vote args).
Proof. unfold handle_request_vote. keep. Qed.
Lemma logged_pre_vote args : keeps logged (handle_pre_vote args).
Proof. unfold handle_pre_vote. keep. Qed.
Lemma logged_append_reply peer args reply : keeps logged (on_append_reply peer args reply).
Proof. unfold on_append_reply. keep. Qed.
Lemma logged_become_leader : keeps logged become_leader.
Proof. unfold become_leader. keep. Qed.
#[local] Hint Resolve logged_become_leader : oxide.
Lemma logged_become_leader_checked : keeps logged become_leader_checked.
Proof. unfold become_leader_checked. keep. Qed.
#[local] Hint Resolve logged_become_leader_checked : oxide.
Lemma logged_vote_reply total t votes reply : keeps logged (on_vote_reply total t votes reply).
Proof. unfold on_vote_reply. keep. Qed.
Lemma logged_promote : keeps logged promote_to_candidate_locked.
Proof. unfold promote_to_candidate_locked. keep. Qed.
#[local] Hint Resolve logged_promote : oxide.
Lemma logged_request_votes : keeps logged request_votes.
Proof. unfold request_votes. keep. Qed.
#[local] Hint Resolve logged_request_votes : oxide.
Lemma logged_pre_candidate v : keeps logged (enter_pre_candidate v).
Proof. unfold enter_pre_candidate, become_candidate. keep. Qed.
Lemma logged_pre_vote_reply total t votes reply : keeps logged (process_pre_vote_reply total t votes reply).
Proof. unfold process_pre_vote_reply, become_candidate. keep. Qed.
Lemma logged_append_args v peer : keeps logged (append_args v peer).
Proof. unfold append_args. keep. Qed.
#[local] Hint Resolve logged_append_args : oxide.
Lemma logged_send_appends v ps : keeps logged (send_appends v ps).
Proof. induction ps; simpl; keep. Qed.
#[local] Hint Resolve logged_send_appends : oxide.
Lemma logged_sync_logs : keeps logged sync_logs.
Proof. unfold sync_logs. keep. Qed.
Lemma logged_propose_loop cs i : keeps logged (propose_loop cs i).
Proof.
  revert i. induction cs as [|c cs IH]; intros i; simpl; [keep|].
  apply keeps_bind; [apply _|keep|intros t]. by apply logged_push.
Qed.
#[local] Hint Resolve logged_propose_loop : oxide.
Lemma logged_propose_batch cs : keeps logged (propose_batch cs).
Proof. unfold propose_batch. keep. Qed.
Lemma logged_propose_abort tx : keeps logged (propose_abort_tx tx).
Proof. unfold propose_abort_tx. keep. Qed.
Lemma logged_tx_vote req : keeps logged (handle_tx_vote_request req).
Proof. unfold handle_tx_vote_request. keep. Qed.
End operations.

Section append.
Context {JW : Json WalOp} {JE : Json (list SSTEntry)} {JM : Json SSTableMeta}.
Context {BL : Bincode LogEntry} {LB : BincodeLaws LogEntry}.
Context {JV : Json Value} {LV : JsonLaws Value}.
Context {JS : Json Snapshot} {LS : JsonLaws Snapshot}.

(** The snapshot file is left alone. *)
Definition no_new_snapshot (n n' : RaftNode) : Prop := stored_snapshot (storage n') = stored_snapshot (storage n).

#[local] Instance no_new_snapshot_preorder : PreOrder no_new_snapshot.
Proof. unfold no_new_snapshot. split; [by intros n|]. intros n1 n2 n3 H1 H2. congruence. Qed.

Lemma no_new_snapshot_disk {A} f (m : M Disk A) : keeps (d_frame f) m → f ≠ FSnapshot → keeps no_new_snapshot (on_disk m).
Proof.
  intros Hm Hf. apply keeps_zoom. intros n. unfold no_new_snapshot. simpl. apply stored_snapshot_ext.
  destruct (Hm (storage n)) as [F _]. by apply F.
Qed.

Lemma no_new_snapshot_append args : keeps no_new_snapshot (handle_append_entries args).
Proof.
  assert (Hs : ∀ f, (∀ n, storage (f n) = storage n) → keeps no_new_snapshot (modify f)).
  { intros f Hf. apply keeps_modify. intros n. unfold no_new_snapshot. by rewrite Hf. }
  assert (Hm : ∀ t v, keeps no_new_snapshot (on_disk (save_meta t v))).
  { intros t v. apply (no_new_snapshot_disk FMeta); [apply save_meta_frame|done]. }
  assert (Hw : ∀ e, keeps no_new_snapshot (on_disk (append_wal_log e))).
  { intros e. apply (no_new_snapshot_disk FWal); [apply append_wal_frame|done]. }
  assert (He : ∀ es, keeps no_new_snapshot (append_loop es)).
  { induction es as [|e es IH]; simpl; keep. unfold append_entry. keep; by apply Hs. }
  assert (Hsm : ∀ A (m : M StateMachine A), keeps no_new_snapshot (on_sm m)).
  { intros A m. apply keeps_zoom. by intros n. }
  assert (Hc : ∀ c, keeps no_new_snapshot (apply_command c)).
  { intros c. destruct c; simpl; unfold install_configuration, append_own; keep; apply Hs; intros; by repeat case_match. }
  assert (Hl : ∀ fuel, keeps no_new_snapshot (apply_loop fuel)) by (induction fuel; simpl; keep; by apply Hs).
  assert (Ha : keeps no_new_snapshot apply_logs) by (unfold apply_logs; keep).
  unfold handle_append_entries, persist_meta, touch_heartbeat. keep; by apply Hs.
Qed.

Lemma whole_append args n : ae_wf args n → let n' := (handle_append_entries args n).2 in
  log n `prefix_of` log n' → whole n → whole n'.
Proof.
  intros Hwf n' Hp [Hw Hs]. pose proof (handle_append_entries_wp args n Hwf) as (_ & _ & _ & _ & _ & Hsync).
  split; [by apply Hsync|]. rewrite <- Hs. apply no_new_snapshot_append.
Qed.
End append.
