(* ===== verification/Cluster.v ===== *)
(** * A cluster of nodes

    The nodes of [Node] on an asynchronous network: a request, once sent, may be delivered any number of
    times, late, or never; every answer to a delivered request may reach the task that waits for it or get lost.
    What the tasks of a node keep between two acquisitions of its lock is here too: the round of votes a
    candidate counts ([Round]), and what a coordinator has seen ([cl_ready]).

    A label is one critical section on one node. [allowed] says which executions the safety theorems
    cover (restarts are steps of their own, in [ClusterRestart]): membership is fixed, and the defects recorded in
    [NodeFindings], [CoordinatorTheorems] and [ClientTheorems] do not strike. *)

From stdpp Require Import prelude gmap strings sorting countable list.
From S2P Require Import Prelude Serde Protocol StateMachine Storage Rpc Node NodeVotes NodeEvents NodeCore.
#[local] Open Scope Z_scope.

(** A round of [request_votes]: what it captured, its counter, and the peers whose task has not answered. *)
Record Round := mkRound {
  rd_node : string;
  rd_round : VoteRound;
  rd_count : nat;
  rd_waiting : list string;
}.

Record Cluster := mkClusterState {
  cl_nodes : gmap string RaftNode;
  cl_sent : list (string * RaftMessage);                     (** addressee, request *)
  cl_replies : list (string * RaftMessage * RaftMessage);    (** who answered, the request, the answer *)
  cl_rounds : list Round;
  cl_ready : list (Z * list string);    (** indices a coordinator saw committed, and replicated to these peers *)
}.

Inductive label :=
  | LDeliver (to : string) (msg : RaftMessage)
  | LAppendReply (peer : string) (args : AppendEntriesArgs) (reply : AppendReplyArgs)
  | LVoteReply (i : nat) (peer : string) (reply : VoteResponseArgs)
  | LPreVoteReply (id : string) (total : nat) (probed_term : Z) (votes : nat) (reply : VoteResponseArgs)
  | LPromote (id : string)                                   (** [become_candidate], first lock *)
  | LRequestVotes (id : string)                              (** [request_votes], on its own lock *)
  | LPreCampaign (id : string) (v : VoteRound)
  | LAppend (id : string) (v : SyncView) (peer : string)     (** one turn of the loop of [sync_logs] *)
  | LSolo (id : string)                                      (** [sync_logs] without peers *)
  | LPropose (id : string) (cs : list Command)
  | LAbortTx (id tx : string)
  | LSnapshot (id : string) (threshold : Z)
  | LClock (id : string) (now : Z)
  | LTxReady (id : string) (index : Z)                       (** the waits of [coordinate_tx_inner] end *)
  | LTxVote (id : string) (req : TxVoteRequest)
  | LTxStepDown (id : string) (t : Z)
  | LRecordVote (id tx voter : string) (v : Vote).

Section cluster.
Context {JW : Json WalOp} {JE : Json (list SSTEntry)} {JM : Json SSTableMeta}.
Context {BL : Bincode LogEntry} {JV : Json Value} {JS : Json Snapshot}.

Definition set_nodes (ns : gmap string RaftNode) (c : Cluster) : Cluster :=
  mkClusterState ns (cl_sent c) (cl_replies c) (cl_rounds c) (cl_ready c).
Definition add_sent (out : outgoing) (c : Cluster) : Cluster :=
  mkClusterState (cl_nodes c) (cl_sent c ++ out) (cl_replies c) (cl_rounds c) (cl_ready c).
Definition add_reply (r : string * RaftMessage * RaftMessage) (c : Cluster) : Cluster :=
  mkClusterState (cl_nodes c) (cl_sent c) (cl_replies c ++ [r]) (cl_rounds c) (cl_ready c).
Definition set_rounds (rs : list Round) (c : Cluster) : Cluster :=
  mkClusterState (cl_nodes c) (cl_sent c) (cl_replies c) rs (cl_ready c).
Definition add_ready (r : Z * list string) (c : Cluster) : Cluster :=
  mkClusterState (cl_nodes c) (cl_sent c) (cl_replies c) (cl_rounds c) (cl_ready c ++ [r]).

(** A critical section on node [id]; the node is what it leaves behind, also when it fails. *)
Definition at_node {A} (id : string) (m : M RaftNode A) (c : Cluster) : option A * Cluster :=
  match cl_nodes c !! id with
  | None => (None, c)
  | Some n =>
      let '(r, n') := m n in
      (match r with Ok a => Some a | Err _ => None end, set_nodes (<[id := n']> (cl_nodes c)) c)
  end.

(** The messages of a round go out, and its counter starts with the candidate's own vote. *)
Definition launch (id : string) (out : option outgoing) (c : Cluster) : Cluster :=
  match out, cl_nodes c !! id with
  | Some ((_ :: _) as out), Some n =>
      set_rounds (cl_rounds c ++ [mkRound id (vote_round (current_term n) n) 1 (peers n)]) (add_sent out c)
  | _, _ => c
  end.

Definition cl_step (l : label) (c : Cluster) : Cluster :=
  match l with
  | LDeliver to msg =>
      match at_node to (handle_raft_rpc msg) c with
      | (Some (Some reply), c') => add_reply (to, msg, reply) c'
      | (_, c') => c'
      end
  | LAppendReply peer args reply => (at_node (ae_leader_id args) (on_append_reply peer args reply) c).2
  | LVoteReply i peer reply =>
      match cl_rounds c !! i with
      | None => c
      | Some rd =>
          let '(count, c') := at_node (rd_node rd)
            (on_vote_reply (total_nodes (rd_round rd)) (vo_term (rd_round rd)) (rd_count rd) reply) c in
          set_rounds (<[i := mkRound (rd_node rd) (rd_round rd) (default (rd_count rd) count)
                               (filter (λ p, p ≠ peer) (rd_waiting rd))]> (cl_rounds c')) c'
      end
  | LPreVoteReply id total t votes reply =>
      let '(r, c') := at_node id (process_pre_vote_reply total t votes reply) c in launch id (snd <$> r) c'
  | LPromote id => (at_node id promote_to_candidate_locked c).2
  | LRequestVotes id => let '(r, c') := at_node id request_votes c in launch id r c'
  | LPreCampaign id v => let '(r, c') := at_node id (enter_pre_candidate v) c in add_sent (default [] r) c'
  | LAppend id v peer =>
      match at_node id (append_args v peer) c with
      | (Some args, c') => add_sent [(peer, AppendEntries args)] c'
      | (None, c') => c'
      end
  | LSolo id => (at_node id sync_logs c).2
  | LPropose id cs => (at_node id (propose_batch cs) c).2
  | LAbortTx id tx => (at_node id (propose_abort_tx tx) c).2
  | LSnapshot id th => (at_node id (maybe_snapshot th) c).2
  | LClock id now => (at_node id (modify (with_clock now)) c).2
  | LTxReady id k =>
      match cl_nodes c !! id with Some n => add_ready (k, peers n) c | None => c end
  | LTxVote id req => (at_node id (handle_tx_vote_request req) c).2
  | LTxStepDown id t => (at_node id (tx_step_down t) c).2
  | LRecordVote id tx voter v => (at_node id (ignore (on_sm (record_vote tx voter v))) c).2
  end.

(** ** The executions covered *)

(** Every log stays shorter than this, so that no index wraps. *)
Definition LOG_MAX : Z := 2 ^ 61.

(** The node acts when and how its code would, and no known defect strikes:
    - an acknowledgement that reaches a leader is for the term it leads;
    - a refusal that makes a node step down is not from the past;
    - [sync_logs] runs while the node leads, with what it read in this leadership;
    - no membership change is proposed;
    - a transaction vote is asked for an index the coordinator has waited for. *)
Definition label_ok (l : label) (c : Cluster) : Prop :=
  match l with
  | LDeliver to msg => (to, msg) ∈ cl_sent c
  | LAppendReply peer args reply =>
      (peer, AppendEntries args, AppendReply reply) ∈ cl_replies c ∧
      ∀ n, cl_nodes c !! ae_leader_id args = Some n → ar_success reply = true →
        state n = Leader → current_term n = ae_term args
  | LVoteReply i peer reply =>
      ∃ rd, cl_rounds c !! i = Some rd ∧ peer ∈ rd_waiting rd ∧
        (peer, RequestVote (vo_args (rd_round rd)), VoteResponse reply) ∈ cl_replies c ∧
        ∀ n, cl_nodes c !! rd_node rd = Some n → vr_granted reply = false →
          vo_term (rd_round rd) < vr_term reply → current_term n < vr_term reply
  | LPreVoteReply id _ _ _ _ | LPromote id =>
      ∀ n, cl_nodes c !! id = Some n → u64 (current_term n + 1)
  | LPreCampaign id v =>
      ∀ n, cl_nodes c !! id = Some n → u64 (current_term n + 1) ∧ vo_peers v = peers n
  | LAppend id v peer =>
      ∀ n, cl_nodes c !! id = Some n → state n = Leader ∧ peer ∈ peers n ∧
        sv_term v = current_term n ∧ sv_node_id v = id ∧
        0 <= sv_commit_index v <= commit_index n ∧ sv_commit_index v <= sv_log_len v <= log_len n
  | LSolo id => ∀ n, cl_nodes c !! id = Some n → peers n = []
  | LPropose id cs =>
      Forall plain_command cs ∧
      ∀ n, cl_nodes c !! id = Some n → log_len n + Z.of_nat (length cs) < LOG_MAX
  | LAbortTx id _ => ∀ n, cl_nodes c !! id = Some n → log_len n + 1 < LOG_MAX
  | LTxReady id k =>
      ∀ n, cl_nodes c !! id = Some n → state n = Leader ∧ 0 <= k <= commit_index n ∧
        Forall (λ p, k <= match_index_for p n) (peers n)
  | LTxVote id req =>
      u64 (tv_term req) ∧ ∃ ps, (tv_last_log_index req, ps) ∈ cl_ready c ∧ id ∈ ps
  | LTxStepDown id t => u64 t ∧ ∀ n, cl_nodes c !! id = Some n → current_term n < t
  | LRequestVotes _ | LSnapshot _ _ | LClock _ _ | LRecordVote _ _ _ _ => True
  end.

(** A node that becomes leader has no acknowledgements of an earlier leadership left. *)
Definition fresh_leaders (c c' : Cluster) : Prop :=
  ∀ id n n', cl_nodes c !! id = Some n → cl_nodes c' !! id = Some n' →
    state n' = Leader → state n = Leader ∨ match_index n = ∅.

Definition allowed (l : label) (c : Cluster) : Prop := label_ok l c ∧ fresh_leaders c (cl_step l c).

(** A node before it has heard of anyone: what [raft_node_new] makes of empty files. *)
Record fresh_node (servers : list string) (s : string) (n : RaftNode) : Prop := {
  fr_self : self_id n = s;
  fr_peers : peers n = filter (λ p, p ≠ s) servers;
  fr_config : current_config n = Simple (server_of s :: (server_of <$> peers n));
  fr_pending : pending_post_joint_simple n = None;
  fr_term : u64 (current_term n);
  fr_state : state n = Follower;
  fr_log : log n = [];
  fr_commit : commit_index n = 0;
  fr_match : match_index n = ∅;
}.

Definition fresh_cluster (servers : list string) (c : Cluster) : Prop :=
  NoDup servers ∧ dom (cl_nodes c) = list_to_set servers ∧
  (∀ s n, cl_nodes c !! s = Some n → fresh_node servers s n) ∧
  cl_sent c = [] ∧ cl_replies c = [] ∧ cl_rounds c = [] ∧ cl_ready c = [].

Inductive reachable (servers : list string) : Cluster → Prop :=
  | reach_start c : fresh_cluster servers c → reachable servers c
  | reach_step l c : reachable servers c → allowed l c → reachable servers (cl_step l c).
End cluster.
