(* ===== verification/ClusterRun.v ===== *)
(** * Running a cluster

    Whether a label is allowed can be decided, so an execution can be computed and checked. *)

From stdpp Require Import prelude gmap strings sorting countable list.
From S2P Require Import Prelude Serde Protocol StateMachine Storage Rpc Node NodeVotes NodeCore Cluster Instances Samples.
#[local] Open Scope Z_scope.

#[export] Instance RequestVoteArgs_eq_dec : EqDecision RequestVoteArgs.
Proof. solve_decision. Defined.
#[export] Instance VoteResponseArgs_eq_dec : EqDecision VoteResponseArgs.
Proof. solve_decision. Defined.
#[export] Instance AppendEntriesArgs_eq_dec : EqDecision AppendEntriesArgs.
Proof. solve_decision. Defined.
#[export] Instance AppendReplyArgs_eq_dec : EqDecision AppendReplyArgs.
Proof. solve_decision. Defined.
#[export] Instance InstallSnapshotArgs_eq_dec : EqDecision InstallSnapshotArgs.
Proof. solve_decision. Defined.
#[export] Instance InstallSnapshotReplyArgs_eq_dec : EqDecision InstallSnapshotReplyArgs.
Proof. solve_decision. Defined.
#[export] Instance JoinClusterRequest_eq_dec : EqDecision JoinClusterRequest.
Proof. solve_decision. Defined.
#[export] Instance JoinClusterResponse_eq_dec : EqDecision JoinClusterResponse.
Proof. solve_decision. Defined.
#[export] Instance RaftMessage_eq_dec : EqDecision RaftMessage.
Proof. solve_decision. Defined.

#[export] Instance plain_command_dec c : Decision (plain_command c).
Proof. destruct c; simpl; apply _. Defined.

(** A property of the value, if there is one. *)
#[export] Instance every_dec {A} (o : option A) (P : A → Prop) `{!∀ x, Decision (P x)} : Decision (∀ x, o = Some x → P x).
Proof.
  refine (match o with
  | Some x => cast_if (decide (P x))
  | None => left _
  end); [by intros y [= <-]|by intros HP; eauto|by intros y].
Defined.

#[export] Instance some_dec {A} (o : option A) (P : A → Prop) `{!∀ x, Decision (P x)} : Decision (∃ x, o = Some x ∧ P x).
Proof.
  refine (match o with
  | Some x => cast_if (decide (P x))
  | None => right _
  end); [by eauto|naive_solver|naive_solver].
Defined.

#[export] Instance ready_dec (k : Z) (id : string) (l : list (Z * list string)) :
  Decision (∃ ps, (k, ps) ∈ l ∧ id ∈ ps).
Proof.
  refine (cast_if (decide (Exists (λ x, x.1 = k ∧ id ∈ x.2) l))); rewrite Exists_exists in *; [|naive_solver].
  destruct e as ([k' ps] & ? & <- & ?). eauto.
Defined.

Section run.
Context {JW : Json WalOp} {JE : Json (list SSTEntry)} {JM : Json SSTableMeta}.
Context {BL : Bincode LogEntry} {JV : Json Value} {JS : Json Snapshot}.

#[export] Instance label_ok_dec l c : Decision (label_ok l c).
Proof. destruct l; unfold label_ok, u64; apply _. Defined.

#[export] Instance fresh_leaders_dec c c' : Decision (fresh_leaders c c').
Proof.
  refine (cast_if (decide (map_Forall (λ id n, ∀ n', cl_nodes c' !! id = Some n' →
    state n' = Leader → state n = Leader ∨ match_index n = ∅) (cl_nodes c)))).
  - intros id n n' Hn. by apply m.
  - intros Hf. apply n. intros id x Hx n' Hn'. by eapply Hf.
Defined.

#[export] Instance allowed_dec l c : Decision (allowed l c).
Proof. unfold allowed. apply _. Defined.

(** One step between clusters. *)
Definition cluster_step (c c' : Cluster) : Prop := ∃ l, allowed l c ∧ c' = cl_step l c.

Fixpoint run (ls : list label) (c : Cluster) : option Cluster :=
  match ls with
  | [] => Some c
  | l :: ls' => if decide (allowed l c) then run ls' (cl_step l c) else None
  end.

Lemma run_steps ls c c' : run ls c = Some c' → rtc cluster_step c c'.
Proof.
  revert c. induction ls as [|l ls IH]; simpl; intros c; [by intros [= <-]|].
  case_decide; [|done]. intros E. eapply rtc_l; [by exists l|by apply IH].
Qed.

Lemma steps_reachable servers c c' : reachable servers c → rtc cluster_step c c' → reachable servers c'.
Proof. intros H Hr. induction Hr as [|c c1 c' (l & Hl & ->) _ IH]; [done|]. apply IH. by apply reach_step. Qed.
End run.

(** ** A cluster of three *)

Import Codec.

Definition trio : list string := ["a"; "b"; "c"].

Definition three_fresh : Cluster :=
  mkClusterState {["a" := new_node "a" ["b"; "c"]; "b" := new_node "b" ["a"; "c"]; "c" := new_node "c" ["a"; "b"]]}
    [] [] [] [].

Lemma three_fresh_ok : fresh_cluster trio three_fresh.
Proof.
  split_and!; try done.
  - repeat constructor; set_solver.
  - intros s n. unfold three_fresh, cl_nodes. intros [[<- <-]|[_ H]]%lookup_insert_Some;
      [|apply lookup_insert_Some in H as [[<- <-]|[_ [<- <-]%lookup_singleton_Some]]];
      split; try reflexivity; vm_compute; intuition discriminate.
Qed.

(** [a] is elected in term 1, appends an entry, and commits it once [b] has it. *)
Definition entry_x : LogEntry := mkLogEntry 1 1 (CSet "x" "1").
Definition entry_y : LogEntry := mkLogEntry 2 2 (CSet "y" "2").
Definition ask_a : RequestVoteArgs := mkRequestVote 1 "a" 0 0.
Definition append_x : AppendEntriesArgs := mkAppendEntries 1 "a" 0 0 [entry_x] 0.

Definition first_commit : list label :=
  [LPromote "a"; LRequestVotes "a"; LDeliver "b" (RequestVote ask_a); LVoteReply 0 "b" (yes 1);
   LPropose "a" [CSet "x" "1"]; LAppend "a" (mkSyncView 1 "a" 0 ["b"; "c"] 1) "b";
   LDeliver "b" (AppendEntries append_x); LAppendReply "b" append_x (mkAppendReply 1 true)].

(** [b] hears of the commit, and is elected in term 2 with the vote of [c], which has nothing yet;
    it appends an entry of its own, learns that [c] lags, and commits both. *)
Definition ask_b : RequestVoteArgs := mkRequestVote 2 "b" 1 1.
Definition heartbeat : AppendEntriesArgs := mkAppendEntries 1 "a" 1 1 [] 1.
Definition append_y : AppendEntriesArgs := mkAppendEntries 2 "b" 1 1 [entry_y] 1.
Definition append_xy : AppendEntriesArgs := mkAppendEntries 2 "b" 0 0 [entry_x; entry_y] 1.

Definition second_commit : list label :=
  [LAppend "a" (mkSyncView 1 "a" 1 ["b"; "c"] 1) "b"; LDeliver "b" (AppendEntries heartbeat);
   LPromote "b"; LRequestVotes "b"; LDeliver "c" (RequestVote ask_b); LVoteReply 1 "c" (yes 2);
   LPropose "b" [CSet "y" "2"];
   LAppend "b" (mkSyncView 2 "b" 1 ["a"; "c"] 2) "c"; LDeliver "c" (AppendEntries append_y);
   LAppendReply "c" append_y (mkAppendReply 2 false);
   LAppend "b" (mkSyncView 2 "b" 1 ["a"; "c"] 2) "c"; LDeliver "c" (AppendEntries append_xy);
   LAppendReply "c" append_xy (mkAppendReply 2 true)].

Definition committed_x : Cluster := default three_fresh (run first_commit three_fresh).
Definition committed_xy : Cluster := default committed_x (run second_commit committed_x).

Lemma first_commit_runs : rtc cluster_step three_fresh committed_x.
Proof.
  apply run_steps with first_commit. unfold committed_x. destruct (run _ _) eqn:E; [done|].
  vm_compute in E. discriminate.
Qed.

Lemma second_commit_runs : rtc cluster_step committed_x committed_xy.
Proof.
  apply run_steps with second_commit. unfold committed_xy. destruct (run _ _) eqn:E; [done|].
  vm_compute in E. discriminate.
Qed.

Lemma committed_x_reachable : reachable trio committed_x.
Proof. eapply steps_reachable; [apply reach_start, three_fresh_ok|apply first_commit_runs]. Qed.

Lemma committed_xy_reachable : reachable trio committed_xy.
Proof. eapply steps_reachable; [apply committed_x_reachable|apply second_commit_runs]. Qed.
