(* ===== verification/ClusterSim.v ===== *)
(** * The cluster implements the specification

    A simulation: every critical section of a node, as [Cluster] lets them happen, is
    a sequence of steps of [RaftSpec]. The relation says that each node shows the specification's
    term, vote, role, log and commit index, and that every message, answer, round of votes and readiness
    in flight is backed by the history. *)

From stdpp Require Import prelude gmap strings sorting countable list.
From S2P Require Import Prelude Serde Protocol StateMachine Storage Rpc Node NodeVotes NodeLog NodeLeader NodeCore.
From S2P Require Import RaftSpec RaftSafety RaftInvariant Cluster.
#[local] Open Scope Z_scope.

(** ** Histories *)

Record grows (a a' : astate) : Prop := {
  gr_extends : extends a a';
  gr_reqs : a_reqs a ⊆ a_reqs a';
  gr_apps : a_apps a ⊆ a_apps a';
}.

#[export] Instance grows_preorder : PreOrder grows.
Proof.
  split.
  - intros a. split; [split|..]; done.
  - intros a1 a2 a3 [[E1 L1 V1 K1] R1 P1] [[E2 L2 V2 K2] R2 P2].
    split; [split|by etransitivity|by etransitivity]; [naive_solver| |by etransitivity|by etransitivity].
    intros t Ht. etransitivity; [by apply L1|]. apply L2. destruct Ht as [x Hx]. exists x. auto.
Qed.

Section sim.
Context (servers : list string).

#[local] Abbreviation safe := (safe servers).
#[local] Abbreviation astep := (astep servers).

(** The commit index of a follower does not move back either. *)
Lemma accept_commit a s p k m : let n := a_nodes a !!! s in let L := a_llog a !!! a_term n in safe a →
  (a_term n, p, k, m) ∈ a_apps a →
  p = 0%nat ∨ (∃ x y, a_log n !! (p - 1)%nat = Some x ∧ L !! (p - 1)%nat = Some y ∧ le_term x = le_term y) →
  let l' := merge_log (a_log n) p (take k (drop p L)) in (a_commit n <= commit_to m l' (a_commit n))%nat.
Proof.
  intros n L H Hin Hp l'. pose proof (accept_agrees servers a s p k m H Hin Hp) as Ha. fold n L l' in Ha.
  destruct (sf_apps _ _ H _ _ _ _ Hin) as (_ & Hb & Hm & _). fold L in Hb.
  pose proof (take_eq_length _ _ _ (eq_sym Ha) Hb). unfold commit_to. destruct (Nat.ltb_spec (a_commit n) m); lia.
Qed.

Lemma astep_commit a a' s : safe a → astep a a' → (a_commit (a_nodes a !!! s) <= a_commit (a_nodes a' !!! s))%nat.
Proof.
  intros H Hs. destruct Hs as [s' t n Ht|s' n Hr|s' n t|s' n|s' c l n t|s' n t|s' e n t|s' p k m n|s' p k m n t L Hin Hr Hp l'|s' k n|s' t k n];
    simpl; try done; (destruct (decide (s = s')) as [->|]; [rewrite lookup_total_insert_eq|by rewrite lookup_total_insert_ne]); simpl; try done.
  by apply accept_commit.
Qed.

Lemma astep_grows a a' : safe a → astep a a' → grows a a'.
Proof.
  intros H Hs. destruct Hs; split; simpl; try done; try set_solver; split; simpl; try done; try set_solver.
  - intros t' x Hx. rewrite lookup_insert_ne; [done|]. intros <-.
    pose proof (not_yet_elected servers a s H ltac:(assumption) ltac:(assumption)) as E. unfold t, n in Hx. congruence.
  - intros t' [x Hx]. rewrite lookup_total_insert_ne; [done|]. intros <-.
    pose proof (not_yet_elected servers a s H ltac:(assumption) ltac:(assumption)) as E. unfold t, n in Hx. congruence.
  - intros t' _. destruct (decide (t' = t)) as [->|].
    + rewrite lookup_total_insert_eq. destruct (sf_lead _ _ H s ltac:(assumption)) as [_ E]. fold n t in E. rewrite E.
      by exists [e].
    + by rewrite lookup_total_insert_ne.
Qed.

Lemma steps_grow a a' : safe a → rtc astep a a' → safe a' ∧ grows a a'.
Proof.
  intros H Hr. induction Hr as [|a b a' Hs _ IH]; [done|]. destruct IH as [? Hg]; [by eapply astep_safe|].
  split; [done|]. etransitivity; [by apply astep_grows|exact Hg].
Qed.

Lemma steps_commit a a' s : safe a → rtc astep a a' → (a_commit (a_nodes a !!! s) <= a_commit (a_nodes a' !!! s))%nat.
Proof.
  intros H Hr. induction Hr as [|a b a' Hs _ IH]; [done|]. etransitivity; [by apply astep_commit|].
  apply IH. by eapply astep_safe.
Qed.

(** ** The relation *)

Definition others (s : string) : list string := filter (λ p, p ≠ s) servers.

Definition role_of (st : NodeState) : role :=
  match st with Leader => RLeader | Candidate => RCandidate | Follower | PreCandidate => RFollower end.

Definition view (n : RaftNode) : anode :=
  mkANode (current_term n) (vote_for n) (role_of (state n)) (log n) (Z.to_nat (commit_index n)).

Record log_ok (l : list LogEntry) : Prop := {
  lo_indexed : indexed l;
  lo_plain : Forall plain l;
  lo_short : Z.of_nat (length l) < LOG_MAX;
}.

Record node_ok (a : astate) (s : string) (n : RaftNode) : Prop := {
  no_view : a_nodes a !!! s = view n;
  no_self : self_id n = s;
  no_peers : peers n = others s;
  no_config : current_config n = Simple (server_of <$> s :: others s);
  no_commit : 0 <= commit_index n;
  no_log : log_ok (log n);
  no_own : state n = Leader → acked a (current_term n) (length (log n)) s;
  no_match : state n = Leader → ∀ p k, match_index n !! p = Some k →
    k <= 0 ∨ acked a (current_term n) (Z.to_nat k) p;
  no_next : state n = Leader → ∀ p k, next_index n !! p = Some k → 1 <= k <= log_len n + 1;
}.

Definition llogs_ok (a : astate) : Prop := ∀ t, is_Some (a_elected a !! t) → log_ok (a_llog a !!! t).

Record vote_req_ok (a : astate) (args : RequestVoteArgs) (l : list LogEntry) : Prop := {
  vq_req : (rv_term args, rv_candidate_id args, l) ∈ a_reqs a;
  vq_index : rv_last_log_index args = Z.of_nat (length l);
  vq_term : rv_last_log_term args = last_term l;
}.

Record append_ok (a : astate) (args : AppendEntriesArgs) (p k m : nat) : Prop := {
  ap_sent : (ae_term args, p, k, m) ∈ a_apps a;
  ap_elected : is_Some (a_elected a !! ae_term args);
  ap_bound : (p + k <= length (a_llog a !!! ae_term args))%nat;
  ap_prev : ae_prev_log_index args = Z.of_nat p;
  ap_prev_term : p = 0%nat ∨ le_term <$> a_llog a !!! ae_term args !! (p - 1)%nat = Some (ae_prev_log_term args);
  ap_entries : ae_entries args = take k (drop p (a_llog a !!! ae_term args));
  ap_commit : ae_leader_commit args = Z.of_nat m;
}.

Definition msg_ok (a : astate) (msg : RaftMessage) : Prop :=
  match msg with
  | RequestVote args => ∃ l, vote_req_ok a args l
  | AppendEntries args => ∃ p k m, append_ok a args p k m
  | RequestPreVote _ => True
  | _ => False
  end.

Definition ack_of (args : AppendEntriesArgs) : nat :=
  (Z.to_nat (ae_prev_log_index args) + length (ae_entries args))%nat.

Definition reply_ok (a : astate) (peer : string) (req rep : RaftMessage) : Prop :=
  match req, rep with
  | RequestVote args, VoteResponse r => vr_granted r = true → voted_for a (rv_term args) (rv_candidate_id args) peer
  | AppendEntries args, AppendReply r =>
      msg_ok a (AppendEntries args) ∧ (ar_success r = true → acked a (ae_term args) (ack_of args) peer)
  | _, _ => True
  end.

Record round_ok (a : astate) (rd : Round) (G : list string) : Prop := {
  ro_node : rd_node rd ∈ servers;
  ro_term : rv_term (vo_args (rd_round rd)) = vo_term (rd_round rd);
  ro_cand : rv_candidate_id (vo_args (rd_round rd)) = rd_node rd;
  ro_peers : vo_peers (rd_round rd) = others (rd_node rd);
  ro_waiting : rd_waiting rd ⊆ others (rd_node rd);
  ro_nodup : NoDup G;
  ro_sub : G ⊆ others (rd_node rd);
  ro_done : ∀ p, p ∈ G → p ∉ rd_waiting rd;
  ro_count : S (length G) = rd_count rd;
  ro_votes : ∀ p, p ∈ G → voted_for a (vo_term (rd_round rd)) (rd_node rd) p;
}.

Definition ready_ok (a : astate) (k : Z) (ps : list string) : Prop :=
  ∀ p, p ∈ ps → 0 < k → ∃ t, acked a t (Z.to_nat k) p ∧ decided servers a t (a_llog a !!! t) (Z.to_nat k).

(** The network: everything but the nodes. *)
Record net_ok (c : Cluster) (a : astate) : Prop := {
  nt_sent : ∀ to msg, (to, msg) ∈ cl_sent c → msg_ok a msg;
  nt_replies : ∀ peer req rep, (peer, req, rep) ∈ cl_replies c → reply_ok a peer req rep;
  nt_rounds : ∀ rd, rd ∈ cl_rounds c → ∃ G, round_ok a rd G;
  nt_ready : ∀ k ps, (k, ps) ∈ cl_ready c → ready_ok a k ps;
}.

Record Sim (c : Cluster) (a : astate) : Prop := {
  si_safe : safe a;
  si_dom : dom (cl_nodes c) = list_to_set servers;
  si_nodes : ∀ s n, cl_nodes c !! s = Some n → node_ok a s n;
  si_llogs : llogs_ok a;
  si_net : net_ok c a;
}.

(** ** What is backed stays backed *)

Section grows.
Context (a a' : astate) (HG : grows a a').
#[local] Definition HX := gr_extends a a' HG.

Lemma append_ok_mono args p k m : append_ok a args p k m → append_ok a' args p k m.
Proof.
  intros [H1 H2 H3 H4 H5 H6 H7]. pose proof (ex_llog _ _ HX _ H2) as [r Hr].
  split; try done; [by apply HG|by apply (elected_ext a a' HX)|rewrite Hr, length_app; lia| |].
  - destruct H5 as [?|H5]; [by left|right]. destruct (a_llog a !!! _ !! _) eqn:E; [|done].
    by rewrite Hr, (lookup_app_l_Some _ _ _ _ E).
  - rewrite H6, Hr, drop_app_le by lia. rewrite take_app_le; [done|]. rewrite length_drop. lia.
Qed.

Lemma msg_ok_mono msg : msg_ok a msg → msg_ok a' msg.
Proof.
  destruct msg; simpl; try done.
  - intros (l & [H1 H2 H3]). exists l. split; [by apply HG|done..].
  - intros (p & k & m & H). exists p, k, m. by apply append_ok_mono.
Qed.

Lemma reply_ok_mono peer req rep : reply_ok a peer req rep → reply_ok a' peer req rep.
Proof.
  destruct req, rep; simpl; try done.
  - intros H Hg. apply (voted_for_ext a a' HX). auto.
  - intros [H1 H2]. split; [by apply (msg_ok_mono (AppendEntries _))|]. intros Hs. apply (acked_ext a a' HX). auto.
Qed.

Lemma round_ok_mono rd G : round_ok a rd G → round_ok a' rd G.
Proof. intros []. split; try done. intros p Hp. apply (voted_for_ext a a' HX). auto. Qed.

Lemma decided_llog_mono t k : is_Some (a_elected a !! t) → decided servers a t (a_llog a !!! t) k →
  decided servers a' t (a_llog a' !!! t) k.
Proof.
  intros He D. eapply decided_prefix; [apply (decided_ext servers a a' HX); exact D|by apply (ex_llog _ _ HX)].
Qed.

Lemma ready_ok_mono k ps : safe a → ready_ok a k ps → ready_ok a' k ps.
Proof.
  intros H Hr p Hp Hk. destruct (Hr p Hp Hk) as (t & Hack & Hd). exists t. split; [by apply (acked_ext a a' HX)|].
  apply decided_llog_mono; [|done]. destruct Hack as (k' & Hin & _). by destruct (sf_acks _ _ H _ _ _ Hin) as (_ & ? & _).
Qed.

Lemma net_ok_mono c : safe a → net_ok c a → net_ok c a'.
Proof.
  intros H [H1 H2 H3 H4]. split.
  - intros to msg Hin. by eapply msg_ok_mono, H1.
  - intros peer req rep Hin. by eapply reply_ok_mono, H2.
  - intros rd Hin. destruct (H3 rd Hin) as [G HGd]. exists G. by apply round_ok_mono.
  - intros k ps Hin. apply ready_ok_mono; auto.
Qed.

Lemma node_ok_mono s n : node_ok a s n → a_nodes a' !!! s = a_nodes a !!! s → node_ok a' s n.
Proof.
  intros [] E. split; try done.
  - congruence.
  - intros Hl. apply (acked_ext a a' HX). auto.
  - intros Hl p k Hk. destruct (no_match0 Hl p k Hk); [by left|right]. by apply (acked_ext a a' HX).
Qed.
End grows.
End sim.
