(* ===== verification/ClusterMoves.v ===== *)
(** * What a node does, as steps of the specification

    For each way a node can change, the steps that the specification takes and the
    relation that holds afterwards. *)

From stdpp Require Import prelude gmap strings sorting countable list.
From S2P Require Import Prelude Serde Protocol StateMachine Storage Rpc Node NodeVotes NodeLog NodeLeader NodeCore.
From S2P Require Import RaftSpec RaftSafety RaftInvariant Cluster ClusterSim.
#[local] Open Scope Z_scope.

Lemma filter_fmap {A B} (f : A → B) (P : B → Prop) `{!∀ y, Decision (P y)} (l : list A) :
  filter P (f <$> l) = f <$> filter (λ x, P (f x)) l.
Proof. induction l as [|x l IH]; [done|]. rewrite fmap_cons, !filter_cons, IH. by destruct (decide (P (f x))). Qed.

Section moves.
Context (servers : list string) (Hdup : NoDup servers).

#[local] Abbreviation safe := (safe servers).
#[local] Abbreviation astep := (astep servers).
#[local] Abbreviation node_ok := (node_ok servers).
#[local] Abbreviation others := (others servers).

(** [s] has become [n], and nothing else has changed. *)
Definition moves (a : astate) (s : string) (n : RaftNode) (a' : astate) : Prop :=
  rtc astep a a' ∧ (∀ s', s' ≠ s → a_nodes a' !!! s' = a_nodes a !!! s') ∧ llogs_ok a' ∧ node_ok a' s n.

Lemma node_ok_core a s n n' : core_of n' = core_of n → node_ok a s n → node_ok a s n'.
Proof.
  intros E [H1 H2 H3 H4 H5 H6 H7 H8 H9]. unfold core_of in E. injection E as E1 E2 E3 E4 E5 E6 E7 E8 E9 E10 _.
  split; unfold view, log_len in *; rewrite ?E1, ?E2, ?E3, ?E4, ?E5, ?E6, ?E7, ?E8, ?E9, ?E10; done.
Qed.

Lemma moves_core a s n n' a' : core_of n' = core_of n → moves a s n a' → moves a s n' a'.
Proof. intros E (? & ? & ? & ?). split_and!; try done. by eapply node_ok_core. Qed.

Lemma moves_trans a s n a1 n' a2 : moves a s n a1 → moves a1 s n' a2 → moves a s n' a2.
Proof.
  intros (R1 & N1 & _ & _) (R2 & N2 & ? & ?). split_and!; try done; [by etransitivity|].
  intros s' Hs. rewrite N2, N1; done.
Qed.

Section node.
Context (a : astate) (s : string) (n : RaftNode).
Context (H : safe a) (HL : llogs_ok a) (HN : node_ok a s n).

Lemma moves_refl : moves a s n a.
Proof. split_and!; done. Qed.

(** A single step that leaves the other nodes and the leaders' logs alone. *)
Lemma moves_step n' a' : astep a a' → (∀ s', s' ≠ s → a_nodes a' !!! s' = a_nodes a !!! s') →
  a_elected a' = a_elected a → a_llog a' = a_llog a → (grows a a' → node_ok a' s n') → moves a s n' a'.
Proof.
  intros Hs Ho Ee El Hn. split_and!; [by apply rtc_once|done| |].
  - unfold llogs_ok. by rewrite Ee, El.
  - apply Hn. by eapply astep_grows.
Qed.

(** Changes of term, vote, state and commit index. *)
Lemma set_node_ok (a' : astate) n' : grows a a' → node_ok a s n → a_nodes a' !!! s = view n' →
  (self_id n', peers n', current_config n', log n') = (self_id n, peers n, current_config n, log n) →
  (state n' = Leader → state n = Leader ∧ current_term n' = current_term n ∧
     next_index n' = next_index n ∧ match_index n' = match_index n) →
  0 <= commit_index n' → node_ok a' s n'.
Proof.
  intros HG [H1 H2 H3 H4 H5 H6 H7 H8 H9] Hv E Hl Hc. injection E as E1 E2 E3 E4.
  split; unfold log_len in *; rewrite ?E1, ?E2, ?E3, ?E4; try done.
  - intros Hs. destruct (Hl Hs) as (Hs' & -> & _). apply (acked_ext a a'); [apply HG|auto].
  - intros Hs p k. destruct (Hl Hs) as (Hs' & -> & _ & ->). intros Hk.
    destruct (H8 Hs' p k Hk); [by left|right]. apply (acked_ext a a'); [apply HG|done].
  - intros Hs p k. destruct (Hl Hs) as (Hs' & _ & -> & _). by apply H9.
Qed.

Lemma moves_adopt t : current_term n < t →
  ∃ a', moves a s (with_vote_for None (with_state Follower (with_current_term t n))) a'.
Proof.
  intros Ht. eexists. apply moves_step; [apply (step_adopt _ a s t)|intros s' Hs; simpl; by rewrite lookup_total_insert_ne|done|done|].
  - by rewrite (no_view _ _ _ _ HN).
  - intros HG. eapply set_node_ok; [exact HG|exact HN| |done|done|apply HN].
    simpl. rewrite lookup_total_insert_eq, (no_view _ _ _ _ HN). done.
Qed.

Lemma moves_rest st : state n ≠ Leader → role_of st = RFollower → ∃ a', moves a s (with_state st n) a'.
Proof.
  intros Hs Hst. eexists. apply moves_step; [apply (step_rest _ a s)|intros s' Hs'; simpl; by rewrite lookup_total_insert_ne|done|done|].
  - rewrite (no_view _ _ _ _ HN). simpl. by destruct (state n).
  - intros HG. eapply set_node_ok; [exact HG|exact HN| |done|by destruct st|apply HN].
    simpl. rewrite lookup_total_insert_eq, (no_view _ _ _ _ HN). unfold view. simpl. by rewrite Hst.
Qed.

Lemma moves_promote : self_id n = s → u64 (current_term n + 1) → ∃ a', moves a s (promoted n) a'.
Proof.
  intros Hself Hu. assert (E : u64_add (current_term n) 1 = current_term n + 1) by (by apply u64_add_small).
  eexists. apply moves_step; [apply (step_promote _ a s)|intros s' Hs'; simpl; by rewrite lookup_total_insert_ne|done|done|].
  intros HG. eapply set_node_ok; [exact HG|exact HN| |done|done|apply HN].
  simpl. rewrite lookup_total_insert_eq, (no_view _ _ _ _ HN). unfold view. simpl. by rewrite E, Hself.
Qed.

Lemma moves_ask : ∃ a', moves a s n a' ∧ (current_term n, s, log n) ∈ a_reqs a'.
Proof.
  eexists. split; [apply moves_step; [apply (step_ask _ a s)|done..|]|].
  - intros HG. eapply node_ok_mono; [exact HG|exact HN|done].
  - simpl. rewrite (no_view _ _ _ _ HN). left.
Qed.

Lemma moves_grant args l : vote_req_ok a args l → rv_term args = current_term n →
  vote_for n = None ∨ vote_for n = Some (rv_candidate_id args) → up_to_date l (log n) →
  ∃ a', moves a s (with_vote_for (Some (rv_candidate_id args)) n) a' ∧
    voted_for a' (rv_term args) (rv_candidate_id args) s.
Proof.
  intros [Hq _ _] Ht Hv Hup. eexists.
  split; [apply moves_step; [apply (step_grant _ a s (rv_candidate_id args) l)|intros s' Hs'; simpl; by rewrite lookup_total_insert_ne|done|done|]|].
  - rewrite (no_view _ _ _ _ HN). simpl. by rewrite <- Ht.
  - by rewrite (no_view _ _ _ _ HN).
  - by rewrite (no_view _ _ _ _ HN).
  - intros HG. eapply set_node_ok; [exact HG|exact HN| |done|by intros|apply HN].
    simpl. rewrite lookup_total_insert_eq, (no_view _ _ _ _ HN). done.
  - eexists. split; [left|]. simpl. split_and!; [done|by rewrite (no_view _ _ _ _ HN)|done].
Qed.

Lemma moves_send p k m : state n = Leader → (p + k <= length (log n))%nat → (m <= Z.to_nat (commit_index n))%nat →
  (m <= p + k)%nat → ∃ a', moves a s n a' ∧ (current_term n, p, k, m) ∈ a_apps a' ∧ a_llog a' = a_llog a ∧ a_elected a' = a_elected a.
Proof.
  intros Hs Hpk Hm Hm'. eexists. split; [apply moves_step; [apply (step_send _ a s p k m)|done..|]|split_and!; [|done..]].
  - rewrite (no_view _ _ _ _ HN). simpl. by rewrite Hs.
  - by rewrite (no_view _ _ _ _ HN).
  - by rewrite (no_view _ _ _ _ HN).
  - done.
  - intros HG. eapply node_ok_mono; [exact HG|exact HN|done].
  - simpl. rewrite (no_view _ _ _ _ HN). left.
Qed.

Lemma moves_set_commit a' c : astep a a' →
  a' = set_node s (mkANode (current_term n) (vote_for n) (role_of (state n)) (log n) (Z.to_nat c)) a → 0 <= c →
  moves a s (with_commit_index c n) a'.
Proof.
  intros Hs -> Hc. apply moves_step; [done|intros s' Hs'; simpl; by rewrite lookup_total_insert_ne|done|done|].
  intros HG. eapply set_node_ok; [exact HG|exact HN| |done|by intros|done].
  simpl. by rewrite lookup_total_insert_eq.
Qed.

Lemma moves_learn t c : commit_index n <= c → acked a t (Z.to_nat c) s → decided servers a t (a_llog a !!! t) (Z.to_nat c) →
  ∃ a', moves a s (with_commit_index c n) a'.
Proof.
  intros Hc Ha Hd. pose proof (no_commit _ _ _ _ HN). eexists. apply moves_set_commit; [apply (step_learn _ a s t (Z.to_nat c)); [done..|]| |lia].
  - rewrite (no_view _ _ _ _ HN). simpl. lia.
  - by rewrite (no_view _ _ _ _ HN).
Qed.

(** ** Leading *)

Lemma moves_lead : state n = Candidate → match_index n = ∅ → majority servers (voted_for a (current_term n) s) →
  ∃ a', moves a s (lead n) a'.
Proof.
  intros Hs Hm Hq. eexists.
  assert (St : astep a _) by (apply (step_elect _ a s); rewrite (no_view _ _ _ _ HN); simpl; [by rewrite Hs|done]).
  rewrite (no_view _ _ _ _ HN) in St. simpl in St. pose proof (astep_grows _ _ _ H St) as HG.
  split_and!; [by apply rtc_once|intros s' Hs'; simpl; by rewrite lookup_total_insert_ne| |].
  - intros t. simpl. destruct (decide (t = current_term n)) as [->|].
    + rewrite lookup_total_insert_eq. intros _. apply HN.
    + rewrite lookup_insert_ne, lookup_total_insert_ne by done. apply HL.
  - destruct HN as [H1 H2 H3 H4 H5 H6 H7 H8 H9]. split; simpl; try done.
    + by rewrite lookup_total_insert_eq.
    + intros _. exists (length (log n)). split; [left|lia].
    + intros _ p k. by rewrite Hm, lookup_empty.
    + intros _ p k Hk. apply elem_of_list_to_map_2 in Hk. apply list_elem_of_fmap in Hk as (q & E & _).
      injection E as _ ->. unfold log_len. simpl. lia.
Qed.

Lemma moves_propose_one e : state n = Leader → le_term e = current_term n → le_index e = log_len n + 1 → plain e →
  log_len n + 1 < LOG_MAX → ∃ a', moves a s (with_log (log n ++ [e]) n) a'.
Proof.
  intros Hs Ht Hi Hp Hb. eexists.
  assert (St : astep a _) by (apply (step_propose _ a s e); rewrite (no_view _ _ _ _ HN); simpl; [by rewrite Hs|done]).
  rewrite (no_view _ _ _ _ HN) in St. simpl in St. pose proof (astep_grows _ _ _ H St) as HG.
  assert (Hlog : log_ok (log n ++ [e])).
  { destruct (no_log _ _ _ _ HN) as [L1 L2 L3]. unfold log_len in *. split.
    - apply indexed_app; [done|]. intros [|i] x Hx; [|done]. injection Hx as <-. lia.
    - apply Forall_app. split; [done|by constructor].
    - rewrite length_app. simpl. lia. }
  split_and!; [by apply rtc_once|intros s' Hs'; simpl; by rewrite lookup_total_insert_ne| |].
  - intros t. simpl. destruct (decide (t = current_term n)) as [->|].
    + by rewrite lookup_total_insert_eq.
    + rewrite lookup_total_insert_ne by done. apply HL.
  - destruct HN as [H1 H2 H3 H4 H5 H6 H7 H8 H9]. split; simpl; try done.
    + rewrite lookup_total_insert_eq. unfold view. simpl. by rewrite Hs.
    + intros _. exists (S (length (log n))). split; [left|]. rewrite length_app. simpl. lia.
    + intros _ p k Hk. destruct (H8 Hs p k Hk); [by left|right]. apply (acked_ext a); [apply HG|done].
    + intros _ p k Hk. specialize (H9 Hs p k Hk). unfold log_len in *. simpl. rewrite length_app. simpl. lia.
Qed.
End node.

Lemma moves_propose es a s n : safe a → llogs_ok a → node_ok a s n → state n = Leader →
  indexed_from (length (log n)) es → Forall (λ e, le_term e = current_term n) es → Forall plain es →
  log_len n + Z.of_nat (length es) < LOG_MAX → ∃ a', moves a s (with_log (log n ++ es) n) a'.
Proof.
  revert a n. induction es as [|e es IH]; intros a n H HL HN Hs Hi Ht Hp Hb.
  { exists a. eapply moves_core; [|by apply moves_refl]. unfold core_of. simpl. by rewrite app_nil_r. }
  apply indexed_from_cons in Hi as [He Hi]. inversion_clear Ht. inversion_clear Hp. simpl in Hb.
  destruct (moves_propose_one a s n H HL HN e) as [a1 M1]; try done; [lia|].
  pose proof M1 as (R1 & _ & HL1 & HN1).
  destruct (IH a1 (with_log (log n ++ [e]) n)) as [a2 M2]; try done.
  - by eapply steps_grow.
  - simpl. rewrite length_app. simpl. by rewrite Nat.add_1_r.
  - unfold log_len in *. simpl. rewrite length_app. simpl. lia.
  - exists a2. eapply moves_core; [|by eapply moves_trans]. unfold core_of. simpl. by rewrite <- app_assoc.
Qed.

(** ** Following *)

Section accept.
Context (a : astate) (s : string) (n : RaftNode) (args : AppendEntriesArgs) (p k m : nat).
Context (H : safe a) (HL : llogs_ok a) (HN : node_ok a s n) (HA : append_ok a args p k m).
Context (Ht : ae_term args = current_term n) (Hs : state n ≠ Leader).

#[local] Abbreviation L := (a_llog a !!! current_term n).
#[local] Abbreviation l' := (merge_log (log n) p (take k (drop p L))).

Lemma accept_wf : ae_wf args n.
Proof.
  destruct HA as [_ He Hb Hp _ Hes _]. destruct (HL _ He) as [Li _ Ls], (no_log _ _ _ _ HN) as [_ _ Ln].
  unfold LOG_MAX, log_len in *. split; rewrite Hp, ?Hes; [lia| |].
  - rewrite Nat2Z.id. intros i e Hi. apply lookup_take_Some in Hi as [Hi _]. by eapply indexed_drop.
  - rewrite length_take, length_drop. unfold log_len. lia.
Qed.

Lemma accept_entries_plain : Forall plain (ae_entries args).
Proof.
  destruct HA as [_ He _ _ _ -> _]. apply Forall_take, Forall_drop. by apply HL.
Qed.

Hypothesis Hm : prev_matches args (log n) = true.

Lemma accept_prev_ok : p = 0%nat ∨ (∃ x y, log n !! (p - 1)%nat = Some x ∧ L !! (p - 1)%nat = Some y ∧ le_term x = le_term y).
Proof.
  destruct HA as [_ _ _ Hp Hpt _ _]. rewrite Ht in Hpt. destruct Hpt as [?|Hpt]; [by left|].
  unfold prev_matches in Hm. rewrite Hp, orb_true_iff, Z.leb_le, bool_decide_eq_true in Hm.
  destruct Hm as [?|Hx]; [left; lia|]. right. replace (Z.to_nat (Z.of_nat p - 1)) with (p - 1)%nat in Hx by lia.
  destruct (log n !! _) as [x|], (L !! _) as [y|]; try done. exists x, y. simpl in *. split_and!; congruence.
Qed.

Lemma accept_shape : ae_accepts args n = true ∧ ae_log args n = l' ∧
  Z.to_nat (ae_commit args n) = commit_to m l' (Z.to_nat (commit_index n)) ∧ 0 <= ae_commit args n.
Proof.
  destruct HA as [_ _ _ Hp _ Hes Hc]. pose proof (no_commit _ _ _ _ HN).
  assert (Ha : ae_accepts args n = true).
  { unfold ae_accepts. rewrite Ht, Z.leb_refl, Z.eqb_refl, Hm, bool_decide_false by done. done. }
  assert (El : ae_log args n = l') by (unfold ae_log; by rewrite Ha, Hp, Nat2Z.id, Hes, Ht).
  split_and!; [done|done|..]; unfold ae_commit, commit_to; rewrite Ha, El, Hc; simpl;
    destruct (Z.ltb_spec (commit_index n) (Z.of_nat m)); try lia.
  - replace (Z.to_nat (commit_index n) <? m)%nat with true by (symmetry; apply Nat.ltb_lt; lia). lia.
  - replace (Z.to_nat (commit_index n) <? m)%nat with false by (symmetry; apply Nat.ltb_ge; lia). done.
Qed.

Lemma accept_log_ok : a_nodes a !!! s = view n → log_ok l'.
Proof.
  intros Ev. pose proof accept_prev_ok as Hprev. destruct HA as [Hin He Hb Hp Hpt Hes Hc]. rewrite Ht in *.
  destruct (no_log _ _ _ _ HN) as [N1 N2 N3], (HL _ He) as [L1 L2 L3].
  pose proof (accept_prev servers a s p k m H) as Hpr. rewrite Ev in Hpr. simpl in Hpr.
  destruct (Hpr Hin Hprev) as [Hpl Hpt'].
  pose proof (accept_matching servers a s p k m H) as HM. rewrite Ev in HM. simpl in HM.
  destruct (merge_cases _ _ p k (HM Hin) Hb Hpl Hpt') as [[-> _]| ->]; [done|]. split.
  - by apply indexed_take.
  - by apply Forall_take.
  - rewrite length_take. lia.
Qed.

Lemma moves_accept : ∃ a',
  moves a s (with_commit_index (ae_commit args n) (with_log (ae_log args n) (with_state Follower n))) a' ∧
  acked a' (ae_term args) (ack_of args) s.
Proof.
  destruct accept_shape as (Ha & El & Ec & Hc). pose proof (no_view _ _ _ _ HN) as Ev.
  pose proof (accept_log_ok Ev) as Hok. pose proof HA as [Hin He Hb Hp _ Hes _]. rewrite Ht in *.
  assert (St : astep a _) by
    (apply (step_accept _ a s p k m); rewrite Ev; simpl; [done|by destruct (state n)|exact accept_prev_ok]).
  rewrite Ev in St. simpl in St. eexists. split; [apply moves_step|].
  - exact H.
  - exact HL.
  - exact St.
  - intros s' Hs'. simpl. by rewrite lookup_total_insert_ne.
  - done.
  - done.
  - intros HG. destruct HN as [H1 H2 H3 H4 H5 H6 H7 H8 H9]. split; simpl; try done; [|by rewrite El].
    rewrite lookup_total_insert_eq. unfold view. simpl. by rewrite El, Ec.
  - exists (p + k)%nat. split; [left|]. unfold ack_of. rewrite Hp, Hes, length_take, length_drop. lia.
Qed.
End accept.

(** ** Committing *)

Lemma others_perm s : s ∈ servers → s :: others s ≡ₚ servers.
Proof.
  intros Hs. apply NoDup_Permutation.
  - constructor; [|by apply NoDup_filter]. unfold ClusterSim.others. rewrite list_elem_of_filter. tauto.
  - done.
  - intros x. unfold ClusterSim.others. rewrite elem_of_cons, list_elem_of_filter. destruct (decide (x = s)) as [->|]; naive_solver.
Qed.

Lemma quorum_acked a s n c : node_ok a s n → s ∈ servers → state n = Leader → 0 < c <= log_len n →
  config_quorum_reached (current_config n) (match_index n) (self_id n) (log_len n) c = true →
  majority servers (acked a (current_term n) (Z.to_nat c)).
Proof.
  intros HN Hin Hs Hc Hq. rewrite (no_config _ _ _ _ HN) in Hq. cbn [config_quorum_reached] in Hq.
  apply majority_ok_spec in Hq.
  rewrite filter_fmap, !length_fmap in Hq. set (F := filter _ _) in Hq.
  pose proof (others_perm s Hin) as HP. exists F. split_and!.
  - apply NoDup_filter. by rewrite HP.
  - intros x Hx. apply list_elem_of_filter in Hx as [_ Hx]. by rewrite HP in Hx.
  - by rewrite <- HP.
  - intros x Hx. apply list_elem_of_filter in Hx as [Hx _]. simpl in Hx. unfold server_index in Hx. simpl in Hx.
    rewrite (no_self _ _ _ _ HN) in Hx. clear F Hq. destruct (String.eqb_spec x s) as [Eq|Hne]; [rewrite Eq|].
    + destruct (no_own _ _ _ _ HN Hs) as (k' & ? & ?). exists k'. split; [done|]. unfold log_len in *. lia.
    + destruct (match_index n !! x) as [k|] eqn:E; simpl in Hx; [|lia].
      destruct (no_match _ _ _ _ HN Hs x k E) as [?|(k' & ? & ?)]; [lia|]. exists k'. split; [done|lia].
Qed.

Lemma moves_commit a s n c : safe a → llogs_ok a → node_ok a s n → s ∈ servers → may_commit n c →
  ∃ a', moves a s (with_commit_index c n) a'.
Proof.
  intros H HL HN Hin [->|(Hs & Hc & Hq & e & He & Ht)].
  { exists a. eapply moves_core; [|by apply moves_refl]. done. }
  pose proof (no_commit _ _ _ _ HN). pose proof (no_view _ _ _ _ HN) as Ev.
  assert (Hr : a_role (a_nodes a !!! s) = RLeader) by (rewrite Ev; simpl; by rewrite Hs).
  destruct (sf_lead _ _ H s Hr) as [[E HE] Hll]. rewrite Ev in HE, Hll. simpl in HE, Hll.
  eexists. eapply moves_set_commit; [done..| | |lia].
  - apply (step_commit _ a s (Z.to_nat c)); [done| |rewrite Ev; simpl; lia]. rewrite Ev. simpl. split_and!; [by eexists|lia| |].
    + exists e. rewrite Hll. split; [|done]. by replace (Z.to_nat c - 1)%nat with (Z.to_nat (c - 1)) by lia.
    + apply (quorum_acked a s n c); [done..|lia|done].
  - rewrite Ev. simpl. by rewrite Hs.
Qed.
End moves.
