(* ===== verification/ClusterRefines.v ===== *)
(** * Every step of the cluster is a step of the specification

    One lemma per kind of critical section, and the simulation they add up to. *)

From stdpp Require Import prelude gmap strings sorting countable list.
From S2P Require Import Prelude Serde Protocol StateMachine Storage Rpc Node NodeVotes NodeLog NodeLeader NodeCore.
From S2P Require Import RaftSpec RaftSafety RaftInvariant Cluster ClusterSim ClusterMoves.
#[local] Open Scope Z_scope.

Section refines.
Context {JW : Json WalOp} {JE : Json (list SSTEntry)} {JM : Json SSTableMeta}.
Context {BL : Bincode LogEntry} {LB : BincodeLaws LogEntry}.
Context {JV : Json Value} {LV : JsonLaws Value}.
Context {JS : Json Snapshot} {LS : JsonLaws Snapshot}.
Context (servers : list string) (Hdup : NoDup servers).

#[local] Abbreviation safe := (safe servers).
#[local] Abbreviation astep := (astep servers).
#[local] Abbreviation node_ok := (node_ok servers).
#[local] Abbreviation others := (others servers).
#[local] Abbreviation Sim := (Sim servers).
#[local] Abbreviation moves := (moves servers).

Definition ok_of {A} (r : result A) : option A := match r with Ok a => Some a | Err _ => None end.

Lemma at_node_Some {A} s (m : M RaftNode A) c n r n' : cl_nodes c !! s = Some n → m n = (r, n') →
  at_node s m c = (ok_of r, set_nodes (<[s := n']> (cl_nodes c)) c).
Proof. intros Hn Hm. unfold at_node. by rewrite Hn, Hm. Qed.

Lemma at_node_None {A} s (m : M RaftNode A) c : cl_nodes c !! s = None → at_node s m c = (None, c).
Proof. intros Hn. unfold at_node. by rewrite Hn. Qed.

Lemma sim_member c a s n : Sim c a → cl_nodes c !! s = Some n → s ∈ servers.
Proof.
  intros H Hn. apply elem_of_dom_2 in Hn. rewrite (si_dom _ _ _ H) in Hn. by apply elem_of_list_to_set in Hn.
Qed.

(** Every node was one that is related to what it is now. *)
Definition related (R : relation RaftNode) (c c' : Cluster) : Prop :=
  ∀ s n', cl_nodes c' !! s = Some n' → ∃ n, cl_nodes c !! s = Some n ∧ R n n'.

Lemma related_refl (R : relation RaftNode) `{!Reflexive R} c c' : cl_nodes c' = cl_nodes c → related R c c'.
Proof. intros E s n'. rewrite E. intros Hn. by exists n'. Qed.

Lemma at_node_related {A} (R : relation RaftNode) `{!Reflexive R} s (m : M RaftNode A) c c' :
  (∀ n, cl_nodes c !! s = Some n → R n (m n).2) → cl_nodes c' = cl_nodes (at_node s m c).2 → related R c c'.
Proof.
  intros Hm E. unfold at_node in E. destruct (cl_nodes c !! s) as [n|] eqn:Hn; [|by apply related_refl].
  intros s' n'. rewrite E. specialize (Hm n eq_refl). destruct (m n) as [r n1]. simpl in *. destruct (decide (s' = s)) as [->|Hne].
  - rewrite lookup_insert_eq. intros [= <-]. eauto.
  - rewrite lookup_insert_ne by done. intros Hn'. by exists n'.
Qed.

(** A node moves, and the rest of the cluster stays related. *)
Lemma sim_at c a s n n' a' : Sim c a → cl_nodes c !! s = Some n → moves a s n' a' →
  Sim (set_nodes (<[s := n']> (cl_nodes c)) c) a' ∧ grows a a'.
Proof.
  intros H Hn (R & No & HL & HN). destruct (steps_grow _ _ _ (si_safe _ _ _ H) R) as [Hs HG]. split; [|done]. split.
  - done.
  - simpl. rewrite dom_insert_lookup_L; [apply H|by eexists].
  - intros s' n''. simpl. destruct (decide (s' = s)) as [->|Hne].
    + rewrite lookup_insert_eq. by intros [= <-].
    + rewrite lookup_insert_ne by done. intros Hn'. eapply node_ok_mono; [exact HG|by apply (si_nodes _ _ _ H)|by apply No].
  - done.
  - pose proof (net_ok_mono servers a a' HG c (si_safe _ _ _ H) (si_net _ _ _ H)) as [N1 N2 N3 N4]. by split.
Qed.

(** What a critical section must show: a move of the specification, and [P] about its result. *)
Definition section_ok {A} (a : astate) (s : string) (m : M RaftNode A) (P : result A → RaftNode → astate → Prop) (n : RaftNode) : Prop :=
  wp m (λ r n', ∃ a', moves a s n' a' ∧ P r n' a') n.

Definition simulated (c' : Cluster) (a : astate) : Prop := ∃ a', rtc astep a a' ∧ Sim c' a'.

Lemma simulated_refl c a : Sim c a → simulated c a.
Proof. intros H. by exists a. Qed.

Lemma section_sim {A} c a s n (m : M RaftNode A) P : Sim c a → cl_nodes c !! s = Some n → section_ok a s m P n →
  ∃ r n' a', at_node s m c = (ok_of r, set_nodes (<[s := n']> (cl_nodes c)) c) ∧
    rtc astep a a' ∧ Sim (set_nodes (<[s := n']> (cl_nodes c)) c) a' ∧ grows a a' ∧ node_ok a' s n' ∧ P r n' a'.
Proof.
  intros H Hn Hw. unfold section_ok, wp in Hw. destruct (m n) as [r n'] eqn:Em. destruct Hw as (a' & M & HP).
  destruct (sim_at _ _ _ _ _ _ H Hn M). exists r, n', a'. split_and!; try done.
  - by eapply at_node_Some.
  - apply M.
  - apply M.
Qed.

Lemma section_simulated {A} c a s (m : M RaftNode A) : Sim c a →
  (∀ n, cl_nodes c !! s = Some n → section_ok a s m (λ _ _ _, True) n) → simulated (at_node s m c).2 a.
Proof.
  intros H Hw. destruct (cl_nodes c !! s) as [n|] eqn:Hn.
  - destruct (section_sim c a s n m _ H Hn (Hw n eq_refl)) as (r & n' & a' & E & R & S' & _). rewrite E. by exists a'.
  - rewrite at_node_None by done. by apply simulated_refl.
Qed.

(** Only things that do not matter change. *)
Lemma section_same {A} c a s (m : M RaftNode A) : Sim c a → keeps same_core m → simulated (at_node s m c).2 a.
Proof.
  intros H Hk. apply section_simulated; [done|]. intros n Hn. unfold section_ok.
  eapply wp_mono; [by apply keeps_wp|]. intros r n' E. exists a. split; [|done].
  eapply moves_core; [exact E|]. apply moves_refl; [apply H|by apply (si_nodes _ _ _ H)].
Qed.

(** ** Votes *)

Lemma last_log_info n : indexed (log n) → get_last_log_info n = (Z.of_nat (length (log n)), last_term (log n)).
Proof.
  intros Hi. unfold get_last_log_info, last_term. destruct (last (log n)) as [e|] eqn:E; simpl.
  - rewrite last_lookup in E. rewrite (Hi _ _ E). apply lookup_lt_Some in E. f_equal. lia.
  - apply last_None in E. by rewrite E.
Qed.

Lemma up_to_date_sound l n : indexed (log n) →
  log_up_to_date (Z.of_nat (length l)) (last_term l) n = true → up_to_date l (log n).
Proof.
  intros Hi. unfold log_up_to_date, up_to_date. rewrite last_log_info by done.
  rewrite orb_true_iff, andb_true_iff, Z.ltb_lt, Z.eqb_eq, Z.leb_le. lia.
Qed.

Definition catch_up (t : Z) (n : RaftNode) : RaftNode :=
  if current_term n <? t then with_vote_for None (with_state Follower (with_current_term t n)) else n.

Lemma moves_catch_up a s n t : safe a → llogs_ok a → node_ok a s n → ∃ a', moves a s (catch_up t n) a' ∧ grows a a' ∧ safe a'.
Proof.
  intros H HL HN. unfold catch_up. destruct (Z.ltb_spec (current_term n) t) as [Ht|].
  - destruct (moves_adopt _ a s n H HL HN t Ht) as [a' M]. exists a'. split; [done|].
    destruct (steps_grow _ _ _ H (proj1 M)). done.
  - exists a. split; [by apply moves_refl|done].
Qed.

Lemma request_vote_section a s n args l : safe a → llogs_ok a → node_ok a s n → vote_req_ok a args l →
  section_ok a s (handle_request_vote args) (λ r _ a', ∃ reply, r = Ok reply ∧
    (vr_granted reply = true → voted_for a' (rv_term args) (rv_candidate_id args) s)) n.
Proof.
  intros H HL HN HQ. eapply wp_mono; [apply request_vote_core|]. intros r n' [-> Ec].
  destruct (moves_catch_up a s n (rv_term args) H HL HN) as (a1 & M1 & G1 & H1). pose proof M1 as (_ & _ & HL1 & HN1).
  destruct (vote_decision args n) eqn:Ed.
  - unfold vote_decision, may_vote in Ed. apply andb_true_iff in Ed as [Ev Eu].
    assert (Hge : current_term n <= rv_term args) by lia.
    assert (Et : current_term (catch_up (rv_term args) n) = rv_term args).
    { unfold catch_up. destruct (Z.ltb_spec (current_term n) (rv_term args)); simpl; lia. }
    assert (HQ1 : vote_req_ok a1 args l) by (destruct HQ; split; [by apply G1|done..]).
    destruct (moves_grant _ a1 s (catch_up (rv_term args) n) H1 HL1 HN1 args l HQ1) as (a2 & M2 & Hv); [done| | |].
    + unfold catch_up. destruct (Z.ltb_spec (current_term n) (rv_term args)); [by left|].
      rewrite orb_false_l in Ev. apply andb_true_iff in Ev as [_ Ev]. rewrite orb_true_iff, !bool_decide_eq_true in Ev. done.
    + assert (El : log (catch_up (rv_term args) n) = log n) by (unfold catch_up; by case_match).
      rewrite El. destruct HQ as [_ Hi Ht]. rewrite Hi, Ht in Eu. apply up_to_date_sound; [apply HN|done].
    + exists a2. split; [|eauto]. eapply moves_core; [|by eapply moves_trans].
      rewrite Ec. unfold catch_up. destruct (Z.ltb_spec (current_term n) (rv_term args)); unfold core_of; simpl; f_equal; lia.
  - exists a1. split; [|eexists; split; [done|by intros]]. eapply moves_core; [|exact M1]. rewrite Ec. unfold catch_up.
    destruct (Z.ltb_spec (current_term n) (rv_term args)); unfold core_of; simpl; f_equal; lia.
Qed.

(** ** Replication *)

Lemma append_section a s n args p k m : safe a → llogs_ok a → node_ok a s n → append_ok a args p k m →
  section_ok a s (handle_append_entries args) (λ r _ a', ∃ reply, r = Ok reply ∧
    (ar_success reply = true → acked a' (ae_term args) (ack_of args) s)) n.
Proof.
  intros H HL HN HA. destruct (no_log _ _ _ _ HN) as [_ Hpl _].
  eapply wp_mono; [apply append_core; [by eapply accept_wf|done|by eapply accept_entries_plain]|].
  intros r n' [-> Ec]. destruct (ae_current args n) eqn:Ecur.
  2:{ exists a. split; [eapply moves_core; [exact Ec|by apply moves_refl]|]. eexists. split; [done|]. simpl.
      unfold ae_accepts. unfold ae_current in Ecur. by rewrite Ecur. }
  destruct (moves_catch_up a s n (ae_term args) H HL HN) as (a1 & M1 & G1 & H1). pose proof M1 as (_ & _ & HL1 & HN1).
  set (n1 := catch_up (ae_term args) n) in *. unfold ae_current in Ecur. apply andb_true_iff in Ecur as [Hge Hnl].
  assert (Et : ae_term args = current_term n1).
  { subst n1. unfold catch_up. destruct (Z.ltb_spec (current_term n) (ae_term args)); simpl; lia. }
  assert (Hs1 : state n1 ≠ Leader).
  { subst n1. unfold catch_up. destruct (Z.ltb_spec (current_term n) (ae_term args)); [done|].
    intros El. rewrite El, bool_decide_true, andb_true_r in Hnl by done. lia. }
  assert (El1 : log n1 = log n ∧ commit_index n1 = commit_index n) by (subst n1; unfold catch_up; by case_match).
  assert (Ecore : ∀ lg ci, core_of (with_commit_index ci (with_log lg (with_state Follower (with_vote_for
      (if current_term n <? ae_term args then None else vote_for n) (with_current_term (ae_term args) n))))) =
    core_of (with_commit_index ci (with_log lg (with_state Follower n1)))).
  { intros lg ci. subst n1. unfold catch_up. destruct (Z.ltb_spec (current_term n) (ae_term args)); unfold core_of; simpl; f_equal; lia. }
  rewrite Ecore in Ec. destruct El1 as [El1 Ec1]. destruct (prev_matches args (log n)) eqn:Em.
  - assert (Eacc : ae_accepts args n = true ∧ ae_accepts args n1 = true).
    { unfold ae_accepts. rewrite El1, Em, <- Et, Z.leb_refl, (bool_decide_false (state n1 = Leader)) by done.
      rewrite andb_false_r. simpl. by rewrite Hge, Hnl. }
    assert (Esame : ae_log args n1 = ae_log args n ∧ ae_commit args n1 = ae_commit args n).
    { unfold ae_commit, ae_log. destruct Eacc as [-> ->]. by rewrite El1, Ec1. }
    destruct (moves_accept _ a1 s n1 args p k m H1 HL1 HN1 (append_ok_mono a a1 G1 _ _ _ _ HA) Et Hs1) as (a2 & M2 & Hack);
      [by rewrite El1|].
    exists a2. split; [|eauto]. eapply moves_core; [|by eapply moves_trans]. by destruct Esame as [-> ->].
  - assert (Eacc : ae_accepts args n = false) by (unfold ae_accepts; by rewrite Em, andb_false_r).
    destruct (moves_rest _ a1 s n1 H1 HL1 HN1 Follower Hs1 eq_refl) as [a2 M2].
    exists a2. split; [|eexists; split; [done|simpl; by rewrite Eacc]].
    eapply moves_core; [|by eapply moves_trans]. rewrite Ec. unfold ae_commit, ae_log. rewrite Eacc. simpl.
    unfold core_of. simpl. by rewrite El1, Ec1.
Qed.

(** ** The network *)

Lemma sim_add_reply c a peer req rep : Sim c a → reply_ok a peer req rep → Sim (add_reply (peer, req, rep) c) a.
Proof.
  intros [H1 H2 H3 H4 [N1 N2 N3 N4]] Hr. split; [done..|]. split; try done.
  intros peer' req' rep'. simpl. rewrite elem_of_app, list_elem_of_singleton. intros [?|[= -> -> ->]]; auto.
Qed.

Lemma sim_add_sent c a out : Sim c a → (∀ to msg, (to, msg) ∈ out → msg_ok a msg) → Sim (add_sent out c) a.
Proof.
  intros [H1 H2 H3 H4 [N1 N2 N3 N4]] Ho. split; [done..|]. split; try done.
  intros to msg. simpl. rewrite elem_of_app. intros [?|?]; eauto.
Qed.

Lemma sim_set_rounds c a rs : Sim c a → (∀ rd, rd ∈ rs → ∃ G, round_ok servers a rd G) → Sim (set_rounds rs c) a.
Proof. intros [H1 H2 H3 H4 [N1 N2 N3 N4]] Hr. split; [done..|]. by split. Qed.

Lemma sim_add_ready c a k ps : Sim c a → ready_ok servers a k ps → Sim (add_ready (k, ps) c) a.
Proof.
  intros [H1 H2 H3 H4 [N1 N2 N3 N4]] Hr. split; [done..|]. split; try done.
  intros k' ps'. simpl. rewrite elem_of_app, list_elem_of_singleton. intros [?|[= -> ->]]; auto.
Qed.

Lemma deliver_section a s n msg : safe a → llogs_ok a → node_ok a s n → msg_ok a msg →
  section_ok a s (handle_raft_rpc msg) (λ r _ a', ∀ rep, r = Ok (Some rep) → reply_ok a' s msg rep) n.
Proof.
  intros H HL HN Hm. destruct msg; try done; simpl.
  - destruct Hm as [l HQ]. unfold section_ok. wp_step.
    eapply wp_mono; [by eapply request_vote_section|]. intros r n' (a' & M & reply & -> & Hv). wp_step.
    exists a'. split; [done|]. intros rep [= <-]. done.
  - destruct Hm as (p & k & m & HA). unfold section_ok. wp_step.
    pose proof HA as HA'. eapply wp_mono; [by eapply append_section|]. intros r n' (a' & M & reply & -> & Hv). wp_step.
    exists a'. split; [done|]. intros rep [= <-]. split; [|done].
    exists p, k, m. eapply append_ok_mono; [|exact HA']. by eapply steps_grow; [|apply M].
  - unfold section_ok. wp_step. eapply wp_mono; [apply keeps_wp, pre_vote_core|]. intros r n' E.
    assert (M : moves a s n' a) by (eapply moves_core; [exact E|by apply moves_refl]).
    destruct r; [wp_step|]; exists a; (split; [done|]); intros rep Hr; by simplify_eq.
Qed.

Lemma sim_deliver c a to msg : Sim c a → (to, msg) ∈ cl_sent c → simulated (cl_step (LDeliver to msg) c) a.
Proof.
  intros H Hin. simpl. destruct (cl_nodes c !! to) as [n|] eqn:Hn.
  - assert (Hm : msg_ok a msg) by (by eapply nt_sent; [apply H|]).
    destruct (section_sim c a to n _ _ H Hn
      (deliver_section a to n msg (si_safe _ _ _ H) (si_llogs _ _ _ H) (si_nodes _ _ _ H _ _ Hn) Hm))
      as (r & n' & a' & E & R & S' & _ & _ & Hr). rewrite E.
    destruct r as [[rep|]|e]; simpl; exists a'; (split; [done|]); [|done..]. apply sim_add_reply; [done|]. by apply Hr.
  - rewrite at_node_None by done. by apply simulated_refl.
Qed.

(** ** Replies *)

(** What an acknowledgement adds to the tables of a leader is what the peer has. *)
Lemma ack_node_ok a s n peer args reply : safe a → node_ok a s n →
  reply_ok a peer (AppendEntries args) (AppendReply reply) → ar_success reply = true →
  (state n = Leader → current_term n = ae_term args) →
  let last_idx := u64_add (ae_prev_log_index args) (Z.of_nat (length (ae_entries args))) in
  node_ok a s (with_next_index (<[peer := u64_add last_idx 1]> (next_index n))
                (with_match_index (<[peer := last_idx]> (match_index n)) n)).
Proof.
  intros H HN [(p & k & m & HA) Hack] Hsucc Ht last_idx. specialize (Hack Hsucc).
  destruct (no_log _ _ _ _ HN) as [_ _ Hsh]. pose proof (no_view _ _ _ _ HN) as Ev.
  assert (Hl : state n = Leader → last_idx = Z.of_nat (p + k) ∧ u64_add last_idx 1 = Z.of_nat (p + k) + 1 ∧
    (p + k <= length (log n))%nat ∧ acked a (current_term n) (p + k) peer).
  { intros Hs. assert (Hr : a_role (a_nodes a !!! s) = RLeader) by (rewrite Ev; simpl; by rewrite Hs).
    destruct (sf_lead _ _ H s Hr) as [_ Hll]. rewrite Ev in Hll. simpl in Hll.
    destruct HA as [_ He Hb Hp _ Hes _]. rewrite <- (Ht Hs), Hll in *.
    assert (Elen : length (ae_entries args) = k) by (rewrite Hes, length_take, length_drop; lia).
    unfold ack_of in Hack. rewrite Hp, Elen, Nat2Z.id in Hack. unfold LOG_MAX in Hsh.
    assert (El : last_idx = Z.of_nat (p + k)) by (subst last_idx; rewrite Hp, Elen, u64_add_small by (unfold u64; lia); lia).
    split_and!; [done| |done|done]. rewrite El, u64_add_small by (unfold u64; lia). done. }
  destruct HN as [H1 H2 H3 H4 H5 H6 H7 H8 H9]. split; try done; simpl; intros Hs q j; destruct (Hl Hs) as (E1 & E2 & Hle & Hk);
    (destruct (decide (q = peer)) as [->|]; [rewrite lookup_insert_eq|rewrite lookup_insert_ne by done; first [by apply H8|by apply H9]]).
  - intros [= <-]. right. rewrite E1. by rewrite Nat2Z.id.
  - intros [= <-]. rewrite E2. unfold log_len. simpl. lia.
Qed.

Lemma append_reply_section a s n peer args reply : safe a → llogs_ok a → node_ok a s n → s ∈ servers →
  reply_ok a peer (AppendEntries args) (AppendReply reply) →
  (ar_success reply = true → state n = Leader → current_term n = ae_term args) →
  section_ok a s (on_append_reply peer args reply) (λ _ _ _, True) n.
Proof.
  intros H HL HN Hin Hrep Hok. destruct (no_log _ _ _ _ HN) as [_ Hpl Hsh].
  eapply wp_mono; [apply append_reply_core; [unfold log_len, LOG_MAX in *; lia|apply HN|done]|].
  intros r n' Hc. unfold reply_core in Hc. destruct (ar_success reply) eqn:Es.
  - destruct Hc as (c & Ec & Hm). pose proof (ack_node_ok a s n peer args reply H HN Hrep Es (Hok eq_refl)) as HN1.
    cbv zeta in HN1. set (n1 := with_next_index _ _) in *.
    destruct (moves_commit servers Hdup a s n1 c H HL HN1 Hin Hm) as [a' M]. exists a'. split; [|done].
    by eapply moves_core.
  - destruct (Z.ltb_spec (current_term n) (ar_term reply)) as [Hlt|].
    + destruct (moves_adopt _ a s n H HL HN _ Hlt) as [a' M]. exists a'. split; [|done]. by eapply moves_core.
    + exists a. split; [|done]. destruct Hc as [Ec|(next & Hnx & Hgt & Ec)].
      * eapply moves_core; [exact Ec|by apply moves_refl].
      * eapply moves_core; [exact Ec|]. apply moves_refl; [done|]. destruct HN as [H1 H2 H3 H4 H5 H6 H7 H8 H9].
        split; try done. simpl. intros Hs q j. destruct (decide (q = peer)) as [->|]; [|rewrite lookup_insert_ne by done; by apply H9].
        rewrite lookup_insert_eq. intros [= <-]. specialize (H9 Hs _ _ Hnx). unfold log_len in *. simpl. lia.
Qed.

Lemma sim_append_reply c a peer args reply : Sim c a → label_ok (LAppendReply peer args reply) c →
  simulated (cl_step (LAppendReply peer args reply) c) a.
Proof.
  intros H [Hin Hok]. simpl. apply section_simulated; [done|]. intros n Hn.
  apply append_reply_section; [apply H|apply H|by apply (si_nodes _ _ _ H)|by eapply sim_member|by eapply nt_replies; [apply H|]|].
  by apply Hok.
Qed.

(** ** Elections *)

Lemma others_length s : s ∈ servers → length servers = S (length (others s)).
Proof. intros Hs. symmetry. exact (Permutation_length (others_perm servers Hdup s Hs)). Qed.

Lemma self_vote a s n : safe a → node_ok a s n → state n = Candidate → voted_for a (current_term n) s s.
Proof.
  intros H HN Hs. pose proof (sf_cand _ _ H s) as Hc. rewrite (no_view _ _ _ _ HN) in Hc. simpl in Hc.
  apply Hc. by rewrite Hs.
Qed.

(** The votes of [G] and of the candidate itself. *)
Lemma election_quorum a s n G : safe a → node_ok a s n → s ∈ servers → state n = Candidate →
  NoDup G → G ⊆ others s → (∀ p, p ∈ G → voted_for a (current_term n) s p) →
  (Nat.div2 (length (others s) + 1) < S (length G))%nat → majority servers (voted_for a (current_term n) s).
Proof.
  intros H HN Hin Hs Hnd Hsub Hv Hlt. exists (s :: G). split_and!.
  - constructor; [|done]. intros Hx. apply Hsub, list_elem_of_filter in Hx. tauto.
  - intros x [->|Hx]%elem_of_cons; [done|]. by apply Hsub, list_elem_of_filter in Hx as [_ ?].
  - rewrite (others_length s Hin). rewrite Nat.div2_div in Hlt. simpl.
    pose proof (Nat.div_mod_eq (length (others s) + 1) 2). pose proof (Nat.mod_upper_bound (length (others s) + 1) 2). lia.
  - intros x [->|Hx]%elem_of_cons; [by apply self_vote|by apply Hv].
Qed.

Definition lead_ok (n n' : RaftNode) : Prop := state n' = Leader → state n = Leader ∨ match_index n = ∅.

Lemma lead_fresh n n' : lead_ok n n' → state n ≠ Leader → core_of n' = core_of (lead n) → match_index n = ∅.
Proof. intros Hf Hs E. destruct Hf as [?|?]; [|done..]. by injection E as _ _ -> _. Qed.

Lemma vote_reply_section a rd G peer reply n : let s := rd_node rd in let m :=
    on_vote_reply (total_nodes (rd_round rd)) (vo_term (rd_round rd)) (rd_count rd) reply in
  safe a → llogs_ok a → node_ok a s n → round_ok servers a rd G → peer ∈ rd_waiting rd →
  reply_ok a peer (RequestVote (vo_args (rd_round rd))) (VoteResponse reply) →
  (vr_granted reply = false → vo_term (rd_round rd) < vr_term reply → current_term n < vr_term reply) →
  lead_ok n (m n).2 →
  section_ok a s m (λ r _ _, r = Ok (if vr_granted reply then S (rd_count rd) else rd_count rd)) n.
Proof.
  intros s m H HL HN [R1 R2 R3 R4 R5 R6 R7 R8 R9 R10] Hw Hrep Hlate Hf.
  pose proof (vote_reply_core (total_nodes (rd_round rd)) (vo_term (rd_round rd)) (rd_count rd) reply n) as Hc.
  fold m in Hc. unfold section_ok, wp in *. destruct (m n) as [r n']. cbn [fst snd] in *. destruct Hc as [-> Ec].
  destruct (vr_granted reply) eqn:Eg.
  - destruct ((Nat.div2 _ <? _)%nat && _) eqn:Ew; [|exists a; split; [eapply moves_core; [exact Ec|by apply moves_refl]|done]].
    rewrite !andb_true_iff, bool_decide_eq_true, Nat.ltb_lt, Z.eqb_eq in Ew. destruct Ew as (Hq & Hs & Ht).
    simpl in Hrep. specialize (Hrep Eg). rewrite R2, R3 in Hrep.
    destruct (moves_lead _ a s n H HL HN Hs) as [a' M].
    + eapply lead_fresh; [exact Hf|congruence|exact Ec].
    + apply (election_quorum a s n (peer :: G)); try done.
      * constructor; [|done]. intros Hx. by apply R8 in Hx.
      * intros x [->|Hx]%elem_of_cons; auto.
      * intros x [->|Hx]%elem_of_cons; rewrite Ht; [done|by apply R10].
      * unfold total_nodes in Hq. rewrite R4 in Hq. simpl. by rewrite R9.
    + exists a'. split; [by eapply moves_core|done].
  - destruct (Z.ltb_spec (vo_term (rd_round rd)) (vr_term reply)) as [Hlt|].
    + destruct (moves_adopt _ a s n H HL HN (vr_term reply)) as [a' M]; [by apply Hlate|].
      exists a'. split; [by eapply moves_core|done].
    + exists a. split; [eapply moves_core; [exact Ec|by apply moves_refl]|done].
Qed.

Lemma round_answered a rd G peer reply : round_ok servers a rd G → peer ∈ rd_waiting rd →
  reply_ok a peer (RequestVote (vo_args (rd_round rd))) (VoteResponse reply) →
  ∃ G', round_ok servers a (mkRound (rd_node rd) (rd_round rd)
    (if vr_granted reply then S (rd_count rd) else rd_count rd) (filter (λ p, p ≠ peer) (rd_waiting rd))) G'.
Proof.
  intros [R1 R2 R3 R4 R5 R6 R7 R8 R9 R10] Hw Hrep.
  exists (if vr_granted reply then peer :: G else G). simpl in Hrep. rewrite R2, R3 in Hrep.
  split; simpl; try done.
  - intros p Hp. apply list_elem_of_filter in Hp as [_ ?]. auto.
  - destruct (vr_granted reply); [|done]. constructor; [|done]. intros Hx. by apply R8 in Hx.
  - destruct (vr_granted reply); [|done]. intros x [->|Hx]%elem_of_cons; auto.
  - intros p Hp. rewrite list_elem_of_filter. intros [Hne Hp']. destruct (vr_granted reply).
    + apply elem_of_cons in Hp as [?|Hp]; [done|by apply R8 in Hp].
    + by apply R8 in Hp.
  - by destruct (vr_granted reply); simpl; rewrite R9.
  - intros p Hp. destruct (vr_granted reply); [|auto]. apply elem_of_cons in Hp as [->|?]; auto.
Qed.

Lemma sim_vote_reply c a i peer reply : Sim c a → allowed (LVoteReply i peer reply) c →
  simulated (cl_step (LVoteReply i peer reply) c) a.
Proof.
  intros H [(rd & Hi & Hw & Hin & Hlate) Hf]. unfold fresh_leaders in Hf. simpl in *. rewrite Hi in *.
  pose proof (list_elem_of_lookup_2 _ _ _ Hi) as Hrd.
  destruct (nt_rounds _ _ _ (si_net _ _ _ H) rd Hrd) as [G HG]. pose proof (nt_replies _ _ _ (si_net _ _ _ H) _ _ _ Hin) as Hrep.
  assert (Hs : ∃ n, cl_nodes c !! rd_node rd = Some n).
  { apply elem_of_dom. rewrite (si_dom _ _ _ H). apply elem_of_list_to_set, HG. }
  destruct Hs as [n Hn].
  set (m := on_vote_reply (total_nodes (rd_round rd)) (vo_term (rd_round rd)) (rd_count rd) reply) in *.
  assert (Hok : section_ok a (rd_node rd) m (λ r _ _, r = Ok (if vr_granted reply then S (rd_count rd) else rd_count rd)) n).
  { eapply vote_reply_section; [apply H|apply H|by apply (si_nodes _ _ _ H)|exact HG|done|done|by apply Hlate|].
    intros Hl. apply (Hf (rd_node rd) n (m n).2); [done| |done].
    unfold at_node. rewrite Hn. destruct (m n). simpl. by rewrite lookup_insert_eq. }
  destruct (section_sim c a (rd_node rd) n m _ H Hn Hok) as (r & n' & a' & E & R & S' & HGr & _ & ->).
  rewrite E. simpl. exists a'. split; [done|]. apply sim_set_rounds; [done|].
  intros rd' Hrd'. apply list_elem_of_lookup in Hrd' as [j Hj]. apply list_lookup_insert_Some in Hj as [(-> & <- & _)|[_ Hj]].
  - eapply round_answered; [by eapply round_ok_mono|done|by eapply reply_ok_mono].
  - apply (nt_rounds _ _ _ (si_net _ _ _ S')). simpl. by eapply list_elem_of_lookup_2.
Qed.
End refines.
