(* ===== verification/ClusterElections.v ===== *)
(** * Elections of the cluster, as steps of the specification

    Candidacies, the rounds they start, and the pre-elections before them. *)

From stdpp Require Import prelude gmap strings sorting countable list.
From S2P Require Import Prelude Serde Protocol StateMachine Storage Rpc Node NodeVotes NodeLog NodeLeader NodeCore.
From S2P Require Import RaftSpec RaftSafety RaftInvariant Cluster ClusterSim ClusterMoves ClusterRefines.
#[local] Open Scope Z_scope.

Section elections.
Context {JW : Json WalOp} {JE : Json (list SSTEntry)} {JM : Json SSTableMeta}.
Context {BL : Bincode LogEntry} {LB : BincodeLaws LogEntry}.
Context {JV : Json Value} {LV : JsonLaws Value}.
Context {JS : Json Snapshot} {LS : JsonLaws Snapshot}.
Context (servers : list string) (Hdup : NoDup servers).

#[local] Abbreviation safe := (safe servers).
#[local] Abbreviation astep := (astep servers).
#[local] Abbreviation node_ok := (node_ok servers).
#[local] Abbreviation others := (others servers).
#[local] Abbreviation Sim := (Sim servers).
#[local] Abbreviation moves := (moves servers).
#[local] Abbreviation section_ok := (section_ok servers).
#[local] Abbreviation simulated := (simulated servers).

(** ** Rounds of votes *)

(** What [launch] needs of the messages it sends. *)
Definition launch_ok (a : astate) (s : string) (n : RaftNode) (out : outgoing) : Prop :=
  (∀ to msg, (to, msg) ∈ out → msg_ok a msg) ∧
  ∃ G, round_ok servers a (mkRound s (vote_round (current_term n) n) 1 (peers n)) G.

Lemma vote_round_shape t n : vote_round t n =
  mkVoteRound (peers n) t (mkRequestVote t (self_id n) (get_last_log_info n).1 (get_last_log_info n).2).
Proof. unfold vote_round. by destruct (get_last_log_info n). Qed.

Lemma round_start a s n : s ∈ servers → node_ok a s n →
  round_ok servers a (mkRound s (vote_round (current_term n) n) 1 (peers n)) [].
Proof.
  intros Hs HN. rewrite vote_round_shape. split; simpl; try done.
  - apply HN.
  - apply HN.
  - by rewrite (no_peers _ _ _ _ HN).
  - constructor.
  - by intros p ?%elem_of_nil.
  - by intros p ?%elem_of_nil.
  - by intros p ?%elem_of_nil.
Qed.

(** A node without peers is a quorum. *)
Lemma lead_alone a s n n' : safe a → llogs_ok a → node_ok a s n → s ∈ servers → state n = Candidate →
  peers n = [] → match_index n = ∅ → core_of n' = core_of (lead n) → ∃ a', moves a s n' a'.
Proof.
  intros H HL HN Hin Hs Hp Hm Ec. destruct (moves_lead _ a s n H HL HN Hs Hm) as [a' M].
  - apply (election_quorum servers Hdup a s n []); try done; [constructor|by intros p ?%elem_of_nil|by intros p ?%elem_of_nil|].
    rewrite <- (no_peers _ _ _ _ HN), Hp. simpl. lia.
  - exists a'. by eapply moves_core.
Qed.

Lemma request_votes_section a s n : safe a → llogs_ok a → node_ok a s n → s ∈ servers →
  lead_ok n (request_votes n).2 →
  section_ok a s request_votes (λ r n' a', ∀ out, r = Ok out → launch_ok a' s n' out) n.
Proof.
  intros H HL HN Hin Hf. pose proof (request_votes_core n) as Hc. unfold ClusterRefines.section_ok, wp in *.
  destruct (request_votes n) as [r n']. cbn [fst snd] in *.
  assert (Hend : ∀ a', moves a s n' a' → (∀ out to msg, r = Ok out → (to, msg) ∈ out → msg_ok a' msg) →
    ∃ a', moves a s n' a' ∧ ∀ out, r = Ok out → launch_ok a' s n' out).
  { intros a' M Hmsg. exists a'. split; [done|]. intros out ->. split; [intros to msg; by apply Hmsg|].
    exists []. apply round_start; [done|apply M]. }
  case_bool_decide as Hp.
  - destruct Hc as [-> Ec]. assert (Hnil : ∀ a' (out : outgoing) to msg, @Ok outgoing [] = Ok out → (to, msg) ∈ out → msg_ok a' msg).
    { intros a' out to msg [= <-] ?%elem_of_nil. done. }
    case_bool_decide as Hs; [|apply (Hend a); [eapply moves_core; [exact Ec|by apply moves_refl]|apply Hnil]].
    destruct (lead_alone a s n n' H HL HN Hin Hs Hp) as [a' M]; [|done|apply (Hend a'); [done|apply Hnil]].
    eapply lead_fresh; [exact Hf|congruence|exact Ec].
  - destruct Hc as [-> ->]. destruct (moves_ask _ a s n H HL HN) as (a' & M & Hreq). apply (Hend a'); [done|].
    intros out to msg [= <-] Hout. apply list_elem_of_fmap in Hout as (q & [= -> ->] & _).
    exists (log n). rewrite vote_round_shape, last_log_info by apply HN. split; simpl; [|done..].
    by rewrite (no_self _ _ _ _ HN).
Qed.

Lemma sim_launch c a s n out : Sim c a → cl_nodes c !! s = Some n → launch_ok a s n out →
  Sim (launch s (Some out) c) a.
Proof.
  intros H Hn [Hm HR]. unfold launch. rewrite Hn. destruct out as [|x out]; [done|].
  apply sim_set_rounds; [by apply sim_add_sent|]. intros rd. rewrite elem_of_app, list_elem_of_singleton.
  intros [Hrd| ->]; [|done]. by apply (nt_rounds _ _ _ (si_net _ _ _ H)).
Qed.

Lemma launch_nodes s out c : cl_nodes (launch s out c) = cl_nodes c.
Proof. unfold launch. destruct out as [[|x out]|]; [done| |done]. by destruct (cl_nodes c !! s). Qed.

(** The node after a critical section on it. *)
Lemma at_node_lead {A} s (m : M RaftNode A) c n (c' : Cluster) : cl_nodes c !! s = Some n →
  cl_nodes c' = cl_nodes (at_node s m c).2 → fresh_leaders c c' → lead_ok n (m n).2.
Proof.
  intros Hn E Hf Hl. apply (Hf s n (m n).2 Hn); [|done]. rewrite E. unfold at_node. rewrite Hn.
  destruct (m n). simpl. by rewrite lookup_insert_eq.
Qed.

(** A section that may start a round, and the launch after it. *)
Lemma launch_simulated {A} c a s n (m : M RaftNode A) (f : A → outgoing) : Sim c a → cl_nodes c !! s = Some n →
  section_ok a s m (λ r n' a', ∀ x, r = Ok x → launch_ok a' s n' (f x)) n →
  simulated (launch s (f <$> (at_node s m c).1) (at_node s m c).2) a.
Proof.
  intros H Hn Hok. destruct (section_sim servers c a s n m _ H Hn Hok) as (r & n' & a' & E & R & S' & _ & _ & Hl).
  rewrite E. exists a'. split; [done|]. destruct r as [x|e]; [|done].
  apply (sim_launch _ a' s n' (f x)); [done|simpl; by rewrite lookup_insert_eq|by apply Hl].
Qed.

Lemma launch_none s (out : option outgoing) (c : Cluster) : cl_nodes c !! s = None → launch s out c = c.
Proof. intros Hn. unfold launch. rewrite Hn. by destruct out as [[]|]. Qed.

Lemma sim_request_votes c a s : Sim c a → allowed (LRequestVotes s) c → simulated (cl_step (LRequestVotes s) c) a.
Proof.
  intros H [_ Hf]. simpl in *. destruct (cl_nodes c !! s) as [n|] eqn:Hn.
  - assert (Hl : lead_ok n (request_votes n).2).
    { eapply at_node_lead; [exact Hn| |exact Hf]. destruct (at_node s request_votes c). simpl. apply launch_nodes. }
    pose proof (launch_simulated c a s n request_votes id H Hn) as HS.
    destruct (at_node s request_votes c) as [r c']. rewrite option_fmap_id in HS. apply HS.
    apply request_votes_section; [apply H|apply H|by apply (si_nodes _ _ _ H)|by eapply sim_member|done].
  - rewrite at_node_None by done. rewrite launch_none by done. by apply simulated_refl.
Qed.

(** ** Candidacies *)

Lemma moves_promoted a s n n' : safe a → llogs_ok a → node_ok a s n → u64 (current_term n + 1) →
  core_of n' = core_of (promoted n) → ∃ a', moves a s n' a'.
Proof.
  intros H HL HN Hu E. destruct (moves_promote _ a s n H HL HN (no_self _ _ _ _ HN) Hu) as [a' M].
  exists a'. by eapply moves_core.
Qed.

Lemma sim_promote c a s : Sim c a → label_ok (LPromote s) c → simulated (cl_step (LPromote s) c) a.
Proof.
  intros H Hok. simpl in *. apply section_simulated; [done|]. intros n Hn. apply wp_promote. intros d hb.
  destruct (moves_promoted a s n (with_last_heartbeat hb (with_storage d (promoted n)))) as [a' M];
    [apply H|apply H|by apply (si_nodes _ _ _ H)|by apply Hok|done|]. by exists a'.
Qed.

(** A section after a move. *)
Lemma section_after {A} a s n1 (m : M RaftNode A) P a1 : moves a s n1 a1 → section_ok a1 s m P n1 →
  ∃ a', moves a s (m n1).2 a' ∧ P (m n1).1 (m n1).2 a'.
Proof.
  intros M Hok. unfold ClusterRefines.section_ok, wp in Hok. destruct (m n1) as [r n'].
  destruct Hok as (a' & M' & HP). exists a'. split; [by eapply moves_trans|done].
Qed.

Lemma pre_vote_reply_section a s n total t votes reply : safe a → llogs_ok a → node_ok a s n → s ∈ servers →
  u64 (current_term n + 1) → let m := process_pre_vote_reply total t votes reply in lead_ok n (m n).2 →
  section_ok a s m (λ r n' a', ∀ x, r = Ok x → launch_ok a' s n' x.2) n.
Proof.
  intros H HL HN Hin Hu m Hf. pose proof (pre_vote_reply_core total t votes reply n) as Hc. fold m in Hc.
  unfold ClusterRefines.section_ok, wp in *. destruct (m n) as [r n']. cbn [fst snd] in *.
  assert (Hquiet : ∀ a', (∃ v, r = Ok (v, [])) → moves a s n' a' →
    ∃ a', moves a s n' a' ∧ ∀ x, r = Ok x → launch_ok a' s n' x.2).
  { intros a' [v ->] M. exists a'. split; [done|]. intros x [= <-]. split; [by intros to msg ?%elem_of_nil|].
    exists []. apply round_start; [done|apply M]. }
  destruct Hc as [[Hr [E|[Hs E]]]|(Hs & d & hb & Hc)].
  - apply (Hquiet a Hr). eapply moves_core; [exact E|by apply moves_refl].
  - destruct (moves_rest _ a s n H HL HN Follower) as [a' M]; [congruence|done|].
    apply (Hquiet a' Hr). by eapply moves_core.
  - cbv zeta in Hc. set (n1 := with_last_heartbeat _ _) in *. destruct Hc as [E2 E1].
    destruct (moves_promoted a s n n1 H HL HN Hu eq_refl) as [a1 M1].
    destruct (section_after a s n1 request_votes (λ r n' a', ∀ out, r = Ok out → launch_ok a' s n' out) a1 M1) as (a' & M & Hl).
    { apply request_votes_section; [by eapply steps_grow; [|apply M1]|apply M1|apply M1|done|]. rewrite E2.
      intros Hl. destruct (Hf Hl) as [?|?]; [congruence|by right]. }
    rewrite E2 in M, Hl. exists a'. split; [done|]. intros x Hx. destruct (request_votes n1).1 as [out|e]; [|congruence].
    rewrite E1 in Hx. injection Hx as <-. by apply Hl.
Qed.

Lemma sim_pre_vote_reply c a s total t votes reply : let l := LPreVoteReply s total t votes reply in
  Sim c a → allowed l c → simulated (cl_step l c) a.
Proof.
  intros l H [Hok Hf]. subst l. simpl in *. set (m := process_pre_vote_reply total t votes reply) in *.
  destruct (cl_nodes c !! s) as [n|] eqn:Hn.
  - assert (Hl : lead_ok n (m n).2).
    { eapply at_node_lead; [exact Hn| |exact Hf]. destruct (at_node s m c). simpl. apply launch_nodes. }
    pose proof (launch_simulated c a s n m snd H Hn) as HS. destruct (at_node s m c) as [r c']. apply HS.
    apply pre_vote_reply_section; [apply H|apply H|by apply (si_nodes _ _ _ H)|by eapply sim_member|by apply Hok|done].
  - rewrite at_node_None by done. rewrite launch_none by done. by apply simulated_refl.
Qed.

(** ** Pre-elections *)

Lemma pre_candidate_section a s n v : safe a → llogs_ok a → node_ok a s n → s ∈ servers →
  u64 (current_term n + 1) → vo_peers v = peers n → lead_ok n (enter_pre_candidate v n).2 →
  section_ok a s (enter_pre_candidate v) (λ r _ a', ∀ out to msg, r = Ok out → (to, msg) ∈ out → msg_ok a' msg) n.
Proof.
  intros H HL HN Hin Hu Hp Hf. pose proof (pre_candidate_core v n Hp) as Hc. unfold ClusterRefines.section_ok, wp in *.
  destruct (enter_pre_candidate v n) as [r n']. cbn [fst snd] in *. destruct Hc as [Hm Hc].
  assert (Hend : ∀ a', moves a s n' a' →
    ∃ a', moves a s n' a' ∧ ∀ out to msg, r = Ok out → (to, msg) ∈ out → msg_ok a' msg).
  { intros a' M. exists a'. split; [done|]. intros out to msg Hr Ho. by destruct (Hm out to msg Hr Ho) as [args ->]. }
  destruct Hc as [E|[Hs [E|[Hpn E]]]].
  - apply (Hend a). eapply moves_core; [exact E|by apply moves_refl].
  - destruct (moves_rest _ a s n H HL HN PreCandidate) as [a' M]; [congruence|done|]. apply (Hend a'). by eapply moves_core.
  - destruct (moves_promoted a s n (promoted n) H HL HN Hu eq_refl) as [a1 M1].
    destruct (lead_alone a1 s (promoted n) n') as [a' M]; try done; [by eapply steps_grow; [|apply M1]|apply M1|apply M1| |].
    + destruct Hf as [?|?]; [by injection E as _ _ -> _|congruence|done].
    + apply (Hend a'). by eapply moves_trans.
Qed.

Lemma sim_pre_campaign c a s v : Sim c a → allowed (LPreCampaign s v) c → simulated (cl_step (LPreCampaign s v) c) a.
Proof.
  intros H [Hok Hf]. simpl in *. set (m := enter_pre_candidate v) in *. destruct (cl_nodes c !! s) as [n|] eqn:Hn.
  - assert (Hl : lead_ok n (m n).2) by (eapply at_node_lead; [exact Hn| |exact Hf]; by destruct (at_node s m c)).
    destruct (Hok n eq_refl) as [Hu Hp].
    destruct (section_sim servers c a s n m _ H Hn (pre_candidate_section a s n v (si_safe _ _ _ H) (si_llogs _ _ _ H)
      (si_nodes _ _ _ H _ _ Hn) (sim_member _ _ _ _ _ H Hn) Hu Hp Hl)) as (r & n' & a' & E & R & S' & _ & _ & Hm).
    rewrite E. exists a'. split; [done|]. apply sim_add_sent; [done|]. intros to msg Hin.
    destruct r as [out|e]; simpl in Hin; [by eapply Hm|by apply elem_of_nil in Hin].
  - rewrite at_node_None by done. exists a. split; [done|]. by apply sim_add_sent; [|intros to msg ?%elem_of_nil].
Qed.
End elections.
