(* ===== verification/ClusterSteps.v ===== *)
(** * The cluster refines the specification

    The remaining critical sections, and the simulation they all add up to: a
    reachable cluster shows a reachable state of [RaftSpec]. *)

From stdpp Require Import prelude gmap strings sorting countable list.
From S2P Require Import Prelude Serde Protocol StateMachine Storage Rpc Node NodeVotes NodeLog NodeLeader NodeCore.
From S2P Require Import RaftSpec RaftSafety RaftInvariant Cluster ClusterRun ClusterSim ClusterMoves ClusterRefines ClusterElections.
#[local] Open Scope Z_scope.

Section steps.
Context {JW : Json WalOp} {JE : Json (list SSTEntry)} {JM : Json SSTableMeta}.
Context {BL : Bincode LogEntry} {LB : BincodeLaws LogEntry}.
Context {JV : Json Value} {LV : JsonLaws Value}.
Context {JS : Json Snapshot} {LS : JsonLaws Snapshot}.
Context (servers : list string) (Hdup : NoDup servers).

#[local] Abbreviation safe := (safe servers).
#[local] Abbreviation astep := (astep servers).
#[local] Abbreviation node_ok := (node_ok servers).
#[local] Abbreviation others := (others servers).
#[local] Abbreviation Sim := (Sim servers).
#[local] Abbreviation moves := (moves servers).
#[local] Abbreviation section_ok := (section_ok servers).
#[local] Abbreviation simulated := (simulated servers).

(** ** Replication *)

Lemma leader_log a s n : safe a → node_ok a s n → state n = Leader →
  is_Some (a_elected a !! current_term n) ∧ a_llog a !!! current_term n = log n.
Proof.
  intros H HN Hs. pose proof (sf_lead _ _ H s) as Hl. rewrite (no_view _ _ _ _ HN) in Hl. simpl in Hl.
  rewrite Hs in Hl. destruct (Hl eq_refl) as [[E HE] ?]. split; [by eexists|done].
Qed.

(** What a turn of [sync_logs] sends is a segment of the log. *)
Lemma append_args_spec v peer n args n' : 1 <= default 1 (next_index n !! peer) <= log_len n + 1 →
  log_len n < LOG_MAX → sv_commit_index v <= sv_log_len v <= log_len n → append_args v peer n = (Ok args, n') →
  n' = n ∧ ∃ p k, args = mkAppendEntries (sv_term v) (sv_node_id v) (Z.of_nat p)
      (default 0 (if (p =? 0)%nat then None else le_term <$> log n !! (p - 1)%nat)) (take k (drop p (log n))) (sv_commit_index v) ∧
    (p + k <= length (log n))%nat ∧ sv_commit_index v <= Z.of_nat (p + k).
Proof.
  unfold append_args, gets, mbind, M_bind, LOG_MAX, log_len. cbn beta iota zeta. change (id n) with n.
  generalize (default 1 (next_index n !! peer)). intros next Hn Hl Hv.
  rewrite u64_sub_small by (change U64 with (2 ^ 64); lia). destruct (Z_of_nat_complete (next - 1)) as [p Ep]; [lia|]. rewrite Ep.
  assert (Et : (if Z.of_nat p =? 0 then 0 else default 0 (le_term <$> log n !! Z.to_nat (Z.of_nat p - 1))) =
    default 0 (if (p =? 0)%nat then None else le_term <$> log n !! (p - 1)%nat)).
  { destruct (Z.eqb_spec (Z.of_nat p) 0), (Nat.eqb_spec p 0); try lia; [done|]. do 3 f_equal. lia. }
  rewrite Et. destruct (Z.leb_spec next (sv_log_len v)).
  - rewrite (proj2 (Z.leb_le 1 next)), (proj2 (Z.leb_le (Z.of_nat p) _)) by lia. cbn [andb]. unfold mret, M_ret. intros [= <- <-].
    split; [done|]. exists p, (length (log n) - p)%nat. rewrite Nat2Z.id, take_ge by (rewrite length_drop; lia).
    split_and!; [done|lia|lia].
  - unfold mret, M_ret. intros [= <- <-]. split; [done|]. exists p, 0%nat. split_and!; [done|lia|lia].
Qed.

Lemma append_args_section a s n v peer : safe a → llogs_ok a → node_ok a s n → state n = Leader →
  sv_term v = current_term n → 0 <= sv_commit_index v <= commit_index n →
  sv_commit_index v <= sv_log_len v <= log_len n →
  section_ok a s (append_args v peer) (λ r _ a', ∀ args, r = Ok args → msg_ok a' (AppendEntries args)) n.
Proof.
  intros H HL HN Hs Ht Hc Hv. destruct (leader_log a s n H HN Hs) as [He Hll].
  assert (Hnx : 1 <= default 1 (next_index n !! peer) <= log_len n + 1).
  { destruct (next_index n !! peer) as [k|] eqn:E; simpl; [by eapply (no_next _ _ _ _ HN)|]. unfold log_len. lia. }
  unfold ClusterRefines.section_ok, wp. destruct (append_args v peer n) as [[args|e] n'] eqn:E.
  - apply append_args_spec in E as (-> & p & k & -> & Hpk & Hm); [|done|apply HN|done].
    destruct (moves_send _ a s n H HL HN p k (Z.to_nat (sv_commit_index v))) as (a' & M & Hin & El & Ee); [done|done|lia|lia|].
    exists a'. split; [done|]. intros args' [= <-]. exists p, k, (Z.to_nat (sv_commit_index v)).
    split; simpl; rewrite ?Ht, ?El, ?Ee, ?Hll; try done; [|lia].
    destruct (Nat.eqb_spec p 0); [by left|right].
    destruct (lookup_lt_is_Some_2 (log n) (p - 1)) as [x Hx]; [lia|]. by rewrite Hx.
  - exists a. split; [|done]. assert (n' = n) as ->; [|by apply moves_refl].
    revert E. unfold append_args, gets, mbind, M_bind, mret, M_ret, throw. simpl. repeat case_match; congruence.
Qed.

Lemma sim_append c a s v peer : Sim c a → label_ok (LAppend s v peer) c → simulated (cl_step (LAppend s v peer) c) a.
Proof.
  intros H Hok. simpl in *. destruct (cl_nodes c !! s) as [n|] eqn:Hn.
  - destruct (Hok n eq_refl) as (Hs & _ & Ht & _ & Hc & Hv).
    destruct (section_sim servers c a s n (append_args v peer) _ H Hn (append_args_section a s n v peer (si_safe _ _ _ H)
      (si_llogs _ _ _ H) (si_nodes _ _ _ H _ _ Hn) Hs Ht Hc Hv)) as (r & n' & a' & E & R & S' & _ & _ & Hm).
    rewrite E. exists a'. destruct r as [args|e]; simpl; (split; [done|]); [|done].
    apply sim_add_sent; [done|]. intros to msg [= -> ->]%list_elem_of_singleton. by apply Hm.
  - rewrite at_node_None by done. by apply simulated_refl.
Qed.

Lemma sim_solo c a s : Sim c a → label_ok (LSolo s) c → simulated (cl_step (LSolo s) c) a.
Proof.
  intros H Hok. simpl in *. apply section_simulated; [done|]. intros n Hn. specialize (Hok n Hn).
  pose proof (si_nodes _ _ _ H _ _ Hn) as HN. pose proof (sim_member _ _ _ _ _ H Hn) as Hin.
  destruct (no_log _ _ _ _ HN) as [_ Hpl Hsh]. unfold ClusterRefines.section_ok, sync_logs. do 2 wp_step. cbn [sv_peers sync_view].
  rewrite Hok, bool_decide_true by done. do 3 wp_step. case_bool_decide.
  - eapply wp_mono; [apply maybe_commit_core; [unfold log_len, LOG_MAX in *; lia|apply HN|done]|].
    intros r n' (-> & ci & E & Hm). wp_step.
    destruct (moves_commit servers Hdup a s n ci) as [a' M]; [apply H|apply H|done..|].
    exists a'. split; [by eapply moves_core|done].
  - wp_step. wp_step. exists a. split; [apply moves_refl; [apply H|done]|done].
Qed.

(** ** Proposals *)

Lemma sim_entries c a s n n' es : Sim c a → cl_nodes c !! s = Some n → state n = Leader →
  core_of n' = core_of (with_log (log n ++ es) n) → indexed_from (length (log n)) es →
  Forall (λ e, le_term e = current_term n) es → Forall plain es → log_len n + Z.of_nat (length es) < LOG_MAX →
  ∃ a', moves a s n' a'.
Proof.
  intros H Hn Hs E Hi Ht Hp Hb.
  destruct (moves_propose servers es a s n) as [a' M]; [apply H|apply H|by apply (si_nodes _ _ _ H)|done..|].
  exists a'. by eapply moves_core.
Qed.

Lemma batch_entries_term t i cs : Forall (λ e, le_term e = t) (batch_entries t i cs).
Proof. revert i. induction cs; intros i; simpl; by constructor. Qed.

Lemma sim_propose c a s cs : Sim c a → label_ok (LPropose s cs) c → simulated (cl_step (LPropose s cs) c) a.
Proof.
  intros H [Hp Hok]. simpl in *. apply section_simulated; [done|]. intros n Hn. specialize (Hok n Hn).
  unfold ClusterRefines.section_ok. eapply wp_mono; [apply propose_batch_core|]. intros r n' [E|(Hs & k & E)].
  - exists a. split; [|done]. eapply moves_core; [exact E|]. apply moves_refl; [apply H|by apply (si_nodes _ _ _ H)].
  - destruct (sim_entries c a s n n' _ H Hn Hs E) as [a' M]; [..|by exists a'].
    + intros i e He. apply lookup_take_Some in He as [He _]. by eapply batch_entries_indexed.
    + apply Forall_take, batch_entries_term.
    + by apply Forall_take, plain_batch.
    + pose proof (length_take_le (batch_entries (current_term n) (log_len n + 1) cs) k).
      rewrite length_take, batch_entries_length. lia.
Qed.

Lemma sim_abort_tx c a s tx : Sim c a → label_ok (LAbortTx s tx) c → simulated (cl_step (LAbortTx s tx) c) a.
Proof.
  intros H Hok. simpl in *. apply section_simulated; [done|]. intros n Hn. specialize (Hok n Hn).
  unfold ClusterRefines.section_ok. eapply wp_mono; [apply propose_abort_core|]. intros r n' [E|(Hs & E)].
  - exists a. split; [|done]. eapply moves_core; [exact E|]. apply moves_refl; [apply H|by apply (si_nodes _ _ _ H)].
  - destruct (sim_entries c a s n n' _ H Hn Hs E) as [a' M]; [|by repeat constructor|by repeat constructor|simpl; lia|by exists a'].
    apply (batch_entries_indexed (current_term n) (length (log n)) [CDecideTx tx Abort]).
Qed.

(** ** Transactions *)

Lemma sim_tx_ready c a s k : Sim c a → label_ok (LTxReady s k) c → simulated (cl_step (LTxReady s k) c) a.
Proof.
  intros H Hok. simpl in *. apply simulated_refl. destruct (cl_nodes c !! s) as [n|] eqn:Hn; [|done].
  destruct (Hok n eq_refl) as (Hs & Hk & Hm). pose proof (si_nodes _ _ _ H _ _ Hn) as HN.
  destruct (leader_log a s n (si_safe _ _ _ H) HN Hs) as [_ Hll].
  apply sim_add_ready; [done|]. intros p Hp Hpos. exists (current_term n). split.
  - eapply Forall_forall in Hm; [|exact Hp]. unfold match_index_for in Hm.
    destruct (match_index n !! p) as [k'|] eqn:E; simpl in Hm; [|lia].
    destruct (no_match _ _ _ _ HN Hs p k' E) as [?|(j & ? & ?)]; [lia|]. exists j. split; [done|lia].
  - rewrite Hll. pose proof (sf_commit _ _ (si_safe _ _ _ H) s) as Hd. rewrite (no_view _ _ _ _ HN) in Hd. simpl in Hd.
    eapply decided_less; [|exact Hd]. lia.
Qed.

Lemma sim_tx_vote c a s req : Sim c a → label_ok (LTxVote s req) c → simulated (cl_step (LTxVote s req) c) a.
Proof.
  intros H (_ & ps & Hrd & Hin). simpl in *. apply section_simulated; [done|]. intros n Hn.
  pose proof (si_nodes _ _ _ H _ _ Hn) as HN. unfold ClusterRefines.section_ok.
  eapply wp_mono; [apply tx_vote_core, HN|]. intros r n' [E|[[Ht E]|[Hk E]]].
  - exists a. split; [|done]. eapply moves_core; [exact E|]. by apply moves_refl; [apply H|].
  - destruct (moves_adopt _ a s n (si_safe _ _ _ H) (si_llogs _ _ _ H) HN _ Ht) as [a' M].
    exists a'. split; [by eapply moves_core|done].
  - pose proof (no_commit _ _ _ _ HN). destruct (nt_ready _ _ _ (si_net _ _ _ H) _ _ Hrd s Hin) as (t & Ha & Hd); [lia|].
    destruct (moves_learn _ a s n (si_safe _ _ _ H) (si_llogs _ _ _ H) HN t (tv_last_log_index req)) as [a' M]; [lia|done..|].
    exists a'. split; [by eapply moves_core|done].
Qed.

Lemma sim_tx_step_down c a s t : Sim c a → label_ok (LTxStepDown s t) c → simulated (cl_step (LTxStepDown s t) c) a.
Proof.
  intros H [_ Hok]. simpl in *. apply section_simulated; [done|]. intros n Hn. specialize (Hok n Hn).
  pose proof (si_nodes _ _ _ H _ _ Hn) as HN. unfold ClusterRefines.section_ok, tx_step_down. do 2 wp_step. case_bool_decide.
  - apply wp_adopt. intros d. destruct (moves_adopt _ a s n (si_safe _ _ _ H) (si_llogs _ _ _ H) HN _ Hok) as [a' M].
    exists a'. split; [eapply moves_core; [|exact M]; done|done].
  - wp_step. exists a. split; [apply moves_refl; [apply H|done]|done].
Qed.

(** ** All of them *)

Theorem sim_step l c a : Sim c a → allowed l c → simulated (cl_step l c) a.
Proof.
  intros H Hal. pose proof Hal as [Hok _]. destruct l.
  - by apply sim_deliver.
  - by apply sim_append_reply.
  - by apply sim_vote_reply.
  - by apply sim_pre_vote_reply.
  - by apply sim_promote.
  - by apply sim_request_votes.
  - by apply sim_pre_campaign.
  - by apply sim_append.
  - by apply sim_solo.
  - by apply sim_propose.
  - by apply sim_abort_tx.
  - apply section_same; [done|]. apply snapshot_core.
  - apply section_same; [done|]. by intros n.
  - by apply sim_tx_ready.
  - by apply sim_tx_vote.
  - by apply sim_tx_step_down.
  - apply section_same; [done|]. intros n. unfold ignore. pose proof (same_on_sm (record_vote tx voter v) n) as E.
    by destruct (on_sm _ n).
Qed.
(** ** Whole executions *)

Lemma node_decided c a s n : Sim c a → cl_nodes c !! s = Some n →
  decided servers a (current_term n) (log n) (Z.to_nat (commit_index n)).
Proof.
  intros H Hn. pose proof (sf_commit _ _ (si_safe _ _ _ H) s) as Hd.
  by rewrite (no_view _ _ _ _ (si_nodes _ _ _ H _ _ Hn)) in Hd.
Qed.

Definition start_of (c : Cluster) : astate := mkAState (view <$> cl_nodes c) ∅ ∅ [] [] [] [].

Lemma fresh_sim c : fresh_cluster servers c → initial (start_of c) ∧ Sim c (start_of c).
Proof.
  intros (_ & Hdom & Hn & E1 & E2 & E3 & E4).
  assert (Hi : initial (start_of c)).
  { split_and!; try done. intros s. cbn [a_nodes start_of]. rewrite lookup_total_alt, lookup_fmap.
    destruct (cl_nodes c !! s) as [n|] eqn:E; [|done]. destruct (Hn s n E) as [_ _ _ _ [? _] F6 F7 F8 _]. simpl.
    rewrite F6, F7, F8. done. }
  split; [done|]. split; [by apply initial_safe|done| | |].
  - intros s n E. destruct (Hn s n E) as [F1 F2 F3 F4 F5 F6 F7 F8 F9]. split; try congruence.
    + cbn [a_nodes start_of]. by rewrite lookup_total_alt, lookup_fmap, E.
    + done.
    + rewrite F3, F2. done.
    + lia.
    + rewrite F7. split; [by intros i e|constructor|done].
  - intros t [x Hx]. simpl in Hx. by rewrite lookup_empty in Hx.
  - split; rewrite ?E1, ?E2, ?E3, ?E4; by intros until 0; intros ?%elem_of_nil.
Qed.
End steps.

Section executions.
Context {JW : Json WalOp} {JE : Json (list SSTEntry)} {JM : Json SSTableMeta}.
Context {BL : Bincode LogEntry} {LB : BincodeLaws LogEntry}.
Context {JV : Json Value} {LV : JsonLaws Value}.
Context {JS : Json Snapshot} {LS : JsonLaws Snapshot}.
Context (servers : list string).

Lemma reachable_sim c : reachable servers c →
  NoDup servers ∧ ∃ a0 a, initial a0 ∧ rtc (astep servers) a0 a ∧ Sim servers c a.
Proof.
  intros H. induction H as [c Hf|l c _ (Hd & a0 & a & Hi & Hr & HS) Hal].
  - split; [apply Hf|]. destruct (fresh_sim servers c Hf). by exists (start_of c), (start_of c).
  - split; [done|]. destruct (sim_step servers Hd l c a HS Hal) as (a' & Hr' & HS').
    exists a0, a'. split_and!; [done|by etransitivity|done].
Qed.

Lemma steps_sim c c' a : NoDup servers → Sim servers c a → rtc cluster_step c c' →
  ∃ a', rtc (astep servers) a a' ∧ Sim servers c' a'.
Proof.
  intros Hd HS Hr. revert a HS. induction Hr as [c|c c1 c' (l & Hl & ->) _ IH]; intros a HS; [by exists a|].
  destruct (sim_step servers Hd l c a HS Hl) as (a1 & R1 & HS1).
  destruct (IH a1 HS1) as (a' & R & HS'). exists a'. split; [by etransitivity|done].
Qed.
End executions.
