(* ===== verification/ClusterRestart.v ===== *)
(** * Restarts

    A node of the cluster is stopped and started again from its files ([boot]). It has the term, vote and log that
    its files hold; everything else is lost, the rounds of votes it was counting included. The
    simulation goes on across a restart when the files are up to date ([durable]). They are, unless a
    write failed or a conflict was cut out of the log: the defects [NodeFindings] shows. *)

From stdpp Require Import prelude gmap strings sorting countable list.
From S2P Require Import Prelude Serde Protocol StateMachine Storage Rpc Node NodeVotes NodeLog NodeLeader NodeCore Instances.
From S2P Require Import RaftSpec RaftSafety RaftInvariant Cluster ClusterRun ClusterSim ClusterMoves ClusterRefines ClusterElections ClusterSteps.
#[local] Open Scope Z_scope.

Section restart.
Context {JW : Json WalOp} {JE : Json (list SSTEntry)} {JM : Json SSTableMeta}.
Context {BL : Bincode LogEntry} {LB : BincodeLaws LogEntry}.
Context {JV : Json Value} {LV : JsonLaws Value}.
Context {JS : Json Snapshot} {LS : JsonLaws Snapshot}.

(** ** Restarting a node *)

(** The files hold the term, the vote and the log, and no snapshot beyond the commit index. *)
Definition durable (n : RaftNode) : bool :=
  let '(st, d) := load_initial_state (storage n) in
  bool_decide (st = (current_term n, vote_for n, log n)) &&
  match (load_snapshot d).1 with
  | Some snap => last_included_index snap <=? commit_index n
  | None => true
  end.

Definition reboot (config : StateMachineConfig) (now : Z) (n : RaftNode) : result unit * RaftNode :=
  boot config (self_id n) (peers n) (host (state_machine n)) (storage n) now.

(** The process of node [id] ends, and a new one is started. A start that fails is no step: the node stays silent. *)
Definition restart (id : string) (config : StateMachineConfig) (now : Z) (c : Cluster) : option Cluster :=
  n ← cl_nodes c !! id;
  match reboot config now n with
  | (Ok _, n') =>
      Some (set_rounds (filter (λ rd, rd_node rd ≠ id) (cl_rounds c)) (set_nodes (<[id := n']> (cl_nodes c)) c))
  | (Err _, _) => None
  end.

(** The restarts the theorems cover: of a node with peers, whose files are up to date. (What other restarts do is shown by
    [conflict_stays_in_wal] and [restart_applies_uncommitted] in [NodeFindings].) *)
Definition restart_step (c c' : Cluster) : Prop := ∃ id n config now,
  cl_nodes c !! id = Some n ∧ durable n = true ∧ is_single_node n = false ∧ restart id config now c = Some c'.

Lemma restart_step_intro id config now c :
  match cl_nodes c !! id, restart id config now c with
  | Some n, Some _ => durable n && negb (is_single_node n)
  | _, _ => false
  end = true → restart_step c (default c (restart id config now c)).
Proof.
  destruct (cl_nodes c !! id) as [n|] eqn:Hn; [|done]. destruct (restart id config now c) as [c'|] eqn:E; [|done].
  intros [Hd Hp%negb_true_iff]%andb_true_iff. by exists id, n, config, now.
Qed.

(** A step of a cluster whose nodes may restart. *)
Definition crash_step (c c' : Cluster) : Prop := cluster_step c c' ∨ restart_step c c'.

(** ** What a restarted node is *)

Lemma same_replay_command cmd : plain_command cmd → keeps same_core (replay_command cmd).
Proof. intros Hp. destruct cmd; try done; simpl; keep; apply same_on_sm. Qed.

Lemma same_replay es : Forall plain es → keeps same_core (replay_entries es).
Proof.
  induction es as [|e es IH]; intros Hp; simpl; [keep|]. apply Forall_cons in Hp as [He Hp].
  apply keeps_bind; [apply _|by apply same_replay_command|]. intros _. by apply IH.
Qed.

(** What a restart keeps, and what it resets. *)
Definition restarted_core (k : Z) (n : RaftNode) : core :=
  mkCore (current_term n) (vote_for n) Follower (log n) k ∅ ∅ (self_id n) (peers n)
    (Simple (server_of (self_id n) :: (server_of <$> peers n))) None.

Lemma replay_core n : Forall plain (log n) → wp replay_logs (λ _ n', core_of n' = core_of n) n.
Proof.
  intros Hp. unfold replay_logs. wp_step. wp_step. apply wp_bind. eapply wp_mono; [by apply keeps_wp, same_replay|].
  intros [[]|e] n' E; [|exact E]. wp_step. exact E.
Qed.

(** How far a node knows the log to be committed when it starts. *)
Definition snapshot_index (d : Disk) : Z :=
  match (load_snapshot d).1 with Some snap => 0 `max` last_included_index snap | None => 0 end.

Lemma restore_core n : commit_index n = 0 → wp restore_from_snapshot (λ _ n', ∃ k, 0 <= k <= snapshot_index (storage n) ∧
  core_of n' = core_of (with_commit_index k n)) n.
Proof.
  intros Hc. unfold restore_from_snapshot, snapshot_index. apply wp_bind. unfold wp at 1, on_disk_read.
  assert (E0 : ∀ d, core_of (with_storage d n) = core_of (with_commit_index 0 n)) by (intros d; unfold core_of; simpl; congruence).
  destruct (load_snapshot (storage n)) as [[snap|] d]; simpl.
  - apply wp_bind. eapply wp_mono; [apply keeps_wp, same_expect, same_on_sm|]. intros [x|e] n1 E1.
    + do 5 wp_step. exists (0 `max` last_included_index snap). split; [lia|].
      assert (commit_index n1 = 0) as ->. { apply (f_equal k_commit) in E1. simpl in E1. congruence. }
      unfold same_core, core_of in *. simpl in *. congruence.
    + exists 0. split; [lia|]. unfold same_core in E1. by rewrite E1.
  - wp_step. exists 0. split; [lia|done].
Qed.

Lemma reboot_core config now n n' : durable n = true → peers n ≠ [] → 0 <= commit_index n → Forall plain (log n) →
  reboot config now n = (Ok tt, n') → ∃ k, 0 <= k <= commit_index n ∧ core_of n' = restarted_core k n.
Proof.
  intros Hd Hp Hc Hpl. unfold reboot, boot, durable in *. destruct (sm_open _ _) as [[sm|e] files]; [|done].
  unfold raft_node_new. destruct (load_initial_state (storage n)) as [st d]. apply andb_true_iff in Hd as [Hst Hs].
  apply bool_decide_eq_true in Hst as ->. rewrite bool_decide_false by done.
  set (n0 := mkNode _ _ _ _ _ _ _ _ _ _ _ _ _ _ _ _ _). intros E.
  assert (Hw : wp (_ ← restore_from_snapshot; replay_logs) (λ _ n', ∃ k, 0 <= k <= snapshot_index d ∧
    core_of n' = core_of (with_commit_index k n0)) n0).
  { apply wp_bind. eapply wp_mono; [by apply restore_core|]. intros [r|e] n1 (k & Hk & E1); [|by exists k].
    eapply wp_mono; [apply replay_core|].
    - apply (f_equal k_log) in E1. simpl in E1. by rewrite E1.
    - intros r' n2 E2. exists k. split; [done|]. by rewrite E2. }
  eapply wp_elim in Hw as (k & Hk & Ek); [|exact E]. exists k. split.
  - unfold snapshot_index in Hk. destruct (load_snapshot d).1; [|lia]. apply Z.leb_le in Hs. lia.
  - rewrite Ek. done.
Qed.
End restart.

(** ** The simulation *)

Section sim.
Context {JW : Json WalOp} {JE : Json (list SSTEntry)} {JM : Json SSTableMeta}.
Context {BL : Bincode LogEntry} {LB : BincodeLaws LogEntry}.
Context {JV : Json Value} {LV : JsonLaws Value}.
Context {JS : Json Snapshot} {LS : JsonLaws Snapshot}.
Context (servers : list string).

#[local] Abbreviation Sim := (Sim servers).
#[local] Abbreviation estep := (estep servers).

Lemma estep_grows a a' : safe servers a → estep a a' → grows a a'.
Proof. intros H [Hs|Hs]; [by eapply astep_grows|]. destruct Hs. split; [split|..]; done. Qed.

Lemma esteps_grow a a' : safe servers a → rtc estep a a' → safe servers a' ∧ grows a a'.
Proof.
  intros H Hr. induction Hr as [|a b a' Hs _ IH]; [done|]. destruct IH as [? Hg]; [by eapply estep_safe|].
  split; [done|]. etransitivity; [by apply estep_grows|exact Hg].
Qed.

Lemma astep_estep a a' : rtc (astep servers) a a' → rtc estep a a'.
Proof. apply rtc_subrel. intros x y. by left. Qed.

Lemma restarted_ok a s n n' k : node_ok servers a s n → 0 <= k <= commit_index n → core_of n' = restarted_core k n →
  let x := a_nodes a !!! s in
  node_ok servers (set_node s (mkANode (a_term x) (a_vote x) RFollower (a_log x) (Z.to_nat k)) a) s n'.
Proof.
  intros [H1 H2 H3 H4 H5 H6 H7 H8 H9] Hk E. unfold core_of, restarted_core in E. injection E as E1 E2 E3 E4 E5 E6 E7 E8 E9 E10 _.
  split; rewrite ?E8, ?E9, ?E10, ?E4, ?E5; try done; try congruence; [|by rewrite H2, H3|lia].
  simpl. rewrite lookup_total_insert_eq, H1. unfold view. simpl. by rewrite E1, E2, E3, E4, E5.
Qed.

Lemma sim_restart c c' a : Sim c a → restart_step c c' → ∃ a', estep a a' ∧ Sim c' a'.
Proof.
  intros H (s & n & config & now & Hn & Hd & Hp & E). unfold restart in E. rewrite Hn in E. simpl in E.
  destruct (reboot config now n) as [[[]|e] n'] eqn:Er; [|done]. apply Some_inj in E. subst c'.
  pose proof (si_nodes _ _ _ H _ _ Hn) as HN.
  destruct (reboot_core config now n n' Hd) as (k & Hk & Ek); [|apply HN|apply HN|done|].
  { intros Ep. unfold is_single_node in Hp. by rewrite Ep in Hp. }
  set (x := a_nodes a !!! s). set (a' := set_node s (mkANode (a_term x) (a_vote x) RFollower (a_log x) (Z.to_nat k)) a).
  assert (Hs : estep a a').
  { right. apply (restart_server a s). rewrite (no_view _ _ _ _ HN). simpl. lia. }
  exists a'. split; [done|]. pose proof (estep_grows _ _ (si_safe _ _ _ H) Hs) as HG.
  apply sim_set_rounds.
  - split; [by eapply estep_safe; [apply H|]| | |apply H|].
    + simpl. rewrite dom_insert_lookup_L; [apply H|by eexists].
    + intros s' n''. simpl. destruct (decide (s' = s)) as [->|Hne].
      * rewrite lookup_insert_eq. intros [= <-]. by eapply restarted_ok.
      * rewrite lookup_insert_ne by done. intros Hn'. eapply node_ok_mono; [exact HG|by apply (si_nodes _ _ _ H)|].
        simpl. by rewrite lookup_total_insert_ne.
    + pose proof (net_ok_mono servers a a' HG c (si_safe _ _ _ H) (si_net _ _ _ H)) as [N1 N2 N3 N4]. by split.
  - intros rd [_ Hin]%list_elem_of_filter.
    destruct (nt_rounds _ _ _ (net_ok_mono servers a a' HG c (si_safe _ _ _ H) (si_net _ _ _ H)) rd Hin) as [G HGd]. by exists G.
Qed.

(** ** Whole executions *)

Lemma crash_sim c c' a : NoDup servers → Sim c a → crash_step c c' → ∃ a', rtc estep a a' ∧ Sim c' a'.
Proof.
  intros Hd H [(l & Hl & ->)|Hr].
  - destruct (sim_step servers Hd l c a H Hl) as (a' & R & S'). exists a'. split; [by apply astep_estep|done].
  - destruct (sim_restart c c' a H Hr) as (a' & R & S'). exists a'. split; [by apply rtc_once|done].
Qed.

Lemma crashes_sim c c' a : NoDup servers → Sim c a → rtc crash_step c c' →
  ∃ a', rtc estep a a' ∧ grows a a' ∧ Sim c' a'.
Proof.
  intros Hd HS Hr. revert a HS. induction Hr as [c|c c1 c' Hs _ IH]; intros a HS; [by exists a|].
  destruct (crash_sim c c1 a Hd HS Hs) as (a1 & R1 & HS1).
  destruct (IH a1 HS1) as (a' & R & G & HS'). exists a'. split_and!; [by etransitivity| |done].
  etransitivity; [by eapply esteps_grow; [apply HS|]|exact G].
Qed.

(** A cluster that started fresh, nodes having restarted or not. *)
Definition lives (c : Cluster) : Prop := ∃ c0, fresh_cluster servers c0 ∧ rtc crash_step c0 c.

Lemma lives_sim c : lives c → NoDup servers ∧ ∃ a0 a, initial a0 ∧ rtc estep a0 a ∧ Sim c a.
Proof.
  intros (c0 & Hf & Hr). assert (Hd : NoDup servers) by apply Hf. split; [done|].
  destruct (fresh_sim servers c0 Hf) as [Hi HS0]. destruct (crashes_sim c0 c _ Hd HS0 Hr) as (a & R & _ & HS).
  by exists (start_of c0), a.
Qed.

Lemma calm_crash c c' : rtc cluster_step c c' → rtc crash_step c c'.
Proof. apply rtc_subrel. intros x y. by left. Qed.

Lemma lives_steps c c' : lives c → rtc crash_step c c' → lives c'.
Proof. intros (c0 & Hf & Hr) Hr'. exists c0. split; [done|by etransitivity]. Qed.
End sim.
