(* ===== verification/ClusterTheorems.v ===== *)
(** * The safety of the cluster

    What holds in every reachable cluster: the nodes implement the specification, one
    leader per term, matching logs, leaders that have every committed entry, commits that are
    final, and state machines that agree. The last part runs a cluster of three as a witness. *)

From stdpp Require Import prelude gmap strings sorting countable list.
From S2P Require Import Prelude Serde Protocol StateMachine StateMachineProps Storage StorageProps Rpc Node NodeVotes ReferenceModel Refinement NodeLog.
From S2P Require Import NodeLeader NodeCore NodeApplied RaftSpec RaftSafety RaftInvariant Instances Samples.
From S2P Require Import Cluster ClusterRun ClusterSim ClusterMoves ClusterRefines ClusterElections ClusterSteps ClusterRestart.
#[local] Open Scope Z_scope.

(** ** What a cluster applies *)

Section applied.
Context {JW : Json WalOp} {LW : JsonLaws WalOp}.
Context {JE : Json (list SSTEntry)} {LE : JsonLaws (list SSTEntry)}.
Context {JM : Json SSTableMeta} {LM : JsonLaws SSTableMeta}.
Context {BL : Bincode LogEntry} {LB : BincodeLaws LogEntry}.
Context {JV : Json Value} {LV : JsonLaws Value}.
Context {JS : Json Snapshot} {LS : JsonLaws Snapshot}.

(** Every node was one that made progress to what it is. *)
Definition progressed : Cluster → Cluster → Prop := related progress.

#[local] Instance progress_refl : Reflexive progress.
Proof. intros n. by left. Qed.

Lemma progressed_refl c c' : cl_nodes c' = cl_nodes c → progressed c c'.
Proof. apply related_refl. apply _. Qed.

Lemma at_node_progressed {A} s (m : M RaftNode A) c c' : keeps progress m →
  cl_nodes c' = cl_nodes (at_node s m c).2 → progressed c c'.
Proof. intros Hm. apply (at_node_related progress). intros n _. apply Hm. Qed.

Lemma step_progressed servers c a l : Sim servers c a → label_ok l c → progressed c (cl_step l c).
Proof.
  intros H Hok. destruct l; simpl.
  - eapply (at_node_progressed to (handle_raft_rpc msg)).
    + apply progress_rpc. intros args ->. by apply (nt_sent _ _ _ (si_net _ _ _ H)) in Hok.
    + by destruct (at_node to _ c) as [[[]|] c'].
  - eapply at_node_progressed; [apply progress_append_reply|done].
  - destruct (cl_rounds c !! i) as [rd|]; [|by apply progressed_refl].
    match goal with |- context [at_node ?s ?m c] => eapply (at_node_progressed s m) end; [apply idle_progress, idle_vote_reply|]. by destruct (at_node (rd_node rd) _ c).
  - match goal with |- context [at_node ?s ?m c] => eapply (at_node_progressed s m) end; [apply idle_progress, idle_pre_vote_reply|].
    destruct (at_node id _ c). apply launch_nodes.
  - eapply at_node_progressed; [apply idle_progress, idle_promote|done].
  - match goal with |- context [at_node ?s ?m c] => eapply (at_node_progressed s m) end; [apply idle_progress, idle_request_votes|]. destruct (at_node id _ c). apply launch_nodes.
  - match goal with |- context [at_node ?s ?m c] => eapply (at_node_progressed s m) end; [apply idle_progress, idle_pre_candidate|]. by destruct (at_node id _ c).
  - eapply (at_node_progressed id (append_args v peer)); [apply idle_progress, idle_append_args|]. by destruct (at_node id _ c) as [[] ?].
  - eapply at_node_progressed; [apply progress_sync_logs|done].
  - eapply at_node_progressed; [apply idle_progress, idle_propose_batch|done].
  - eapply at_node_progressed; [apply idle_progress, idle_abort_tx|done].
  - eapply at_node_progressed; [apply idle_progress, idle_snapshot|done].
  - eapply at_node_progressed; [|reflexivity]. apply idle_progress. keep.
  - apply progressed_refl. by destruct (cl_nodes c !! id).
  - eapply at_node_progressed; [apply progress_tx_vote|done].
  - eapply at_node_progressed; [apply idle_progress, idle_step_down|done].
  - eapply at_node_progressed; [|reflexivity]. apply idle_progress. keep.
Qed.

(** Two moments of an execution: what was committed then is committed now, unchanged. *)
Section moments.
Context (servers : list string) (c c' : Cluster) (a a' : astate).
Context (H : Sim servers c a) (H' : Sim servers c' a').

Lemma commit_forward s n n' : rtc (astep servers) a a' → cl_nodes c !! s = Some n → cl_nodes c' !! s = Some n' →
  commit_index n <= commit_index n'.
Proof.
  intros HR Hn Hn'. pose proof (si_nodes _ _ _ H _ _ Hn) as N. pose proof (si_nodes _ _ _ H' _ _ Hn') as N'.
  pose proof (steps_commit _ _ _ s (si_safe _ _ _ H) HR) as Hc. rewrite (no_view _ _ _ _ N), (no_view _ _ _ _ N') in Hc. simpl in Hc.
  pose proof (no_commit _ _ _ _ N). pose proof (no_commit _ _ _ _ N'). lia.
Qed.

Lemma commit_agree s s' n n' : grows a a' → cl_nodes c !! s = Some n → cl_nodes c' !! s' = Some n' →
  let k := Z.to_nat (commit_index n `min` commit_index n') in take k (log n) = take k (log n').
Proof.
  intros HG Hn Hn' k. pose proof (node_decided servers c a s n H Hn) as D. apply (decided_ext servers a a' (gr_extends _ _ HG)) in D.
  pose proof (node_decided servers c' a' s' n' H' Hn') as D'.
  destruct (Z.le_ge_cases (commit_index n) (commit_index n')); subst k.
  - rewrite Z.min_l by done. eapply decided_agree; [apply H'|exact D|exact D'|lia].
  - rewrite Z.min_r by done. symmetry. eapply decided_agree; [apply H'|exact D'|exact D|lia].
Qed.
End moments.

Lemma commit_in_log servers c a s n : Sim servers c a → cl_nodes c !! s = Some n → commit_index n <= log_len n.
Proof.
  intros H Hn. pose proof (decided_length _ _ _ _ _ (node_decided servers c a s n H Hn)). unfold log_len. lia.
Qed.

Definition cluster_applied (B : Z) x0 (c : Cluster) : Prop := ∀ s n, cl_nodes c !! s = Some n → applied B x0 n.

Lemma steps_applied servers B x0 c c' a : NoDup servers → Sim servers c a → cluster_applied B x0 c →
  rtc cluster_step c c' → cluster_applied B x0 c'.
Proof.
  intros Hd H Ha Hr. revert a H Ha. induction Hr as [c|c c1 c' (l & Hl & ->) _ IH]; intros a H Ha; [done|].
  destruct (sim_step servers Hd l c a H Hl) as (a1 & R & H1). destruct (steps_grow _ _ _ (si_safe _ _ _ H) R) as [_ HG].
  apply (IH a1 H1). intros s n' Hn'. destruct (step_progressed servers c a l H (proj1 Hl) s n' Hn') as (n & Hn & Hp).
  pose proof (commit_forward _ _ _ _ _ H H1 s n n' R Hn Hn').
  pose proof (commit_agree _ _ _ _ _ H H1 s s n n' HG Hn Hn') as E. cbv zeta in E. rewrite Z.min_l in E by done.
  eapply progress_applied; [by apply (Ha s)|done|apply (si_nodes _ _ _ H1 _ _ Hn')| |done].
  split; [done|by eapply commit_in_log].
Qed.

Lemma leader_elected servers c a s n : Sim servers c a → cl_nodes c !! s = Some n → state n = Leader →
  ∃ E, a_elected a !! current_term n = Some (s, E).
Proof.
  intros HS Hn Hs. pose proof (sf_lead _ _ (si_safe _ _ _ HS) s) as Hl.
  rewrite (no_view _ _ _ _ (si_nodes _ _ _ HS _ _ Hn)) in Hl. simpl in Hl. rewrite Hs in Hl. by destruct (Hl eq_refl).
Qed.

(** ** The theorems *)

(** C1: the cluster implements Raft. Whatever the nodes do, whichever of them restart from their files, and
    however the network delivers, repeats, delays or loses messages, in every execution the covered conditions allow, the terms,
    votes, roles, logs and commit indices of the nodes are those of a run of the specification. *)
Theorem cluster_refines_raft servers c : lives servers c →
  ∃ a0 a, initial a0 ∧ rtc (estep servers) a0 a ∧
    ∀ s n, cl_nodes c !! s = Some n → a_nodes a !!! s = view n.
Proof.
  intros Hr. destruct (lives_sim servers c Hr) as (_ & a0 & a & Hi & Hs & HS).
  exists a0, a. split_and!; [done..|]. intros s n Hn. apply (no_view _ _ _ _ (si_nodes _ _ _ HS _ _ Hn)).
Qed.

(** C2: commits are final, in every execution from a fresh cluster under the covered conditions
    (membership is fixed; a leader takes acknowledgements of its present leadership only; no
    refusal moves a node back to an earlier term; who becomes leader has an empty match index; [sync_logs] sends while its node leads,
    from what it read in that leadership; transaction votes are asked after the coordinator's waits; terms fit 64 bits and logs are
    shorter than 2^61; a node that restarts has peers, and files that hold its
    term, vote and log, and no snapshot beyond its commit index):
    what a node has committed at one moment is, at every
    later moment, also after such restarts, what any other node has committed at the same indices; commit indices lie
    within the log, and never move back while no node restarts. (Without the conditions the code does not keep this:
    [stale_match_index_breaks_agreement], [late_ack_breaks_agreement].) *)
Theorem commits_are_final servers c c' s s' n n' : lives servers c → rtc crash_step c c' →
  cl_nodes c !! s = Some n → cl_nodes c' !! s' = Some n' →
  (∀ i, Z.of_nat i < commit_index n → Z.of_nat i < commit_index n' → is_Some (log n !! i) ∧ log n !! i = log n' !! i) ∧
  0 <= commit_index n' <= log_len n' ∧
  (s = s' → rtc cluster_step c c' → commit_index n <= commit_index n').
Proof.
  intros Hr Hsteps Hn Hn'. destruct (lives_sim servers c Hr) as (Hd & _ & a & _ & _ & HS).
  destruct (crashes_sim servers c c' a Hd HS Hsteps) as (a' & _ & HG & HS'). pose proof (commit_in_log _ _ _ _ _ HS Hn).
  split_and!.
  - intros i Hi Hi'. split; [apply lookup_lt_is_Some_2; unfold log_len in *; lia|].
    eapply take_eq_lookup; [exact (commit_agree _ _ _ _ _ HS HS' s s' n n' HG Hn Hn')|lia].
  - apply (no_commit _ _ _ _ (si_nodes _ _ _ HS' _ _ Hn')).
  - by eapply commit_in_log.
  - intros <- Hcalm. destruct (steps_sim servers c c' a Hd HS Hcalm) as (a1 & HR1 & HS1).
    by apply (commit_forward _ _ _ _ _ HS HS1 s n n' HR1).
Qed.

(** C4: leaders are complete, in every execution from a fresh cluster under the covered conditions
    (membership is fixed; a leader takes acknowledgements of its present leadership only; no
    refusal moves a node back to an earlier term; who becomes leader has an empty match index; [sync_logs] sends while its node leads,
    from what it read in that leadership; transaction votes are asked after the coordinator's waits; terms fit 64 bits and logs are
    shorter than 2^61; a node that restarts has peers, and files that hold its
    term, vote and log, and no snapshot beyond its commit index):
    what a node has committed by some moment, a leader of its
    term or of a later one has in its log, at the same place, at every later moment, whoever has restarted that way. (Without the
    conditions the code does not keep this: [stale_match_index_breaks_agreement], [late_ack_breaks_agreement].) *)
Theorem leaders_are_complete servers c c' s s' n n' : lives servers c → rtc crash_step c c' →
  cl_nodes c !! s = Some n → cl_nodes c' !! s' = Some n' → state n' = Leader → current_term n <= current_term n' →
  take (Z.to_nat (commit_index n)) (log n') = take (Z.to_nat (commit_index n)) (log n) ∧ commit_index n <= log_len n'.
Proof.
  intros Hr Hsteps Hn Hn' Hs Ht. destruct (lives_sim servers c Hr) as (Hd & _ & a & _ & _ & HS).
  destruct (crashes_sim servers c c' a Hd HS Hsteps) as (a' & _ & HG & HS').
  destruct (leader_log servers a' s' n' (si_safe _ _ _ HS') (si_nodes _ _ _ HS' _ _ Hn') Hs) as [[[cand E] He] Hll].
  pose proof (decided_ext servers a a' (gr_extends _ _ HG) _ _ _ (node_decided servers c a s n HS Hn)) as D.
  destruct (decided_llog _ _ (si_safe _ _ _ HS') _ _ _ _ _ _ D He Ht) as [Eq Hlen].
  rewrite Hll in Eq, Hlen. split; [done|]. unfold log_len. lia.
Qed.

(** C5: one leader per term, in every execution from a fresh cluster under the covered conditions
    (membership is fixed; a leader takes acknowledgements of its present leadership only; no
    refusal moves a node back to an earlier term; who becomes leader has an empty match index; [sync_logs] sends while its node leads,
    from what it read in that leadership; transaction votes are asked after the coordinator's waits; terms fit 64 bits and logs are
    shorter than 2^61; a node that restarts has peers, and files that hold its
    term, vote and log, and no snapshot beyond its commit index):
    two nodes that lead the same term, at the same or at
    different moments, are the same node. (A late refusal, which the conditions exclude, makes the code elect two:
    [late_refusal_elects_two].) *)
Theorem one_leader_per_term servers c c' s s' n n' : lives servers c → rtc crash_step c c' →
  cl_nodes c !! s = Some n → cl_nodes c' !! s' = Some n' → state n = Leader → state n' = Leader →
  current_term n = current_term n' → s = s'.
Proof.
  intros Hr Hsteps Hn Hn' Hs Hs' Ht. destruct (lives_sim servers c Hr) as (Hd & _ & a & _ & _ & HS).
  destruct (crashes_sim servers c c' a Hd HS Hsteps) as (a' & _ & HG & HS').
  destruct (leader_elected servers c a s n HS Hn Hs) as [E HE]. destruct (leader_elected servers c' a' s' n' HS' Hn' Hs') as [E' HE'].
  apply (ex_elected _ _ (gr_extends _ _ HG)) in HE. rewrite Ht in HE. by simplify_eq.
Qed.

(** C6: the logs match, in every execution from a fresh cluster under the covered conditions
    (membership is fixed; a leader takes acknowledgements of its present leadership only; no
    refusal moves a node back to an earlier term; who becomes leader has an empty match index; [sync_logs] sends while its node leads,
    from what it read in that leadership; transaction votes are asked after the coordinator's waits; terms fit 64 bits and logs are
    shorter than 2^61; a node that restarts has peers, and files that hold its
    term, vote and log, and no snapshot beyond its commit index):
    two entries of any two nodes with the same index and
    term are the same, and so is everything before them. (A restart over a WAL that still holds a conflicting entry is not covered:
    [conflict_stays_in_wal].) *)
Theorem logs_match_everywhere servers c s s' n n' : lives servers c →
  cl_nodes c !! s = Some n → cl_nodes c !! s' = Some n' → log_matching (log n) (log n').
Proof.
  intros Hr Hn Hn'. destruct (lives_sim servers c Hr) as (_ & _ & a & _ & _ & HS).
  pose proof (logs_match servers a (si_safe _ _ _ HS) s s') as Hm.
  by rewrite (no_view _ _ _ _ (si_nodes _ _ _ HS _ _ Hn)), (no_view _ _ _ _ (si_nodes _ _ _ HS _ _ Hn')) in Hm.
Qed.

(** C3: the replicas agree. The nodes start with empty logs, and with empty state machines on disks that do not fail and with
    table numbers to spare (enough for the cost [B] of what is applied); no node restarts ([restart_applies_uncommitted] shows
    why); and the execution meets the covered conditions
    (membership is fixed; a leader takes acknowledgements of its present leadership only; no
    refusal moves a node back to an earlier term; who becomes leader has an empty match index; [sync_logs] sends while its node leads,
    from what it read in that leadership; transaction votes are asked after the coordinator's waits; terms fit 64 bits and logs are
    shorter than 2^61). Then every node holds, at any moment, what the reference model holds after the
    entries it has applied, and these are entries of any node that has then or later applied more: the key-value map and
    the staged transactions of two nodes that have applied equally far are the same. *)
Theorem replicas_agree servers B c0 c c' s s' n n' : fresh_cluster servers c0 →
  (∀ s n, cl_nodes c0 !! s = Some n → last_applied n = 0 ∧ refines B (∅, ∅) (state_machine n)) →
  rtc cluster_step c0 c → rtc cluster_step c c' → cl_nodes c !! s = Some n → cl_nodes c' !! s' = Some n' →
  last_applied n <= last_applied n' → total_cost (∅, ∅) (slice 0 (last_applied n') (log n')) <= B →
  agrees (apply_all (slice 0 (last_applied n) (log n')) (∅, ∅)) (state_machine n) ∧
  agrees (apply_all (slice 0 (last_applied n') (log n')) (∅, ∅)) (state_machine n') ∧
  (last_applied n = last_applied n' → contents (state_machine n) = contents (state_machine n') ∧
     tx_ops <$> pending_txs (state_machine n) = tx_ops <$> pending_txs (state_machine n')).
Proof.
  intros Hf H0 Hr Hr' Hn Hn' Hle Hcost. assert (Hd : NoDup servers) by apply Hf. destruct (fresh_sim servers c0 Hf) as [_ HS0].
  assert (Ha0 : cluster_applied B (∅, ∅) c0).
  { intros s0 n0 Hn0. destruct (H0 s0 n0 Hn0) as [El HR]. pose proof (no_commit _ _ _ _ (si_nodes _ _ _ HS0 _ _ Hn0)).
    split; rewrite El; [lia|]. rewrite slice_nil by done. simpl. by rewrite Z.sub_0_r. }
  destruct (steps_sim servers c0 c _ Hd HS0 Hr) as (a & _ & HS). destruct (steps_sim servers c c' a Hd HS Hr') as (a' & HR1 & HS').
  destruct (steps_grow _ _ _ (si_safe _ _ _ HS) HR1) as [_ HG].
  pose proof (steps_applied servers B _ c0 c _ Hd HS0 Ha0 Hr) as Ha. pose proof (steps_applied servers B _ c c' _ Hd HS Ha Hr') as Ha'.
  destruct (Ha s n Hn) as [Hb HR], (Ha' s' n' Hn') as [Hb' HR']. cbv zeta in HR, HR'.
  assert (E : slice 0 (last_applied n) (log n) = slice 0 (last_applied n) (log n')).
  { eapply slice_take; [exact (commit_agree _ _ _ _ _ HS HS' s s' n n' HG Hn Hn')|lia]. }
  rewrite E in HR. assert (Hcost' : total_cost (∅, ∅) (slice 0 (last_applied n) (log n')) <= B).
  { rewrite (slice_app 0 (last_applied n)), apply_all_cost in Hcost by lia.
    pose proof (total_cost_nonneg (apply_all (slice 0 (last_applied n) (log n')) (∅, ∅)) (slice (last_applied n) (last_applied n') (log n'))). lia. }
  pose proof (rf_agrees _ _ _ (HR Hcost')) as A. pose proof (rf_agrees _ _ _ (HR' Hcost)) as A'.
  split_and!; [done..|]. intros El. rewrite <- El in A'. destruct A, A'. split; congruence.
Qed.
End applied.

(** ** A cluster of three that elects, restarts its leader, and elects again *)

Import Codec.

(** [b], leading term 2, restarts, and votes for [c] in term 3. *)
Definition ask_c : RequestVoteArgs := mkRequestVote 3 "c" 2 2.
Definition restarted_b : Cluster := default committed_xy (restart "b" default_config 0 committed_xy).
Definition led_by_c : Cluster := default restarted_b
  (run [LPromote "c"; LRequestVotes "c"; LDeliver "b" (RequestVote ask_c); LVoteReply 1 "b" (yes 3)] restarted_b).

Lemma restart_runs : rtc crash_step committed_xy led_by_c.
Proof.
  eapply rtc_l; [right|apply (calm_crash restarted_b)].
  - unfold restarted_b. apply restart_step_intro; vm_compute; reflexivity.
  - apply run_steps with [LPromote "c"; LRequestVotes "c"; LDeliver "b" (RequestVote ask_c); LVoteReply 1 "b" (yes 3)].
    unfold led_by_c. destruct (run _ _) eqn:E; [done|]. vm_compute in E. discriminate.
Qed.

Lemma committed_x_lives : lives trio committed_x.
Proof. exists three_fresh. split; [apply three_fresh_ok|]. apply calm_crash, first_commit_runs. Qed.

Lemma crash_runs : rtc crash_step committed_x led_by_c.
Proof. etransitivity; [apply calm_crash, second_commit_runs|apply restart_runs]. Qed.

Lemma led_by_c_lives : lives trio led_by_c.
Proof. eapply lives_steps; [apply committed_x_lives|apply crash_runs]. Qed.

Definition node_at (s : string) (c : Cluster) : RaftNode := default (new_node s []) (cl_nodes c !! s).

Lemma node_at_x : cl_nodes committed_x !! "a" = Some (node_at "a" committed_x).
Proof. unfold node_at. destruct (cl_nodes committed_x !! "a") eqn:E; [done|]. vm_compute in E. discriminate. Qed.

Lemma node_at_xy : cl_nodes committed_xy !! "b" = Some (node_at "b" committed_xy).
Proof. unfold node_at. destruct (cl_nodes committed_xy !! "b") eqn:E; [done|]. vm_compute in E. discriminate. Qed.

Lemma node_at_c s : s ∈ trio → cl_nodes led_by_c !! s = Some (node_at s led_by_c).
Proof.
  intros Hs. unfold node_at. destruct (cl_nodes led_by_c !! s) eqn:E; [done|].
  unfold trio in Hs. repeat (apply elem_of_cons in Hs as [->|Hs]; [vm_compute in E; discriminate|]).
  exfalso. clear E. by apply elem_of_nil in Hs.
Qed.

Lemma three_fresh_machines s n : cl_nodes three_fresh !! s = Some n →
  last_applied n = 0 ∧ refines 100 (∅, ∅) (state_machine n).
Proof.
  intros Hn. assert (E : last_applied n = 0 ∧ state_machine n = fresh_sm 1000 []).
  { unfold three_fresh, cl_nodes in Hn. apply lookup_insert_Some in Hn as [[<- <-]|[_ Hn]];
      [|apply lookup_insert_Some in Hn as [[<- <-]|[_ [<- <-]%lookup_singleton_Some]]]; by vm_compute. }
  destruct E as [-> ->]. split; [done|]. split; [split; vm_compute; reflexivity|apply fresh_machine|reflexivity|reflexivity].
Qed.

Lemma cluster_refines_raft_witness :
  lives trio led_by_c ∧ ∃ a0 a, initial a0 ∧ rtc (estep trio) a0 a ∧
    ∀ s n, cl_nodes led_by_c !! s = Some n → a_nodes a !!! s = view n.
Proof. split; [apply led_by_c_lives|]. apply (cluster_refines_raft trio led_by_c led_by_c_lives). Defined.

Lemma commits_are_final_witness :
  let n := node_at "a" committed_x in let n' := node_at "c" led_by_c in
  commit_index n = 1 ∧ commit_index n' = 1 ∧ log n !! 0%nat = log n' !! 0%nat.
Proof.
  split; [vm_compute; reflexivity|split; [vm_compute; reflexivity|]].
  apply (commits_are_final trio committed_x led_by_c "a" "c" _ _ committed_x_lives crash_runs node_at_x
    (node_at_c "c" ltac:(set_solver))); vm_compute; reflexivity.
Defined.

Lemma leaders_are_complete_witness :
  let n := node_at "a" committed_x in let n' := node_at "c" led_by_c in
  current_term n = 1 ∧ commit_index n = 1 ∧ state n' = Leader ∧ current_term n' = 3 ∧ take 1 (log n') = take 1 (log n).
Proof.
  split; [vm_compute; reflexivity|split; [vm_compute; reflexivity|split; [vm_compute; reflexivity|split; [vm_compute; reflexivity|]]]].
  apply (leaders_are_complete trio committed_x led_by_c "a" "c" _ _ committed_x_lives crash_runs node_at_x
    (node_at_c "c" ltac:(set_solver))); vm_compute; congruence.
Defined.

Lemma one_leader_per_term_witness :
  let n := node_at "a" committed_x in let n' := node_at "a" led_by_c in
  state n = Leader ∧ current_term n = 1 ∧ state n' = Leader ∧ current_term n' = 1 ∧ "a" = "a".
Proof.
  split; [vm_compute; reflexivity|split; [vm_compute; reflexivity|split; [vm_compute; reflexivity|split; [vm_compute; reflexivity|]]]].
  exact (one_leader_per_term trio committed_x led_by_c "a" "a" _ _ committed_x_lives crash_runs node_at_x
    (node_at_c "a" ltac:(set_solver)) ltac:(vm_compute; reflexivity) ltac:(vm_compute; reflexivity) ltac:(vm_compute; reflexivity)).
Defined.

Lemma logs_match_everywhere_witness :
  log (node_at "b" led_by_c) = [entry_x; entry_y] ∧
  log_matching (log (node_at "a" led_by_c)) (log (node_at "b" led_by_c)).
Proof.
  split; [vm_compute; reflexivity|].
  exact (logs_match_everywhere trio led_by_c "a" "b" _ _ led_by_c_lives (node_at_c "a" ltac:(set_solver))
    (node_at_c "b" ltac:(set_solver))).
Defined.

(** [a] applied one entry long before [b] had applied two. *)
Lemma replicas_agree_witness :
  let n := node_at "a" committed_x in let n' := node_at "b" committed_xy in
  last_applied n = 1 ∧ last_applied n' = 2 ∧ contents (state_machine n) = {["x" := "1"]} ∧
  contents (state_machine n') = {["x" := "1"; "y" := "2"]}.
Proof.
  destruct (replicas_agree trio 100 three_fresh committed_x committed_xy "a" "b" _ _ three_fresh_ok three_fresh_machines
    first_commit_runs second_commit_runs node_at_x node_at_xy ltac:(vm_compute; congruence)
    ltac:(vm_compute; congruence)) as ([H1 _] & [H2 _] & _).
  split; [vm_compute; reflexivity|split; [vm_compute; reflexivity|]]. rewrite H1, H2. split; vm_compute; reflexivity.
Defined.
