(* ===== verification/ClusterDurable.v ===== *)
(** * The files of a cluster

    While no disk fails, nobody takes a snapshot and no follower has to cut a conflicting entry out of its
    log, the files of every node hold its term, vote and log at all times: each node can be
    restarted at any moment. *)

From stdpp Require Import prelude gmap strings sorting countable list.
From S2P Require Import Prelude Serde Protocol StateMachine Storage StorageProps Rpc Node NodeVotes NodeEvents Refinement NodeLog NodeLeader NodeCore NodeDurable.
From S2P Require Import RaftSpec RaftSafety RaftInvariant Instances Samples.
From S2P Require Import Cluster ClusterRun ClusterSim ClusterMoves ClusterRefines ClusterElections ClusterSteps ClusterRestart ClusterTheorems.
#[local] Open Scope Z_scope.

Section durable.
Context {JW : Json WalOp} {JE : Json (list SSTEntry)} {JM : Json SSTableMeta}.
Context {BL : Bincode LogEntry} {LB : BincodeLaws LogEntry}.
Context {JV : Json Value} {LV : JsonLaws Value}.
Context {JS : Json Snapshot} {LS : JsonLaws Snapshot}.

(** The disk does not fail, and its files are up to date. *)
Definition healthy (n : RaftNode) : Prop := synced n ∧ whole n.

Lemma healthy_durable n : healthy n → durable n = true.
Proof.
  intros [[_ Hd Hm] [[_ Hw] Hs]]. unfold durable. rewrite load_initial_state_ok by done.
  rewrite Hm, (wal_holds_stored _ _ Hw), bool_decide_true by done. unfold stored_snapshot in Hs. rewrite quiet_ok in Hs by done.
  by rewrite Hs.
Qed.

(** ** What keeps the files up to date *)

Definition stays_healthy (n n' : RaftNode) : Prop := log n `prefix_of` log n' → healthy n → healthy n'.

#[local] Instance stays_healthy_refl : Reflexive stays_healthy.
Proof. intros n _ Hh. exact Hh. Qed.

Lemma stays_healthy_by n n' : meta_le n n' → logged n n' → stays_healthy n n'.
Proof. intros [_ Hm] Hl _ [Hs Hw]. split; [by apply Hm|by apply Hl]. Qed.

Lemma stays_healthy_keeps {A} (m : M RaftNode A) n : keeps meta_le m → keeps logged m → stays_healthy n (m n).2.
Proof. intros Hm Hl. apply stays_healthy_by; [apply Hm|apply Hl]. Qed.

Lemma stays_healthy_wp {A} (m : M RaftNode A) n : wp m (λ _ n', meta_le n n') n → keeps logged m → stays_healthy n (m n).2.
Proof. intros Hm Hl. apply stays_healthy_by; [apply Hm|apply Hl]. Qed.

(** Steps that carry terms of the width of the wire and take no snapshot. *)
Definition ordinary (l : label) : Prop :=
  match l with
  | LDeliver _ msg => u64 (msg_term msg)
  | LAppendReply _ _ reply => u64 (ar_term reply)
  | LVoteReply _ _ reply => u64 (vr_term reply)
  | LSnapshot _ _ => False
  | _ => True
  end.

Lemma deliver_healthy servers a s n msg : llogs_ok a → node_ok servers a s n → msg_ok a msg → u64 (msg_term msg) →
  stays_healthy n (handle_raft_rpc msg n).2.
Proof.
  intros HL HN Hm Hu. destruct msg; simpl in Hm, Hu; try done; unfold handle_raft_rpc.
  - apply stays_healthy_wp; [by apply (handle_raft_rpc_le (RequestVote args))|].
    apply keeps_bind; [apply _|apply logged_request_vote|keep].
  - destruct Hm as (p & k & m & HA). pose proof (accept_wf servers a s n args p k m HL HN HA) as Hwf.
    pose proof (handle_append_entries_wp args n Hwf) as (Er & _). intros Hp [Hs Hw]. split.
    + pose proof (handle_raft_rpc_le (AppendEntries args) n Hu) as [_ Hle]. unfold handle_raft_rpc in Hle. by apply Hle.
    + unfold mbind, M_bind in *. pose proof (whole_append args n Hwf) as Hwh. destruct (handle_append_entries args n) as [r n'].
      simpl in *. subst r. simpl in *. auto.
  - apply stays_healthy_keeps; (apply keeps_bind; [apply _|apply meta_pre_vote || apply logged_pre_vote|keep]).
Qed.

Lemma at_healthy {A} s (m : M RaftNode A) c c' : (∀ n, cl_nodes c !! s = Some n → stays_healthy n (m n).2) →
  cl_nodes c' = cl_nodes (at_node s m c).2 → related stays_healthy c c'.
Proof. apply at_node_related. apply _. Qed.

Lemma step_healthy servers c a l : Sim servers c a → allowed l c → ordinary l → related stays_healthy c (cl_step l c).
Proof.
  intros H [Hok _] Ho. destruct l; simpl in *.
  - eapply (at_healthy to (handle_raft_rpc msg)); [|by destruct (at_node to _ c) as [[[]|] c']].
    intros n Hn. eapply deliver_healthy; [apply H|by apply (si_nodes _ _ _ H)|by apply (nt_sent _ _ _ (si_net _ _ _ H)) in Hok|done].
  - eapply at_healthy; [|reflexivity]. intros n _. apply stays_healthy_wp; [by apply on_append_reply_le|apply logged_append_reply].
  - destruct Hok as (rd & -> & _ & _ & Hlate). match goal with |- context [at_node ?s ?m c] => eapply (at_healthy s m) end.
    + intros n Hn. apply stays_healthy_wp; [|apply logged_vote_reply]. apply on_vote_reply_le; [done|]. by apply Hlate.
    + by destruct (at_node (rd_node rd) _ c).
  - match goal with |- context [at_node ?s ?m c] => eapply (at_healthy s m) end.
    + intros n Hn. apply stays_healthy_wp; [by apply process_pre_vote_reply_le, Hok|apply logged_pre_vote_reply].
    + destruct (at_node id _ c). apply launch_nodes.
  - eapply at_healthy; [|reflexivity]. intros n Hn. apply stays_healthy_wp; [by apply promote_le, Hok|apply logged_promote].
  - match goal with |- context [at_node ?s ?m c] => eapply (at_healthy s m) end.
    + intros n _. apply stays_healthy_keeps; [apply meta_request_votes|apply logged_request_votes].
    + destruct (at_node id _ c). apply launch_nodes.
  - match goal with |- context [at_node ?s ?m c] => eapply (at_healthy s m) end.
    + intros n Hn. apply stays_healthy_wp; [by apply enter_pre_candidate_le, Hok|apply logged_pre_candidate].
    + by destruct (at_node id _ c).
  - eapply (at_healthy id (append_args v peer)); [|by destruct (at_node id _ c) as [[] ?]].
    intros n _. apply stays_healthy_keeps; [apply meta_append_args|apply logged_append_args].
  - eapply at_healthy; [|reflexivity]. intros n _. apply stays_healthy_keeps; [apply meta_sync_logs|apply logged_sync_logs].
  - eapply at_healthy; [|reflexivity]. intros n _. apply stays_healthy_keeps; [apply meta_propose_batch|apply logged_propose_batch].
  - eapply at_healthy; [|reflexivity]. intros n _. apply stays_healthy_keeps; [apply meta_propose_abort_tx|apply logged_propose_abort].
  - done.
  - eapply at_healthy; [|reflexivity]. intros n _. apply stays_healthy_keeps; keep.
  - apply related_refl; [apply _|]. by destruct (cl_nodes c !! id).
  - eapply at_healthy; [|reflexivity]. intros n _. apply stays_healthy_wp; [apply handle_tx_vote_request_le, Hok|apply logged_tx_vote].
  - destruct Hok as [Hu Hlt]. eapply at_healthy; [|reflexivity]. intros n Hn.
    apply stays_healthy_wp; [by apply tx_step_down_le, Hlt|]. unfold tx_step_down. keep. apply logged_adopt.
  - eapply at_healthy; [|reflexivity]. intros n _. apply stays_healthy_keeps; keep.
Qed.

(** ** Restarts *)

Lemma logged_load_snapshot n : whole n → whole (on_disk_read load_snapshot n).2.
Proof.
  intros [[Hd Hw] Hs]. unfold on_disk_read, load_snapshot.
  pose proof (disk_read_files (λ h, d_files h !! (FSnapshot, false)) (storage n)) as [Hf Ho].
  destruct (disk_read _ (storage n)) as [r d]. simpl in *. split; [split; [auto|]|].
  - eapply wal_holds_ext; [|exact Hw]. simpl. by rewrite Hf.
  - rewrite <- Hs. apply stored_snapshot_ext. simpl. by rewrite Hf.
Qed.

Lemma logged_replay : keeps logged replay_logs.
Proof.
  assert (Hc : ∀ cmd, keeps logged (replay_command cmd)) by (intros cmd; destruct cmd; simpl; keep).
  assert (He : ∀ es, keeps logged (replay_entries es)) by (induction es; simpl; keep).
  unfold replay_logs. keep.
Qed.

Lemma logged_restore : keeps logged restore_from_snapshot.
Proof.
  unfold restore_from_snapshot. apply keeps_bind; [apply _|intros n Hn; by apply logged_load_snapshot|]. keep.
Qed.

Lemma reboot_healthy config now n n' : reboot config now n = (Ok tt, n') → healthy n → healthy n'.
Proof.
  intros E [Hs Hw]. split.
  - pose proof (boot_le config (peers n) now n) as [_ Hle]. unfold reboot in E. rewrite E in Hle. by apply Hle.
  - revert E. unfold reboot, boot, raft_node_new. rewrite load_initial_state_ok by apply Hs.
    destruct (stored_meta (storage n)) as [t v]. rewrite (wal_holds_stored (log n)) by apply Hw.
    destruct (sm_open _ _) as [[sm|e] files]; [|done]. set (n1 := if bool_decide _ then _ else _). intros E.
    assert (Hw1 : whole n1) by (subst n1; case_bool_decide; exact Hw).
    assert (Hk : keeps logged (_ ← restore_from_snapshot; replay_logs)).
    { apply keeps_bind; [apply _|apply logged_restore|]. intros _. apply logged_replay. }
    specialize (Hk n1 Hw1). by rewrite E in Hk.
Qed.

(** ** Executions *)

(** A step in which logs only grow, or a restart of a node with peers, whatever its files hold. *)
Definition clean_step (c c' : Cluster) : Prop :=
  (∃ l, allowed l c ∧ ordinary l ∧ c' = cl_step l c ∧
     ∀ s n n', cl_nodes c !! s = Some n → cl_nodes c' !! s = Some n' → log n `prefix_of` log n') ∨
  (∃ id n config now, cl_nodes c !! id = Some n ∧ is_single_node n = false ∧ restart id config now c = Some c').

Definition all_healthy (c : Cluster) : Prop := ∀ s n, cl_nodes c !! s = Some n → healthy n.

Lemma clean_crash c c' : all_healthy c → clean_step c c' → crash_step c c'.
Proof.
  intros Hh [(l & Ha & _ & -> & _)|(id & n & config & now & Hn & Hp & E)]; [left; by exists l|right].
  exists id, n, config, now. split_and!; try done. by eapply healthy_durable, Hh.
Qed.

Lemma clean_healthy servers c c' a : Sim servers c a → clean_step c c' → all_healthy c → all_healthy c'.
Proof.
  intros H [(l & Ha & Ho & -> & Hp)|(id & n & config & now & Hn & _ & E)] Hh s n' Hn'.
  - destruct (step_healthy servers c a l H Ha Ho s n' Hn') as (n & Hn & Hs). apply Hs; [by eapply Hp|by eapply Hh].
  - unfold restart in E. rewrite Hn in E. simpl in E.
    destruct (reboot config now n) as [[[]|e] n1] eqn:Er; [|done]. apply Some_inj in E. subst c'. simpl in Hn'.
    apply lookup_insert_Some in Hn' as [[<- <-]|[_ Hn']]; [|by eapply Hh]. eapply reboot_healthy; [exact Er|by eapply Hh].
Qed.

(** C13: nodes can be restarted. A cluster starts with working disks and empty files; nobody
    takes a snapshot, no step takes an entry out of a log, and the steps meet the covered conditions
    (membership is fixed; a leader takes acknowledgements of its present leadership only; no
    refusal moves a node back to an earlier term; who becomes leader has an empty match index; [sync_logs] sends while its node leads,
    from what it read in that leadership; transaction votes are asked after the coordinator's waits; terms fit 64 bits and logs are
    shorter than 2^61). Nodes with peers
    may be restarted at any moment, whatever their files hold. Then the files of every node hold its current term,
    vote and log at every moment, also after such restarts. (A conflict cut out of a log stays in the WAL:
    [conflict_stays_in_wal].) *)
Theorem files_stay_durable servers c0 c : fresh_cluster servers c0 → all_healthy c0 → rtc clean_step c0 c →
  ∀ s n, cl_nodes c !! s = Some n → durable n = true ∧
    load_initial_state (storage n) = ((current_term n, vote_for n, log n), storage n).
Proof.
  intros Hf Hh Hr s n Hn. assert (Hd : NoDup servers) by apply Hf. destruct (fresh_sim servers c0 Hf) as [_ HS].
  assert (Hc : all_healthy c).
  { clear s n Hn Hf. revert HS Hh. generalize (start_of c0). induction Hr as [|c0 c1 c Hs _ IH]; intros a HS Hh; [done|].
    destruct (crash_sim servers c0 c1 a Hd HS (clean_crash _ _ Hh Hs)) as (a1 & _ & HS1).
    exact (IH a1 HS1 (clean_healthy servers c0 c1 a HS Hs Hh)). }
  pose proof (Hc s n Hn) as Hx. split; [exact (healthy_durable n Hx)|]. destruct Hx as [[_ Ho Hm] [[_ Hw] _]].
  rewrite load_initial_state_ok by done. by rewrite Hm, (wal_holds_stored _ _ Hw).
Qed.
End durable.

(** ** A clean run *)

Import Codec.

#[local] Instance ordinary_dec l : Decision (ordinary l).
Proof. destruct l; unfold ordinary, u64; apply _. Defined.

Definition logs_grow (c c' : Cluster) : Prop :=
  map_Forall (λ s n, ∀ n', cl_nodes c' !! s = Some n' → log n `prefix_of` log n') (cl_nodes c).

Fixpoint clean_run (ls : list label) (c : Cluster) : option Cluster :=
  match ls with
  | [] => Some c
  | l :: ls' => if decide (allowed l c ∧ ordinary l ∧ logs_grow c (cl_step l c)) then clean_run ls' (cl_step l c) else None
  end.

Lemma clean_run_steps ls c c' : clean_run ls c = Some c' → rtc clean_step c c'.
Proof.
  revert c. induction ls as [|l ls IH]; simpl; intros c; [by intros [= <-]|].
  case_decide as Hd; [|done]. destruct Hd as (H1 & H2 & H3). intros E. eapply rtc_l; [|by apply IH].
  left. exists l. split_and!; try done. intros s n n' Hn Hn'. by apply (H3 s n Hn n').
Qed.

Definition clean_x : Cluster := default three_fresh (clean_run first_commit three_fresh).
Definition clean_restarted : Cluster := default clean_x (restart "b" default_config 0 clean_x).

Lemma clean_steps : rtc clean_step three_fresh clean_restarted.
Proof.
  eapply rtc_r.
  - apply clean_run_steps with first_commit. transitivity (Some clean_x); [|reflexivity]. unfold clean_x.
    destruct (clean_run _ _) eqn:E; [done|]. vm_compute in E. discriminate.
  - right. destruct (restart_step_intro "b" default_config 0 clean_x) as (id & n & config & now & Hn & _ & Hp & E);
      [vm_compute; reflexivity|]. exists id, n, config, now. split_and!; [exact Hn|exact Hp|exact E].
Qed.

Lemma three_fresh_healthy : all_healthy three_fresh.
Proof.
  intros s n Hn. assert (E : log n = [] ∧ storage n = mkDisk ∅ [] ∧ current_term n = 0 ∧ vote_for n = None).
  { unfold three_fresh, cl_nodes in Hn. apply lookup_insert_Some in Hn as [[<- <-]|[_ Hn]];
      [|apply lookup_insert_Some in Hn as [[<- <-]|[_ [<- <-]%lookup_singleton_Some]]]; by vm_compute. }
  destruct E as (E1 & E2 & E3 & E4). split; [split|split]; rewrite ?E1, ?E2, ?E3, ?E4; try (vm_compute; intuition congruence).
  rewrite <- E1, <- E2. apply wal_synced_empty; by rewrite ?E2.
Qed.

Lemma files_stay_durable_witness :
  let n := default (new_node "b" []) (cl_nodes clean_restarted !! "b") in
  log n = [entry_x] ∧ vote_for n = Some "a" ∧ durable n = true.
Proof.
  split; [vm_compute; reflexivity|split; [vm_compute; reflexivity|]].
  apply (files_stay_durable trio three_fresh clean_restarted three_fresh_ok three_fresh_healthy clean_steps "b").
  destruct (cl_nodes clean_restarted !! "b") eqn:E; [reflexivity|]. vm_compute in E. discriminate.
Defined.
