(* ===== verification/ClusterFindings.v ===== *)
(** * Why the conditions are there

    Three of the conditions of [allowed] exclude what the code does not: a refusal from the past that
    makes a node step down, a new leader that still has the acknowledgements of an earlier term, and
    such an acknowledgement that arrives late. Without them the safety theorems fail, and here is how: executions of the
    code, computed, that end with two leaders in one term, and with two nodes that have committed
    different entries at one index. *)

From stdpp Require Import prelude gmap strings sorting countable list.
From S2P Require Import Prelude Serde Protocol StateMachine Storage Rpc Node NodeVotes NodeCore Instances Samples Cluster ClusterRun.
#[local] Open Scope Z_scope.

Import Codec.

(** The labels that are allowed apart from these conditions. *)
Definition label_free (l : label) (c : Cluster) : Prop :=
  match l with
  | LVoteReply i peer reply =>
      ∃ rd, cl_rounds c !! i = Some rd ∧ peer ∈ rd_waiting rd ∧
        (peer, RequestVote (vo_args (rd_round rd)), VoteResponse reply) ∈ cl_replies c
  | LAppendReply peer args reply => (peer, AppendEntries args, AppendReply reply) ∈ cl_replies c
  | _ => label_ok l c
  end.

#[local] Instance label_free_dec l c : Decision (label_free l c).
Proof. destruct l; unfold label_free; apply _. Defined.

Definition free_step (c c' : Cluster) : Prop := ∃ l, label_free l c ∧ c' = cl_step l c.

(** ** Scripts *)

(** What a script does next, with the messages looked up in the cluster. *)
Inductive act :=
  | Stand (id : string)                 (** becomes a candidate *)
  | Ask (id : string)                   (** sends its requests for votes *)
  | Answer (voter id : string)          (** the voter handles the last request of [id] *)
  | Count (i : nat) (voter : string)    (** round [i] receives the voter's last answer to it *)
  | Put (id key value : string)
  | Send (id peer : string)             (** an append and its delivery *)
  | Ack (id peer : string) (t : Z)      (** the acknowledgement of the last append of term [t] *)
  | Copy (id peer : string).            (** all three *)

Definition last_request (id : string) (c : Cluster) : option RaftMessage :=
  last (omap (λ x, match x.2 with RequestVote a => if bool_decide (rv_candidate_id a = id) then Some x.2 else None | _ => None end) (cl_sent c)).

Definition answer_to (peer : string) (req : RaftMessage) (c : Cluster) : option RaftMessage :=
  last (omap (λ x, if bool_decide (x.1 = (peer, req)) then Some x.2 else None) (cl_replies c)).

(** The append of [id] in term [t] that [peer] answered last, and the answer. *)
Definition last_ack (id peer : string) (t : Z) (c : Cluster) : option (AppendEntriesArgs * AppendReplyArgs) :=
  last (omap (λ x, match x with
    | (p, AppendEntries a, AppendReply r) =>
        if bool_decide (p = peer ∧ ae_leader_id a = id ∧ ae_term a = t) then Some (a, r) else None
    | _ => None end) (cl_replies c)).

Definition send_labels (id peer : string) (c : Cluster) : list label :=
  match cl_nodes c !! id with
  | None => []
  | Some n =>
      let l := LAppend id (sync_view n) peer in
      match last (cl_sent (cl_step l c)) with Some (_, msg) => [l; LDeliver peer msg] | None => [l] end
  end.

Definition ack_labels (id peer : string) (t : Z) (c : Cluster) : list label :=
  match last_ack id peer t c with Some (a, r) => [LAppendReply peer a r] | None => [] end.

Definition labels_of (x : act) (c : Cluster) : list label :=
  match x with
  | Stand id => [LPromote id]
  | Ask id => [LRequestVotes id]
  | Answer voter id => match last_request id c with Some msg => [LDeliver voter msg] | None => [] end
  | Count i voter =>
      match cl_rounds c !! i ≫= λ rd, answer_to voter (RequestVote (vo_args (rd_round rd))) c with
      | Some (VoteResponse r) => [LVoteReply i voter r]
      | _ => []
      end
  | Put id k v => [LPropose id [CSet k v]]
  | Send id peer => send_labels id peer c
  | Ack id peer t => ack_labels id peer t c
  | Copy id peer =>
      let ls := send_labels id peer c in
      ls ++ ack_labels id peer (default 0 (current_term <$> cl_nodes c !! id)) (foldl (λ c l, cl_step l c) c ls)
  end.

(** The cluster after the labels, if every one is free to happen. *)
Fixpoint free_run (ls : list label) (c : Cluster) : option Cluster :=
  match ls with
  | [] => Some c
  | l :: ls' => if decide (label_free l c) then free_run ls' (cl_step l c) else None
  end.

Fixpoint play (xs : list act) (c : Cluster) : option Cluster :=
  match xs with
  | [] => Some c
  | x :: xs' => c' ← free_run (labels_of x c) c; play xs' c'
  end.

Lemma free_run_steps ls c c' : free_run ls c = Some c' → rtc free_step c c'.
Proof.
  revert c. induction ls as [|l ls IH]; simpl; intros c; [by intros [= <-]|].
  case_decide; [|done]. intros E. eapply rtc_l; [by exists l|by apply IH].
Qed.

Lemma play_steps xs c c' : play xs c = Some c' → rtc free_step c c'.
Proof.
  revert c. induction xs as [|x xs IH]; simpl; intros c; [by intros [= <-]|].
  destruct (free_run (labels_of x c) c) as [c1|] eqn:E; simpl; [|done].
  intros Hp. etransitivity; [by eapply free_run_steps|by apply IH].
Qed.

(** ** Two leaders in one term *)

(** A request of [a] in term 1 is refused by [b], which is in term 2. By the time the refusal
    arrives [a] has voted for [c] in term 3; it goes back to term 2 and forgets the vote. *)
Definition forgotten_vote : list act :=
  [Stand "a"; Ask "a"; Stand "b"; Stand "b"; Answer "b" "a"; Stand "c"; Stand "c"; Stand "c"; Ask "c"; Answer "a" "c"; Count 1 "a";
   Count 0 "b"; Stand "b"; Ask "b"; Answer "a" "b"; Count 2 "a"].

Definition elected (c : Cluster) (s : string) : option (NodeState * Z) :=
  (λ n, (state n, current_term n)) <$> cl_nodes c !! s.

(** The late refusal of [request_votes] lets a cluster elect two leaders in one term. *)
Lemma late_refusal_elects_two : ∃ c, rtc free_step three_fresh c ∧
  elected c "b" = Some (Leader, 3) ∧ elected c "c" = Some (Leader, 3).
Proof.
  destruct (play forgotten_vote three_fresh) as [c|] eqn:E; [|vm_compute in E; discriminate].
  exists c. split; [by eapply play_steps|].
  assert (Ht : (λ c, (elected c "b", elected c "c")) <$> play forgotten_vote three_fresh =
    Some (Some (Leader, 3), Some (Leader, 3))) by (vm_compute; reflexivity).
  rewrite E in Ht. by apply Some_inj, pair_equal_spec in Ht.
Qed.

(** ** Two entries at one index *)

Definition quintet : list string := ["a"; "b"; "c"; "d"; "e"].

Definition five_fresh : Cluster :=
  mkClusterState (list_to_map ((λ s, (s, new_node s (filter (λ p, p ≠ s) quintet))) <$> quintet)) [] [] [] [].

Lemma five_fresh_ok : fresh_cluster quintet five_fresh.
Proof.
  split_and!; try done.
  - repeat constructor; set_solver.
  - intros s n Hn. apply elem_of_list_to_map_2, list_elem_of_fmap in Hn as (q & [= -> ->] & _).
    split; try reflexivity; [..|vm_compute; intuition discriminate].
Qed.

(** [a] leads term 1 and copies two entries to [b]; [c] leads term 2 and overwrites them on [a].
    When [a] leads again, in term 3, it still believes that [b] has two entries: with [d] it commits one that
    [b] does not have, and [c], which [b] and [e] elect in term 4, commits another in its place. *)
Definition believed_copy : list act :=
  [Stand "a"; Ask "a"; Answer "b" "a"; Count 0 "b"; Answer "c" "a"; Count 0 "c";
   Put "a" "k" "x1"; Put "a" "k" "x2"; Copy "a" "b";
   Stand "c"; Ask "c"; Answer "d" "c"; Count 1 "d"; Answer "e" "c"; Count 1 "e";
   Put "c" "k" "y1"; Copy "c" "a";
   Stand "a"; Ask "a"; Answer "d" "a"; Count 2 "d"; Answer "e" "a"; Count 2 "e";
   Put "a" "k" "z2"; Copy "a" "d"; Copy "a" "d"; Copy "a" "d";
   Stand "c"; Stand "c"; Ask "c"; Answer "b" "c"; Count 3 "b"; Answer "e" "c"; Count 3 "e";
   Put "c" "k" "w2"; Copy "c" "b"; Copy "c" "b"; Copy "c" "b"; Copy "c" "e"; Copy "c" "e"; Copy "c" "e"].

Definition committed (c : Cluster) (s : string) : option (list LogEntry) :=
  (λ n, take (Z.to_nat (commit_index n)) (log n)) <$> cl_nodes c !! s.

(** A script that ends with two different entries committed at index 2. *)
Lemma diverges xs la lc :
  (λ c, (committed c "a", committed c "c")) <$> play xs five_fresh = Some (Some la, Some lc) →
  ∃ c, rtc free_step five_fresh c ∧ committed c "a" = Some la ∧ committed c "c" = Some lc.
Proof.
  intros Ht. destruct (play xs five_fresh) as [c|] eqn:E; [|done].
  exists c. split; [by eapply play_steps|]. by apply Some_inj, pair_equal_spec in Ht.
Qed.

(** The acknowledgements [become_leader] keeps let two nodes commit different entries at one index. *)
Lemma stale_match_index_breaks_agreement : ∃ c, rtc free_step five_fresh c ∧
  committed c "a" = Some [mkLogEntry 2 1 (CSet "k" "y1"); mkLogEntry 3 2 (CSet "k" "z2")] ∧
  committed c "c" = Some [mkLogEntry 2 1 (CSet "k" "y1"); mkLogEntry 4 2 (CSet "k" "w2")].
Proof. apply (diverges believed_copy). vm_compute. reflexivity. Qed.

(** The same with the acknowledgement of [b] on its way until [a] leads again: the task that waits for
    it does not compare the terms either. *)
Definition late_ack : list act :=
  [Stand "a"; Ask "a"; Answer "b" "a"; Count 0 "b"; Answer "c" "a"; Count 0 "c";
   Put "a" "k" "x1"; Put "a" "k" "x2"; Send "a" "b";
   Stand "c"; Ask "c"; Answer "d" "c"; Count 1 "d"; Answer "e" "c"; Count 1 "e";
   Put "c" "k" "y1"; Copy "c" "a";
   Stand "a"; Ask "a"; Answer "d" "a"; Count 2 "d"; Answer "e" "a"; Count 2 "e";
   Put "a" "k" "z2"; Ack "a" "b" 1; Copy "a" "d"; Copy "a" "d"; Copy "a" "d";
   Stand "c"; Stand "c"; Ask "c"; Answer "b" "c"; Count 3 "b"; Answer "e" "c"; Count 3 "e";
   Put "c" "k" "w2"; Copy "c" "b"; Copy "c" "b"; Copy "c" "b"; Copy "c" "e"; Copy "c" "e"; Copy "c" "e"].

Lemma late_ack_breaks_agreement : ∃ c, rtc free_step five_fresh c ∧
  committed c "a" = Some [mkLogEntry 2 1 (CSet "k" "y1"); mkLogEntry 3 2 (CSet "k" "z2")] ∧
  committed c "c" = Some [mkLogEntry 2 1 (CSet "k" "y1"); mkLogEntry 4 2 (CSet "k" "w2")].
Proof. apply (diverges late_ack). vm_compute. reflexivity. Qed.
