(* ===== verification/Metrics.v ===== *)
(** * Metrics ([src/rust/oxide-kv/src/observability/registry.rs], [raft/node.rs])

    The gauges and counters of a node, and the places in its code that set them: every operation
    of [Node] that touches them, again, on a node with its metrics. Dropping the metrics gives the operation of
    [Node] back ([metrics_do_not_matter]); the gauges show the node's state after the operations that end by
    refreshing them ([gauges_follow]), and not after those that do not. *)

From stdpp Require Import prelude gmap strings sorting countable pretty list.
From S2P Require Import Prelude Serde Protocol StateMachine StateMachineProps Storage StorageProps Rpc Node NodeVotes NodeEvents.
From S2P Require Import Instances Refinement NodeLog NodeLeader Samples.
#[local] Open Scope Z_scope.

(** ** The registry *)

(** [v as i64] for a [u64]. *)
Definition as_i64 (v : Z) : Z := if v <? 2 ^ 63 then v else v - U64.

Record Metrics := mkMetrics {
  raft_term : Z;
  raft_commit_index : Z;
  raft_last_applied : Z;
  raft_log_length : Z;
  raft_role : Z;
  raft_snapshot_age_seconds : Z;
  raft_snapshot_bytes : Z;
  tx_pending_count : Z;
  tx_timeout_aborted_total : Z;
  tx_admin_aborted_total : Z;
  peer_match_index : gmap string Z;
  peer_next_index : gmap string Z;
}.

(** The names registered so far; registering a name twice is an error of the registry. *)
Definition register (name : string) (names : list string) : option (list string) :=
  if bool_decide (name ∈ names) then None else Some (names ++ [name]).

Definition metric_names : list string :=
  ["raft_term"; "raft_commit_index"; "raft_last_applied"; "raft_log_length"; "raft_role";
   "raft_snapshot_age_seconds"; "raft_snapshot_bytes"; "tx_pending_count"; "tx_timeout_aborted_total";
   "tx_admin_aborted_total"; "peer_match_index"; "peer_next_index"].

(** A gauge starts at 0, a labelled one has no series. *)
Definition with_peers_m (initial_peers : list string) : option Metrics :=
  _ ← foldl (λ r name, r ≫= register name) (Some []) metric_names;
  let zeros := list_to_map ((λ p, (p, 0)) <$> initial_peers) in
  Some (mkMetrics 0 0 0 0 0 (-1) (-1) 0 0 0 zeros zeros).

Definition set_peer_match_index (peer : string) (v : Z) (g : Metrics) : Metrics :=
  mkMetrics (raft_term g) (raft_commit_index g) (raft_last_applied g) (raft_log_length g) (raft_role g)
    (raft_snapshot_age_seconds g) (raft_snapshot_bytes g) (tx_pending_count g) (tx_timeout_aborted_total g)
    (tx_admin_aborted_total g) (<[peer := v]> (peer_match_index g)) (peer_next_index g).

Definition set_peer_next_index (peer : string) (v : Z) (g : Metrics) : Metrics :=
  mkMetrics (raft_term g) (raft_commit_index g) (raft_last_applied g) (raft_log_length g) (raft_role g)
    (raft_snapshot_age_seconds g) (raft_snapshot_bytes g) (tx_pending_count g) (tx_timeout_aborted_total g)
    (tx_admin_aborted_total g) (peer_match_index g) (<[peer := v]> (peer_next_index g)).

Definition set_snapshot (age bytes : Z) (g : Metrics) : Metrics :=
  mkMetrics (raft_term g) (raft_commit_index g) (raft_last_applied g) (raft_log_length g) (raft_role g)
    age bytes (tx_pending_count g) (tx_timeout_aborted_total g)
    (tx_admin_aborted_total g) (peer_match_index g) (peer_next_index g).

Definition set_tx (pending timeouts aborts : Z) (g : Metrics) : Metrics :=
  mkMetrics (raft_term g) (raft_commit_index g) (raft_last_applied g) (raft_log_length g) (raft_role g)
    (raft_snapshot_age_seconds g) (raft_snapshot_bytes g) pending timeouts aborts (peer_match_index g) (peer_next_index g).

Definition role_code (st : NodeState) : Z :=
  match st with Follower => 0 | Candidate => 1 | Leader => 2 | PreCandidate => 3 end.

(** [refresh_metrics] with a handle. *)
Definition refresh (n : RaftNode) (g : Metrics) : Metrics :=
  mkMetrics (as_i64 (current_term n)) (as_i64 (commit_index n)) (as_i64 (last_applied n)) (as_i64 (log_len n))
    (role_code (state n)) (raft_snapshot_age_seconds g) (raft_snapshot_bytes g) (tx_pending_count g)
    (tx_timeout_aborted_total g) (tx_admin_aborted_total g) (peer_match_index g) (peer_next_index g).

(** ** A node with its metrics *)

Record Metered := mkMetered { me_node : RaftNode; me_metrics : option Metrics }.

(** Code that touches no metric. *)
Definition bare {A} (m : M RaftNode A) : M Metered A := λ x,
  let '(r, n') := m (me_node x) in (r, mkMetered n' (me_metrics x)).

(** [if let Some(m) = &self.metrics { .. }] *)
Definition metric (f : RaftNode → Metrics → Metrics) : M Metered unit := λ x,
  (Ok tt, mkMetered (me_node x) (f (me_node x) <$> me_metrics x)).

Definition refresh_metrics : M Metered unit := metric refresh.

Section metered.
Context {JW : Json WalOp} {JE : Json (list SSTEntry)} {JM : Json SSTableMeta}.
Context {BL : Bincode LogEntry} {JV : Json Value} {JS : Json Snapshot}.

(** [fs::metadata] of the snapshot file: its length, and its age in seconds where the system has it. *)
Context (stat : Disk → option (Z * option Z)).

Definition snapshot_taken (n : RaftNode) (g : Metrics) : Metrics :=
  set_snapshot 0 (from_option fst (raft_snapshot_bytes g) (stat (storage n))) g.

(** [set_metrics] on the node that holds the handle. *)
Definition set_metrics (g : Metrics) (n : RaftNode) : Metered :=
  mkMetered n (Some
    match stat (storage n) with
    | Some (len, age) => set_snapshot (default (raft_snapshot_age_seconds g) age) len g
    | None => g
    end).

(** Steps 5b of [main]; [Metrics::with_peers(..).expect(..)] panics on an error of the registry. *)
Definition start_metrics (ps : list string) (n : RaftNode) : result unit * Metered :=
  match with_peers_m ps with
  | Some g => refresh_metrics (set_metrics g n)
  | None => (Err Panicked, mkMetered n None)
  end.

(** *** The operations *)

Definition apply_logs_m : M Metered unit := bare apply_logs ;; refresh_metrics.

(** [propose], [propose_batch] and [propose_abort_tx] refresh once the entries are in the log. *)
Definition propose_m (command : Command) : M Metered bool :=
  st ← bare (gets state);
  if bool_decide (st = Leader) then
    ok ← bare (catch (append_own command) (λ _, true) (λ _, false));
    if (ok : bool) then refresh_metrics ;; mret true else mret false
  else mret false.

Definition propose_batch_m (commands : list Command) : M Metered bool :=
  st ← bare (gets state);
  if bool_decide (st = Leader) then
    first_index ← bare (gets (λ n, log_len n + 1));
    ok ← bare (catch (propose_loop commands first_index) (λ _, true) (λ _, false));
    if (ok : bool) then refresh_metrics ;; mret true else mret false
  else mret false.

Definition propose_abort_tx_m (tx_id : string) : M Metered (Z + AbortTxError) :=
  st ← bare (gets state);
  if negb (bool_decide (st = Leader)) then mret (inr ANotLeader) else
  pending ← bare (gets (λ n, is_tx_pending tx_id (state_machine n)));
  if negb pending then mret (inr (ANotFound tx_id)) else
  r ← bare (catch (append_own (CDecideTx tx_id Abort)) inl inr);
  match r with
  | inl index => refresh_metrics ;; mret (inl index)
  | inr e => mret (inr (AStorageError e))
  end.

Definition maybe_commit_m : M Metered unit :=
  st ← bare (gets state);
  if negb (bool_decide (st = Leader)) then mret tt else
  highest ← bare (gets (λ n, config_quorum_reached_index (current_config n) (match_index n)
                               (self_id n) (log_len n)));
  commit ← bare (gets commit_index);
  if commit <? highest then
    log_term ← bare (gets (λ n, default 0 (le_term <$> log n !! Z.to_nat (highest - 1))));
    t ← bare (gets current_term);
    if log_term =? t then bare (modify (with_commit_index highest)) ;; apply_logs_m else mret tt
  else mret tt.

Definition sync_logs_m : M Metered outgoing :=
  v ← bare (gets sync_view);
  if bool_decide (sv_peers v = []) then
    st ← bare (gets state);
    (if bool_decide (st = Leader) then maybe_commit_m else mret tt) ;; mret []
  else bare (send_appends v (sv_peers v)).

Definition on_append_reply_m (peer : string) (args : AppendEntriesArgs) (reply : AppendReplyArgs) : M Metered unit :=
  if ar_success reply then
    let last_idx := u64_add (ae_prev_log_index args) (Z.of_nat (length (ae_entries args))) in
    bare (modify (λ n, with_match_index (<[peer := last_idx]> (match_index n)) n)) ;;
    bare (modify (λ n, with_next_index (<[peer := u64_add last_idx 1]> (next_index n)) n)) ;;
    bare (modify (λ n, with_last_quorum_heartbeat_at (Some (clock n)) n)) ;;
    metric (λ _ g, set_peer_next_index peer (as_i64 (u64_add last_idx 1)) (set_peer_match_index peer (as_i64 last_idx) g)) ;;
    maybe_commit_m
  else
  t ← bare (gets current_term);
  if t <? ar_term reply then bare (adopt_term (ar_term reply)) ;; refresh_metrics else
  next ← bare (gets (λ n, default 1 (next_index n !! peer)));
  if 1 <? next then
    bare (modify (λ n, with_next_index (<[peer := next - 1]> (next_index n)) n)) ;;
    metric (λ _, set_peer_next_index peer (as_i64 (next - 1)))
  else mret tt.

Definition become_leader_m : M Metered unit :=
  st ← bare (gets state);
  if bool_decide (st = Leader) then mret tt else
  bare (modify (with_state Leader)) ;;
  bare (modify (λ n, with_next_index (list_to_map ((λ p, (p, log_len n + 1)) <$> peers n)) n)) ;;
  bare touch_heartbeat ;;
  refresh_metrics.

Definition become_leader_checked_m : M Metered bool :=
  st ← bare (gets state);
  if negb (bool_decide (st = Candidate)) then mret false else
  become_leader_m ;; mret true.

Definition promote_to_candidate_locked_m : M Metered unit := bare promote_to_candidate_locked ;; refresh_metrics.

Definition request_votes_m : M Metered outgoing :=
  v ← bare (gets (λ n, vote_round (current_term n) n));
  if (total_nodes v =? 1)%nat then
    n ← bare (gets id);
    (if bool_decide (state n = Candidate) && (current_term n =? vo_term v)
     then become_leader_m else mret tt) ;; mret []
  else mret ((λ p, (p, RequestVote (vo_args v))) <$> vo_peers v).

Definition become_candidate_m : M Metered outgoing := promote_to_candidate_locked_m ;; request_votes_m.

(** The refusal that makes the node step down is not followed by a refresh. *)
Definition on_vote_reply_m (total : nat) (term : Z) (votes : nat) (reply : VoteResponseArgs) : M Metered nat :=
  if vr_granted reply then
    let count := S votes in
    (if (Nat.div2 total <? count)%nat then
       n ← bare (gets id);
       if bool_decide (state n = Candidate) && (current_term n =? term)
       then become_leader_m else mret tt
     else mret tt) ;; mret count
  else if term <? vr_term reply then bare (adopt_term (vr_term reply)) ;; mret votes
  else mret votes.

Definition enter_pre_candidate_m (v : VoteRound) : M Metered outgoing :=
  n ← bare (gets id);
  if bool_decide (state n = Follower) && (u64_add (current_term n) 1 =? vo_term v) then
    bare (modify (with_state PreCandidate)) ;;
    refresh_metrics ;;
    if (total_nodes v =? 1)%nat then
      st ← bare (gets state);
      (if bool_decide (st = PreCandidate)
       then promote_to_candidate_locked_m ;; _ ← become_leader_checked_m; mret tt
       else mret tt) ;; mret []
    else mret ((λ p, (p, RequestPreVote (vo_args v))) <$> vo_peers v)
  else mret [].

Definition process_pre_vote_reply_m (total : nat) (probed_term : Z) (votes : nat) (reply : VoteResponseArgs) :
    M Metered (nat * outgoing) :=
  if probed_term <? vr_term reply then
    bare (modify (λ n, if bool_decide (state n = PreCandidate) then with_state Follower n else n)) ;;
    mret (votes, [])
  else if negb (vr_granted reply) then mret (votes, [])
  else
  let count := S votes in
  if (count <=? Nat.div2 total)%nat then mret (count, []) else
  st ← bare (gets state);
  if negb (bool_decide (st = PreCandidate)) then mret (count, []) else
  promote_to_candidate_locked_m ;;
  out ← request_votes_m;
  mret (count, out).

Definition handle_append_entries_m (args : AppendEntriesArgs) : M Metered AppendReplyArgs :=
  t0 ← bare (gets current_term);
  st ← bare (gets state);
  if ae_term args <? t0 then mret (mkAppendReply t0 false)
  else if (ae_term args =? t0) && bool_decide (st = Leader) then mret (mkAppendReply t0 false)
  else
  (if t0 <? ae_term args then
     bare (modify (with_current_term (ae_term args))) ;;
     bare (modify (with_vote_for None)) ;;
     bare persist_meta
   else mret tt) ;;
  bare (modify (with_state Follower)) ;;
  bare touch_heartbeat ;;
  t ← bare (gets current_term);
  ok ← bare (gets (λ n, prev_matches args (log n)));
  if negb ok then mret (mkAppendReply t false) else
  bare (append_loop (ae_entries args)) ;;
  commit ← bare (gets commit_index);
  (if commit <? ae_leader_commit args then
     bare (modify (λ n, with_commit_index (ae_leader_commit args `min` log_len n) n)) ;;
     apply_logs_m
   else mret tt) ;;
  mret (mkAppendReply t true).

Definition handle_install_snapshot_m (args : InstallSnapshotArgs) : M Metered InstallSnapshotReplyArgs :=
  t0 ← bare (gets current_term);
  st ← bare (gets state);
  if is_term args <? t0 then mret (mkInstallSnapshotReply t0)
  else if (is_term args =? t0) && bool_decide (st = Leader) then mret (mkInstallSnapshotReply t0)
  else
  (if t0 <? is_term args then bare (adopt_term (is_term args)) else mret tt) ;;
  bare (modify (with_state Follower)) ;;
  bare touch_heartbeat ;;
  bare (ignore (on_disk (save_snapshot (is_snapshot args)))) ;;
  bare (expect (on_sm clear_for_snapshot)) ;;
  bare (on_sm (set_all (map_to_list (snap_data (is_snapshot args))))) ;;
  let last_included := is_last_included_index args in
  bare (modify (λ n, with_log (filter (λ e, last_included < le_index e) (log n)) n)) ;;
  bare (ignore (on_disk (rewrite_wal_after_snapshot last_included))) ;;
  bare (modify (λ n, with_commit_index (commit_index n `max` last_included) n)) ;;
  bare (modify (λ n, with_last_applied (last_applied n `max` last_included) n)) ;;
  metric snapshot_taken ;;
  refresh_metrics ;;
  t ← bare (gets current_term);
  mret (mkInstallSnapshotReply t).

Definition maybe_snapshot_m (threshold_bytes : Z) : M Metered bool :=
  taken ← bare (maybe_snapshot threshold_bytes);
  if (taken : bool) then metric snapshot_taken ;; mret true else mret false.

Definition handle_tx_vote_request_m (req : TxVoteRequest) : M Metered TxVoteResponse :=
  t ← bare (gets current_term);
  if tv_term req <? t then
    mret (mkTxVoteResponse t false
      ("stale term: request term " +:+ pretty (tv_term req) +:+ " < current term " +:+ pretty t))
  else if t <? tv_term req then
    bare (adopt_term (tv_term req)) ;;
    mret (mkTxVoteResponse (tv_term req) false
      ("term advance: adopted term " +:+ pretty (tv_term req)
         +:+ " but deferring vote to elected leader"))
  else
  info ← bare (gets get_last_log_info);
  ok ← bare (gets (log_up_to_date (tv_last_log_index req) (tv_last_log_term req)));
  if negb ok then
    mret (mkTxVoteResponse t false
      ("leader log stale: leader=(" +:+ pretty (tv_last_log_index req) +:+ ", "
         +:+ pretty (tv_last_log_term req) +:+ ") local=(" +:+ pretty info.1 +:+ ", "
         +:+ pretty info.2 +:+ ")"))
  else
  bare (modify (λ n, if (commit_index n <? tv_last_log_index req) && (tv_last_log_index req <=? log_len n)
                     then with_commit_index (tv_last_log_index req) n else n)) ;;
  apply_logs_m ;;
  view ← bare (gets (λ n, pending_tx (tv_tx_id req) (state_machine n)));
  match view with
  | None => mret (mkTxVoteResponse t false ("tx not pending: " +:+ tv_tx_id req))
  | Some _ =>
      self ← bare (gets self_id);
      bare (ignore (on_sm (record_vote (tv_tx_id req) self VoteYes))) ;;
      mret (mkTxVoteResponse t true EmptyString)
  end.

Definition handle_raft_rpc_m (msg : RaftMessage) : M Metered (option RaftMessage) :=
  match msg with
  | AppendEntries args => r ← handle_append_entries_m args; mret (Some (AppendReply r))
  | InstallSnapshot args => r ← handle_install_snapshot_m args; mret (Some (InstallSnapshotReply r))
  | _ => bare (handle_raft_rpc msg)
  end.

Definition heartbeat_tick_m (threshold_bytes : Z) : M Metered outgoing :=
  st ← bare (gets state);
  if bool_decide (st = Leader) then
    out ← sync_logs_m;
    _ ← maybe_snapshot_m threshold_bytes;
    mret out
  else mret [].

Definition begin_read_m : M Metered (option ReadIndex * outgoing) :=
  st ← bare (gets state);
  if negb (bool_decide (st = Leader)) then mret (None, []) else
  ri ← bare (gets (λ n, mkReadIndex (commit_index n) (clock n)));
  out ← sync_logs_m;
  mret (Some ri, out).

(** [ClientHandler::refresh_tx_pending], and the counters of [abort_tx] and of the timeout sweep. *)
Definition refresh_tx_pending : M Metered unit :=
  metric (λ n g, set_tx (Z.of_nat (pending_tx_count (state_machine n))) (tx_timeout_aborted_total g)
                   (tx_admin_aborted_total g) g).
Definition count_admin_abort : M Metered unit :=
  metric (λ _ g, set_tx (tx_pending_count g) (tx_timeout_aborted_total g) (tx_admin_aborted_total g + 1) g).
Definition count_timeout_abort : M Metered unit :=
  metric (λ _ g, set_tx (tx_pending_count g) (tx_timeout_aborted_total g + 1) (tx_admin_aborted_total g) g).

(** *** Events *)

Definition drop_metered {A} (x : result A * Metered) : option RaftMessage * Metered := (None, x.2).

(** [run_event] on a node with metrics. A restart builds new ones, for the peers it is given. *)
Definition run_event_m (ev : event) (x : Metered) : option RaftMessage * Metered :=
  match ev with
  | EvRpc msg =>
      match handle_raft_rpc_m msg x with
      | (Ok r, x') => (r, x')
      | (Err _, x') => (None, x')
      end
  | EvTxVote req => drop_metered (handle_tx_vote_request_m req x)
  | EvTxStepDown t => drop_metered (bare (tx_step_down t) x)
  | EvCampaign => drop_metered (become_candidate_m x)
  | EvPreCampaign v => drop_metered (enter_pre_candidate_m v x)
  | EvVoteReply total term votes reply => drop_metered (on_vote_reply_m total term votes reply x)
  | EvPreVoteReply total t votes reply => drop_metered (process_pre_vote_reply_m total t votes reply x)
  | EvAppendReply peer args reply => drop_metered (on_append_reply_m peer args reply x)
  | EvPropose cs => drop_metered (propose_batch_m cs x)
  | EvAddNode s => drop_metered (bare (propose_add_node s) x)
  | EvRemoveNode i => drop_metered (bare (propose_remove_node i) x)
  | EvAbortTx t => drop_metered (propose_abort_tx_m t x)
  | EvHeartbeat th => drop_metered (heartbeat_tick_m th x)
  | EvRead => drop_metered (begin_read_m x)
  | EvClock now => (None, mkMetered (with_clock now (me_node x)) (me_metrics x))
  | EvRestart config ps now =>
      let n := me_node x in
      match boot config (self_id n) ps (host (state_machine n)) (storage n) now with
      | (Ok _, n') => drop_metered (start_metrics ps n')
      | (Err _, n') => (None, mkMetered n' None)
      end
  end.

Fixpoint run_events (evs : list event) (n : RaftNode) : list (option RaftMessage) * RaftNode :=
  match evs with
  | [] => ([], n)
  | ev :: evs' => let '(r, n1) := run_event ev n in let '(rs, n2) := run_events evs' n1 in (r :: rs, n2)
  end.

Fixpoint run_events_m (evs : list event) (x : Metered) : list (option RaftMessage) * Metered :=
  match evs with
  | [] => ([], x)
  | ev :: evs' => let '(r, x1) := run_event_m ev x in let '(rs, x2) := run_events_m evs' x1 in (r :: rs, x2)
  end.

(** ** Metrics do not matter *)

Definition erases {A} (mm : M Metered A) (m : M RaftNode A) : Prop :=
  ∀ x, (mm x).1 = (m (me_node x)).1 ∧ me_node (mm x).2 = (m (me_node x)).2.

Lemma erases_bare {A} (m : M RaftNode A) : erases (bare m) m.
Proof. intros x. unfold bare. by destruct (m (me_node x)). Qed.

Lemma erases_ret {A} (a : A) : erases (mret a) (mret a).
Proof. done. Qed.

Lemma erases_bind {A B} (mm : M Metered A) m (kk : A → M Metered B) k :
  erases mm m → (∀ a, erases (kk a) (k a)) → erases (mm ≫= kk) (m ≫= k).
Proof.
  intros Hm Hk x. destruct (Hm x) as [E1 E2]. unfold mbind, M_bind.
  destruct (mm x) as [[a|e] x1], (m (me_node x)) as [[a'|e'] n1]; simpl in *; simplify_eq; [apply Hk|done].
Qed.

(** A metric between two operations. *)
Lemma erases_metric {A} f (kk : unit → M Metered A) m : erases (kk tt) m → erases (metric f ≫= kk) m.
Proof. intros Hk x. apply (Hk (mkMetered (me_node x) (f (me_node x) <$> me_metrics x))). Qed.

(** A metric at the end. *)
Lemma erases_last mm (m : M RaftNode unit) f : erases mm m → erases (mm ;; metric f) m.
Proof.
  intros Hm x. destruct (Hm x) as [E1 E2]. unfold mbind, M_bind.
  destruct (mm x) as [[[]|e] x1], (m (me_node x)) as [[[]|e'] n1]; simpl in *; by simplify_eq.
Qed.

Lemma erases_metric_ret f : erases (metric f) (mret tt).
Proof. done. Qed.
End metered.

Ltac erase_step :=
  match goal with
  | |- erases (bare _) _ => apply erases_bare
  | |- erases (mret _) _ => apply erases_ret
  | |- erases (metric _ ≫= _) _ => apply erases_metric
  | |- erases (refresh_metrics ≫= _) _ => apply erases_metric
  | |- erases (mbind _ _) (mbind _ _) => apply erases_bind; [|intros ?]
  | |- erases (if ?b then _ else _) _ => destruct b
  | |- erases (match ?b with _ => _ end) _ => destruct b
  end.
Ltac erase := repeat erase_step; eauto with oxide.

Section erasure.
Context {JW : Json WalOp} {JE : Json (list SSTEntry)} {JM : Json SSTableMeta}.
Context {BL : Bincode LogEntry} {JV : Json Value} {JS : Json Snapshot}.
Context (stat : Disk → option (Z * option Z)).

(** A continuation that only sets metrics. *)
Lemma erases_eta {A} (mm : M Metered A) m (kk : A → M Metered A) :
  erases mm m → (∀ a, erases (kk a) (mret a)) → erases (mm ≫= kk) m.
Proof.
  intros Hm Hk x. destruct (Hm x) as [E1 E2]. unfold mbind, M_bind.
  destruct (mm x) as [[a|e] x1], (m (me_node x)) as [[a'|e'] n1]; simpl in *; simplify_eq; [apply Hk|done].
Qed.

Lemma apply_logs_erased : erases apply_logs_m apply_logs.
Proof. apply erases_last, erases_bare. Qed.
#[local] Hint Resolve apply_logs_erased : oxide.

Lemma propose_erased c : erases (propose_m c) (propose c).
Proof. unfold propose_m, propose. erase. apply erases_eta; [erase|]. intros []; erase. Qed.

Lemma propose_batch_erased cs : erases (propose_batch_m cs) (propose_batch cs).
Proof. unfold propose_batch_m, propose_batch. erase. apply erases_eta; [erase|]. intros []; erase. Qed.

Lemma propose_abort_tx_erased tx : erases (propose_abort_tx_m tx) (propose_abort_tx tx).
Proof.
  unfold propose_abort_tx_m, propose_abort_tx. erase. intros x. unfold catch, mbind, M_bind, bare.
  by destruct (append_own _ (me_node x)) as [[]].
Qed.

Lemma maybe_commit_erased : erases maybe_commit_m maybe_commit.
Proof. unfold maybe_commit_m, maybe_commit. erase. Qed.
#[local] Hint Resolve maybe_commit_erased : oxide.

Lemma sync_logs_erased : erases sync_logs_m sync_logs.
Proof. unfold sync_logs_m, sync_logs. erase. Qed.
#[local] Hint Resolve sync_logs_erased : oxide.

Lemma on_append_reply_erased peer args reply : erases (on_append_reply_m peer args reply) (on_append_reply peer args reply).
Proof.
  unfold on_append_reply_m, on_append_reply. destruct (ar_success reply); [erase|]. erase; apply erases_last; erase.
Qed.

Lemma become_leader_erased : erases become_leader_m become_leader.
Proof. unfold become_leader_m, become_leader. erase. apply erases_last. erase. Qed.
#[local] Hint Resolve become_leader_erased : oxide.

Lemma promote_erased : erases promote_to_candidate_locked_m promote_to_candidate_locked.
Proof. apply erases_last. erase. Qed.
#[local] Hint Resolve promote_erased : oxide.

Lemma request_votes_erased : erases request_votes_m request_votes.
Proof. unfold request_votes_m, request_votes. erase. Qed.
#[local] Hint Resolve request_votes_erased : oxide.

Lemma become_candidate_erased : erases become_candidate_m become_candidate.
Proof. unfold become_candidate_m, become_candidate. erase. Qed.

Lemma on_vote_reply_erased total t votes reply : erases (on_vote_reply_m total t votes reply) (on_vote_reply total t votes reply).
Proof. unfold on_vote_reply_m, on_vote_reply. erase. Qed.

Lemma become_leader_checked_erased : erases become_leader_checked_m become_leader_checked.
Proof. unfold become_leader_checked_m, become_leader_checked. erase. Qed.
#[local] Hint Resolve become_leader_checked_erased : oxide.

Lemma enter_pre_candidate_erased v : erases (enter_pre_candidate_m v) (enter_pre_candidate v).
Proof. unfold enter_pre_candidate_m, enter_pre_candidate. erase. Qed.

Lemma process_pre_vote_reply_erased total t votes reply :
  erases (process_pre_vote_reply_m total t votes reply) (process_pre_vote_reply total t votes reply).
Proof. unfold process_pre_vote_reply_m, process_pre_vote_reply. erase. Qed.

Lemma handle_append_entries_erased args : erases (handle_append_entries_m args) (handle_append_entries args).
Proof. unfold handle_append_entries_m, handle_append_entries. erase. Qed.

Lemma handle_install_snapshot_erased args :
  erases (handle_install_snapshot_m stat args) (handle_install_snapshot args).
Proof. unfold handle_install_snapshot_m, handle_install_snapshot. erase. Qed.

Lemma maybe_snapshot_erased th : erases (maybe_snapshot_m stat th) (maybe_snapshot th).
Proof. unfold maybe_snapshot_m. apply erases_eta; [erase|]. intros []; erase. Qed.
#[local] Hint Resolve maybe_snapshot_erased : oxide.

Lemma handle_tx_vote_erased req : erases (handle_tx_vote_request_m req) (handle_tx_vote_request req).
Proof. unfold handle_tx_vote_request_m, handle_tx_vote_request. erase. Qed.

Lemma heartbeat_tick_erased th : erases (heartbeat_tick_m stat th) (heartbeat_tick th).
Proof. unfold heartbeat_tick_m, heartbeat_tick. erase. Qed.

Lemma begin_read_erased : erases begin_read_m begin_read.
Proof. unfold begin_read_m, begin_read. erase. Qed.

Lemma handle_raft_rpc_erased msg : erases (handle_raft_rpc_m stat msg) (handle_raft_rpc msg).
Proof.
  destruct msg; try apply erases_bare; simpl; (apply erases_bind; [|intros ?; erase]).
  - apply handle_append_entries_erased.
  - apply handle_install_snapshot_erased.
Qed.

Lemma drop_erased {A} (mm : M Metered A) (m : M RaftNode A) x : erases mm m →
  (drop_metered (mm x)).1 = (drop_result (m (me_node x))).1 ∧ me_node (drop_metered (mm x)).2 = (drop_result (m (me_node x))).2.
Proof. intros H. split; [done|]. apply H. Qed.

Lemma run_event_erased ev x :
  (run_event_m stat ev x).1 = (run_event ev (me_node x)).1 ∧
  me_node (run_event_m stat ev x).2 = (run_event ev (me_node x)).2.
Proof.
  destruct ev; unfold run_event_m, run_event; try (apply drop_erased, erases_bare).
  - destruct (handle_raft_rpc_erased msg x) as [E1 E2]. destruct (handle_raft_rpc_m stat msg x) as [[r|e] x'],
      (handle_raft_rpc msg (me_node x)) as [[r'|e'] n']; simpl in *; by simplify_eq.
  - apply drop_erased, handle_tx_vote_erased.
  - apply drop_erased, become_candidate_erased.
  - apply drop_erased, enter_pre_candidate_erased.
  - apply drop_erased, on_vote_reply_erased.
  - apply drop_erased, process_pre_vote_reply_erased.
  - apply drop_erased, on_append_reply_erased.
  - apply drop_erased, propose_batch_erased.
  - apply drop_erased, propose_abort_tx_erased.
  - apply drop_erased, heartbeat_tick_erased.
  - apply drop_erased, begin_read_erased.
  - done.
  - destruct (boot _ _ _ _ _ _) as [[[]|e] n']; done.
Qed.
End erasure.

(** ** Gauges *)

(** The gauges show the node. *)
Definition mirrors (x : Metered) : Prop := ∀ g, me_metrics x = Some g → refresh (me_node x) g = g.

(** Gauge by gauge. *)
Record exported (n : RaftNode) (g : Metrics) : Prop := {
  ex_term : raft_term g = as_i64 (current_term n);
  ex_commit : raft_commit_index g = as_i64 (commit_index n);
  ex_applied : raft_last_applied g = as_i64 (last_applied n);
  ex_log : raft_log_length g = as_i64 (Z.of_nat (length (log n)));
  ex_role : raft_role g = match state n with Follower => 0 | Candidate => 1 | Leader => 2 | PreCandidate => 3 end;
}.

Lemma mirrors_exported x : mirrors x ↔ ∀ g, me_metrics x = Some g → exported (me_node x) g.
Proof.
  unfold mirrors. split; intros H g Hg; specialize (H g Hg).
  - rewrite <- H. split; [done..|]. by destruct (state (me_node x)) eqn:E; simpl; rewrite E.
  - destruct H as [H1 H2 H3 H4 H5], g; unfold refresh; simpl in *. subst. unfold log_len.
    by destruct (state (me_node x)).
Qed.

(** What the gauges show of a node. *)
Definition shown (n : RaftNode) : Z * Z * Z * Z * NodeState :=
  (current_term n, commit_index n, last_applied n, log_len n, state n).

Definition same_shown (n n' : RaftNode) : Prop := shown n' = shown n.

#[export] Instance same_shown_preorder : PreOrder same_shown.
Proof. split; [by intros n|]. unfold same_shown. intros n1 n2 n3 H1 H2. congruence. Qed.

Lemma refresh_shown n n' g : shown n' = shown n → refresh n' g = refresh n g.
Proof. unfold shown, refresh. intros [= -> -> -> -> ->]. done. Qed.

(** [mm] keeps a node mirrored; [mm] leaves it mirrored whatever it was. *)
Definition mirrored {A} (mm : M Metered A) : Prop := ∀ x, mirrors x → mirrors (mm x).2.
Definition settles {A} (mm : M Metered A) : Prop := ∀ x, mirrors (mm x).2.
Definition total {S A} (m : M S A) : Prop := ∀ s, is_ok (m s).1 = true.

Lemma settles_mirrored {A} (mm : M Metered A) : settles mm → mirrored mm.
Proof. intros H x _. apply H. Qed.

Lemma settles_refresh : settles refresh_metrics.
Proof. intros x g. simpl. destruct (me_metrics x); [|done]. by intros [= <-]. Qed.

Lemma mirrored_bare {A} (m : M RaftNode A) : keeps same_shown m → mirrored (bare m).
Proof.
  intros Hm x Hx g. specialize (Hm (me_node x)). unfold bare. destruct (m (me_node x)) as [r n']. simpl in *.
  intros Hg. rewrite (refresh_shown (me_node x)) by done. by apply Hx.
Qed.

Lemma mirrored_ret {A} (a : A) : mirrored (mret a).
Proof. by intros x. Qed.

Lemma mirrored_metric f : (∀ n g, refresh n g = g → refresh n (f n g) = f n g) → mirrored (metric f).
Proof. intros Hf x Hx g. simpl. destruct (me_metrics x) as [g0|] eqn:E; [|done]. intros [= <-]. apply Hf, Hx, E. Qed.

Lemma mirrored_bind {A B} (mm : M Metered A) (kk : A → M Metered B) :
  mirrored mm → (∀ a, mirrored (kk a)) → mirrored (mm ≫= kk).
Proof.
  intros Hm Hk x Hx. specialize (Hm x Hx). unfold mbind, M_bind. destruct (mm x) as [[a|e] x1]; [by apply Hk|done].
Qed.

Lemma settles_bind {A B} (mm : M Metered A) (kk : A → M Metered B) :
  total mm → (∀ a, settles (kk a)) → settles (mm ≫= kk).
Proof.
  intros Hm Hk x. specialize (Hm x). unfold mbind, M_bind. destruct (mm x) as [[a|e] x1]; [by apply Hk|done].
Qed.

Lemma total_bare {A} (m : M RaftNode A) : total m → total (bare m).
Proof. intros Hm x. specialize (Hm (me_node x)). unfold bare. by destruct (m (me_node x)). Qed.

Lemma total_bind {S A B} (m : M S A) (k : A → M S B) : total m → (∀ a, total (k a)) → total (m ≫= k).
Proof. intros Hm Hk s. specialize (Hm s). unfold mbind, M_bind. destruct (m s) as [[a|e] s1]; [apply Hk|done]. Qed.

Lemma shown_modify (f : RaftNode → RaftNode) : (∀ n, shown (f n) = shown n) → keeps same_shown (modify f).
Proof. intros Hf. by apply keeps_modify. Qed.

Lemma shown_on_disk {A} (m : M Disk A) : keeps same_shown (on_disk m).
Proof. apply keeps_zoom. by intros n. Qed.

Lemma shown_on_disk_read {A} (f : Disk → A * Disk) : keeps same_shown (on_disk_read f).
Proof. intros n. unfold on_disk_read. by destruct (f (storage n)). Qed.

Lemma shown_on_sm {A} (m : M StateMachine A) : keeps same_shown (on_sm m).
Proof. apply keeps_zoom. by intros n. Qed.

Lemma shown_catch {A B} (m : M RaftNode A) (f : A → B) g : keeps same_shown m → keeps same_shown (catch m f g).
Proof. intros Hm n. unfold catch. specialize (Hm n). by destruct (m n) as [[]]. Qed.

Lemma shown_expect {A} (m : M RaftNode A) : keeps same_shown m → keeps same_shown (expect m).
Proof. intros Hm n. unfold expect. specialize (Hm n). by destruct (m n) as [[]]. Qed.

#[export] Hint Resolve shown_on_disk shown_on_disk_read shown_on_sm : oxide.
#[export] Hint Extern 1 (keeps same_shown (modify _)) => (apply shown_modify; intros; repeat case_match; done) : oxide.
#[export] Hint Extern 1 (keeps same_shown (catch _ _ _)) => (apply shown_catch; keep) : oxide.
#[export] Hint Extern 1 (keeps same_shown (expect _)) => (apply shown_expect; keep) : oxide.
#[export] Hint Extern 1 (total (modify _)) => (by intros ?) : oxide.

(** Operations that end by refreshing. *)
Ltac settle_step :=
  match goal with
  | |- settles refresh_metrics => apply settles_refresh
  | |- settles (mbind _ _) => apply settles_bind; [|intros ?]
  | |- total (bare _) => apply total_bare
  | |- total (mbind _ _) => apply total_bind; [|intros ?]
  end.
Ltac settle := repeat settle_step; eauto with oxide.

Ltac mirror_step :=
  match goal with
  | |- mirrored (mret _) => apply mirrored_ret
  | |- mirrored (bare _) => apply mirrored_bare; keep; fail
  | |- mirrored (metric _) => apply mirrored_metric; intros ?? <-; done
  | |- mirrored _ => apply settles_mirrored; settle; fail
  | |- mirrored (mbind _ _) => apply mirrored_bind; [|intros ?]
  | |- mirrored (match ?b with _ => _ end) => destruct b
  end.
Ltac mirror := repeat mirror_step; eauto with oxide.

Section mirroring.
Context {JW : Json WalOp} {JE : Json (list SSTEntry)} {JM : Json SSTableMeta}.
Context {BL : Bincode LogEntry} {LB : BincodeLaws LogEntry} {JV : Json Value} {JS : Json Snapshot}.
Context (stat : Disk → option (Z * option Z)).

Lemma total_apply_logs : total apply_logs.
Proof. intros n. pose proof (apply_logs_frame n) as H. unfold wp in H. destruct (apply_logs n) as [r n']. by destruct H as [-> _]. Qed.
Lemma total_touch : total touch_heartbeat.
Proof. by intros n. Qed.
Lemma total_gets {S A} (f : S → A) : total (gets f).
Proof. by intros s. Qed.
Lemma total_ignore {S A} (m : M S A) : total (ignore m).
Proof. intros s. unfold ignore. by destruct (m s). Qed.
#[local] Hint Resolve total_apply_logs total_touch total_gets total_ignore : oxide.
Lemma total_persist : total persist_meta.
Proof. unfold persist_meta. settle. Qed.
#[local] Hint Resolve total_persist : oxide.
Lemma total_adopt t : total (adopt_term t).
Proof. unfold adopt_term. settle. Qed.
Lemma total_promote : total promote_to_candidate_locked.
Proof. unfold promote_to_candidate_locked. settle. Qed.
#[local] Hint Resolve total_adopt total_promote : oxide.

Lemma apply_logs_settles : settles apply_logs_m.
Proof. unfold apply_logs_m. settle. Qed.
#[local] Hint Resolve apply_logs_settles : oxide.
Lemma promote_settles : settles promote_to_candidate_locked_m.
Proof. unfold promote_to_candidate_locked_m. settle. Qed.
Lemma maybe_commit_mirrored : mirrored maybe_commit_m.
Proof. unfold maybe_commit_m. mirror. Qed.
#[local] Hint Resolve maybe_commit_mirrored promote_settles settles_mirrored : oxide.
Lemma shown_touch : keeps same_shown touch_heartbeat.
Proof. unfold touch_heartbeat. keep. Qed.
#[local] Hint Resolve shown_touch : oxide.
Lemma shown_append_args v peer : keeps same_shown (append_args v peer).
Proof. unfold append_args. keep. Qed.
#[local] Hint Resolve shown_append_args : oxide.
Lemma shown_send_appends v ps : keeps same_shown (send_appends v ps).
Proof. induction ps; simpl; keep. Qed.
#[local] Hint Resolve shown_send_appends : oxide.
Lemma sync_logs_mirrored : mirrored sync_logs_m.
Proof. unfold sync_logs_m. mirror. Qed.
#[local] Hint Resolve sync_logs_mirrored : oxide.
Lemma on_append_reply_mirrored peer args reply : mirrored (on_append_reply_m peer args reply).
Proof. unfold on_append_reply_m. mirror. Qed.
Lemma become_leader_mirrored : mirrored become_leader_m.
Proof. unfold become_leader_m. mirror. Qed.
#[local] Hint Resolve become_leader_mirrored : oxide.
Lemma request_votes_mirrored : mirrored request_votes_m.
Proof. unfold request_votes_m. mirror. Qed.
#[local] Hint Resolve request_votes_mirrored : oxide.
Lemma become_candidate_mirrored : mirrored become_candidate_m.
Proof. unfold become_candidate_m. mirror. Qed.
Lemma leader_checked_mirrored : mirrored become_leader_checked_m.
Proof. unfold become_leader_checked_m. mirror. Qed.
#[local] Hint Resolve leader_checked_mirrored : oxide.
Lemma maybe_snapshot_mirrored th : mirrored (maybe_snapshot_m stat th).
Proof. unfold maybe_snapshot_m, maybe_snapshot. mirror. Qed.
#[local] Hint Resolve maybe_snapshot_mirrored : oxide.
Lemma heartbeat_mirrored th : mirrored (heartbeat_tick_m stat th).
Proof. unfold heartbeat_tick_m. mirror. Qed.
Lemma begin_read_mirrored : mirrored begin_read_m.
Proof. unfold begin_read_m. mirror. Qed.

(** A change, a refresh, and more. *)
Lemma mirrored_after {A} (mm : M Metered unit) (kk : M Metered A) :
  total mm → mirrored kk → mirrored (mm ;; refresh_metrics ;; kk).
Proof.
  intros Hm Hk x _. specialize (Hm x). unfold mbind, M_bind. destruct (mm x) as [[[]|e] x1]; [|done].
  apply Hk, settles_refresh.
Qed.

Lemma pre_candidate_mirrored v : mirrored (enter_pre_candidate_m v).
Proof.
  unfold enter_pre_candidate_m. apply mirrored_bind; [mirror|intros n]. destruct (_ && _); [|mirror].
  apply mirrored_after; [settle|]. mirror.
Qed.

Lemma vote_reply_mirrored total t votes reply : vr_granted reply = true → mirrored (on_vote_reply_m total t votes reply).
Proof. intros H. unfold on_vote_reply_m. rewrite H. mirror. Qed.

Lemma pre_vote_reply_mirrored total t votes reply : vr_term reply <= t →
  mirrored (process_pre_vote_reply_m total t votes reply).
Proof. intros H. unfold process_pre_vote_reply_m. rewrite (proj2 (Z.ltb_ge t _)) by done. mirror. Qed.

(** Appending: refreshed on success, and nothing to show on failure. *)
Lemma append_own_mirrored {A} cmd (ok : Z → M Metered A) (err : io_error → M Metered A) x :
  mirrors x → (∀ i, settles (ok i)) → (∀ e, mirrored (err e)) →
  mirrors ((r ← bare (catch (append_own cmd) inl inr); match r with inl i => ok i | inr e => err e end) x).2.
Proof.
  intros Hx Hok Herr. pose proof (append_own_wp cmd (me_node x)) as Hw. cbv zeta in Hw. unfold wp in Hw.
  unfold mbind, M_bind, bare, catch. destruct (append_own cmd (me_node x)) as [[i|e] n']; destruct Hw as (d & _ & Hn & _).
  - apply Hok.
  - apply Herr. cbn [fst snd] in Hn. subst n'. intros g Hg. simpl in *. rewrite (refresh_shown (me_node x)) by done. by apply Hx.
Qed.

Lemma abort_tx_mirrored tx : mirrored (propose_abort_tx_m tx).
Proof.
  unfold propose_abort_tx_m. apply mirrored_bind; [mirror|intros st]. destruct (negb _); [mirror|].
  apply mirrored_bind; [mirror|intros pending]. destruct (negb pending); [mirror|].
  intros x Hx. apply (append_own_mirrored _ (λ i, refresh_metrics ;; mret (inl i)) (λ e, mret (inr (AStorageError e)))); [done| |].
  - intros i y. apply settles_refresh.
  - intros e. mirror.
Qed.

Lemma propose_batch_mirrored cs x : wal_synced (log (me_node x)) (storage (me_node x)) → mirrors x →
  mirrors (propose_batch_m cs x).2.
Proof.
  intros Hsyn Hx. unfold propose_batch_m, mbind, M_bind, bare, catch, gets. cbn beta iota zeta.
  destruct (bool_decide (state (me_node x) = Leader)); [|by destruct x].
  pose proof (propose_loop_wp cs (log_len (me_node x) + 1) (me_node x)) as Hw. unfold wp in Hw. cbn [me_node].
  destruct (propose_loop _ _ _) as [[[]|e] n']; destruct Hw as (k & d & _ & _ & _ & _ & Hs).
  - apply settles_refresh.
  - by destruct (Hs Hsyn).
Qed.

(** Events after which the gauges show the node, if they did before. *)
Definition shows (ev : event) : Prop :=
  match ev with
  | EvCampaign | EvPreCampaign _ | EvAppendReply _ _ _ | EvPropose _ | EvAbortTx _ | EvHeartbeat _ | EvRead
  | EvClock _ | EvRestart _ _ _ => True
  | EvVoteReply _ _ _ reply => vr_granted reply = true
  | EvPreVoteReply _ t _ reply => vr_term reply <= t
  | EvRpc (RequestPreVote _) => True
  | _ => False
  end.

(** ** The claims *)

(** Metrics are only observed. Along any sequence of events, restarts included, a node with
    metrics sends the replies and reaches the states of a node without them. *)
Theorem metrics_do_not_matter evs x :
  (run_events_m stat evs x).1 = (run_events evs (me_node x)).1 ∧
  me_node (run_events_m stat evs x).2 = (run_events evs (me_node x)).2.
Proof.
  revert x. induction evs as [|ev evs IH]; intros x; simpl; [done|]. destruct (run_event_erased stat ev x) as [E1 E2].
  destruct (run_event_m stat ev x) as [r x1], (run_event ev (me_node x)) as [r' n1]. simpl in *. subst r' n1.
  destruct (IH x1) as [I1 I2]. destruct (run_events_m stat evs x1), (run_events evs (me_node x1)). simpl in *. by subst.
Qed.

(** The replication gauges are set for the peer that answered, and only there. *)
Lemma maybe_commit_peer_gauges x : ∀ g', me_metrics (maybe_commit_m x).2 = Some g' → ∃ g, me_metrics x = Some g ∧
  peer_match_index g' = peer_match_index g ∧ peer_next_index g' = peer_next_index g.
Proof.
  intros g'. unfold maybe_commit_m, apply_logs_m, refresh_metrics, metric, bare, gets, modify, mbind, M_bind. simpl.
  destruct (negb _); [intros; by exists g'|]. destruct (_ <? _); [|intros; by exists g'].
  destruct (_ =? _); [|intros; by exists g']. destruct (apply_logs _) as [[[]|e] n']; simpl; [|intros; by exists g'].
  destruct (me_metrics x) as [g|]; [|done]. intros [= <-]. by exists g.
Qed.

Lemma append_reply_peer_gauges peer args reply x g' : ar_success reply = true →
  me_metrics (on_append_reply_m peer args reply x).2 = Some g' →
  let last := u64_add (ae_prev_log_index args) (Z.of_nat (length (ae_entries args))) in
  peer_match_index g' !! peer = Some (as_i64 last) ∧ peer_next_index g' !! peer = Some (as_i64 (u64_add last 1)).
Proof.
  intros Hs. unfold on_append_reply_m. rewrite Hs. unfold mbind at 1 2 3 4, M_bind, bare, modify, metric. simpl.
  intros (g & Hg & -> & ->)%maybe_commit_peer_gauges. simpl in Hg. destruct (me_metrics x) as [g0|]; [|done].
  injection Hg as <-. simpl. by rewrite !lookup_insert_eq.
Qed.

End mirroring.

(** ** Stale gauges *)

Import Codec.

Definition no_snapshot (d : Disk) : option (Z * option Z) := None.

Definition watched_b : Metered := (start_metrics no_snapshot ["a"; "c"] (new_node "b" ["a"; "c"])).2.

Definition append_one : AppendEntriesArgs := mkAppendEntries 1 "a" 0 0 [mkLogEntry 1 1 (CSet "x" "1")] 0.

(** [b] appends the entry that [a] sends in term 1: its gauges still show term 0 and an empty log. *)
Lemma follower_gauges_are_stale : let x := (handle_raft_rpc_m no_snapshot (AppendEntries append_one) watched_b).2 in
  mirrors watched_b ∧ ¬ mirrors x ∧ current_term (me_node x) = 1 ∧ log_len (me_node x) = 1 ∧
  raft_term <$> me_metrics x = Some 0 ∧ raft_log_length <$> me_metrics x = Some 0.
Proof.
  cbv zeta. split_and!; try (vm_compute; reflexivity).
  - intros g. vm_compute. by intros [= <-].
  - intros Hx. assert (E : raft_term <$> me_metrics (handle_raft_rpc_m no_snapshot (AppendEntries append_one) watched_b).2 = Some 0)
      by (vm_compute; reflexivity).
    destruct (me_metrics _) as [g|] eqn:Eg; [|done]. specialize (Hx g Eg). apply (f_equal raft_term) in Hx.
    simpl in E. injection E as E. rewrite E in Hx. vm_compute in Hx. discriminate.
Qed.

(** A leader that hears of a newer term from a candidate goes on exporting that it leads. *)
Definition watched_leader : Metered :=
  (become_candidate_m (start_metrics no_snapshot [] (new_node "a" [])).2).2.

Lemma deposed_leader_shows_leader :
  let x := (handle_raft_rpc_m no_snapshot (RequestVote (mkRequestVote 7 "b" 0 0)) watched_leader).2 in
  state (me_node x) = Follower ∧ current_term (me_node x) = 7 ∧
  raft_role <$> me_metrics x = Some 2 ∧ raft_term <$> me_metrics x = Some 1.
Proof. vm_compute. done. Qed.

(** ** Witness *)

