(* ===== verification/StopLoops.v ===== *)
(** * The loops that wait for a stop signal

    [StopSignal] ([raft/net.rs]) wraps a [tokio::sync::Notify] and stops with [notify_waiters], which
    notifies the [notified()] futures that exist at that moment and remembers nothing. Four loops select between it
    and their own work: the accept loops of [TcpTransport::serve] and of the metrics server, the heartbeat loop
    and the transaction sweep (its turns are in [Coordinator]; the other three are here). A loop is [Waiting] in its [select!] or [Working] on what it got there; another
    thread may signal at any time. *)

From stdpp Require Import prelude strings list.
From S2P Require Import Prelude Serde Protocol StateMachine Storage Rpc Node.
#[local] Open Scope Z_scope.

(** ** One loop *)

(** What a loop does with the event its [select!] yields, and whether the [select!] is [biased]: it then polls
    the signal first; otherwise any ready branch may win. *)
Record Loop (Ev St : Type) := mkLoop { lp_biased : bool; lp_body : Ev → St → St }.
Arguments mkLoop {_ _}. Arguments lp_biased {_ _}. Arguments lp_body {_ _}.

Inductive phase (Ev : Type) :=
  | Waiting (notified : bool)    (** in [select!], its [notified()] future signalled or not *)
  | Working (e : Ev)
  | Returned.
Arguments Waiting {_}. Arguments Working {_}. Arguments Returned {_}.

Inductive tick (Ev : Type) :=
  | Stop                             (** [StopSignal::stop] *)
  | Poll (e : option Ev) (won : bool)    (** the task is polled; [e] is ready, and would win a fair choice *)
  | Finish.                          (** the body ends, and the loop goes round *)
Arguments Stop {_}. Arguments Poll {_}. Arguments Finish {_}.

(** [notify_waiters] *)
Definition stop {Ev} (p : phase Ev) : phase Ev :=
  match p with Waiting _ => Waiting true | _ => p end.

Section loop.
Context {Ev St : Type} (L : Loop Ev St).

(** The winner of the [select!]. *)
Definition select (notified : bool) (e : option Ev) (won : bool) : phase Ev :=
  match notified, e with
  | true, None => Returned
  | true, Some x => if lp_biased L then Returned else if won then Working x else Returned
  | false, Some x => Working x
  | false, None => Waiting false
  end.

Definition loop_step (t : tick Ev) (x : phase Ev * St) : phase Ev * St :=
  match t, x with
  | Stop, (p, s) => (stop p, s)
  | Poll e won, (Waiting b, s) => (select b e won, s)
  | Finish, (Working e, s) => (Waiting false, lp_body L e s)
  | _, _ => x
  end.

Definition loop_run (ts : list (tick Ev)) (x : phase Ev * St) : phase Ev * St := foldl (λ x t, loop_step t x) x ts.

(** The events a loop took up to work on. *)
Fixpoint taken (ts : list (tick Ev)) (x : phase Ev * St) : list Ev :=
  match ts with
  | [] => []
  | t :: ts' =>
      let x' := loop_step t x in
      match x.1, x'.1 with Working e, Waiting _ => [e] | _, _ => [] end ++ taken ts' x'
  end.
End loop.

(** ** The loops of the program *)

(** [TcpTransport::serve]: a connection is handed to a task of its own, an error of [accept] is logged. *)
Definition accept_body {C} (a : C + string) (spawned : list C) : list C :=
  match a with inl c => spawned ++ [c] | inr _ => spawned end.

Definition serve_loop C : Loop (C + string) (list C) := mkLoop false accept_body.

(** Without a listener [serve] fails at once. *)
Definition serve {C} (listener : option unit) : string + Loop (C + string) (list C) :=
  match listener with
  | None => inl "TcpTransport::serve called without a listener"
  | Some _ => inr (serve_loop C)
  end.

(** [run_metrics_server]; after an error it sleeps before it goes round. *)
Definition metrics_loop C : Loop (C + string) (list C) := mkLoop true accept_body.

Section node.
Context {JW : Json WalOp} {JE : Json (list SSTEntry)} {JM : Json SSTableMeta}.
Context {BL : Bincode LogEntry} {JV : Json Value} {JS : Json Snapshot}.

(** [run_heartbeat_loop]: the event is the end of the sleep, with the threshold read in that turn. *)
Definition heartbeat_loop : Loop Z (RaftNode * outgoing) :=
  mkLoop true (λ threshold '(n, sent),
    match heartbeat_tick threshold n with
    | (Ok out, n') => (n', sent ++ out)
    | (Err _, n') => (n', sent)
    end).
End node.

(** ** What holds of every loop *)

Section facts.
Context {Ev St : Type} (L : Loop Ev St).
#[local] Abbreviation run := (loop_run L).

Lemma returned_stays ts s : run ts (Returned, s) = (Returned, s).
Proof. induction ts as [|[] ts IH]; done. Qed.

(** Its state is what its bodies made of the events it took, in order. *)
Lemma run_is_bodies ts p s : (run ts (p, s)).2 = foldl (λ s e, lp_body L e s) s (taken L ts (p, s)).
Proof.
  revert p s. induction ts as [|t ts IH]; intros p s; [done|]. simpl. rewrite foldl_app.
  destruct t as [|e won|]; simpl.
  - rewrite IH. by destruct p.
  - destruct p as [b|x|]; simpl; rewrite IH; [by destruct (select L b e won)|done|done].
  - destruct p as [b|x|]; simpl; by rewrite IH.
Qed.

(** No one returns without a signal. *)
Lemma alive_or_stopped ts p s : p = Waiting false ∨ (∃ e, p = Working e) →
  let q := (run ts (p, s)).1 in q = Waiting false ∨ (∃ e, q = Working e) ∨ Stop ∈ ts.
Proof.
  revert p s. induction ts as [|t ts IH]; intros p s Hp; [naive_solver|].
  assert (Hr : ∀ p' s', p' = Waiting false ∨ (∃ e, p' = Working e) → let q := (run ts (p', s')).1 in
    q = Waiting false ∨ (∃ e, q = Working e) ∨ Stop ∈ t :: ts).
  { intros p' s' Hp'. destruct (IH p' s' Hp') as [?|[?|?]]; [by left|by right; left|do 2 right; by constructor]. }
  simpl. destruct t as [|e won|]; [do 2 right; left|..]; destruct Hp as [->|[x ->]]; simpl; apply Hr; eauto.
  destruct e; simpl; eauto.
Qed.

(** Stopping a loop. A loop returns only after a signal. If it is waiting when the signal
    comes and polls it first, it returns the next time it is polled, whatever else is ready, having done nothing more;
    its state is always what its body made of the events it took, in order. *)
Theorem stop_ends_waiting_loop ts ts' s e won : lp_biased L = true →
  let x := run ts (Waiting false, s) in
  (x.1 = Returned → Stop ∈ ts) ∧
  x.2 = foldl (λ s e, lp_body L e s) s (taken L ts (Waiting false, s)) ∧
  (∀ b, x.1 = Waiting b → run (Stop :: Poll e won :: ts') x = (Returned, x.2)).
Proof.
  intros Hb x. split_and!.
  - intros Hr. subst x. destruct (alive_or_stopped ts (Waiting false) s) as [E|[[y E]|?]]; [by left|congruence..|done].
  - apply run_is_bodies.
  - intros b Hw. destruct x as [p s']. simpl in *. subst p. simpl. rewrite Hb. destruct e; apply returned_stays.
Qed.
End facts.

(** ** Signals that are missed *)

(** A loop that is working when the signal comes goes on, and so does the accept loop of the Raft listener when a
    connection is ready at the same time: its [select!] is not [biased]. *)
Lemma busy_loop_misses_stop {Ev St} (L : Loop Ev St) e s :
  loop_run L [Poll (Some e) true; Stop; Finish; Poll None true] (Waiting false, s) = (Waiting false, lp_body L e s).
Proof. reflexivity. Qed.

Lemma serve_misses_stop C (c : C) : loop_run (serve_loop C) [Stop; Poll (Some (inl c)) true; Finish] (Waiting false, []) =
  (Waiting false, [c]).
Proof. reflexivity. Qed.

(** ** Witness *)

Lemma stop_ends_waiting_loop_witness :
  let ts := [Poll (Some (inl 1%Z)) true; Finish; Poll (Some (inr "full")) true; Finish; Poll (Some (inl 2%Z)) false; Finish] in
  let x := loop_run (metrics_loop Z) ts (Waiting false, []) in
  x = (Waiting false, [1; 2]) ∧ loop_run (metrics_loop Z) [Stop; Poll (Some (inl 3)) true; Finish] x = (Returned, [1; 2]).
Proof.
  split; [reflexivity|]. exact (proj2 (proj2 (stop_ends_waiting_loop (metrics_loop Z) [Poll (Some (inl 1)) true; Finish;
    Poll (Some (inr "full")) true; Finish; Poll (Some (inl 2)) false; Finish] [Finish] [] (Some (inl 3)) true eq_refl)) false eq_refl).
Defined.
