(* ===== verification/Timer.v ===== *)
(** * Timeouts and the election timer ([src/rust/oxide-kv/src/config.rs], [src/rust/oxide-kv/src/raft/timer.rs])

    The time constants, the pure decision of the election timer, one round of its
    loop, and why a leader's heartbeats keep it quiet. *)

From stdpp Require Import prelude gmap strings pretty sorting countable list.
From S2P Require Import Prelude Serde Protocol StateMachine Storage Instances Rpc Node Samples.
#[local] Open Scope Z_scope.

(** ** [Config] *)

Definition min_election_timeout_ms : Z := 5000.
Definition max_election_timeout_ms : Z := 10000.
Definition heartbeat_interval_ms : Z := 250.
Definition rpc_request_vote_timeout_ms : Z := 1000.
Definition rpc_append_entries_timeout_ms : Z := 1500.

(** The settings an environment variable can override; [env] is its value, if
    it parses as a [u64]. *)
Definition snapshot_threshold_bytes (env : option Z) : Z := default (64 * 1024 * 1024) env.
Definition tx_timeout_ms (env : option Z) : Z := default 30000 env.
Definition tx_timeout_sweep_interval_ms (env : option Z) : Z := default 1000 env.

(** ** The timer *)

Definition should_start_election (st : NodeState) (last_hb now election_threshold : Z) : bool :=
  if bool_decide (st = Leader) then false
  else election_threshold <=? saturating_sub now last_hb.

Section timer.
Context {JW : Json WalOp} {JE : Json (list SSTEntry)} {JM : Json SSTableMeta}.
Context {BL : Bincode LogEntry} {JV : Json Value} {JS : Json Snapshot}.

(** One check of the loop: the node is read at [now]. *)
Definition timer_check (now : Z) (n : RaftNode) : bool :=
  should_start_election (state n) (last_heartbeat n) now min_election_timeout_ms.

(** The rest of a round of [run_election_timer]: [first] is the node as the
    first check found it, at [now1]; the second check, after the jitter, reads the
    node the round runs on. *)
Definition timer_round (first : RaftNode) (now1 now2 : Z) : M RaftNode outgoing :=
  if negb (timer_check now1 first) then mret [] else
  n ← gets id;
  if timer_check now2 n then become_pre_candidate else mret [].

(** a live leader keeps the timer quiet. A round that starts a pre-vote
    has found the node, twice, not leading and without a heartbeat for the whole
    minimum election timeout. So a node that has seen a heartbeat within one
    heartbeat interval and one RPC timeout of the second check never campaigns, and a
    leader never does; otherwise the round changes nothing. *)
Theorem heartbeat_prevents_election first now1 now2 n :
  state n = Leader ∨ now2 <= last_heartbeat n + (heartbeat_interval_ms + rpc_append_entries_timeout_ms) ∨
    state first = Leader ∨ now1 < last_heartbeat first + min_election_timeout_ms →
  timer_round first now1 now2 n = (Ok [], n).
Proof.
  unfold timer_round, timer_check, should_start_election, saturating_sub, min_election_timeout_ms,
    heartbeat_interval_ms, rpc_append_entries_timeout_ms, gets, mbind, M_bind, id. simpl.
  intros H. destruct (bool_decide (state first = Leader)) eqn:E1; [done|].
  apply bool_decide_eq_false in E1.
  destruct (Z.leb_spec 5000 (Z.max 0 (now1 - last_heartbeat first))); [|done]. simpl.
  destruct (bool_decide (state n = Leader)) eqn:E2; [done|]. apply bool_decide_eq_false in E2.
  destruct (Z.leb_spec 5000 (Z.max 0 (now2 - last_heartbeat n))); [|done].
  destruct H as [?|[?|[?|?]]]; [done|lia|done|lia].
Qed.
End timer.

Import Codec.

Lemma heartbeat_prevents_election_witness :
  timer_round (new_node "a" ["b"]) 6000 6100 (with_last_heartbeat 5000 (new_node "a" ["b"])) =
    (Ok [], with_last_heartbeat 5000 (new_node "a" ["b"])).
Proof.
  apply (heartbeat_prevents_election (new_node "a" ["b"]) 6000 6100).
  right. left. vm_compute. congruence.
Defined.

(** Without heartbeats the same round probes the peers, for the next term. *)
Lemma timer_round_probes :
  (timer_round (new_node "a" ["b"]) 6000 6100 (new_node "a" ["b"])).1 =
    Ok [("b", RequestPreVote (mkRequestVote 1 "a" 0 0))].
Proof. vm_compute. reflexivity. Qed.

(** The spread of the election timeout is as large as its minimum; the comment
    asks for less than half of it. *)
Lemma election_spread_is_wide :
  min_election_timeout_ms <= 2 * (max_election_timeout_ms - min_election_timeout_ms).
Proof. vm_compute. congruence. Qed.
