(* ===== verification/ClusterReads.v ===== *)
(** * Reads of a cluster

    [linearizable_get] takes the commit index of the leader ([begin_read]), waits until the leader has applied it and has
    been heard by a peer ([confirm_read]), and then reads. In a cluster of at most three nodes such a read sees every
    write a leader had committed before it began, if three things hold that the code does not check: the leader has committed an
    entry of its own term, the acknowledgement was given after the read began, and the leader was not elected anew meanwhile. The
    last part runs what happens otherwise. *)

From stdpp Require Import prelude gmap strings sorting countable list.
From S2P Require Import Prelude Serde Protocol StateMachine StateMachineProps Storage StorageProps Rpc Node NodeVotes ReferenceModel Refinement NodeLog.
From S2P Require Import NodeLeader NodeCore NodeApplied NodeLease RaftSpec RaftSafety RaftInvariant Instances Samples Timer.
From S2P Require Import Cluster ClusterRun ClusterSim ClusterMoves ClusterRefines ClusterElections ClusterSteps ClusterRestart ClusterTheorems.
#[local] Open Scope Z_scope.

Section terms.
Context (servers : list string).

(** Terms only grow. *)
Lemma astep_term a a' s : astep servers a a' → a_term (a_nodes a !!! s) <= a_term (a_nodes a' !!! s).
Proof.
  intros Hs. destruct Hs as [s' t n Ht|s' n Hr|s' n t|s' n|s' c l n t|s' n t|s' e n t|s' p k m n|s' p k m n t L Hin Hr Hp l'|s' k n|s' t k n];
    simpl; try done; (destruct (decide (s = s')) as [->|]; [rewrite lookup_total_insert_eq|by rewrite lookup_total_insert_ne]); simpl;
    subst; try done; unfold n in *; lia.
Qed.

Lemma steps_term a a' s : rtc (astep servers) a a' → a_term (a_nodes a !!! s) <= a_term (a_nodes a' !!! s).
Proof. intros Hr. induction Hr as [|a b a' Hs _ IH]; [done|]. pose proof (astep_term a b s Hs). lia. Qed.

(** A leader stays one until it sees a later term. *)
Lemma astep_leads a a' s : astep servers a a' → a_role (a_nodes a !!! s) = RLeader →
  a_role (a_nodes a' !!! s) = RLeader ∨ a_term (a_nodes a !!! s) < a_term (a_nodes a' !!! s).
Proof.
  intros Hs Hl. destruct Hs as [s' t n Ht|s' n Hr|s' n t|s' n|s' c l n t|s' n t|s' e n t|s' p k m n|s' p k m n t L Hin Hr Hp l'|s' k n|s' t k n];
    simpl; try (by left); (destruct (decide (s = s')) as [->|]; [rewrite lookup_total_insert_eq|rewrite lookup_total_insert_ne by done; by left]);
    simpl; unfold n in *; first [by left|right; lia|done].
Qed.

Lemma steps_leads a a' s : rtc (astep servers) a a' → a_role (a_nodes a !!! s) = RLeader →
  a_role (a_nodes a' !!! s) = RLeader ∨ a_term (a_nodes a !!! s) < a_term (a_nodes a' !!! s).
Proof.
  intros Hr. induction Hr as [|a b a' Hs Hr IH]; intros Hl; [by left|]. pose proof (steps_term b a' s Hr).
  pose proof (astep_term a b s Hs). destruct (astep_leads a b s Hs Hl) as [Hb|]; [|right; lia].
  destruct (IH Hb); [by left|right; lia].
Qed.

(** A leader had a majority in its term. *)
Lemma elected_majority a t c E : safe servers a → a_elected a !! t = Some (c, E) →
  majority servers (λ s, t <= a_term (a_nodes a !!! s)).
Proof.
  intros H He. destruct (sf_elect _ _ H _ _ _ He) as [_ _ _ _ Hq _]. eapply majority_mono; [|exact Hq].
  intros s (v & Hv & <- & <- & _). destruct (sf_vote _ _ H v Hv) as [?|[? _]]; lia.
Qed.

(** What earlier leaders could commit lies before the entries of a later one. *)
Lemma earlier_chosen a t k t' c E i e : safe servers a → chosen servers a t k → t < t' →
  a_elected a !! t' = Some (c, E) → a_llog a !!! t' !! i = Some e → le_term e = t' → (k <= i)%nat.
Proof.
  intros H Hc Ht He Hi Hte. pose proof (leader_complete _ _ H _ _ _ _ _ Hc He Ht) as Ek.
  destruct Hc as (_ & Hk & (x & Hx & _) & _). apply lookup_lt_Some in Hx.
  pose proof (take_eq_length _ _ _ (eq_sym Ek) ltac:(lia)) as Hl.
  destruct (llog_terms _ _ H _ _ _ _ _ He Hi) as [_ Hlen]. specialize (Hlen Hte). lia.
Qed.
End terms.

Section reads.
Context {JW : Json WalOp} {LW : JsonLaws WalOp}.
Context {JE : Json (list SSTEntry)} {LE : JsonLaws (list SSTEntry)}.
Context {JM : Json SSTableMeta} {LM : JsonLaws SSTableMeta}.
Context {BL : Bincode LogEntry} {LB : BincodeLaws LogEntry}.
Context {JV : Json Value} {LV : JsonLaws Value}.
Context {JS : Json Snapshot} {LS : JsonLaws Snapshot}.

Lemma progress_last n n' : progress n n' → last_applied n <= last_applied n'.
Proof.
  intros [[E _]|(m & [E _] & [[E' _] _])]; [lia|]. destruct (apply_logs m) as [r m'] eqn:Em. simpl in *.
  destruct (wp_elim _ _ _ _ _ (apply_logs_frame m) Em) as (_ & _ & H). lia.
Qed.

Lemma steps_last servers c c' a s n n' : NoDup servers → Sim servers c a → rtc cluster_step c c' →
  cl_nodes c !! s = Some n → cl_nodes c' !! s = Some n' → last_applied n <= last_applied n'.
Proof.
  intros Hd H Hr. revert a H n. induction Hr as [c|c c1 c' (l & Hl & ->) _ IH]; intros a H n Hn Hn'.
  { rewrite Hn in Hn'. by simplify_eq. }
  destruct (sim_step servers Hd l c a H Hl) as (a1 & _ & H1).
  destruct (cl_nodes (cl_step l c) !! s) as [n1|] eqn:Hn1.
  - destruct (step_progressed servers c a l H (proj1 Hl) s n1 Hn1) as (n0 & Hn0 & Hp). simplify_eq.
    pose proof (progress_last _ _ Hp). pose proof (IH a1 H1 n1 eq_refl Hn'). lia.
  - apply elem_of_dom_2 in Hn. rewrite (si_dom _ _ _ H), <- (si_dom _ _ _ H1) in Hn. by apply not_elem_of_dom_2 in Hn1.
Qed.

Lemma begin_read_index n ri out : (begin_read n).1 = Ok (Some ri, out) →
  state n = Leader ∧ ri_index ri = commit_index n ∧ ri_issued_at ri = clock n.
Proof.
  unfold begin_read, gets, mbind, M_bind. case_bool_decide; simpl; [|done].
  destruct (sync_logs n) as [[x|e] n']; simpl; [|done]. by intros [= <- _].
Qed.

Lemma confirm_read_inv tmo wall ri n : confirm_read tmo wall ri n = true →
  state n = Leader ∧ ri_index ri <= last_applied n ∧ ∃ t, last_quorum_heartbeat_at n = Some t ∧ ri_issued_at ri <= t.
Proof.
  unfold confirm_read. case_bool_decide; simpl; [|done]. destruct (Z.ltb_spec (last_applied n) (ri_index ri)); [done|].
  destruct (last_quorum_heartbeat_at n) as [t|]; [|done]. intros [_ Ht%Z.leb_le]%andb_true_iff. by eauto.
Qed.

(** ** The evidence of a read *)

(** [at_node] on a field of the cluster. *)
Lemma at_node_at {A} s (m : M RaftNode A) c n : cl_nodes c !! s = Some n →
  at_node s m c = (match (m n).1 with Ok a => Some a | Err _ => None end, set_nodes (<[s := (m n).2]> (cl_nodes c)) c).
Proof. intros Hn. unfold at_node. rewrite Hn. by destruct (m n). Qed.

Lemma at_node_replies {A} s (m : M RaftNode A) c : cl_replies (at_node s m c).2 = cl_replies c.
Proof. unfold at_node. destruct (cl_nodes c !! s) as [n|]; [|done]. by destruct (m n). Qed.

Lemma launch_replies s out c : cl_replies (launch s out c) = cl_replies c.
Proof. unfold launch. destruct out as [[|x out]|]; [done| |done]. by destruct (cl_nodes c !! s). Qed.

Lemma at_lease {A} s (m : M RaftNode A) c c' : keeps same_lease m →
  cl_nodes c' = cl_nodes (at_node s m c).2 → related same_lease c c'.
Proof. intros Hm. apply (at_node_related same_lease). intros n _. apply Hm. Qed.

(** Only an acknowledgement moves the lease of a node. *)
Lemma step_lease l c : related same_lease c (cl_step l c) ∨
  ∃ peer args reply, l = LAppendReply peer args reply ∧ ar_success reply = true.
Proof.
  destruct l; simpl; try (left; eapply at_lease; [|reflexivity]; auto using lease_promote, lease_sync_logs, lease_propose_batch,
    lease_abort_tx, lease_snapshot, lease_tx_vote, lease_step_down, lease_record_vote; fail).
  - left. eapply (at_lease to (handle_raft_rpc msg)); [apply lease_rpc|by destruct (at_node to _ c) as [[[]|] c']].
  - destruct (ar_success reply) eqn:E; [right; by eauto|left]. eapply at_lease; [by apply lease_refusal|done].
  - left. destruct (cl_rounds c !! i) as [rd|]; [|by apply (related_refl same_lease)].
    match goal with |- context [at_node ?s ?m c] => eapply (at_lease s m) end; [apply lease_vote_reply|by destruct (at_node (rd_node rd) _ c)].
  - left. match goal with |- context [at_node ?s ?m c] => eapply (at_lease s m) end; [apply lease_pre_vote_reply|].
    destruct (at_node id _ c). apply launch_nodes.
  - left. match goal with |- context [at_node ?s ?m c] => eapply (at_lease s m) end; [apply lease_request_votes|].
    destruct (at_node id _ c). apply launch_nodes.
  - left. match goal with |- context [at_node ?s ?m c] => eapply (at_lease s m) end; [apply lease_pre_candidate|by destruct (at_node id _ c)].
  - left. eapply (at_lease id (append_args v peer)); [apply lease_append_args|by destruct (at_node id _ c) as [[] ?]].
  - left. eapply at_lease; [|reflexivity]. by apply keeps_modify.
  - left. apply related_refl; [apply _|]. by destruct (cl_nodes c !! id).
Qed.

(** An acknowledgement that is new shows that its sender follows the term it is for. *)
Lemma step_replies l c : ∃ new, cl_replies (cl_step l c) = cl_replies c ++ new ∧
  ∀ p args rep, (p, AppendEntries args, AppendReply rep) ∈ new → ar_success rep = true →
    ∃ n', cl_nodes (cl_step l c) !! p = Some n' ∧ state n' = Follower ∧ current_term n' = ae_term args.
Proof.
  destruct l; simpl; [|exists []; split; [rewrite app_nil_r|set_solver]..].
  - destruct (cl_nodes c !! to) as [n|] eqn:Hn; [|rewrite at_node_None by done; exists []; split; [by rewrite app_nil_r|set_solver]].
    rewrite (at_node_at _ _ _ _ Hn). destruct (handle_raft_rpc msg n) as [[[rep|]|e] n'] eqn:E; simpl;
      try (exists []; split; [by rewrite app_nil_r|set_solver]).
    exists [(to, msg, rep)]. split; [done|]. intros p args rep' [= -> <- <-]%list_elem_of_singleton Hs.
    exists n'. split; [apply lookup_insert_eq|]. simpl in E. unfold mbind, M_bind in E. pose proof (acknowledges args n) as Ha. unfold wp in Ha.
    destruct (handle_append_entries args n) as [[r|] n1]; [|done]. simpl in *. unfold mret, M_ret in E. simplify_eq. by eapply Ha.
  - apply at_node_replies.
  - destruct (cl_rounds c !! i) as [rd|]; [|done]. pose proof (at_node_replies (rd_node rd)
      (on_vote_reply (total_nodes (rd_round rd)) (vo_term (rd_round rd)) (rd_count rd) reply) c) as E. by destruct (at_node _ _ c).
  - pose proof (at_node_replies id (process_pre_vote_reply total probed_term votes reply) c) as E.
    destruct (at_node _ _ c). by rewrite launch_replies.
  - apply at_node_replies.
  - pose proof (at_node_replies id request_votes c) as E. destruct (at_node _ _ c). by rewrite launch_replies.
  - pose proof (at_node_replies id (enter_pre_candidate v) c) as E. by destruct (at_node _ _ c).
  - pose proof (at_node_replies id (append_args v peer) c) as E. by destruct (at_node _ _ c) as [[] ?].
  - apply at_node_replies.
  - apply at_node_replies.
  - apply at_node_replies.
  - apply at_node_replies.
  - apply at_node_replies.
  - by destruct (cl_nodes c !! id).
  - apply at_node_replies.
  - apply at_node_replies.
  - apply at_node_replies.
Qed.

(** The leader has committed an entry of the term it leads. *)
Definition own_commit (n : RaftNode) : Prop :=
  ∃ i e, log n !! i = Some e ∧ Z.of_nat i < commit_index n ∧ le_term e = current_term n.

(** Since [c] the node [p] has been seen in a term no later than [t]. *)
Definition still_in (c : Cluster) (t : Z) (p : string) : Prop :=
  ∃ c' n', rtc cluster_step c c' ∧ cl_nodes c' !! p = Some n' ∧ current_term n' <= t.

(** While a read that began at [c2] is under way, the acknowledgements [s] takes were given since it began. *)
Definition prompt (c2 : Cluster) (s : string) (l : label) (c : Cluster) : Prop :=
  match l with
  | LAppendReply peer args reply => ae_leader_id args = s → ar_success reply = true →
      (peer, AppendEntries args, AppendReply reply) ∈ drop (length (cl_replies c2)) (cl_replies c)
  | _ => True
  end.

Definition prompt_step (c2 : Cluster) (s : string) (c c' : Cluster) : Prop :=
  ∃ l, allowed l c ∧ prompt c2 s l c ∧ c' = cl_step l c.

Lemma prompt_steps c2 s c c' : rtc (prompt_step c2 s) c c' → rtc cluster_step c c'.
Proof. apply rtc_subrel. intros x y (l & Hl & _ & ->). by exists l. Qed.

Section evidence.
Context (servers : list string) (c2 : Cluster) (a2 : astate) (s : string) (n : RaftNode).
Context (Hd : NoDup servers) (H2 : Sim servers c2 a2) (Hn : cl_nodes c2 !! s = Some n) (Hs : state n = Leader).

(** The acknowledgements given since the read began came from followers of their terms. *)
Definition acked_since (c : Cluster) : Prop := ∀ p args rep,
  (p, AppendEntries args, AppendReply rep) ∈ drop (length (cl_replies c2)) (cl_replies c) → ar_success rep = true →
  ∃ c' a' n', rtc cluster_step c2 c' ∧ rtc (astep servers) a2 a' ∧ Sim servers c' a' ∧ cl_nodes c' !! p = Some n' ∧
    state n' = Follower ∧ current_term n' = ae_term args.

(** What the lease of [s] says. *)
Definition lease_ok (n' : RaftNode) : Prop :=
  same_lease n n' ∨ current_term n < current_term n' ∨ ∃ p, p ∈ servers ∧ p ≠ s ∧ still_in c2 (current_term n) p.

Lemma view_term c a p x : Sim servers c a → cl_nodes c !! p = Some x → a_term (a_nodes a !!! p) = current_term x.
Proof. intros H Hx. by rewrite (no_view _ _ _ _ (si_nodes _ _ _ H _ _ Hx)). Qed.

(** Until it sees a later term, [s] leads. *)
Lemma still_leads c a x : Sim servers c a → rtc (astep servers) a2 a → cl_nodes c !! s = Some x →
  current_term n < current_term x ∨ state x = Leader ∧ current_term x = current_term n.
Proof.
  intros H R Hx. pose proof (steps_term _ _ _ s R) as Ht. pose proof (steps_leads _ _ _ s R) as Hl.
  rewrite (no_view _ _ _ _ (si_nodes _ _ _ H2 _ _ Hn)), (no_view _ _ _ _ (si_nodes _ _ _ H _ _ Hx)) in Ht, Hl. simpl in Ht, Hl.
  rewrite Hs in Hl. destruct (Hl eq_refl) as [Hr|]; [|by left].
  destruct (decide (current_term n < current_term x)); [by left|right]. split; [by destruct (state x)|lia].
Qed.

Lemma step_acked_since l c a : rtc cluster_step c2 (cl_step l c) → rtc (astep servers) a2 a → Sim servers (cl_step l c) a →
  (length (cl_replies c2) <= length (cl_replies c))%nat → acked_since c → acked_since (cl_step l c).
Proof.
  intros R A H Hk Hc p args rep Hin Hok. destruct (step_replies l c) as (new & E & Hnew).
  rewrite E, drop_app_le in Hin by done. apply elem_of_app in Hin as [Hin|Hin]; [by eapply Hc|].
  destruct (Hnew p args rep Hin Hok) as (n' & ? & ? & ?). by exists (cl_step l c), a, n'.
Qed.

(** An acknowledgement taken meanwhile is the evidence. *)
Lemma ack_evidence c a x peer args reply : Sim servers c a → rtc (astep servers) a2 a → cl_nodes c !! s = Some x → acked_since c →
  label_ok (LAppendReply peer args reply) c → prompt c2 s (LAppendReply peer args reply) c →
  ae_leader_id args = s → ar_success reply = true →
  current_term n < current_term x ∨ ∃ p, p ∈ servers ∧ p ≠ s ∧ still_in c2 (current_term n) p.
Proof.
  intros H A Hx Hc [_ Hok] Hp El Er. destruct (still_leads c a x H A Hx) as [|[Hl Ht]]; [by left|right].
  rewrite El in Hok. specialize (Hok x Hx Er Hl).
  destruct (Hc peer args reply (Hp El Er) Er) as (c' & a' & n' & R' & A' & H' & Hn' & Hf & Et).
  exists peer. split_and!; [by eapply sim_member| |exists c', n'; split_and!; [done..|lia]].
  intros ->. destruct (still_leads c' a' n' H' A' Hn') as [?|[? _]]; [lia|congruence].
Qed.
(** One step: the acknowledgements, or something else. *)
Lemma step_lease_ok l c a a' x' : Sim servers c a → rtc (astep servers) a2 a → acked_since c → allowed l c → prompt c2 s l c →
  Sim servers (cl_step l c) a' → rtc (astep servers) a a' → (∀ x, cl_nodes c !! s = Some x → lease_ok x) →
  cl_nodes (cl_step l c) !! s = Some x' → lease_ok x'.
Proof.
  intros H A Hc Hl Hp H' A' IH Hx'.
  assert (Hx : ∃ x, cl_nodes c !! s = Some x).
  { apply elem_of_dom. rewrite (si_dom _ _ _ H), <- (si_dom _ _ _ H'). by apply elem_of_dom_2 in Hx'. }
  destruct Hx as [x Hx]. pose proof (steps_term _ _ _ s A') as Ht. rewrite (view_term c a s x H Hx), (view_term _ a' s x' H' Hx') in Ht.
  assert (Hrel : same_lease x x' ∨ ∃ peer args reply, l = LAppendReply peer args reply ∧ ae_leader_id args = s ∧ ar_success reply = true).
  { destruct (step_lease l c) as [Hr|(peer & args & reply & -> & Er)].
    - destruct (Hr s x' Hx') as (y & Hy & Hsame). simplify_eq. by left.
    - destruct (decide (ae_leader_id args = s)) as [El|Hne]; [right; by eauto 6|left]. simpl in Hx'. unfold at_node in Hx'.
      destruct (cl_nodes c !! ae_leader_id args) as [y|]; [|simpl in Hx'; by simplify_eq].
      destruct (on_append_reply peer args reply y). simpl in Hx'. rewrite lookup_insert_ne in Hx' by done. by simplify_eq. }
  destruct Hrel as [Hsame|(peer & args & reply & -> & El & Er)].
  - destruct (IH x Hx) as [E|[?|?]]; [left; by etransitivity|right; left; lia|by right; right].
  - right. destruct (ack_evidence c a x peer args reply H A Hx Hc (proj1 Hl) Hp El Er) as [?|?]; [left; lia|by right].
Qed.

Lemma evidence c : rtc (prompt_step c2 s) c2 c → ∃ a, rtc (astep servers) a2 a ∧ Sim servers c a ∧
  (length (cl_replies c2) <= length (cl_replies c))%nat ∧ acked_since c ∧ ∀ x, cl_nodes c !! s = Some x → lease_ok x.
Proof.
  revert c. refine (rtc_ind_r _ c2 _ _); [|intros c c' Hr (l & Hl & Hp & ->) IH].
  - exists a2. split_and!; [done|done|done| |intros x Hx; left; by simplify_eq].
    intros p args rep. rewrite drop_ge by done. set_solver.
  - destruct IH as (a & A & H & Hk & Hc & Hx). destruct (sim_step servers Hd l c a H Hl) as (a' & A' & H').
    exists a'. assert (A2 : rtc (astep servers) a2 a') by (by etransitivity). split_and!; [done|done| | |].
    + destruct (step_replies l c) as (new & -> & _). rewrite length_app. lia.
    + apply (step_acked_since l c a'); try done. eapply rtc_r; [by eapply prompt_steps|by exists l].
    + intros x' Hx'. by eapply (step_lease_ok l c a a').
Qed.
End evidence.

(** A leader that was there before the read committed no further than the read's index. *)
Lemma read_index_covers servers c0 c a0 a s s0 n m : NoDup servers → Sim servers c0 a0 → rtc cluster_step c0 c →
  rtc (astep servers) a0 a → Sim servers c a →
  cl_nodes c !! s = Some n → state n = Leader → own_commit n → majority servers (still_in c (current_term n)) →
  cl_nodes c0 !! s0 = Some m → state m = Leader → commit_index m <= commit_index n.
Proof.
  intros Hd H0 Hr0 HR H Hn Hs (i & e & Hi & Hic & Hte) Hq Hm Hsm.
  destruct (steps_grow _ _ _ (si_safe _ _ _ H0) HR) as [_ HG].
  destruct (leader_elected servers c0 a0 s0 m H0 Hm Hsm) as [E0 He0].
  destruct (leader_elected servers c a s n H Hn Hs) as [E He].
  assert (Ht : current_term m <= current_term n).
  { pose proof (elected_majority _ _ _ _ _ (si_safe _ _ _ H0) He0) as Hq0.
    destruct (majorities_overlap _ _ _ Hq0 Hq) as (p & Hp & c1 & n1 & Hr1 & Hn1 & Ht1).
    destruct (steps_sim servers c c1 a Hd H Hr1) as (a1 & HR1 & H1).
    pose proof (steps_term _ _ _ p HR). pose proof (steps_term _ _ _ p HR1) as Hle.
    rewrite (no_view _ _ _ _ (si_nodes _ _ _ H1 _ _ Hn1)) in Hle. simpl in Hle. lia. }
  destruct (decide (current_term m = current_term n)) as [Et|Hne].
  - apply (ex_elected _ _ (gr_extends _ _ HG)) in He0. rewrite Et, He in He0. simplify_eq.
    by eapply (commit_forward servers c0 c a0 a H0 H).
  - pose proof (decided_ext servers a0 a (gr_extends _ _ HG) _ _ _ (node_decided servers c0 a0 s0 m H0 Hm)) as D.
    pose proof (no_commit _ _ _ _ (si_nodes _ _ _ H0 _ _ Hm)).
    destruct D as [?|(t1 & k1 & Hc & Hk & Ht1 & _)]; [lia|].
    destruct (leader_log servers a s n (si_safe _ _ _ H) (si_nodes _ _ _ H _ _ Hn) Hs) as [_ Hll].
    rewrite <- Hll in Hi. assert (Hlt : t1 < current_term n) by lia.
    pose proof (earlier_chosen _ _ _ _ _ _ _ _ _ (si_safe _ _ _ H) Hc Hlt He Hi Hte). lia.
Qed.

(** The node and one peer are a majority of three. *)
Lemma pair_majority servers (P : string → Prop) s p : (length servers <= 3)%nat → s ∈ servers → p ∈ servers → p ≠ s →
  P s → P p → majority servers P.
Proof.
  intros Hl Hs Hp Hne Ps Pp. exists [s; p]. split_and!; [repeat constructor; set_solver|set_solver|simpl; lia|].
  intros q Hq. assert (Hq' : q = s ∨ q = p) by set_solver. by destruct Hq' as [-> | ->].
Qed.

(** A confirmed read had a majority in its term. *)
Lemma confirmed_majority servers c2 c3 a2 s n n3 ri out tmo wall : NoDup servers → (length servers <= 3)%nat →
  Sim servers c2 a2 → cl_nodes c2 !! s = Some n → (begin_read n).1 = Ok (Some ri, out) →
  (∀ t, last_quorum_heartbeat_at n = Some t → t < clock n) →
  rtc (prompt_step c2 s) c2 c3 → cl_nodes c3 !! s = Some n3 → confirm_read tmo wall ri n3 = true →
  (state n3 = Leader → current_term n3 = current_term n) → majority servers (still_in c2 (current_term n)).
Proof.
  intros Hd Hlen H2 Hn Hb Hold R Hn3 Hcf Hsame. destruct (begin_read_index n ri out Hb) as (Hs & _ & Ei).
  destruct (confirm_read_inv _ _ _ _ Hcf) as (Hs3 & _ & t & Et & Hle).
  destruct (evidence servers c2 a2 s n Hd H2 Hn Hs c3 R) as (a3 & _ & _ & _ & _ & Hx).
  destruct (Hx n3 Hn3) as [E|[Hlt|(p & Hp & Hne & Hin)]].
  - unfold same_lease in E. rewrite Et in E. specialize (Hold t (eq_sym E)). lia.
  - specialize (Hsame Hs3). lia.
  - eapply (pair_majority servers _ s p); [done|by eapply sim_member|done|done| |done]. by exists c2, n.
Qed.

(** C7: confirmed reads are linearizable, in a cluster of at most three nodes. A leader that has committed an
    entry of its term begins a read (its last acknowledgement being older than that), and confirms it later; meanwhile it takes
    no acknowledgement that was given before the read began, and if it leads when it confirms, then in the term in which it began.
    Then the state machine the value is read from is the reference model run over a log that
    starts with everything any leader had committed before the read began. The nodes start with empty logs, and with empty state
    machines on disks that do not fail, with table numbers for the cost [B] of what is applied; no node restarts; and the execution meets the
    covered conditions (membership is fixed; a leader takes acknowledgements of its present leadership only; no refusal moves a
    node back to an earlier term; who becomes leader has an empty match index; [sync_logs] sends while its node leads, from what it
    read in that leadership; transaction votes are asked after the coordinator's waits; terms fit 64 bits and logs are shorter than
    2^61). The provisos on the read are not checked by the code: [new_leader_reads_stale], [late_ack_confirms_stale_read]. *)
Theorem reads_are_linearizable servers B c0 c1 c2 c3 c4 s s1 m n n3 n4 ri out tmo wall :
  fresh_cluster servers c0 → (length servers <= 3)%nat →
  (∀ s n, cl_nodes c0 !! s = Some n → last_applied n = 0 ∧ refines B (∅, ∅) (state_machine n)) →
  rtc cluster_step c0 c1 → cl_nodes c1 !! s1 = Some m → state m = Leader →
  rtc cluster_step c1 c2 → cl_nodes c2 !! s = Some n → (begin_read n).1 = Ok (Some ri, out) →
  own_commit n → (∀ t, last_quorum_heartbeat_at n = Some t → t < clock n) →
  rtc (prompt_step c2 s) c2 c3 → cl_nodes c3 !! s = Some n3 → confirm_read tmo wall ri n3 = true →
  (state n3 = Leader → current_term n3 = current_term n) →
  rtc cluster_step c3 c4 → cl_nodes c4 !! s = Some n4 → total_cost (∅, ∅) (slice 0 (last_applied n4) (log n4)) <= B →
  agrees (apply_all (slice 0 (last_applied n4) (log n4)) (∅, ∅)) (state_machine n4) ∧
  commit_index m <= last_applied n4 ∧
  slice 0 (commit_index m) (log n4) = slice 0 (commit_index m) (log m).
Proof.
  intros Hf Hlen Hm0 R1 Hm Hsm R2 Hn Hb Hown Hold P3 Hn3 Hcf Hterm R4 Hn4 Hcost. pose proof (prompt_steps _ _ _ _ P3) as R3.
  assert (Hd : NoDup servers) by apply Hf. destruct (fresh_sim servers c0 Hf) as [_ S0].
  destruct (steps_sim servers c0 c1 _ Hd S0 R1) as (a1 & _ & S1). destruct (steps_sim servers c1 c2 a1 Hd S1 R2) as (a2 & A2 & S2).
  destruct (steps_sim servers c2 c4 a2 Hd S2 ltac:(by etransitivity)) as (a4 & A4 & S4).
  destruct (steps_sim servers c2 c3 a2 Hd S2 R3) as (a3 & _ & S3).
  pose proof (confirmed_majority servers c2 c3 a2 s n n3 ri out tmo wall Hd Hlen S2 Hn Hb Hold P3 Hn3 Hcf Hterm) as Hq.
  destruct (begin_read_index n ri out Hb) as (Hs & Ei & _). apply confirm_read_inv in Hcf as (_ & Hcf & _). rewrite Ei in Hcf.
  pose proof (read_index_covers servers c1 c2 a1 a2 s s1 n m Hd S1 R2 A2 S2 Hn Hs Hown Hq Hm Hsm) as Hle.
  pose proof (steps_last servers c3 c4 a3 s n3 n4 Hd S3 R4 Hn3 Hn4) as Hla.
  assert (Ha0 : cluster_applied B (∅, ∅) c0).
  { intros p x Hx. destruct (Hm0 p x Hx) as [El HR]. pose proof (no_commit _ _ _ _ (si_nodes _ _ _ S0 _ _ Hx)).
    split; rewrite El; [lia|]. rewrite slice_nil by done. simpl. by rewrite Z.sub_0_r. }
  pose proof (steps_applied servers B _ c0 c4 _ Hd S0 Ha0 ltac:(repeat (etransitivity; [eassumption|]); done) s n4 Hn4) as [Hb4 HR4].
  split_and!; [by apply (rf_agrees _ _ _ (HR4 Hcost))|lia|].
  assert (A : rtc (astep servers) a1 a4) by (by etransitivity).
  destruct (steps_grow _ _ _ (si_safe _ _ _ S1) A) as [_ HG].
  pose proof (commit_agree _ _ _ _ _ S1 S4 s1 s m n4 HG Hm Hn4) as E. symmetry.
  eapply slice_take; [exact E|]. lia.
Qed.
End reads.

(** ** A read that sees what was committed *)

Import Codec.

#[local] Instance prompt_dec c2 s l c : Decision (prompt c2 s l c).
Proof. destruct l; unfold prompt; apply _. Defined.

Fixpoint prompt_run (c2 : Cluster) (s : string) (ls : list label) (c : Cluster) : option Cluster :=
  match ls with
  | [] => Some c
  | l :: ls' => if decide (allowed l c ∧ prompt c2 s l c) then prompt_run c2 s ls' (cl_step l c) else None
  end.

Lemma prompt_run_steps c2 s ls c c' : prompt_run c2 s ls c = Some c' → rtc (prompt_step c2 s) c c'.
Proof.
  revert c. induction ls as [|l ls IH]; simpl; intros c; [by intros [= <-]|].
  case_decide as Hd; [|done]. destruct Hd. intros E. eapply rtc_l; [by exists l|by apply IH].
Qed.

(** [b], which has committed an entry of its term, reads at time 5; [c] answers its heartbeat. *)
Definition idle_beat : AppendEntriesArgs := mkAppendEntries 2 "b" 2 2 [] 2.
Definition heard : list label :=
  [LAppend "b" (mkSyncView 2 "b" 2 ["a"; "c"] 2) "c"; LDeliver "c" (AppendEntries idle_beat);
   LAppendReply "c" idle_beat (mkAppendReply 2 true)].
Definition reading_b : Cluster := default committed_xy (run [LClock "b" 5] committed_xy).
Definition heard_b : Cluster := default reading_b (prompt_run reading_b "b" heard reading_b).

Lemma reading_runs : rtc cluster_step committed_xy reading_b.
Proof. apply run_steps with [LClock "b" 5]. unfold reading_b. destruct (run _ _) eqn:E; [done|]. vm_compute in E. discriminate. Qed.

Lemma heard_runs : rtc (prompt_step reading_b "b") reading_b heard_b.
Proof.
  apply prompt_run_steps with heard. unfold heard_b. destruct (prompt_run _ _ _ _) eqn:E; [done|]. vm_compute in E. discriminate.
Qed.

Lemma node_at_reading : cl_nodes reading_b !! "b" = Some (node_at "b" reading_b).
Proof. unfold node_at. destruct (cl_nodes reading_b !! "b") eqn:E; [done|]. vm_compute in E. discriminate. Qed.

Lemma node_at_heard : cl_nodes heard_b !! "b" = Some (node_at "b" heard_b).
Proof. unfold node_at. destruct (cl_nodes heard_b !! "b") eqn:E; [done|]. vm_compute in E. discriminate. Qed.

Lemma reads_are_linearizable_witness :
  commit_index (node_at "a" committed_x) = 1 ∧ commit_index (node_at "a" committed_x) <= last_applied (node_at "b" heard_b).
Proof.
  split; [vm_compute; reflexivity|].
  destruct (reads_are_linearizable trio 100 three_fresh committed_x reading_b heard_b heard_b "b" "a"
    (node_at "a" committed_x) (node_at "b" reading_b) (node_at "b" heard_b) (node_at "b" heard_b) (mkReadIndex 2 5)
    [("a", AppendEntries (mkAppendEntries 2 "b" 1 1 [entry_y] 2)); ("c", AppendEntries idle_beat)] max_election_timeout_ms 5
    three_fresh_ok ltac:(simpl; lia) three_fresh_machines first_commit_runs node_at_x) as (_ & H & _); try exact H.
  - vm_compute; reflexivity.
  - etransitivity; [apply second_commit_runs|apply reading_runs].
  - apply node_at_reading.
  - vm_compute. reflexivity.
  - exists 1%nat, entry_y. vm_compute. split; [reflexivity|split; reflexivity].
  - assert (E : last_quorum_heartbeat_at (node_at "b" reading_b) = Some 0) by (vm_compute; reflexivity).
    intros t Ht. rewrite E in Ht. injection Ht as <-. vm_compute. reflexivity.
  - apply heard_runs.
  - apply node_at_heard.
  - vm_compute. reflexivity.
  - intros _. vm_compute. reflexivity.
  - reflexivity.
  - apply node_at_heard.
  - vm_compute. congruence.
Defined.

(** ** Reads that do not *)

(** [a] has committed the write of [x], and [b] has a copy. [b] is elected in term 2 and answers a read before it has
    committed anything itself: its commit index is still 0. [c] hears it, twice, as the copy has to be sent. *)
Definition ask_b2 : RequestVoteArgs := mkRequestVote 2 "b" 1 1.
Definition probe_c : AppendEntriesArgs := mkAppendEntries 2 "b" 1 1 [] 0.
Definition copy_c : AppendEntriesArgs := mkAppendEntries 2 "b" 0 0 [entry_x] 0.
Definition elect_b : list label :=
  [LPromote "b"; LRequestVotes "b"; LDeliver "c" (RequestVote ask_b2); LVoteReply 1 "c" (yes 2)].
Definition hear_b : list label :=
  [LAppend "b" (mkSyncView 2 "b" 0 ["a"; "c"] 1) "c"; LDeliver "c" (AppendEntries probe_c);
   LAppendReply "c" probe_c (mkAppendReply 2 false);
   LAppend "b" (mkSyncView 2 "b" 0 ["a"; "c"] 1) "c"; LDeliver "c" (AppendEntries copy_c);
   LAppendReply "c" copy_c (mkAppendReply 2 true)].

Definition elected_b : Cluster := default committed_x (run elect_b committed_x).
Definition confirmed_b : Cluster := default elected_b (run hear_b elected_b).

(** A new leader confirms a read that misses a committed write. *)
Lemma new_leader_reads_stale :
  rtc cluster_step three_fresh committed_x ∧ rtc cluster_step committed_x elected_b ∧ rtc cluster_step elected_b confirmed_b ∧
  commit_index (node_at "a" committed_x) = 1 ∧ log (node_at "a" committed_x) = [entry_x] ∧
  fst <$> ok_of (begin_read (node_at "b" elected_b)).1 = Some (Some (mkReadIndex 0 0)) ∧
  confirm_read max_election_timeout_ms 0 (mkReadIndex 0 0) (node_at "b" confirmed_b) = true ∧
  (get "x" (state_machine (node_at "b" confirmed_b))).1 = Ok None.
Proof.
  split; [apply first_commit_runs|]. split; [|split; [|split_and!; vm_compute; reflexivity]].
  - apply run_steps with elect_b. unfold elected_b. destruct (run _ _) eqn:E; [done|]. vm_compute in E. discriminate.
  - apply run_steps with hear_b. unfold confirmed_b. destruct (run _ _) eqn:E; [done|]. vm_compute in E. discriminate.
Qed.

(** [b] leads term 2 and has committed the write of [y]. [a], which still leads term 1, reads, and takes the answer that [b]
    gave to a heartbeat before it was elected: the lease is stamped when an answer is taken, not when it was given. *)
Definition reading_a : Cluster := default committed_xy (run [LClock "a" 5] committed_xy).
Definition confirmed_a : Cluster := default reading_a (run [LAppendReply "b" heartbeat (mkAppendReply 1 true)] reading_a).

(** A leader that has been replaced confirms a read that misses a committed write. *)
Lemma late_ack_confirms_stale_read :
  rtc cluster_step committed_xy reading_a ∧ rtc cluster_step reading_a confirmed_a ∧
  commit_index (node_at "b" committed_xy) = 2 ∧ log (node_at "b" committed_xy) = [entry_x; entry_y] ∧
  last_quorum_heartbeat_at (node_at "a" reading_a) = Some 0 ∧ current_term (node_at "a" confirmed_a) = 1 ∧
  fst <$> ok_of (begin_read (node_at "a" reading_a)).1 = Some (Some (mkReadIndex 1 5)) ∧
  confirm_read max_election_timeout_ms 5 (mkReadIndex 1 5) (node_at "a" confirmed_a) = true ∧
  (get "y" (state_machine (node_at "a" confirmed_a))).1 = Ok None.
Proof.
  split; [|split; [|split_and!; try (vm_compute; reflexivity)]].
  - apply run_steps with [LClock "a" 5]. unfold reading_a. destruct (run _ _) eqn:E; [done|]. vm_compute in E. discriminate.
  - apply run_steps with [LAppendReply "b" heartbeat (mkAppendReply 1 true)]. unfold confirmed_a.
    destruct (run _ _) eqn:E; [done|]. vm_compute in E. discriminate.
Qed.
