(* ===== verification/Config.v ===== *)
(** * Configuration ([src/rust/oxide-kv/src/config.rs], [src/rust/oxide-kv/src/main.rs])

    The settings of a node: the command line, the global cell, the files a node uses and the numbers an
    environment variable can override. Paths are the strings [Path] makes of them on Unix. *)

From stdpp Require Import prelude strings pretty list.
From Stdlib Require Import Ascii.
From S2P Require Import Prelude Timer.
#[local] Open Scope Z_scope.

(** ** The record and the global cell *)

Record Config := mkConfig {
  cf_node_id : string;
  cf_listen_addr : string;
  cf_client_addr : string;
  cf_peers : list string;
  cf_data_dir : option string;
}.

(** [GLOBAL_CONFIG]: a second [init] and a [global] before the first one panic. *)
Definition init (config : Config) : M (option Config) unit := λ cell,
  match cell with
  | None => (Ok tt, Some config)
  | Some _ => (Err Panicked, cell)
  end.

Definition global : M (option Config) Config := λ cell,
  match cell with
  | Some c => (Ok c, cell)
  | None => (Err Panicked, cell)
  end.

(** ** The command line *)

Record Args := mkArgs {
  ar_addr : string;
  ar_client_addr : string;
  ar_peers : list string;
  ar_data_dir : option string;
  ar_metrics_addr : string;
}.

(** The configuration [main] makes of its arguments: the address is the node's name. *)
Definition config_of_args (a : Args) : Config :=
  mkConfig (ar_addr a) (ar_addr a) (ar_client_addr a) (ar_peers a) (ar_data_dir a).

Definition serves_metrics (a : Args) : bool := negb (String.eqb (ar_metrics_addr a) "disabled").

(** ** Paths *)

Fixpoint ends_with_slash (s : string) : bool :=
  match s with
  | EmptyString => false
  | String c EmptyString => Ascii.eqb c "/"
  | String _ s' => ends_with_slash s'
  end.

(** [Path::join] with a relative name. *)
Definition path_join (base name : string) : string :=
  match base with
  | EmptyString => name
  | _ => if ends_with_slash base then base +:+ name else base +:+ "/" +:+ name
  end.

(** [get_base_path]: [cwd] is [env::current_dir], [created] whether the directory exists or can be made. *)
Definition get_base_path (cwd : option string) (created : string → bool) (c : Config) : result string :=
  let path := match cf_data_dir c with
              | Some d => d
              | None => path_join (default "." cwd) "data"
              end in
  if created path then Ok path else Err Panicked.

Definition meta_name (c : Config) : string := "node_" +:+ cf_node_id c +:+ "_meta.json".
Definition wal_name (c : Config) : string := "node_" +:+ cf_node_id c +:+ ".wal".
Definition snapshot_name (c : Config) : string := "node_" +:+ cf_node_id c +:+ "_snapshot.json".

Definition in_base (cwd : option string) (created : string → bool) (name : string) (c : Config) : result string :=
  match get_base_path cwd created c with
  | Ok base => Ok (path_join base name)
  | Err e => Err e
  end.

Definition meta_path (cwd : option string) (created : string → bool) (c : Config) : result string :=
  in_base cwd created (meta_name c) c.
Definition wal_path (cwd : option string) (created : string → bool) (c : Config) : result string :=
  in_base cwd created (wal_name c) c.
Definition snapshot_path (cwd : option string) (created : string → bool) (c : Config) : result string :=
  in_base cwd created (snapshot_name c) c.

(** Where the state machine keeps its log and its tables ([StateMachine::open] under the base path of [main]). *)
Definition memtable_path (base : string) : string := path_join base "memtable.wal".
Definition sst_dir (base : string) : string := path_join base "sst".

(** The three files of the Raft state of a node. *)
Inductive RaftFile := MetaFile | WalFile | SnapshotFile.

Definition file_path (k : RaftFile) : option string → (string → bool) → Config → result string :=
  match k with
  | MetaFile => meta_path
  | WalFile => wal_path
  | SnapshotFile => snapshot_path
  end.

(** ** Environment overrides *)

Definition U64_BOUND : Z := 2 ^ 64.

Definition digit_value (c : ascii) : option Z :=
  let n := Z.of_N (N_of_ascii c) in
  if (48 <=? n) && (n <=? 57) then Some (n - 48) else None.

(** The digits of [str::parse::<u64>], with its overflow checks. *)
Fixpoint parse_u64_digits (acc : Z) (s : string) : option Z :=
  match s with
  | EmptyString => Some acc
  | String c s' =>
      match digit_value c with
      | None => None
      | Some v =>
          let acc' := acc * 10 + v in
          if acc' <? U64_BOUND then parse_u64_digits acc' s' else None
      end
  end.

(** [str::parse::<u64>]: one optional plus sign, then at least one digit. *)
Definition parse_u64 (s : string) : option Z :=
  match s with
  | EmptyString => None
  | String "+" EmptyString => None
  | String "+" s' => parse_u64_digits 0 s'
  | _ => parse_u64_digits 0 s
  end.

(** [env::var(..).ok().and_then(|v| v.parse::<u64>().ok())] *)
Definition env_u64 (var : option string) : option Z := var ≫= parse_u64.

(** ** Proofs *)

Lemma append_length_str a b : String.length (a +:+ b) = (String.length a + String.length b)%nat.
Proof. induction a as [|c a IH]; [done|]. simpl. by f_equal. Qed.

Lemma append_right_inj a b s : a +:+ s = b +:+ s → a = b.
Proof.
  intros H. assert (Hl : String.length a = String.length b).
  { apply (f_equal String.length) in H. rewrite !append_length_str in H. lia. }
  revert b H Hl. induction a as [|c a IH]; intros [|c' b] H Hl; simplify_eq/=; [done|].
  f_equal. by apply IH; [|lia].
Qed.

Fixpoint last_char (s : string) : option ascii :=
  match s with
  | EmptyString => None
  | String c EmptyString => Some c
  | String _ s' => last_char s'
  end.

Lemma last_char_append a c s : last_char (a +:+ String c s) = last_char (String c s).
Proof.
  induction a as [|c' a IH]; [done|]. rewrite <-IH.
  destruct a; done.
Qed.

Lemma append_assoc_str a b s : a +:+ (b +:+ s) = (a +:+ b) +:+ s.
Proof. induction a as [|c a IH]; [done|]. exact (f_equal (String c) IH). Qed.

Definition raft_suffix (k : RaftFile) : string :=
  match k with MetaFile => "_meta.json" | WalFile => ".wal" | SnapshotFile => "_snapshot.json" end.

Lemma suffix_inj k k' a b : a +:+ raft_suffix k = b +:+ raft_suffix k' → k = k' ∧ a = b.
Proof.
  assert (Hj : ∀ x y, x +:+ "_meta.json" ≠ y +:+ "_snapshot.json").
  { intros x y H. change "_meta.json" with ("_meta" +:+ ".json") in H.
    change "_snapshot.json" with ("_snapshot" +:+ ".json") in H. rewrite !append_assoc_str in H.
    apply append_right_inj, (f_equal last_char) in H. by rewrite !last_char_append in H. }
  destruct k, k'; simpl; intros H;
    try (by apply append_right_inj in H); try (by apply Hj in H); try (by symmetry in H; apply Hj in H);
    apply (f_equal last_char) in H; by rewrite !last_char_append in H.
Qed.

Lemma path_join_inj base a b : path_join base a = path_join base b → a = b.
Proof.
  destruct base as [|c base]; [done|]. unfold path_join.
  destruct (ends_with_slash _); intros H; by simplify_eq.
Qed.

Lemma file_path_is k cwd created c :
  file_path k cwd created c = in_base cwd created ("node_" +:+ (cf_node_id c +:+ raft_suffix k)) c.
Proof. by destruct k. Qed.

Lemma get_base_path_dir cwd created c c' : cf_data_dir c = cf_data_dir c' →
  get_base_path cwd created c = get_base_path cwd created c'.
Proof. unfold get_base_path. by intros ->. Qed.

(** Nodes that keep their data in one directory never share a file of their Raft state: if two
    of the paths [meta_path], [wal_path] and [snapshot_path] of two nodes with the same data directory
    are the same, they are the same kind of file of the same node. *)
Theorem raft_files_are_private k k' cwd created c c' p :
  cf_data_dir c = cf_data_dir c' →
  file_path k cwd created c = Ok p → file_path k' cwd created c' = Ok p →
  k = k' ∧ cf_node_id c = cf_node_id c'.
Proof.
  intros Hd. rewrite !file_path_is. unfold in_base.
  rewrite (get_base_path_dir _ _ c c' Hd).
  destruct (get_base_path cwd created c') as [base|e]; intros H1 H2; [|done].
  assert (H : path_join base ("node_" +:+ (cf_node_id c +:+ raft_suffix k)) =
              path_join base ("node_" +:+ (cf_node_id c' +:+ raft_suffix k'))) by congruence.
  by apply path_join_inj, (inj (String.append "node_")), suffix_inj in H.
Qed.

Definition hand_args (addr : string) : Args := mkArgs addr "127.0.0.1:9101" [] None "127.0.0.1:9100".

Lemma raft_files_are_private_witness :
  MetaFile = MetaFile ∧ cf_node_id (config_of_args (hand_args "127.0.0.1:9001")) = "127.0.0.1:9001".
Proof.
  apply (raft_files_are_private MetaFile MetaFile (Some "/srv") (λ _, true)
           (config_of_args (hand_args "127.0.0.1:9001"))
           (mkConfig "127.0.0.1:9001" "127.0.0.1:9001" "x" [] None)
           "/srv/data/node_127.0.0.1:9001_meta.json"); vm_compute; reflexivity.
Defined.

(** The files of the state machine carry no node id: two nodes started from one directory without a data
    directory, as the guide starts three of them by hand, open the same log and the same tables. *)
Lemma state_machine_files_are_shared cwd created c c' base :
  cf_data_dir c = None → cf_data_dir c' = None → get_base_path cwd created c = Ok base →
  ∃ base', get_base_path cwd created c' = Ok base' ∧
    memtable_path base = memtable_path base' ∧ sst_dir base = sst_dir base'.
Proof.
  intros H1 H2 Hb. exists base. by rewrite <-(get_base_path_dir cwd created c c') by congruence.
Qed.

(** The cell is written once: whatever is initialised first is what every reader gets. *)
Lemma global_after_init c : (init c None).1 = Ok tt ∧ (global (init c None).2).1 = Ok c.
Proof. done. Qed.

Lemma digit_of_pretty x : (x < 10)%N → digit_value (pretty_N_char x) = Some (Z.of_N x).
Proof.
  intros H. assert (x = 0 ∨ x = 1 ∨ x = 2 ∨ x = 3 ∨ x = 4 ∨ x = 5 ∨ x = 6 ∨ x = 7 ∨ x = 8 ∨ x = 9)%N by lia.
  by repeat (destruct_or?; subst; [reflexivity|..]); subst.
Qed.

Lemma parse_pretty_go x s : Z.of_N x < U64_BOUND →
  parse_u64_digits 0 (pretty_N_go x s) = parse_u64_digits (Z.of_N x) s.
Proof.
  revert s. induction x as [x IH] using (well_founded_ind N.lt_wf_0). intros s Hx.
  destruct (decide (x = 0%N)) as [->|Hne]; [done|].
  rewrite pretty_N_go_step by lia.
  pose proof (N.div_mod x 10 ltac:(lia)) as Hdm. pose proof (N.mod_lt x 10 ltac:(lia)).
  assert (x / 10 < x)%N by (apply N.div_lt; lia).
  rewrite IH; [|done|lia]. cbn [parse_u64_digits]. rewrite digit_of_pretty by done.
  replace (Z.of_N (x / 10) * 10 + Z.of_N (x mod 10)) with (Z.of_N x) by lia.
  by rewrite (proj2 (Z.ltb_lt _ _) Hx).
Qed.

Lemma parse_plain c s : digit_value c ≠ None → parse_u64 (String c s) = parse_u64_digits 0 (String c s).
Proof. destruct c as [[] [] [] [] [] [] [] []]; simpl; done. Qed.

Lemma digits_start acc s : parse_u64_digits acc s ≠ None → s = EmptyString ∨
  ∃ c s', s = String c s' ∧ digit_value c ≠ None.
Proof. destruct s as [|c s]; simpl; [by left|]. intros H. right. exists c, s. by destruct (digit_value c). Qed.

Lemma parse_u64_pretty (n : N) : Z.of_N n < U64_BOUND → parse_u64 (pretty n) = Some (Z.of_N n).
Proof.
  intros Hn. unfold pretty, pretty_N. destruct (decide (n = 0%N)) as [->|Hne]; [done|].
  pose proof (parse_pretty_go n EmptyString Hn) as Hp.
  destruct (digits_start 0 (pretty_N_go n EmptyString)) as [He|(c & s & E & Hc)].
  - by rewrite Hp.
  - rewrite He in Hp. simpl in Hp. simplify_eq. lia.
  - rewrite E in Hp |- *. by rewrite parse_plain.
Qed.

(** A number written into the environment is the setting the node runs with; anything else leaves the default. *)
Lemma overrides_take_effect (n : N) : Z.of_N n < U64_BOUND →
  snapshot_threshold_bytes (env_u64 (Some (pretty n))) = Z.of_N n ∧
  tx_timeout_ms (env_u64 (Some (pretty n))) = Z.of_N n ∧
  tx_timeout_sweep_interval_ms (env_u64 (Some (pretty n))) = Z.of_N n.
Proof. intros Hn. cbn [env_u64 mbind option_bind]. by rewrite (parse_u64_pretty n Hn). Qed.

Lemma bad_overrides_are_ignored :
  map env_u64 [None; Some EmptyString; Some "+"; Some "-1"; Some "1 "; Some "18446744073709551616"] =
    [None; None; None; None; None; None] ∧
  map env_u64 [Some "+7"; Some "007"; Some "18446744073709551615"] =
    [Some 7; Some 7; Some 18446744073709551615].
Proof. vm_compute. done. Qed.
