(* ===== verification/Main.v ===== *)
(** * The server process ([src/rust/oxide-kv/src/main.rs])

    The steps of [main] in their order: the settings, recovery, the metrics, the two listeners and the tasks
    between them, then the loop that accepts clients. The operating system decides which addresses can be bound, given those the
    process already listens on, and which directories can be made; what the directories hold are functions of their paths. The
    task of the metrics server binds its address when it first runs, which may be before or after [main] binds the
    address for clients. *)

From stdpp Require Import prelude gmap strings sorting countable pretty list.
From S2P Require Import Prelude Serde Protocol StateMachine StateMachineProps Recovery Storage StorageProps Rpc Node NodeEvents.
From S2P Require Import ReferenceModel Refinement NodeReplay Instances Samples.
From S2P Require Import Metrics StopLoops Timer Config.
#[local] Open Scope Z_scope.

(** ** The process *)

(** The tasks [main] spawns. *)
Inductive Service :=
  | RaftListener (addr : string)
  | ElectionTimer
  | HeartbeatLoop
  | TxTimeoutLoop
  | MetricsServer (addr : string)
  | CtrlC.

Record Process := mkProcess {
  pr_cell : option Config;       (** [GLOBAL_CONFIG] *)
  pr_node : option Metered;
  pr_services : list Service;    (** the tasks spawned *)
  pr_bound : list string;        (** the addresses the process listens on *)
}.

Definition launched : Process := mkProcess None None [] [].

Definition with_cell (c : option Config) (p : Process) : Process := mkProcess c (pr_node p) (pr_services p) (pr_bound p).

(** [Config::init] and [Config::global] on the process's cell. *)
Definition on_cell {A} (m : M (option Config) A) : M Process A := zoom pr_cell with_cell m.

Definition set_node (x : Metered) : M Process unit :=
  modify (λ p, mkProcess (pr_cell p) (Some x) (pr_services p) (pr_bound p)).
Definition spawn (s : Service) : M Process unit :=
  modify (λ p, mkProcess (pr_cell p) (pr_node p) (pr_services p ++ [s]) (pr_bound p)).

Definition lift {A} (r : result A) : M Process A := λ p, (r, p).

(** 4 MiB *)
Definition main_sm_config : StateMachineConfig := mkSMConfig (4 * 1024 * 1024).

Section main.
Context {JW : Json WalOp} {JE : Json (list SSTEntry)} {JM : Json SSTableMeta}.
Context {BL : Bincode LogEntry} {JV : Json Value} {JS : Json Snapshot}.

(** The working directory, which directories exist or can be made, whether a process that listens on some addresses can bind
    another, what a state machine's
    directory and the files of a Raft storage hold, [fs::metadata] of a snapshot, and the clock. *)
Context (cwd : option string) (created : string → bool) (can_bind : list string → string → bool).
Context (files : string → Host) (disk : string → string → string → Disk).
Context (stat : Disk → option (Z * option Z)) (now : Z).

(** [TcpListener::bind(..).await?]; the listener lives as long as the process. *)
Definition bind (addr : string) : M Process unit := λ p,
  if can_bind (pr_bound p) addr
  then (Ok tt, mkProcess (pr_cell p) (pr_node p) (pr_services p) (pr_bound p ++ [addr]))
  else (Err IoFailed, p).

(** [RaftStorage::new] *)
Definition raft_storage_new : M Process Disk :=
  c ← on_cell global; w ← lift (wal_path cwd created c);
  c ← on_cell global; m ← lift (meta_path cwd created c);
  c ← on_cell global; s ← lift (snapshot_path cwd created c);
  mret (disk w m s).

(** Steps 1 to 5b: the node is recovered, and has its metrics. *)
Definition recover (a : Args) : M Process unit :=
  on_cell (init (config_of_args a)) ;;
  c ← on_cell global;
  base ← lift (get_base_path cwd created c);
  storage ← raft_storage_new;
  let '(r, n) := boot main_sm_config (cf_listen_addr c) (cf_peers c) (files base) storage now in
  _ ← lift r;
  let '(r, x) := start_metrics stat (ar_peers a) n in
  _ ← lift r;
  set_node x.

(** The first step of [run_metrics_server], in its own task: an error of [bind] ends the task, and is logged. *)
Definition metrics_task (a : Args) : M Process unit :=
  if serves_metrics a then ignore (bind (ar_metrics_addr a)) else mret tt.

(** Steps 6 to 10: the listeners and the tasks. [early]: the task of the metrics server gets to run before the last step,
    otherwise after it. *)
Definition serve_all (early : bool) (a : Args) : M Process unit :=
  c ← on_cell global;
  bind (cf_listen_addr c) ;;
  spawn (RaftListener (cf_listen_addr c)) ;;
  spawn ElectionTimer ;;
  spawn HeartbeatLoop ;;
  spawn TxTimeoutLoop ;;
  (if serves_metrics a then spawn (MetricsServer (ar_metrics_addr a)) else mret tt) ;;
  spawn CtrlC ;;
  (if early then metrics_task a else mret tt) ;;
  bind (cf_client_addr c) ;;
  (if early then mret tt else metrics_task a).

Definition main (early : bool) (a : Args) : M Process unit := recover a ;; serve_all early a.
End main.

(** Step 11, [while let Ok((stream, _)) = client_listener.accept().await]: the connections handed to
    [handle_client_request], and whether [main] is still accepting. *)
Fixpoint accept_clients {C} (accepts : list (C + string)) : list C * bool :=
  match accepts with
  | [] => ([], true)
  | inl c :: rest => let '(cs, b) := accept_clients rest in (c :: cs, b)
  | inr _ :: _ => ([], false)
  end.

(** ** Starting *)

Lemma registry_builds ps : ∃ g, with_peers_m ps = Some g.
Proof.
  unfold with_peers_m. replace (foldl _ _ _) with (Some metric_names) by (vm_compute; reflexivity). by eexists.
Qed.

Section facts.
Context {JW : Json WalOp} {LW : JsonLaws WalOp}.
Context {JE : Json (list SSTEntry)} {LE : JsonLaws (list SSTEntry)}.
Context {JM : Json SSTableMeta} {LM : JsonLaws SSTableMeta}.
Context {BL : Bincode LogEntry} {JV : Json Value} {JS : Json Snapshot}.
Context (cwd : option string) (created : string → bool) (can_bind : list string → string → bool).
Context (files : string → Host) (disk : string → string → string → Disk).
Context (stat : Disk → option (Z * option Z)) (now : Z).

(** The addresses that stand for one port of one interface, which a process that listens there cannot bind again. (A name
    may resolve to several interfaces, and port 0 stands for any free port.) *)
Context (exclusive : string → bool).
Context (in_use : ∀ held addr, exclusive addr = true → can_bind held addr = true → addr ∉ held).

(** The directory of the node's data, and its Raft files. *)
Definition base_of (a : Args) : string :=
  match ar_data_dir a with Some d => d | None => path_join (default "." cwd) "data" end.

Definition file_of (name : Config → string) (a : Args) : string :=
  path_join (base_of a) (name (config_of_args a)).

Definition disk_of (a : Args) : Disk := disk (file_of wal_name a) (file_of meta_name a) (file_of snapshot_name a).

Definition recovered (a : Args) : result unit * RaftNode :=
  boot main_sm_config (ar_addr a) (ar_peers a) (files (base_of a)) (disk_of a) now.

#[local] Abbreviation run_main early a := (main cwd created can_bind files disk stat now early a launched).

Lemma base_path_is a : get_base_path cwd created (config_of_args a) =
  if created (base_of a) then Ok (base_of a) else Err Panicked.
Proof. unfold get_base_path, base_of. simpl. by destruct (ar_data_dir a). Qed.

Lemma start_metrics_ok ps n : ∃ g, start_metrics stat ps n = (Ok tt, mkMetered n (Some g)) ∧ exported n g.
Proof.
  destruct (registry_builds ps) as [g Hg]. unfold start_metrics. rewrite Hg. eexists. split; [reflexivity|].
  by split; simpl; destruct (state n).
Qed.

Lemma recover_is a : recover cwd created files disk stat now a launched =
  if created (base_of a) then
    match recovered a with
    | (Ok _, n) =>
        (Ok tt, mkProcess (Some (config_of_args a)) (Some (start_metrics stat (ar_peers a) n).2) [] [])
    | (Err e, _) => (Err e, mkProcess (Some (config_of_args a)) None [] [])
    end
  else (Err Panicked, mkProcess (Some (config_of_args a)) None [] []).
Proof.
  unfold recover, raft_storage_new, wal_path, meta_path, snapshot_path, in_base, recovered, disk_of, file_of, on_cell, zoom, lift.
  cbv beta iota zeta delta [mbind M_bind init global launched pr_cell with_cell pr_node pr_services pr_bound].
  rewrite base_path_is. destruct (created (base_of a)); [|done]. cbv beta iota delta [mret M_ret].
  change (cf_listen_addr (config_of_args a)) with (ar_addr a). change (cf_peers (config_of_args a)) with (ar_peers a).
  destruct (boot _ _ _ _ _ _) as [[[]|e] n]; [|done].
  destruct (start_metrics_ok (ar_peers a) n) as (g & E & _). by rewrite E.
Qed.

(** *** Recovery *)

(** Replaying a log over what a prefix of it left behind. *)
Lemma replay_recovers n pre post : le_command <$> log n = pre ++ post →
  refines (total_cost ((apply_all pre (∅, ∅)).1, ∅) (pre ++ post)) ((apply_all pre (∅, ∅)).1, ∅) (state_machine n) →
  wp replay_logs (λ r n', r = Ok tt ∧ replay_frame n n' ∧ last_applied n' = log_len n ∧
    agrees (apply_all (pre ++ post) (∅, ∅)) (state_machine n')) n.
Proof.
  intros El HR. unfold replay_logs. do 3 wp_step. eapply wp_mono;
    [apply (replay_entries_refines (log n) n ((apply_all pre (∅, ∅)).1, ∅) 0); [lia|by rewrite El, Z.add_0_r]|].
  intros r1 n1 (-> & F & HR1). wp_step. rewrite El, apply_all_again in HR1. pose proof F as (Fl & _).
  split_and!; [done|done|unfold log_len; simpl; by rewrite Fl|apply HR1].
Qed.

(** What [boot] makes of the files of a state machine and of a Raft storage without a snapshot. *)
Lemma boot_recovers config addr ps s d pre post : history s → d_ok d → stored_snapshot d = None →
  le_command <$> stored_log d = pre ++ post → contents s = (apply_all pre (∅, ∅)).1 →
  (∀ s', (sm_open config (host s)).1 = Ok s' → room (total_cost (contents s, ∅) (pre ++ post)) s') →
  ∃ n, boot config addr ps (host s) d now = (Ok tt, n) ∧ (current_term n, vote_for n) = stored_meta d ∧
    log n = stored_log d ∧ state n = (if bool_decide (ps = []) then Leader else Follower) ∧ self_id n = addr ∧
    commit_index n = 0 ∧ last_applied n = log_len n ∧ agrees (apply_all (pre ++ post) (∅, ∅)) (state_machine n).
Proof.
  intros Hh Hd Hsnap Hlog Hc Hroom. destruct (history_durable s Hh) as [Hdur Hn].
  destruct (open_durable _ (durable_config config s Hdur) Hn) as (s' & E & Hd' & Hm & Ht & Hs & _ & Hp). simpl in *.
  assert (Ec : contents s' = contents s) by (unfold contents; f_equal; apply layers_ext; [done..|by rewrite Hs]).
  rewrite E in Hroom. specialize (Hroom s' eq_refl). rewrite Hc in Hroom.
  unfold boot, raft_node_new. rewrite E, load_initial_state_ok by done. destruct (stored_meta d) as [t v].
  set (n0 := mkNode _ _ _ _ _ _ _ _ _ _ _ _ _ _ _ _ _).
  set (n1 := if bool_decide (ps = []) then with_state Leader n0 else n0).
  assert (Hr : restore_from_snapshot n1 = (Ok None, n1)).
  { assert (Hld : load_snapshot d = (None, d)).
    { unfold stored_snapshot in Hsnap. rewrite quiet_ok in Hsnap by done. unfold load_snapshot, disk_read in *.
      unfold d_ok in Hd. destruct d as [fs flt]. simpl in *. subst flt. simpl in *. by rewrite Hsnap. }
    unfold restore_from_snapshot, on_disk_read, mbind, M_bind.
    replace (storage n1) with d by (unfold n1; by case_bool_decide). rewrite Hld. unfold n1. by case_bool_decide. }
  assert (Hl : log n1 = stored_log d) by (unfold n1; by case_bool_decide).
  assert (Hsm : state_machine n1 = s') by (unfold n1; by case_bool_decide).
  destruct (replay_recovers n1 pre post) as (Er & F & Hla & Ha).
  { by rewrite Hl. }
  { rewrite Hsm. split; [|apply Hd'|done|by rewrite Hs]. split; simpl; [congruence|by rewrite Hp, fmap_empty]. }
  unfold mbind, M_bind. rewrite Hr. destruct (replay_logs n1) as [r n']. simpl in *. subst r. exists n'.
  destruct F as (Fl & Ft & Fv & Fc & _ & Fs & Fi). split_and!; try done.
  - rewrite Ft, Fv. unfold n1. by case_bool_decide.
  - congruence.
  - rewrite Fs. unfold n1. by case_bool_decide.
  - rewrite Fi. unfold n1. by case_bool_decide.
  - rewrite Fc. unfold n1. by case_bool_decide.
  - rewrite Hla. unfold log_len. congruence.
Qed.

(** *** Listening *)

(** What the process listens on when it comes to bind the address for clients. *)
Definition held (early : bool) (a : Args) : list string :=
  if early && serves_metrics a && can_bind [ar_addr a] (ar_metrics_addr a) then [ar_addr a; ar_metrics_addr a] else [ar_addr a].

Lemma serve_all_is early a p : pr_cell p = Some (config_of_args a) → pr_bound p = [] →
  let '(r, p') := serve_all can_bind early a p in
  pr_node p' = pr_node p ∧
  (r = Ok tt ↔ can_bind [] (ar_addr a) = true ∧ can_bind (held early a) (ar_client_addr a) = true) ∧
  (r = Ok tt → held early a ++ [ar_client_addr a] `prefix_of` pr_bound p').
Proof.
  intros Hc Hb. unfold serve_all, metrics_task, spawn, bind, ignore, on_cell, zoom, held, modify, mbind, M_bind, mret, M_ret, global.
  rewrite Hc. cbn beta iota zeta delta [with_cell pr_cell pr_node pr_services pr_bound].
  change (cf_listen_addr (config_of_args a)) with (ar_addr a). change (cf_client_addr (config_of_args a)) with (ar_client_addr a).
  rewrite Hb. cbn [app]. destruct (can_bind [] (ar_addr a)); [|by cbn; split_and!; [done|split; [done|intros []]|]].
  destruct early, (serves_metrics a); cbn [andb pr_bound pr_cell pr_node pr_services].
  1: destruct (can_bind [ar_addr a] (ar_metrics_addr a)); cbn [pr_bound pr_cell pr_node pr_services app].
  all: destruct (can_bind _ (ar_client_addr a)); cbn [pr_bound pr_cell pr_node pr_services app fst snd].
  all: try destruct (can_bind [_; _] (ar_metrics_addr a)); cbn [pr_bound pr_cell pr_node pr_services app fst snd].
  all: split_and!; [done|by split; [|intros []]|intros E; try done].
  all: by exists [ar_metrics_addr a].
Qed.

(** C35: starting the server. Suppose that the data directory can be made and holds what a state machine left there, after any
    history of calls none of which failed; that the Raft files can be read and hold no snapshot; and that the stored map is what a
    prefix of the stored log produces (with table numbers to spare for the log). Then [main] recovers the node, whatever the listeners do: its term,
    vote and log are the stored ones, its map and staged transactions are those the whole log produces from nothing, all of the
    log counts as applied and none of it as committed, it leads if it has no peers and follows otherwise, and its gauges show
    this. [main] gets as far as accepting clients exactly if the system lets it bind the Raft address and, next to that one (and the metrics
    address, if that task got there first), the client address; it then listens on both, and they are different
    if the client address names one port of one interface. *)
Theorem main_serves_recovered_node early a s pre post :
  created (base_of a) = true → files (base_of a) = host s → history s →
  d_ok (disk_of a) → stored_snapshot (disk_of a) = None → le_command <$> stored_log (disk_of a) = pre ++ post →
  contents s = (apply_all pre (∅, ∅)).1 →
  (∀ s', (sm_open main_sm_config (host s)).1 = Ok s' → room (total_cost (contents s, ∅) (pre ++ post)) s') →
  let '(r, p) := run_main early a in
  (∃ n g, pr_node p = Some (mkMetered n (Some g)) ∧ exported n g ∧
     (current_term n, vote_for n) = stored_meta (disk_of a) ∧ log n = stored_log (disk_of a) ∧
     state n = (if bool_decide (ar_peers a = []) then Leader else Follower) ∧ self_id n = ar_addr a ∧
     commit_index n = 0 ∧ last_applied n = log_len n ∧
     contents (state_machine n) = (apply_all (pre ++ post) (∅, ∅)).1 ∧
     tx_ops <$> pending_txs (state_machine n) = (apply_all (pre ++ post) (∅, ∅)).2) ∧
  (r = Ok tt ↔ can_bind [] (ar_addr a) = true ∧ can_bind (held early a) (ar_client_addr a) = true) ∧
  (r = Ok tt → ar_addr a ∈ pr_bound p ∧ ar_client_addr a ∈ pr_bound p ∧
     (exclusive (ar_client_addr a) = true → ar_client_addr a ≠ ar_addr a)).
Proof.
  intros Hcr Hf Hh Hd Hsn Hlog Hc Hroom. unfold main, mbind, M_bind. rewrite recover_is, Hcr. unfold recovered. rewrite Hf.
  destruct (boot_recovers main_sm_config (ar_addr a) (ar_peers a) s (disk_of a) pre post Hh Hd Hsn Hlog Hc Hroom)
    as (n & E & Hn1 & Hn2 & Hn3 & Hn4 & Hn5 & Hn6 & Ha1 & Ha2).
  rewrite E. destruct (start_metrics_ok (ar_peers a) n) as (g & Eg & Hg). rewrite Eg. cbn [snd].
  pose proof (serve_all_is early a (mkProcess (Some (config_of_args a)) (Some (mkMetered n (Some g))) [] []) eq_refl eq_refl) as Hs.
  destruct (serve_all can_bind early a _) as [r p]. destruct Hs as (Hp & Hiff & Hb). split_and!; [|exact Hiff|].
  - exists n, g. by split_and!.
  - intros Hok. destruct (Hb Hok) as [rest ->]. apply Hiff in Hok as [_ Hcl]. split_and!.
    + unfold held. destruct (_ && _); set_solver.
    + set_solver.
    + intros Hx. specialize (in_use _ _ Hx Hcl). unfold held in in_use. destruct (_ && _); set_solver.
Qed.
End facts.

(** ** A node that is started on the files of an earlier process *)

Import Codec.

(** The earlier process applied the first entry of its log, and not the second. *)
Definition kept_machine : StateMachine := (run_call (KSet "x" "1") (fresh_sm 1000 [])).2.

Definition kept_disk : Disk :=
  (append_wal_log (mkLogEntry 3 2 (CSet "y" "2")) (append_wal_log (mkLogEntry 3 1 (CSet "x" "1"))
    (save_meta 3 (Some "127.0.0.1:7001") (mkDisk ∅ [])).2).2).2.

Definition node_args : Args :=
  mkArgs "127.0.0.1:7001" "127.0.0.1:8001" ["127.0.0.1:7002"] (Some "/data") "127.0.0.1:9100".

Definition free_port (held : list string) (addr : string) : bool := bool_decide (addr ∉ held).

Lemma main_serves_recovered_node_witness :
  let '(r, p) := main None (λ _, true) free_port (λ _, host kept_machine) (λ _ _ _, kept_disk) (λ _, None) 0 true node_args launched in
  r = Ok tt ∧ ∃ n g, pr_node p = Some (mkMetered n (Some g)) ∧ raft_term g = 3 ∧ last_applied n = 2 ∧
    contents (state_machine n) = {["x" := "1"; "y" := "2"]}.
Proof.
  assert (Hh : history kept_machine).
  { apply history_call; [apply history_new|vm_compute; intuition discriminate]. }
  assert (Hf : ∀ held addr, true = true → free_port held addr = true → addr ∉ held).
  { intros held addr _ H. by apply bool_decide_eq_true in H. }
  assert (Hr : ∀ s', (sm_open main_sm_config (host kept_machine)).1 = Ok s' →
    room (total_cost (contents kept_machine, ∅) [CSet "x" "1"; CSet "y" "2"]) s').
  { intros s' E. vm_compute in E. injection E as <-. vm_compute. reflexivity. }
  pose proof (main_serves_recovered_node None (λ _, true) free_port (λ _, host kept_machine) (λ _ _ _, kept_disk) (λ _, None) 0
    (λ _, true) Hf true node_args kept_machine [CSet "x" "1"] [CSet "y" "2"] eq_refl eq_refl Hh eq_refl) as H.
  do 3 (specialize (H ltac:(vm_compute; reflexivity))). specialize (H Hr).
  destruct (main _ _ _ _ _ _ _ _ _ _) as [r p]. destruct H as ((n & g & Hn & Hg & Hm & Hl & _ & _ & _ & Ha & Hc & _) & Hok & _).
  split; [apply Hok; split; vm_compute; reflexivity|]. exists n, g. split_and!; [exact Hn|..].
  - rewrite (ex_term _ _ Hg). apply (f_equal fst) in Hm. simpl in Hm. rewrite Hm. vm_compute. reflexivity.
  - rewrite Ha. unfold log_len. rewrite Hl. vm_compute. reflexivity.
  - rewrite Hc. vm_compute. reflexivity.
Defined.

(** ** The client listener *)

(** The loop serves the connections before the first error of [accept], and no others: [main] then returns, and the
    process ends with it. *)
Lemma accept_error_ends_main {C} (cs : list C) e rest :
  accept_clients ((inl <$> cs) ++ inr e :: rest) = (cs, false).
Proof. induction cs as [|c cs IH]; [done|]. cbn [fmap list_fmap app accept_clients]. by rewrite IH. Qed.

Lemma accepts_while_no_error {C} (cs : list C) : accept_clients ((inl <$> cs) : list (C + string)) = (cs, true).
Proof. induction cs as [|c cs IH]; [done|]. cbn [fmap list_fmap accept_clients]. by rewrite IH. Qed.

(** The Raft listener, given the same outcomes, goes on. *)
Lemma raft_listener_survives_error {C} (c : C) e :
  loop_run (serve_loop C) [Poll (Some (inr e)) true; Finish; Poll (Some (inl c)) true; Finish] (Waiting false, []) =
    (Waiting false, [c]) ∧ accept_clients [inr e; inl c] = ([], false).
Proof. done. Qed.
