(* ===== verification/Transport.v ===== *)
(** * The wire framing ([src/rust/oxide-kv/src/raft/transport.rs])

    One frame is a discriminator byte, a four-byte big-endian length, and the
    payload. A byte is an integer below 256. A writer appends to the bytes sent; a
    reader consumes the bytes received, which end where the peer closed the
    connection. *)

From stdpp Require Import prelude list.
From S2P Require Import Prelude.
#[local] Open Scope Z_scope.

Inductive DispatchKind := KindRaft | KindVote.

(** [kind as u8] *)
Definition kind_byte (k : DispatchKind) : Z := match k with KindRaft => 1 | KindVote => 2 end.

Definition from_byte (b : Z) : option DispatchKind :=
  if b =? 1 then Some KindRaft else if b =? 2 then Some KindVote else None.

Definition MAX_FRAME_BYTES : Z := 16 * 1024 * 1024.

Definition byte (b : Z) : Prop := 0 <= b < 256.

(** [u32::to_be_bytes] and [u32::from_be_bytes] *)
Definition to_be_bytes (n : Z) : list Z :=
  [Z.land (Z.shiftr n 24) 255; Z.land (Z.shiftr n 16) 255; Z.land (Z.shiftr n 8) 255; Z.land n 255].

Definition from_be_bytes (bs : list Z) : Z := foldl (λ acc b, Z.lor (Z.shiftl acc 8) b) 0 bs.

(** ** Writing *)

Definition write_all (bs : list Z) : M (list Z) unit := modify (λ sent, sent ++ bs).

Definition write_envelope (kind : DispatchKind) (payload : list Z) : M (list Z) unit :=
  if MAX_FRAME_BYTES <? Z.of_nat (length payload) then throw InvalidInput else
  write_all [kind_byte kind] ;;
  write_all (to_be_bytes (Z.of_nat (length payload))) ;;
  write_all payload.

(** ** Reading *)

(** [AsyncReadExt::read_exact]: at the end of the stream what was there is gone. *)
Definition read_exact (n : nat) : M (list Z) (list Z) := λ stream,
  if (length stream <? n)%nat then (Err UnexpectedEof, []) else (Ok (take n stream), drop n stream).

(** [read_exact] where an early end of the stream is [None]. *)
Definition read_or_eof (n : nat) : M (list Z) (option (list Z)) := λ stream,
  match read_exact n stream with
  | (Ok bs, rest) => (Ok (Some bs), rest)
  | (Err UnexpectedEof, rest) => (Ok None, rest)
  | (Err e, rest) => (Err e, rest)
  end.

Definition read_envelope_discriminator : M (list Z) (option DispatchKind) :=
  kind_buf ← read_or_eof 1;
  match kind_buf with
  | None => mret None
  | Some bs => k ← of_option InvalidData (from_byte (default 0 (head bs))); mret (Some k)
  end.

(** The length check and the payload, once the length bytes are there. *)
Definition read_body (len_buf : list Z) : M (list Z) (list Z) :=
  let len := from_be_bytes len_buf in
  if MAX_FRAME_BYTES <? len then throw InvalidData else read_exact (Z.to_nat len).

Definition read_envelope : M (list Z) (option (DispatchKind * list Z)) :=
  kind ← read_envelope_discriminator;
  match kind with
  | None => mret None
  | Some k =>
      len_buf ← read_exact 4;
      payload ← read_body len_buf;
      mret (Some (k, payload))
  end.

Definition read_envelope_payload : M (list Z) (option (list Z)) :=
  len_buf ← read_or_eof 4;
  match len_buf with
  | None => mret None
  | Some bs => payload ← read_body bs; mret (Some payload)
  end.

(** The two halves the server's dispatch loop uses in a row. *)
Definition read_in_halves : M (list Z) (option (DispatchKind * list Z)) :=
  kind ← read_envelope_discriminator;
  match kind with
  | None => mret None
  | Some k =>
      payload ← read_envelope_payload;
      match payload with Some p => mret (Some (k, p)) | None => mret None end
  end.

(** ** Lemmas *)

(** A byte fits below a shifted value. *)
Lemma shift_lor a b : byte b → Z.lor (Z.shiftl a 8) b = a * 256 + b.
Proof.
  intros Hb. unfold byte in Hb. rewrite Z.shiftl_mul_pow2 by lia. symmetry. apply Z.add_nocarry_lor.
  apply Z.bits_inj'. intros i Hi. rewrite Z.land_spec, Z.bits_0.
  destruct (Z.lt_ge_cases i 8).
  - by rewrite Z.mul_pow2_bits_low.
  - replace (Z.testbit b i) with false; [by rewrite andb_false_r|]. symmetry.
    destruct (decide (b = 0)) as [->|]; [apply Z.bits_0|].
    apply Z.bits_above_log2; [lia|]. apply Z.log2_lt_pow2; [lia|].
    apply Z.lt_le_trans with (2 ^ 8); [change (2 ^ 8) with 256; lia|]. apply Z.pow_le_mono_r; lia.
Qed.

Lemma land_byte x : Z.land x 255 = x mod 256.
Proof. apply (Z.land_ones x 8). lia. Qed.

Lemma be_bytes_roundtrip n : 0 <= n < 2 ^ 32 → from_be_bytes (to_be_bytes n) = n.
Proof.
  intros Hn. unfold from_be_bytes, to_be_bytes. cbn [foldl].
  rewrite !land_byte, !Z.shiftr_div_pow2 by lia.
  rewrite !shift_lor by (apply Z.mod_pos_bound; lia).
  change (2 ^ 24) with 16777216. change (2 ^ 16) with 65536. change (2 ^ 8) with 256.
  change (2 ^ 32) with 4294967296 in Hn. Z.div_mod_to_equations. lia.
Qed.

(** The bytes of a frame. *)
Definition frame (kind : DispatchKind) (payload : list Z) : list Z :=
  kind_byte kind :: to_be_bytes (Z.of_nat (length payload)) ++ payload.

Lemma write_envelope_eq kind payload sent :
  write_envelope kind payload sent =
    if MAX_FRAME_BYTES <? Z.of_nat (length payload) then (Err InvalidInput, sent)
    else (Ok tt, sent ++ frame kind payload).
Proof.
  unfold write_envelope. case_match; [done|]. unfold write_all, modify, mbind, M_bind, frame. simpl.
  by rewrite <- !app_assoc.
Qed.

Lemma from_kind_byte k : from_byte (kind_byte k) = Some k.
Proof. by destruct k. Qed.

Lemma read_exact_app n bs rest : length bs = n → read_exact n (bs ++ rest) = (Ok bs, rest).
Proof.
  intros <-. unfold read_exact. rewrite length_app.
  destruct (Nat.ltb_spec (length bs + length rest) (length bs)); [lia|].
  by rewrite take_app_length, drop_app_length.
Qed.

Lemma read_body_frame payload rest : Z.of_nat (length payload) <= MAX_FRAME_BYTES →
  read_body (to_be_bytes (Z.of_nat (length payload))) (payload ++ rest) = (Ok payload, rest).
Proof.
  intros Hl. unfold read_body. rewrite be_bytes_roundtrip by (unfold MAX_FRAME_BYTES in Hl; lia).
  destruct (Z.ltb_spec MAX_FRAME_BYTES (Z.of_nat (length payload))); [lia|].
  rewrite Nat2Z.id. by apply read_exact_app.
Qed.

Lemma read_discriminator_cons k stream :
  read_envelope_discriminator (kind_byte k :: stream) = (Ok (Some k), stream).
Proof.
  unfold read_envelope_discriminator, read_or_eof, mbind, M_bind, of_option. simpl.
  by rewrite from_kind_byte.
Qed.

(** The frame round trip. A payload within the limit is written as one
    frame, and both ways of reading it, whole or in two halves, return exactly the kind and the payload
    and leave exactly what follows on the stream; a larger payload is refused and
    nothing is written. *)
Theorem envelope_roundtrip kind payload sent rest :
  (Z.of_nat (length payload) <= MAX_FRAME_BYTES →
     ∃ bytes, write_envelope kind payload sent = (Ok tt, sent ++ bytes) ∧
       read_envelope (bytes ++ rest) = (Ok (Some (kind, payload)), rest) ∧
       read_in_halves (bytes ++ rest) = (Ok (Some (kind, payload)), rest)) ∧
  (MAX_FRAME_BYTES < Z.of_nat (length payload) →
     write_envelope kind payload sent = (Err InvalidInput, sent)).
Proof.
  rewrite write_envelope_eq. split; intros Hl.
  - replace (MAX_FRAME_BYTES <? _) with false by lia. exists (frame kind payload).
    split; [done|]. unfold frame, read_in_halves, read_envelope, read_envelope_payload, read_or_eof, mbind, M_bind.
    rewrite <- app_comm_cons, <- app_assoc, read_discriminator_cons.
    rewrite (read_exact_app 4) by done. by rewrite read_body_frame.
  - by replace (MAX_FRAME_BYTES <? _) with true by lia.
Qed.

Lemma envelope_roundtrip_witness :
  ∃ bytes, write_envelope KindRaft [7; 8; 9] [] = (Ok tt, bytes) ∧
    read_envelope (bytes ++ [5]) = (Ok (Some (KindRaft, [7; 8; 9])), [5]).
Proof.
  destruct (envelope_roundtrip KindRaft [7; 8; 9] [] [5]) as [H _].
  destruct (H ltac:(vm_compute; congruence)) as (bytes & H1 & H2 & _).
  exists bytes. split; [exact H1|exact H2].
Defined.

(** a cut or foreign stream is never taken for a message. On what is left of a frame
    when the connection breaks, [read_envelope] reports the end of the stream when
    no byte came and an error otherwise; a frame with an unknown
    discriminator is an error; and no payload is larger than the limit. *)
Theorem broken_frame_is_an_error kind payload n :
  Z.of_nat (length payload) <= MAX_FRAME_BYTES → (n < length (frame kind payload))%nat →
  (read_envelope (take n (frame kind payload))).1 = (if (n =? 0)%nat then Ok None else Err UnexpectedEof) ∧
  (∀ b stream, from_byte b = None → (read_envelope (b :: stream)).1 = Err InvalidData) ∧
  (∀ stream k p, (read_envelope stream).1 = Ok (Some (k, p)) → Z.of_nat (length p) <= MAX_FRAME_BYTES).
Proof.
  intros Hl Hn. split_and!.
  - unfold frame in *. destruct n as [|n]; [done|]. rewrite firstn_cons. simpl in Hn.
    unfold read_envelope, mbind, M_bind. rewrite read_discriminator_cons. simpl Nat.eqb. cbn iota.
    set (lb := to_be_bytes _) in *. assert (Hlb : length lb = 4%nat) by done.
    unfold read_exact. destruct (Nat.ltb_spec (length (take n (lb ++ payload))) 4) as [|H4]; [done|].
    rewrite length_take, length_app in H4.
    rewrite take_app_ge by lia. rewrite Hlb, (take_app_length' lb), (drop_app_length' lb) by lia.
    subst lb. unfold read_body. rewrite be_bytes_roundtrip by (unfold MAX_FRAME_BYTES in Hl; lia).
    destruct (Z.ltb_spec MAX_FRAME_BYTES (Z.of_nat (length payload))); [lia|].
    unfold read_exact. rewrite Nat2Z.id, length_take.
    destruct (Nat.ltb_spec ((n - 4) `min` length payload) (length payload)); [done|]. lia.
  - intros b stream Hb. unfold read_envelope, read_envelope_discriminator, read_or_eof, mbind, M_bind. simpl.
    unfold of_option. by rewrite Hb.
  - intros stream k p. unfold read_envelope, mbind, M_bind.
    destruct (read_envelope_discriminator stream) as [[[k'|]|e] s1]; try done.
    destruct (read_exact 4 s1) as [[lb|e] s2]; [|done]. unfold read_body.
    destruct (Z.ltb_spec MAX_FRAME_BYTES (from_be_bytes lb)); [done|]. unfold read_exact.
    destruct (Nat.ltb_spec (length s2) (Z.to_nat (from_be_bytes lb))); [done|]. simpl.
    intros [= _ <-]. rewrite length_take. unfold MAX_FRAME_BYTES in *. lia.
Qed.

Lemma broken_frame_is_an_error_witness :
  (read_envelope (take 6 (frame KindVote [7; 8; 9]))).1 = Err UnexpectedEof.
Proof.
  destruct (broken_frame_is_an_error KindVote [7; 8; 9] 6 ltac:(vm_compute; congruence) ltac:(simpl; lia)) as [H _].
  exact H.
Defined.
