(* ===== verification/Net.v ===== *)
(** * Calls over TCP ([src/rust/oxide-kv/src/raft/rpc.rs], [src/rust/oxide-kv/src/raft/net.rs])

    [RpcClient] connects, writes one frame and reads one frame; [RpcServer]
    reads one frame from an accepted connection, runs the node's handler and writes the
    answer. A connection is the bytes in each direction. The protobuf codec is generated
    code: [Prost] is its interface. *)

From stdpp Require Import prelude gmap strings pretty sorting countable list.
From S2P Require Import Prelude Serde Display Protocol StateMachine Storage Rpc Proto Node Timer Transport.
#[local] Open Scope Z_scope.

(** [prost::Message]: the bytes of a value, and the value of some bytes.
    [prost_valid] is the range of the generated Rust type: its integers are machine integers. *)
Class Prost (P : Type) := {
  encode_to_vec : P → list Z;
  prost_decode : list Z → option P;
  prost_valid : P → Prop;
}.
Class ProstLaws (P : Type) `{Prost P} : Prop :=
  decode_encode p : prost_valid p → prost_decode (encode_to_vec p) = Some p.

(** ** Errors *)

Module net.
Inductive TransportError :=
  | Unreachable (s : string)
  | Timeout (ms : Z)
  | Protocol (s : string)
  | Canceled.
End net.

(** [{:?}] of a [Duration] of whole milliseconds. *)
Definition duration_debug (ms : Z) : string :=
  let digit d := String (hex_digit d) EmptyString in
  let h := ms mod 1000 / 100 in
  let t := ms mod 100 / 10 in
  let u := ms mod 10 in
  let fraction :=
    if u =? 0 then
      if t =? 0 then if h =? 0 then EmptyString else "." +:+ digit h
      else "." +:+ digit h +:+ digit t
    else "." +:+ digit h +:+ digit t +:+ digit u in
  if 1000 <=? ms then pretty (ms / 1000) +:+ fraction +:+ "s"
  else if 0 <? ms then pretty ms +:+ "ms" else "0ns".

Definition transport_error_display (e : net.TransportError) : string :=
  match e with
  | net.Unreachable s => "peer unreachable: " +:+ s
  | net.Timeout d => "rpc timeout after " +:+ duration_debug d
  | net.Protocol s => "protocol error: " +:+ s
  | net.Canceled => "transport canceled"
  end.

(** What [RpcClient] returns as [anyhow::Error]. *)
Inductive rpc_error :=
  | Elapsed                    (** [tokio::time::error::Elapsed] *)
  | ConnectFailed              (** the operating system's answer to [connect] *)
  | Io (e : io_error)
  | DecodeFailed
  | Message (s : string).      (** [anyhow!("...")] *)

Section client.
Context {PR : Prost pb.RaftMessage} {PQ : Prost pb.VoteRequest} {PP : Prost pb.VoteResponse_}.

(** The peer of an open connection: from the bytes it is sent, the bytes it answers, and whether it
    then closes its side. *)
Definition Peer : Type := list Z → list Z * bool.

(** What connecting to an address does: after [c_after] milliseconds it fails or there
    is a peer. *)
Record Connecting := mkConnecting { c_after : Z; c_peer : option Peer }.

Definition connect (net : string → Connecting) (addr : string) (timeout : Z) : rpc_error + Peer :=
  let c := net addr in
  if timeout <? c_after c then inl Elapsed
  else match c_peer c with None => inl ConnectFailed | Some p => inr p end.

(** Awaiting a frame: [None] when the bytes do not suffice and the peer keeps the
    connection open, so that the read never returns. *)
Definition await_envelope (answer : list Z * bool) : option (result (option (DispatchKind * list Z))) :=
  let '(bytes, closed) := answer in
  match (read_envelope bytes).1 with
  | (Ok None | Err UnexpectedEof) as r => if closed then Some r else None
  | r => Some r
  end.

(** Write a request frame and await the answer's. *)
Definition exchange (peer : Peer) (kind : DispatchKind) (payload : list Z) (closed_msg : string) :
    option (rpc_error + DispatchKind * list Z) :=
  match write_envelope kind payload [] with
  | (Err e, _) => Some (inl (Io e))
  | (Ok _, sent) =>
      r ← await_envelope (peer sent);
      Some match r with
           | Err e => inl (Io e)
           | Ok None => inl (Message closed_msg)
           | Ok (Some env) => inr env
           end
  end.

(** [RpcClient::call]; [None]: it never returns. *)
Definition call (net : string → Connecting) (addr : string) (msg : RaftMessage) (timeout : Z) :
    option (rpc_error + RaftMessage) :=
  match connect net addr timeout with
  | inl e => Some (inl e)
  | inr peer =>
      r ← exchange peer KindRaft (encode_to_vec (encode_domain msg)) "RPC peer closed connection before reply";
      Some match r with
           | inl e => inl e
           | inr (_, resp_buf) =>
               match prost_decode resp_buf with
               | None => inl DecodeFailed
               | Some resp_pb => inr (decode_domain resp_pb)
               end
           end
  end.

(** [Duration::from_secs] of the constant. *)
Definition send_install_snapshot_rpc (net : string → Connecting) (addr : string) (args : InstallSnapshotArgs) :
    option (rpc_error + InstallSnapshotReplyArgs) :=
  r ← call net addr (InstallSnapshot args) (rpc_append_entries_timeout_ms * 1000);
  Some match r with
       | inl e => inl e
       | inr (InstallSnapshotReply reply) => inr reply
       | inr _ => inl (Message "Unexpected RPC response type for InstallSnapshot")
       end.

Definition kind_debug (k : DispatchKind) : string :=
  match k with KindRaft => "Raft" | KindVote => "Vote" end.

Definition send_tx_vote_rpc (net : string → Connecting) (addr : string) (req : TxVoteRequest) (timeout : Z) :
    option (rpc_error + TxVoteResponse) :=
  match connect net addr timeout with
  | inl e => Some (inl e)
  | inr peer =>
      r ← exchange peer KindVote (encode_to_vec (to_pb (P := pb.VoteRequest) req))
            "Vote RPC peer closed connection before reply";
      Some match r with
           | inl e => inl e
           | inr (KindRaft as kind, _) =>
               inl (Message ("Vote RPC peer replied with wrong discriminator " +:+ kind_debug kind))
           | inr (KindVote, resp_buf) =>
               match prost_decode (P := pb.VoteResponse_) resp_buf with
               | None => inl DecodeFailed
               | Some resp_pb => inr (of_pb resp_pb)
               end
           end
  end.

(** ** [TcpTransport] *)

(** [texts] is how [anyhow] prints the errors of the libraries: with [{:?}] and with [{}]. *)
Context (texts : rpc_error → string * string).

Definition anyhow_texts (e : rpc_error) : string * string :=
  match e with
  | Message s => (s, s)
  | Elapsed => ("deadline has elapsed", "deadline has elapsed")
  | _ => texts e
  end.

(** [str::contains] *)
Definition contains_str (s needle : string) : bool :=
  match String.index 0 needle s with Some _ => true | None => false end.

Definition classify_rpc_err (err : rpc_error) : net.TransportError :=
  let '(chain, shown) := anyhow_texts err in
  if contains_str chain "Connection refused" || contains_str chain "No route to host" then net.Unreachable shown
  else if contains_str chain "deadline" || contains_str chain "timed out" || contains_str chain "Timeout"
       then net.Timeout 0
  else net.Protocol shown.

Definition raft_timeout_ms (msg : RaftMessage) : Z :=
  match msg with
  | RequestVote _ => rpc_request_vote_timeout_ms
  | AppendEntries _ | InstallSnapshot _ => rpc_append_entries_timeout_ms
  | _ => rpc_request_vote_timeout_ms
  end.

Definition map_err {A} (r : rpc_error + A) : net.TransportError + A :=
  match r with inl e => inl (classify_rpc_err e) | inr a => inr a end.

Definition tcp_send_raft (net : string → Connecting) (to : string) (msg : RaftMessage) :
    option (net.TransportError + RaftMessage) :=
  map_err <$> call net to msg (raft_timeout_ms msg).

Definition tcp_send_vote (net : string → Connecting) (to : string) (req : TxVoteRequest) :
    option (net.TransportError + TxVoteResponse) :=
  map_err <$> send_tx_vote_rpc net to req (5 * 1000).
End client.

(** ** [RpcServer] *)

(** An accepted connection: what is left to read, what was written, and the
    node behind its lock. *)
Record Conn := mkConn { c_in : list Z; c_out : list Z; c_node : RaftNode }.

Definition on_in {A} : M (list Z) A → M Conn A := zoom c_in (λ s c, mkConn s (c_out c) (c_node c)).
Definition on_out {A} : M (list Z) A → M Conn A := zoom c_out (λ s c, mkConn (c_in c) s (c_node c)).
Definition on_node {A} : M RaftNode A → M Conn A := zoom c_node (λ n c, mkConn (c_in c) (c_out c) n).

Section server.
Context {JW : Json WalOp} {JE : Json (list SSTEntry)} {JM : Json SSTableMeta}.
Context {BL : Bincode LogEntry} {JV : Json Value} {JS : Json Snapshot}.
Context {PR : Prost pb.RaftMessage} {PQ : Prost pb.VoteRequest} {PP : Prost pb.VoteResponse_}.

Definition handle_raft_rpc_inner : M Conn unit :=
  req_buf ← on_in read_envelope_payload;
  match req_buf with
  | None => mret tt
  | Some buf =>
      req_pb ← of_option OtherError (prost_decode buf);
      response ← on_node (handle_raft_rpc (decode_domain req_pb));
      match response with
      | None => mret tt
      | Some r => on_out (write_envelope KindRaft (encode_to_vec (encode_domain r)))
      end
  end.

Definition handle_vote_rpc_inner : M Conn unit :=
  req_buf ← on_in read_envelope_payload;
  match req_buf with
  | None => mret tt
  | Some buf =>
      req_pb ← of_option OtherError (prost_decode (P := pb.VoteRequest) buf);
      reply ← on_node (handle_tx_vote_request (of_pb req_pb));
      on_out (write_envelope KindVote (encode_to_vec (to_pb (P := pb.VoteResponse_) reply)))
  end.

Definition dispatch_logic : M Conn unit :=
  kind ← on_in read_envelope_discriminator;
  match kind with
  | None => mret tt
  | Some KindRaft => handle_raft_rpc_inner
  | Some KindVote => handle_vote_rpc_inner
  end.

(** [RpcServer::dispatch]: an error is logged; the connection is dropped, which closes it. *)
Definition dispatch (c : Conn) : Conn := (dispatch_logic c).2.

(** A node that accepts connections, seen from the other end. *)
Definition served_by (n : RaftNode) : Peer := λ sent, (c_out (dispatch (mkConn sent [] n)), true).
Definition node_after (n : RaftNode) (sent : list Z) : RaftNode := c_node (dispatch (mkConn sent [] n)).
End server.
