(* ===== verification/NetTheorems.v ===== *)
(** * What a call over TCP does

    The composition of the framing, the protobuf conversions, the server's
    dispatch and the node's handlers, seen from the caller. *)

From stdpp Require Import prelude gmap strings pretty sorting countable list.
From S2P Require Import Prelude Serde Display Protocol StateMachine Storage Instances Rpc Proto Node Samples Timer Transport Net.
#[local] Open Scope Z_scope.

(** A value the codec carries, in a payload the framing carries. *)
Definition fits {P} `{Prost P} (p : P) : Prop :=
  prost_valid p ∧ Z.of_nat (length (encode_to_vec p)) <= MAX_FRAME_BYTES.

Lemma arrives_reply (m : RaftMessage) : (∀ a, m ≠ AppendEntries a) → arrives m = m.
Proof. intros H. destruct m; try done. by destruct (H args). Qed.

Lemma encoded_arrives m : decode_domain (encode_domain m) = arrives m.
Proof.
  destruct m as [[]|[]|[t l pi pt es lc]|[]|[t l i it [si st d]]|[]|[]|[]|[]|[]]; try done.
  unfold decode_domain, encode_domain. simpl. f_equal.
  unfold of_pb, append_of_pb, to_pb, append_to_pb. simpl. f_equal. apply entries_wire_eq.
Qed.

(** ** The two halves of a connection *)

Section calls.
Context {JW : Json WalOp} {JE : Json (list SSTEntry)} {JM : Json SSTableMeta}.
Context {BL : Bincode LogEntry} {JV : Json Value} {JS : Json Snapshot}.
Context {PR : Prost pb.RaftMessage} {PQ : Prost pb.VoteRequest} {PP : Prost pb.VoteResponse_}.
Context {LR : ProstLaws pb.RaftMessage} {LQ : ProstLaws pb.VoteRequest} {LP : ProstLaws pb.VoteResponse_}.

Lemma handle_raft_rpc_reply msg n reply n' : handle_raft_rpc msg n = (Ok (Some reply), n') → arrives reply = reply.
Proof.
  intros H. apply arrives_reply. intros a ->. unfold handle_raft_rpc, mbind, M_bind, gets in H.
  destruct msg; simpl in H; repeat case_match; simplify_eq.
Qed.

Lemma read_body_all payload : Z.of_nat (length payload) <= MAX_FRAME_BYTES →
  read_body (to_be_bytes (Z.of_nat (length payload))) payload = (Ok payload, []).
Proof. intros Hl. rewrite <- (app_nil_r payload) at 2. by apply read_body_frame. Qed.

Lemma read_payload_frame payload : Z.of_nat (length payload) <= MAX_FRAME_BYTES →
  read_envelope_payload (to_be_bytes (Z.of_nat (length payload)) ++ payload) = (Ok (Some payload), []).
Proof.
  intros Hl. unfold read_envelope_payload, read_or_eof, mbind, M_bind.
  rewrite (read_exact_app 4) by done. by rewrite read_body_all.
Qed.

Lemma read_frame kind payload : Z.of_nat (length payload) <= MAX_FRAME_BYTES →
  read_envelope (frame kind payload) = (Ok (Some (kind, payload)), []).
Proof.
  intros Hl. unfold frame, read_envelope, mbind, M_bind. rewrite read_discriminator_cons.
  rewrite (read_exact_app 4) by done. by rewrite read_body_all.
Qed.

(** The client's half: the frame goes out, and what comes back is read. *)
Lemma exchange_eq peer kind payload msg : Z.of_nat (length payload) <= MAX_FRAME_BYTES →
  exchange peer kind payload msg =
    (r ← await_envelope (peer (frame kind payload));
     Some match r with Err e => inl (Io e) | Ok None => inl (Message msg) | Ok (Some env) => inr env end).
Proof.
  intros Hl. unfold exchange. rewrite write_envelope_eq.
  destruct (Z.ltb_spec MAX_FRAME_BYTES (Z.of_nat (length payload))); [lia|]. by rewrite app_nil_l.
Qed.

(** The server's half, up to the decoded request. *)
Lemma dispatch_frame kind payload n : Z.of_nat (length payload) <= MAX_FRAME_BYTES →
  dispatch_logic (mkConn (frame kind payload) [] n) =
    match kind with
    | KindRaft => handle_raft_rpc_inner
    | KindVote => handle_vote_rpc_inner
    end (mkConn (to_be_bytes (Z.of_nat (length payload)) ++ payload) [] n).
Proof.
  intros Hl. unfold dispatch_logic, on_in, zoom, frame, mbind, M_bind. cbn [c_in].
  rewrite read_discriminator_cons. by destruct kind.
Qed.

Lemma raft_rpc_inner_eq msg n : fits (encode_domain msg) →
  let payload := encode_to_vec (encode_domain msg) in
  handle_raft_rpc_inner (mkConn (to_be_bytes (Z.of_nat (length payload)) ++ payload) [] n) =
    match handle_raft_rpc (arrives msg) n with
    | (Ok (Some r), n') => on_out (write_envelope KindRaft (encode_to_vec (encode_domain r))) (mkConn [] [] n')
    | (Ok None, n') => (Ok tt, mkConn [] [] n')
    | (Err e, n') => (Err e, mkConn [] [] n')
    end.
Proof.
  intros [Hv Hl] payload. unfold handle_raft_rpc_inner, on_in, on_node, of_option, zoom, mbind, M_bind. cbn [c_in].
  rewrite read_payload_frame by done. cbn [c_out c_node c_in].
  unfold payload. rewrite decode_encode by done. unfold mret, M_ret. cbn iota beta. cbn [c_node c_in c_out].
  rewrite encoded_arrives. by destruct (handle_raft_rpc (arrives msg) n) as [[[r|]|e] n'].
Qed.

Lemma vote_rpc_inner_eq req n : fits (to_pb (P := pb.VoteRequest) req) →
  let payload := encode_to_vec (to_pb (P := pb.VoteRequest) req) in
  handle_vote_rpc_inner (mkConn (to_be_bytes (Z.of_nat (length payload)) ++ payload) [] n) =
    match handle_tx_vote_request req n with
    | (Ok r, n') => on_out (write_envelope KindVote (encode_to_vec (to_pb (P := pb.VoteResponse_) r))) (mkConn [] [] n')
    | (Err e, n') => (Err e, mkConn [] [] n')
    end.
Proof.
  intros [Hv Hl] payload. unfold handle_vote_rpc_inner, on_in, on_node, of_option, zoom, mbind, M_bind. cbn [c_in].
  rewrite read_payload_frame by done. cbn [c_out c_node c_in].
  unfold payload. rewrite decode_encode by done. unfold mret, M_ret. cbn iota beta. cbn [c_node c_in c_out].
  replace (of_pb (to_pb req)) with req by (by destruct req).
  by destruct (handle_tx_vote_request req n) as [[r|e] n'].
Qed.

Lemma write_reply {P} `{Prost P} kind (p : P) n : fits p →
  on_out (write_envelope kind (encode_to_vec p)) (mkConn [] [] n) = (Ok tt, mkConn [] (frame kind (encode_to_vec p)) n).
Proof.
  intros [_ Hl]. unfold on_out, zoom. cbn [c_out]. rewrite write_envelope_eq.
  destruct (Z.ltb_spec MAX_FRAME_BYTES (Z.of_nat (length (encode_to_vec p)))); [lia|done].
Qed.

Lemma connect_in_time net addr delay peer t : net addr = mkConnecting delay (Some peer) → delay <= t →
  connect net addr t = inr peer.
Proof. intros E Ht. unfold connect. rewrite E. simpl. by replace (t <? delay) with false by lia. Qed.

Lemma served_raft msg n : fits (encode_domain msg) →
  (∀ r n', handle_raft_rpc (arrives msg) n = (Ok (Some r), n') → fits (encode_domain r)) →
  dispatch (mkConn (frame KindRaft (encode_to_vec (encode_domain msg))) [] n) =
    mkConn []
      match (handle_raft_rpc (arrives msg) n).1 with
      | Ok (Some r) => frame KindRaft (encode_to_vec (encode_domain r))
      | _ => []
      end (handle_raft_rpc (arrives msg) n).2.
Proof.
  intros Hm Hr. unfold dispatch. rewrite dispatch_frame by apply Hm. cbn iota. rewrite raft_rpc_inner_eq by done.
  destruct (handle_raft_rpc (arrives msg) n) as [[[r|]|e] n'] eqn:E; try done.
  rewrite write_reply; [done|by eapply Hr].
Qed.

Lemma served_vote req n : fits (to_pb (P := pb.VoteRequest) req) →
  (∀ r n', handle_tx_vote_request req n = (Ok r, n') → fits (to_pb (P := pb.VoteResponse_) r)) →
  dispatch (mkConn (frame KindVote (encode_to_vec (to_pb (P := pb.VoteRequest) req))) [] n) =
    mkConn []
      match (handle_tx_vote_request req n).1 with
      | Ok r => frame KindVote (encode_to_vec (to_pb (P := pb.VoteResponse_) r))
      | _ => []
      end (handle_tx_vote_request req n).2.
Proof.
  intros Hm Hr. unfold dispatch. rewrite dispatch_frame by apply Hm. cbn iota. rewrite vote_rpc_inner_eq by done.
  destruct (handle_tx_vote_request req n) as [[r|e] n'] eqn:E; try done.
  rewrite write_reply; [done|by eapply Hr].
Qed.

Lemma raft_call_eq net addr delay t n msg :
  net addr = mkConnecting delay (Some (served_by n)) → delay <= t → fits (encode_domain msg) →
  (∀ r n', handle_raft_rpc (arrives msg) n = (Ok (Some r), n') → fits (encode_domain r)) →
  call net addr msg t =
    Some match (handle_raft_rpc (arrives msg) n).1 with
         | Ok (Some r) => inr r
         | _ => inl (Message "RPC peer closed connection before reply")
         end.
Proof.
  intros Hnet Ht Hm Hr. unfold call.
  rewrite (connect_in_time net addr delay _ t Hnet Ht), exchange_eq by apply Hm.
  unfold served_by. rewrite served_raft by done. cbn [c_out].
  destruct (handle_raft_rpc (arrives msg) n) as [[[r|]|e] n'] eqn:E; try done. cbn [fst].
  destruct (Hr r n' eq_refl) as [Hv Hl]. unfold await_envelope. rewrite read_frame by done.
  cbn. rewrite decode_encode by done. rewrite encoded_arrives. by rewrite (handle_raft_rpc_reply _ _ _ _ E).
Qed.

Lemma vote_call_eq net addr delay t n req :
  net addr = mkConnecting delay (Some (served_by n)) → delay <= t → fits (to_pb (P := pb.VoteRequest) req) →
  (∀ r n', handle_tx_vote_request req n = (Ok r, n') → fits (to_pb (P := pb.VoteResponse_) r)) →
  send_tx_vote_rpc net addr req t =
    Some match (handle_tx_vote_request req n).1 with
         | Ok r => inr r
         | _ => inl (Message "Vote RPC peer closed connection before reply")
         end.
Proof.
  intros Hnet Ht Hm Hr. unfold send_tx_vote_rpc.
  rewrite (connect_in_time net addr delay _ t Hnet Ht), exchange_eq by apply Hm.
  unfold served_by. rewrite served_vote by done. cbn [c_out].
  destruct (handle_tx_vote_request req n) as [[r|e] n'] eqn:E; try done. cbn [fst].
  destruct (Hr r n' eq_refl) as [Hv Hl]. unfold await_envelope. rewrite read_frame by done.
  cbn. rewrite decode_encode by done. by destruct r.
Qed.

(** C16: a call is the handler. A Raft request sent over TCP to a node that accepts the
    connection in time, through both conversions, the codec and the framing, changes that node
    exactly as its handler does on the message as it arrives, and returns the handler's
    reply; when the handler has none or panics, the caller learns that the connection was closed. The transaction
    vote likewise. The codec has to carry the messages, and they have to
    fit in a frame. *)
Theorem call_is_the_handler net addr delay t n :
  net addr = mkConnecting delay (Some (served_by n)) → delay <= t →
  (∀ msg, fits (encode_domain msg) →
     (∀ r n', handle_raft_rpc (arrives msg) n = (Ok (Some r), n') → fits (encode_domain r)) →
     node_after n (frame KindRaft (encode_to_vec (encode_domain msg))) = (handle_raft_rpc (arrives msg) n).2 ∧
     call net addr msg t =
       Some match (handle_raft_rpc (arrives msg) n).1 with
            | Ok (Some r) => inr r
            | _ => inl (Message "RPC peer closed connection before reply")
            end) ∧
  (∀ req, fits (to_pb (P := pb.VoteRequest) req) →
     (∀ r n', handle_tx_vote_request req n = (Ok r, n') → fits (to_pb (P := pb.VoteResponse_) r)) →
     node_after n (frame KindVote (encode_to_vec (to_pb (P := pb.VoteRequest) req))) = (handle_tx_vote_request req n).2 ∧
     send_tx_vote_rpc net addr req t =
       Some match (handle_tx_vote_request req n).1 with
            | Ok r => inr r
            | _ => inl (Message "Vote RPC peer closed connection before reply")
            end).
Proof.
  intros Hnet Ht. split; intros x Hx Hr; unfold node_after.
  - rewrite served_raft by done. split; [done|]. by eapply raft_call_eq.
  - rewrite served_vote by done. split; [done|]. by eapply vote_call_eq.
Qed.

(** ** Bytes from anyone *)

(** [bytes] begin with a whole frame around [payload]: the byte of the kind, the length of the payload in four bytes, the
    most significant first, and the payload, which has at most 16 MiB. *)
Definition starts_with_frame (kind : DispatchKind) (payload bytes : list Z) : Prop :=
  ∃ b3 b2 b1 b0 rest,
    bytes = (match kind with KindRaft => 1 | KindVote => 2 end) :: b3 :: b2 :: b1 :: b0 :: payload ++ rest ∧
    Z.of_nat (length payload) = b3 * 16777216 + b2 * 65536 + b1 * 256 + b0 ∧
    Z.of_nat (length payload) <= 16777216.

Lemma from_be_bytes_sum b3 b2 b1 b0 : byte b3 → byte b2 → byte b1 → byte b0 →
  from_be_bytes [b3; b2; b1; b0] = b3 * 16777216 + b2 * 65536 + b1 * 256 + b0.
Proof. intros. unfold from_be_bytes. cbn [foldl]. rewrite !shift_lor by done. lia. Qed.

(** The kind is read off the first byte. *)
Lemma discriminator_inv bytes k s : read_envelope_discriminator bytes = (Ok (Some k), s) →
  bytes = (match k with KindRaft => 1 | KindVote => 2 end) :: s.
Proof.
  unfold read_envelope_discriminator, read_or_eof, read_exact, mbind, M_bind, of_option. destruct bytes as [|b bytes]; [done|].
  simpl. unfold from_byte. rewrite drop_0. destruct (Z.eqb_spec b 1) as [->|]; [by intros [= <- <-]|].
  destruct (Z.eqb_spec b 2) as [->|]; [by intros [= <- <-]|done].
Qed.

(** What [read_envelope_payload] returns was all there, and as long as announced. *)
Lemma payload_inv s p rest : Forall byte s → read_envelope_payload s = (Ok (Some p), rest) →
  ∃ b3 b2 b1 b0, s = b3 :: b2 :: b1 :: b0 :: p ++ rest ∧
    Z.of_nat (length p) = b3 * 16777216 + b2 * 65536 + b1 * 256 + b0 ∧ Z.of_nat (length p) <= 16777216.
Proof.
  intros Hs. unfold read_envelope_payload, read_or_eof, mbind, M_bind. unfold read_exact at 1.
  destruct s as [|b3 [|b2 [|b1 [|b0 s]]]]; try done. cbn [length Nat.ltb Nat.leb take drop].
  repeat match goal with H : Forall byte (_ :: _) |- _ => apply Forall_cons in H as [? H] end.
  unfold read_body. rewrite from_be_bytes_sum by done. set (len := _ + b0).
  assert (0 <= len) by (unfold len, byte in *; lia).
  destruct (Z.ltb_spec MAX_FRAME_BYTES len) as [|Hmax]; [done|]. unfold read_exact. rewrite drop_0.
  destruct (Nat.ltb_spec (length s) (Z.to_nat len)); [done|]. intros [= <- <-].
  exists b3, b2, b1, b0. rewrite take_drop. unfold MAX_FRAME_BYTES in Hmax. fold len. rewrite !length_take. split_and!; [done|lia..].
Qed.

(** And it returns it. *)
Lemma payload_whole b3 b2 b1 b0 p rest : byte b3 → byte b2 → byte b1 → byte b0 →
  Z.of_nat (length p) = b3 * 16777216 + b2 * 65536 + b1 * 256 + b0 → Z.of_nat (length p) <= 16777216 →
  read_envelope_payload (b3 :: b2 :: b1 :: b0 :: p ++ rest) = (Ok (Some p), rest).
Proof.
  intros ? ? ? ? Hl Hm. unfold read_envelope_payload, read_or_eof, mbind, M_bind.
  change (b3 :: b2 :: b1 :: b0 :: p ++ rest) with ([b3; b2; b1; b0] ++ p ++ rest). rewrite (read_exact_app 4) by done. unfold read_body. rewrite from_be_bytes_sum, <- Hl by done.
  unfold MAX_FRAME_BYTES. replace (_ <? _) with false by lia. by rewrite Nat2Z.id, read_exact_app.
Qed.

(** C37: only a well-formed request reaches the node. Whatever bytes arrive on a connection, unless they start
    with a whole frame (a known kind, four length bytes, a payload of just that length and at most 16 MiB) whose payload the
    codec decodes as a message of that kind, the node is left exactly as it was and nothing is answered; if they do, the node
    is what its handler makes of the decoded message. *)
Theorem malformed_requests_are_harmless n bytes : Forall byte bytes →
  ((∀ p, starts_with_frame KindRaft p bytes → prost_decode (P := pb.RaftMessage) p = None) →
   (∀ p, starts_with_frame KindVote p bytes → prost_decode (P := pb.VoteRequest) p = None) →
   node_after n bytes = n ∧ served_by n bytes = ([], true)) ∧
  (∀ p m, starts_with_frame KindRaft p bytes → prost_decode p = Some m →
     node_after n bytes = (handle_raft_rpc (decode_domain m) n).2) ∧
  (∀ p m, starts_with_frame KindVote p bytes → prost_decode (P := pb.VoteRequest) p = Some m →
     node_after n bytes = (handle_tx_vote_request (of_pb m) n).2).
Proof.
  intros Hb. unfold node_after, served_by, dispatch, dispatch_logic, on_in, zoom, mbind, M_bind. cbn [c_in]. split_and!.
  - intros HR HV. unfold handle_raft_rpc_inner, handle_vote_rpc_inner, on_in, zoom, of_option, mbind, M_bind.
    destruct (read_envelope_discriminator bytes) as [[[k|]|e] s1] eqn:Ek; [|done..]. apply discriminator_inv in Ek.
    assert (Hs : Forall byte s1) by (subst bytes; by apply Forall_cons in Hb as [_ ?]).
    assert (Hf : ∀ p rest, read_envelope_payload s1 = (Ok (Some p), rest) → starts_with_frame k p bytes).
    { intros p rest (b3 & b2 & b1 & b0 & -> & Hl & Hm)%payload_inv; [|done]. exists b3, b2, b1, b0, rest. by subst. }
    destruct k; cbn [c_in]; (destruct (read_envelope_payload s1) as [[[p|]|e] s2]; [|done..]); cbn.
    + by rewrite (HR p) by (by eapply Hf).
    + by rewrite (HV p) by (by eapply Hf).
  - intros p m (b3 & b2 & b1 & b0 & rest & -> & Hl & Hm) Hd.
    repeat match goal with H : Forall byte (_ :: _) |- _ => apply Forall_cons in H as [? H] end.
    change (1 :: ?s) with (kind_byte KindRaft :: s). rewrite read_discriminator_cons.
    unfold handle_raft_rpc_inner, on_in, on_node, zoom, of_option, mbind, M_bind. cbn [c_in].
    rewrite payload_whole, Hd by done. cbn. destruct (handle_raft_rpc _ n) as [[[r|]|e] n']; [|done..].
    unfold on_out, zoom. simpl. by destruct (write_envelope _ _ _).
  - intros p m (b3 & b2 & b1 & b0 & rest & -> & Hl & Hm) Hd.
    repeat match goal with H : Forall byte (_ :: _) |- _ => apply Forall_cons in H as [? H] end.
    change (2 :: ?s) with (kind_byte KindVote :: s). rewrite read_discriminator_cons.
    unfold handle_vote_rpc_inner, on_in, on_node, zoom, of_option, mbind, M_bind. cbn [c_in].
    rewrite payload_whole, Hd by done. cbn. destruct (handle_tx_vote_request _ n) as [[r|e] n']; [|done].
    unfold on_out, zoom. simpl. by destruct (write_envelope _ _ _).
Qed.

(** A peer that accepts the connection and then says nothing keeps the caller
    waiting, whatever timeout was given: the timeout covers the connection only. *)
Lemma silent_peer_blocks_call net addr msg t :
  net addr = mkConnecting 0 (Some (λ _, ([], false))) → 0 <= t → fits (encode_domain msg) →
  call net addr msg t = None.
Proof.
  intros Hnet Ht Hm. unfold call. rewrite (connect_in_time net addr 0 (λ _, ([], false)) t Hnet Ht).
  by rewrite exchange_eq by apply Hm.
Qed.
End calls.

(** ** A codec for the executions: the number of the value in a table *)

#[export] Instance pb_raft_message_dec : EqDecision pb.RaftMessage.
Proof.
  intros x y. unfold Decision.
  repeat (first [ apply (decide_rel (=)) | decide equality ]).
Defined.
#[export] Instance pb_vote_request_dec : EqDecision pb.VoteRequest.
Proof. solve_decision. Defined.
#[export] Instance pb_vote_response_dec : EqDecision pb.VoteResponse_.
Proof. solve_decision. Defined.

Definition table_prost {P} `{EqDecision P} (tbl : list P) : Prost P := {|
  encode_to_vec p := [Z.of_nat (from_option fst O (list_find (p =.) tbl))];
  prost_decode bs := match bs with [b] => tbl !! Z.to_nat b | _ => None end;
  prost_valid p := p ∈ tbl;
|}.

Lemma table_prost_laws {P} `{EqDecision P} (tbl : list P) : @ProstLaws P (table_prost tbl).
Proof.
  intros p Hp. simpl in *. destruct (list_find_elem_of (p =.) tbl p Hp eq_refl) as [[i x] Hf].
  rewrite Hf. simpl. apply list_find_Some in Hf as (Hi & <- & _). by rewrite Nat2Z.id.
Qed.

(** ** Witnesses *)

Import Codec.

Definition ask : RaftMessage := RequestVote (mkRequestVote 1 "a" 0 0).
Definition grant : RaftMessage := VoteResponse (mkVoteResponse 1 true).
Definition poll : TxVoteRequest := mkTxVoteRequest 1 "t" 0 0.
Definition poll_reply : TxVoteResponse :=
  match (handle_tx_vote_request poll (new_node "b" ["a"; "c"])).1 with Ok r => r | Err _ => mkTxVoteResponse 0 false EmptyString end.

#[local] Instance sample_raft : Prost pb.RaftMessage := table_prost [encode_domain ask; encode_domain grant].
#[local] Instance sample_request : Prost pb.VoteRequest := table_prost [to_pb poll].
#[local] Instance sample_response : Prost pb.VoteResponse_ := table_prost [to_pb poll_reply].
#[local] Instance sample_raft_laws : ProstLaws pb.RaftMessage := table_prost_laws _.
#[local] Instance sample_request_laws : ProstLaws pb.VoteRequest := table_prost_laws _.
#[local] Instance sample_response_laws : ProstLaws pb.VoteResponse_ := table_prost_laws _.

Lemma ask_fits : fits (encode_domain ask).
Proof. split; [left|vm_compute; congruence]. Qed.
Lemma grant_fits : fits (encode_domain grant).
Proof. split; [right; left|vm_compute; congruence]. Qed.
Lemma ask_granted : (handle_raft_rpc (arrives ask) (new_node "b" ["a"; "c"])).1 = Ok (Some grant).
Proof. vm_compute. reflexivity. Qed.

Lemma call_is_the_handler_witness :
  call (λ _, mkConnecting 3 (Some (served_by (new_node "b" ["a"; "c"])))) "b" ask 1000 = Some (inr grant).
Proof.
  destruct (call_is_the_handler (λ _, mkConnecting 3 (Some (served_by (new_node "b" ["a"; "c"])))) "b" 3 1000
    (new_node "b" ["a"; "c"]) eq_refl ltac:(lia)) as [H _].
  destruct (H ask ask_fits) as [_ E].
  - intros r n' Hr. pose proof ask_granted as Hg. rewrite Hr in Hg. injection Hg as ->. apply grant_fits.
  - rewrite ask_granted in E. exact E.
Defined.

Lemma malformed_requests_are_harmless_witness :
  node_after (new_node "b" ["a"; "c"]) [1; 0; 0; 0; 9; 7] = new_node "b" ["a"; "c"].
Proof.
  destruct (malformed_requests_are_harmless (new_node "b" ["a"; "c"]) [1; 0; 0; 0; 9; 7]) as [H _].
  - repeat (constructor; [split; [discriminate|reflexivity]|]). constructor.
  - apply H; intros p (b3 & b2 & b1 & b0 & rest & E & Hl & _); [|discriminate E]. injection E as <- <- <- <- E.
    apply (f_equal length) in E. rewrite length_app in E. simpl in *. lia.
Defined.

(** ** Failures as the transport reports them *)

Section failures.
Context {PR : Prost pb.RaftMessage} (texts : rpc_error → string * string).

(** A peer that is too slow to accept gives a timeout of zero, one that closes early a protocol error; a message
    too large to send never leaves the node. *)
Lemma failed_sends_are_classified net to msg :
  (raft_timeout_ms msg < c_after (net to) → tcp_send_raft texts net to msg = Some (inl (net.Timeout 0))) ∧
  (c_after (net to) <= raft_timeout_ms msg → c_peer (net to) = Some (λ _, ([], true)) → fits (encode_domain msg) →
     tcp_send_raft texts net to msg = Some (inl (net.Protocol "RPC peer closed connection before reply"))) ∧
  (∀ peer, connect net to (raft_timeout_ms msg) = inr peer →
     MAX_FRAME_BYTES < Z.of_nat (length (encode_to_vec (encode_domain msg))) →
     tcp_send_raft texts net to msg = Some (inl (classify_rpc_err texts (Io InvalidInput)))).
Proof.
  unfold tcp_send_raft, call. split_and!.
  - intros Hlt. unfold connect. by replace (_ <? _) with true by lia.
  - intros Hle Hp Hm. rewrite (connect_in_time net to (c_after (net to)) (λ _, ([], true))); [|by destruct (net to); simpl in *; subst|done].
    by rewrite exchange_eq by apply Hm.
  - intros peer -> Hlong. unfold exchange. rewrite write_envelope_eq.
    by replace (MAX_FRAME_BYTES <? _) with true by lia.
Qed.

Lemma timeout_is_reported_as_zero net to msg : raft_timeout_ms msg < c_after (net to) →
  (λ r, match r with inl e => transport_error_display e | inr _ => EmptyString end) <$> tcp_send_raft texts net to msg
    = Some "rpc timeout after 0ns".
Proof. intros Hlt. by rewrite (proj1 (failed_sends_are_classified net to msg) Hlt). Qed.
End failures.
