(* ===== verification/SimTransport.v ===== *)
(** * The simulated network ([src/rust/oxide-kv/src/raft/sim_transport.rs], [src/rust/oxide-kv/src/raft/clock.rs])

    Nodes exchange messages through one queue per node. A send is an [async]
    function: [start_send] is its part up to the first await, [poll_send] what it does when the runtime
    polls it. [serve_one] is one round of a node's serve loop. [step] is the step relation: sends, polls, rounds, stops and
    the passage of time in any order. Replies travel through one-shot
    channels, one per pushed message, identified by the number of the send. *)

From stdpp Require Import prelude gmap strings pretty sorting countable list.
From S2P Require Import Prelude Serde Display Protocol StateMachine Storage Rpc Proto FaultScheduler Node Timer Transport Net.
#[local] Open Scope Z_scope.

(** ** The virtual clock *)

Record SimClock := mkSimClock { epoch : Z; offset : Z }.

Definition sim_clock_with_epoch (e : Z) : SimClock := mkSimClock e 0.
Definition virtual_offset (c : SimClock) : Z := offset c.
Definition sim_now (c : SimClock) : Z := epoch c + offset c.
(** What a [sleep] does to the clock when it ends. *)
Definition sleep_done (ms : Z) (c : SimClock) : SimClock := mkSimClock (epoch c) (offset c + ms).

(** However the ends of several sleeps interleave, the clock has advanced by
    their sum: sleeps that overlap in time count one after the other. *)
Lemma sim_clock_adds_up sleeps e :
  sim_now (foldl (λ c ms, sleep_done ms c) (sim_clock_with_epoch e) sleeps) = e + foldr Z.add 0 sleeps.
Proof.
  assert (H : ∀ c, sim_now (foldl (λ c ms, sleep_done ms c) c sleeps) = sim_now c + foldr Z.add 0 sleeps).
  { induction sleeps as [|ms sleeps IH]; intros c; simpl; [lia|]. rewrite IH.
    unfold sim_now. simpl. lia. }
  rewrite H. unfold sim_now. simpl. lia.
Qed.

(** ** Channels *)

Record InboundMessage := mkInbound {
  im_from : string;
  im_body : InboundMessageBody;
  im_reply : option nat;      (** the one-shot sender *)
}.

Definition INBOUND_CAPACITY : nat := 256.

(** An [mpsc] channel; closed once its receiver is dropped. [ch_owner] is the node it was registered for. *)
Record Channel := mkChannel { ch_owner : string; ch_queue : list InboundMessage; ch_open : bool }.

Definition with_queue (q : list InboundMessage) (c : Channel) : Channel := mkChannel (ch_owner c) q (ch_open c).
Definition close (c : Channel) : Channel := mkChannel (ch_owner c) [] false.

Section network.
Context {S : Type} {FS : FaultScheduler S}.

Record Network := mkNetwork {
  net_peers : gmap string nat;       (** node id to channel *)
  channels : list Channel;
  rpc_timeout : Z;
  scheduler : S;
}.

Definition with_scheduler (rpc_timeout : Z) (s : S) : Network := mkNetwork ∅ [] rpc_timeout s.

(** The receiver of the new channel, and the network. *)
Definition register (node_id : string) (net : Network) : nat * Network :=
  let rx := length (channels net) in
  (rx, mkNetwork (<[node_id := rx]> (net_peers net)) (channels net ++ [mkChannel node_id [] true])
         (rpc_timeout net) (scheduler net)).

(** The same body; the sender in the map is replaced. *)
Definition re_register (node_id : string) (net : Network) : nat * Network := register node_id net.

Definition net_lookup (net : Network) (to : string) : option nat := net_peers net !! to.

Definition on_channel (f : Channel → Channel) (ch : nat) (net : Network) : Network :=
  mkNetwork (net_peers net) (alter f ch (channels net)) (rpc_timeout net) (scheduler net).

(** ** Sends *)

Inductive phase :=
  | Dropped (till : Z)                         (** sleeps, then reports a timeout *)
  | Delayed (till : Z)                         (** sleeps, then pushes *)
  | Pushing (deadline : option Z)              (** waits for room in the queue *)
  | Awaiting (deadline : option Z)             (** pushed; waits for the reply *)
  | Finished (r : net.TransportError + InboundMessageBody).

(** A call of [send_raft] or [send_vote], or the task spawned to push a duplicate of one: [s_copy_of] is then the number of
    the call. *)
Record send := mkSend {
  s_from : string;
  s_to : string;
  s_chan : nat;
  s_body : InboundMessageBody;
  s_copy_of : option nat;
  s_phase : phase;
}.

Definition with_phase (p : phase) (s : send) : send :=
  mkSend (s_from s) (s_to s) (s_chan s) (s_body s) (s_copy_of s) p.

(** The spawned task is not under the timeout. *)
Definition s_timed (s : send) : bool := bool_decide (s_copy_of s = None).

(** [w_replies]: what was put into the one-shot channels. [w_handled]: for every
    message a serve loop took, the send it came from, the node before, and the answer. *)
Record World := mkWorld {
  w_time : Z;
  w_net : Network;
  w_sends : list send;
  w_replies : gmap nat (net.TransportError + InboundMessageBody);
  w_nodes : gmap string RaftNode;
  w_serving : gmap string nat;        (** the receiver each serve loop holds *)
  w_handled : list (nat * string * RaftNode * (net.TransportError + InboundMessageBody));
}.

Definition set_net (net : Network) (w : World) : World :=
  mkWorld (w_time w) net (w_sends w) (w_replies w) (w_nodes w) (w_serving w) (w_handled w).
Definition set_sends (ss : list send) (w : World) : World :=
  mkWorld (w_time w) (w_net w) ss (w_replies w) (w_nodes w) (w_serving w) (w_handled w).
Definition set_phase (i : nat) (p : phase) (w : World) : World :=
  set_sends (alter (with_phase p) i (w_sends w)) w.

(** [send_raft] and [send_vote] up to their first await: look the peer up, ask the scheduler. *)
Definition start_send (self_id to : string) (body : InboundMessageBody) (w : World) : World :=
  let net := w_net w in
  let add ss w := set_sends (w_sends w ++ ss) w in
  match net_lookup net to with
  | None =>
      add [mkSend self_id to 0 body None
             (Finished (inl (net.Unreachable ("peer " +:+ to +:+ " not registered"))))] w
  | Some ch =>
      let '(outcome, sched) := before_send (mkLink self_id to) body (scheduler net) in
      let w := set_net (mkNetwork (net_peers net) (channels net) (rpc_timeout net) sched) w in
      let timed p := mkSend self_id to ch body None p in
      let push := Pushing (Some (w_time w + rpc_timeout net)) in
      match outcome with
      | Drop => add [timed (Dropped (w_time w + rpc_timeout net))] w
      | Delay d => add [timed (Delayed (w_time w + d))] w
      | Duplicate d =>
          add [timed push; mkSend self_id to ch body (Some (length (w_sends w))) (Delayed (w_time w + d))] w
      | Deliver => add [timed push] w
      end
  end.

Definition expired (deadline : option Z) (now : Z) : bool :=
  match deadline with Some d => d <=? now | None => false end.

(** [push_with_reply], one poll: push when there is room, then look for the reply.
    [timeout] polls it before it looks at the deadline. *)
Definition poll_send (i : nat) (w : World) : World :=
  match w_sends w !! i with
  | None => w
  | Some s =>
      let net := w_net w in
      let timed_out := Finished (inl (net.Timeout (rpc_timeout net))) in
      match s_phase s with
      | Dropped till => if till <=? w_time w then set_phase i timed_out w else w
      | Delayed till =>
          if till <=? w_time w then
            set_phase i (Pushing (if s_timed s then Some (w_time w + rpc_timeout net) else None)) w
          else w
      | Pushing deadline =>
          match channels net !! s_chan s with
          | Some (mkChannel _ queue true) =>
              if (length queue <? INBOUND_CAPACITY)%nat then
                set_phase i (Awaiting deadline)
                  (set_net (on_channel (with_queue (queue ++ [mkInbound (s_from s) (s_body s) (Some i)]))
                    (s_chan s) net) w)
              else if expired deadline (w_time w) then set_phase i timed_out w else w
          | _ => set_phase i (Finished (inl (net.Unreachable "peer inbound channel closed"))) w
          end
      | Awaiting deadline =>
          match w_replies w !! i with
          | Some r => set_phase i (Finished r) w
          | None => if expired deadline (w_time w) then set_phase i timed_out w else w
          end
      | Finished _ => w
      end
  end.

(** The variant number of a message, and [{:?}] of its [Discriminant]. *)
Definition discriminant (m : RaftMessage) : Z :=
  match m with
  | RequestVote _ => 0 | VoteResponse _ => 1 | AppendEntries _ => 2 | AppendReply _ => 3
  | InstallSnapshot _ => 4 | InstallSnapshotReply _ => 5 | RequestPreVote _ => 6
  | PreVoteResponse _ => 7 | JoinCluster _ => 8 | JoinClusterReply _ => 9
  end.

Definition discriminant_debug (m : RaftMessage) : string := "Discriminant(" +:+ pretty (discriminant m) +:+ ")".

(** What [send_raft] and [send_vote] make of the body that came back. *)
Definition raft_result (r : net.TransportError + InboundMessageBody) : net.TransportError + RaftMessage :=
  match r with
  | inl e => inl e
  | inr (Raft reply) => inr reply
  | inr (Vote _) => inl (net.Protocol "raft peer returned a vote request instead of a raft reply")
  | inr (VoteReply _) => inl (net.Protocol "raft peer returned a vote reply instead of a raft reply")
  end.

Definition vote_result_of (r : net.TransportError + InboundMessageBody) : net.TransportError + TxVoteResponse :=
  match r with
  | inl e => inl e
  | inr (VoteReply reply) => inr reply
  | inr (Vote _) => inl (net.Protocol "vote peer returned a vote request instead of a vote reply")
  | inr (Raft other) => inl (net.Protocol ("vote peer returned non-vote reply: " +:+ discriminant_debug other))
  end.

(** ** The serve loop *)

Section serve.
Context {JW : Json WalOp} {JE : Json (list SSTEntry)} {JM : Json SSTableMeta}.
Context {BL : Bincode LogEntry} {JV : Json Value} {JS : Json Snapshot}.

(** The answer to a message, and the node after it; [None]: the handler panicked. *)
Definition serve_body (body : InboundMessageBody) (n : RaftNode) :
    option (net.TransportError + InboundMessageBody) * RaftNode :=
  match body with
  | Raft msg =>
      match dispatch_raft_message msg n with
      | (Ok (Some reply), n') => (Some (inr (Raft reply)), n')
      | (Ok None, n') =>
          (Some (inl (net.Protocol ("unexpected inbound reply variant: " +:+ discriminant_debug msg))), n')
      | (Err _, n') => (None, n')
      end
  | Vote req =>
      match handle_tx_vote_request req n with
      | (Ok reply, n') => (Some (inr (VoteReply reply)), n')
      | (Err _, n') => (None, n')
      end
  | VoteReply _ => (Some (inl (net.Protocol "received VoteReply without a preceding Vote request")), n)
  end.

Definition canceled : net.TransportError + InboundMessageBody :=
  inl (net.Protocol "reply oneshot canceled before delivery").

(** The one-shot senders of messages that are thrown away. *)
Definition cancel (msgs : list InboundMessage) (replies : gmap nat (net.TransportError + InboundMessageBody)) :
    gmap nat (net.TransportError + InboundMessageBody) :=
  foldr (λ m rs, match im_reply m with Some i => <[i := canceled]> rs | None => rs end) replies msgs.

(** The loop ends: its receiver is dropped with everything queued in it. *)
Definition end_serve (id : string) (w : World) : World :=
  match w_serving w !! id with
  | None => w
  | Some ch =>
      let queue := from_option ch_queue [] (channels (w_net w) !! ch) in
      mkWorld (w_time w) (on_channel close ch (w_net w)) (w_sends w)
        (cancel queue (w_replies w)) (w_nodes w) (base.delete id (w_serving w)) (w_handled w)
  end.

(** One round of the loop of node [id]. A panic unwinds the task: the reply is
    canceled and the receiver dropped. *)
Definition serve_one (id : string) (w : World) : World :=
  match w_serving w !! id with
  | None => w
  | Some ch =>
      match channels (w_net w) !! ch, w_nodes w !! id with
      | Some (mkChannel _ (m :: queue) _), Some n =>
          let '(answer, n') := serve_body (im_body m) n in
          let r := default canceled answer in
          let w1 :=
            mkWorld (w_time w) (on_channel (with_queue queue) ch (w_net w)) (w_sends w)
              (match im_reply m with Some i => <[i := r]> (w_replies w) | None => w_replies w end)
              (<[id := n']> (w_nodes w)) (w_serving w)
              (match im_reply m with Some i => w_handled w ++ [(i, id, n, r)] | None => w_handled w end) in
          match answer with Some _ => w1 | None => end_serve id w1 end
      | _, _ => w
      end
  end.

(** [SimTransport::serve]: the loop takes the receiver. *)
Definition start_serve (id : string) (rx : nat) (w : World) : World :=
  mkWorld (w_time w) (w_net w) (w_sends w) (w_replies w) (w_nodes w) (<[id := rx]> (w_serving w)) (w_handled w).

(** What [SimCluster::restart_node] does to the network: the old loop is stopped, the node gets a new channel
    and a new loop. *)
Definition reconnect (id : string) (w : World) : World :=
  let w := end_serve id w in
  let '(rx, net) := re_register id (w_net w) in
  start_serve id rx (set_net net w).

(** ** The step relation *)

Inductive label :=
  | LSend (self_id to : string) (body : InboundMessageBody)
  | LPoll (i : nat)
  | LServe (id : string)
  | LStop (id : string)
  | LRestart (id : string)
  | LNode (id : string) (f : RaftNode → RaftNode)     (** anything else a node does *)
  | LTime (ms : N).

Definition step (l : label) (w : World) : World :=
  match l with
  | LSend self_id to body => start_send self_id to body w
  | LPoll i => poll_send i w
  | LServe id => serve_one id w
  | LStop id => end_serve id w
  | LRestart id => reconnect id w
  | LNode id f =>
      mkWorld (w_time w) (w_net w) (w_sends w) (w_replies w) (alter f id (w_nodes w)) (w_serving w) (w_handled w)
  | LTime ms =>
      mkWorld (w_time w + Z.of_N ms) (w_net w) (w_sends w) (w_replies w) (w_nodes w) (w_serving w) (w_handled w)
  end.

Definition steps (ls : list label) (w : World) : World := foldl (λ w l, step l w) w ls.

(** A network with its nodes registered and served, before any message. *)
Definition quiet (w : World) : Prop :=
  w_sends w = [] ∧ w_replies w = ∅ ∧ w_handled w = [] ∧ Forall (λ c, ch_queue c = []) (channels (w_net w)).
End serve.
End network.

Arguments Network : clear implicits.
Arguments World : clear implicits.
