(* ===== verification/SimTheorems.v ===== *)
(** * What the simulated network guarantees

    An invariant of every run of the network, under any scheduler and any interleaving, and
    the comparison of a simulated call with a call over TCP. *)

From stdpp Require Import prelude gmap strings pretty sorting countable list.
From Stdlib Require Import QArith_base.
From S2P Require Import Prelude Serde Display Protocol StateMachine Storage Instances Rpc Proto FaultScheduler Node Samples Timer Transport Net NetTheorems SimTransport.
#[local] Open Scope Z_scope.

Lemma list_alter_Some {A} (f : A → A) i (l : list A) j y : alter f i l !! j = Some y →
  (i = j ∧ ∃ x, l !! i = Some x ∧ y = f x) ∨ (i ≠ j ∧ l !! j = Some y).
Proof.
  rewrite list_lookup_alter. case_decide as E; [|by right]. intros H. left. split; [done|].
  by destruct (l !! i) as [x|]; simplify_eq/=; exists x.
Qed.

Section invariant.
Context {S : Type} {FS : FaultScheduler S}.
Context {JW : Json WalOp} {JE : Json (list SSTEntry)} {JM : Json SSTableMeta}.
Context {BL : Bincode LogEntry} {JV : Json Value} {JS : Json Snapshot}.

Definition pushed (s : send) : Prop := match s_phase s with Awaiting _ | Finished _ => True | _ => False end.
Definition finished (s : send) : Prop := match s_phase s with Finished _ => True | _ => False end.

(** The request of a send does not change, and what was pushed stays pushed. *)
Definition send_le (s s' : send) : Prop :=
  s_to s' = s_to s ∧ s_chan s' = s_chan s ∧ s_body s' = s_body s ∧ (pushed s → pushed s').

Definition sends_le (ss ss' : list send) : Prop :=
  ∀ i s, ss !! i = Some s → ∃ s', ss' !! i = Some s' ∧ send_le s s'.

Abbreviation reply := (net.TransportError + InboundMessageBody)%type.
Abbreviation handling := (nat * string * RaftNode * reply)%type.

Definition handled_id (h : handling) : nat := h.1.1.1.

(** The queues, the one-shot channels and the messages handled agree with the
    sends. *)
Record agree (chs : list Channel) (ss : list send) (rs : gmap nat reply)
    (hs : list handling) : Prop := {
  a_queue ch c m : chs !! ch = Some c → m ∈ ch_queue c →
    ∃ i s, im_reply m = Some i ∧ ss !! i = Some s ∧ im_body m = s_body s ∧ s_chan s = ch ∧
      s_to s = ch_owner c ∧ pushed s ∧ rs !! i = None;
  a_once ch c : chs !! ch = Some c → NoDup (im_reply <$> ch_queue c);
  a_handled i id n r : (i, id, n, r) ∈ hs → rs !! i = Some r ∧
    ∃ s, ss !! i = Some s ∧ pushed s ∧ id = s_to s ∧ r = default canceled (serve_body (s_body s) n).1;
  a_handled_once : NoDup (handled_id <$> hs);
  a_replies i r : rs !! i = Some r → (∃ s, ss !! i = Some s ∧ pushed s) ∧
    (r = canceled ∨ ∃ id n, (i, id, n, r) ∈ hs);
}.

Lemma agree_mono chs ss ss' rs hs : agree chs ss rs hs → sends_le ss ss' → agree chs ss' rs hs.
Proof.
  intros [A1 A2 A3 A4 A5] Hle. split; [|done| |done|].
  - intros ch c m Hc Hm. destruct (A1 ch c m Hc Hm) as (i & s & E1 & E2 & E3 & E4 & E5 & E6 & E7).
    destruct (Hle i s E2) as (s' & Hs' & T & Ch & B & P). exists i, s'.
    rewrite T, Ch, B. split_and!; auto.
  - intros i id n r Hh. destruct (A3 i id n r Hh) as (E & s & Hs & P & -> & ->). split; [done|].
    destruct (Hle i s Hs) as (s' & Hs' & T & Ch & B & P'). exists s'. rewrite T, B. auto.
  - intros i r Hr. destruct (A5 i r Hr) as ((s & Hs & P) & H). split; [|done].
    destruct (Hle i s Hs) as (s' & Hs' & T & Ch & B & P'). exists s'. auto.
Qed.

(** Channel [ch] is a channel of node [id]. *)
Definition owns (chs : list Channel) (id : string) (ch : nat) : Prop := ch_owner <$> chs !! ch = Some id.

(** What else holds of a send: where its message goes, and where its answer comes from. *)
Definition send_ok (chs : list Channel) (rs : gmap nat reply) (i : nat) (s : send) : Prop :=
  (finished s ∨ owns chs (s_to s) (s_chan s)) ∧
  (∀ b, s_phase s = Finished (inr b) → rs !! i = Some (inr b)).

(** Senders reach, and serve loops read, a channel of their node. *)
Record routed (w : World S) : Prop := {
  ro_peers id ch : net_peers (w_net w) !! id = Some ch → owns (channels (w_net w)) id ch;
  ro_serving id ch : w_serving w !! id = Some ch → owns (channels (w_net w)) id ch;
}.

Record inv (w : World S) : Prop := {
  i_agree : agree (channels (w_net w)) (w_sends w) (w_replies w) (w_handled w);
  i_sends i s : w_sends w !! i = Some s → send_ok (channels (w_net w)) (w_replies w) i s;
  i_routed : routed w;
}.

(** Channels are added and change their contents; their owners stay. *)
Definition chans_le (chs chs' : list Channel) : Prop := ∀ id ch, owns chs id ch → owns chs' id ch.

Lemma chans_le_alter f ch chs : (∀ c, ch_owner (f c) = ch_owner c) → chans_le chs (alter f ch chs).
Proof.
  intros Hf id ch'. unfold owns. destruct (decide (ch = ch')) as [<-|Hne].
  - rewrite list_lookup_alter_eq. destruct (chs !! ch); simpl; [by rewrite Hf|done].
  - by rewrite list_lookup_alter_ne.
Qed.

(** ** Changes of the sends alone *)

Lemma sends_le_app ss ss' : sends_le ss (ss ++ ss').
Proof. intros i s Hs. exists s. rewrite lookup_app_l by (by eapply lookup_lt_Some). by split. Qed.

Lemma inv_add ss w : inv w →
  Forall (λ s, (finished s ∨ owns (channels (w_net w)) (s_to s) (s_chan s)) ∧ ∀ b, s_phase s ≠ Finished (inr b)) ss →
  inv (set_sends (w_sends w ++ ss) w).
Proof.
  intros [A B R] Hss. split; simpl; [|intros i s|by destruct R].
  - eapply agree_mono; [exact A|apply sends_le_app].
  - intros [Hs|[_ Hs]]%lookup_app_Some; [by apply B|]. rewrite Forall_lookup in Hss.
    destruct (Hss _ _ Hs) as [H1 H2]. split; [done|]. intros b Hb. by destruct (H2 b).
Qed.

Lemma sends_le_alter ss i s p : ss !! i = Some s → (pushed s → pushed (with_phase p s)) →
  sends_le ss (alter (with_phase p) i ss).
Proof.
  intros Hi Hp j x Hx. destruct (decide (i = j)) as [<-|Hne].
  - exists (with_phase p s). rewrite list_lookup_alter_eq, Hi. simplify_eq. by split_and!.
  - exists x. rewrite list_lookup_alter_ne by done. by split.
Qed.

Lemma inv_set_phase i s p w : inv w → w_sends w !! i = Some s →
  (pushed s → pushed (with_phase p s)) → (finished s → finished (with_phase p s)) →
  (∀ b, p = Finished (inr b) → w_replies w !! i = Some (inr b)) → inv (set_phase i p w).
Proof.
  intros [A B R] Hi Hp Hf Hb. split; simpl; [|intros j x|by destruct R].
  - eapply agree_mono; [exact A|by eapply sends_le_alter].
  - intros Hx. destruct (decide (i = j)) as [<-|Hne].
    + rewrite list_lookup_alter_eq, Hi in Hx. simplify_eq/=. destruct (B i s Hi) as [[?|?] _]; (split; [|done]); auto.
    + rewrite list_lookup_alter_ne in Hx by done. by apply B.
Qed.

Lemma inv_start_send self_id dst body w : inv w → inv (start_send self_id dst body w).
Proof.
  intros I. unfold start_send, net_lookup. destruct (net_peers (w_net w) !! dst) as [ch|] eqn:E.
  - destruct (before_send _ _ _) as [o sched]. set (w' := set_net _ w).
    assert (I' : inv w') by (destruct I as [? ? []]; split; [done..|by split]).
    pose proof (ro_peers w (i_routed w I) dst ch E) as Ho.
    destruct o; apply (inv_add _ w' I');
      repeat (apply Forall_cons_2 || apply Forall_nil_2); split; by auto.
  - apply (inv_add _ w I). apply Forall_singleton. split; [by left|done].
Qed.

(** ** Polls *)

Lemma unpushed_unseen w i s : inv w → w_sends w !! i = Some s → ¬ pushed s → w_replies w !! i = None.
Proof.
  intros [A _ _] Hi Hp. destruct (w_replies w !! i) as [r|] eqn:E; [|done].
  destruct (a_replies _ _ _ _ A i r E) as ((s' & Hs' & P) & _). by simplify_eq.
Qed.

(** A message enters the queue. *)
Lemma agree_push chs ss rs hs i s c deadline : agree chs ss rs hs →
  ss !! i = Some s → ¬ pushed s → rs !! i = None → chs !! s_chan s = Some c → ch_owner c = s_to s →
  agree (alter (with_queue (ch_queue c ++ [mkInbound (s_from s) (s_body s) (Some i)])) (s_chan s) chs)
    (alter (with_phase (Awaiting deadline)) i ss) rs hs.
Proof.
  intros A Hi Hp Hr Hq Hs. set (ss' := alter _ i ss).
  assert (A' : agree chs ss' rs hs) by (eapply agree_mono; [exact A|by eapply sends_le_alter]).
  assert (Hi' : ss' !! i = Some (with_phase (Awaiting deadline) s)).
  { unfold ss'. by rewrite list_lookup_alter_eq, Hi. }
  split; [| |apply A'|apply A'|apply A'].
  - intros ch x m Hc Hm. destruct (decide (s_chan s = ch)) as [<-|Hne].
    + rewrite list_lookup_alter_eq, Hq in Hc. simplify_eq/=.
      apply elem_of_app in Hm as [Hm|Hm%list_elem_of_singleton]; [by apply (a_queue _ _ _ _ A' _ _ m Hq)|].
      subst m. exists i, (with_phase (Awaiting deadline) s). by split_and!.
    + rewrite list_lookup_alter_ne in Hc by done. by apply (a_queue _ _ _ _ A' ch x m).
  - intros ch x Hc. destruct (decide (s_chan s = ch)) as [<-|Hne].
    + rewrite list_lookup_alter_eq, Hq in Hc. simplify_eq/=. rewrite fmap_app. apply NoDup_app.
      split_and!; [apply (a_once _ _ _ _ A _ _ Hq)| |apply NoDup_singleton].
      intros y Hx Hin%list_elem_of_singleton. subst y. apply list_elem_of_fmap in Hx as (m & Em & Hm).
      destruct (a_queue _ _ _ _ A _ _ m Hq Hm) as (j & s' & E1 & E2 & _ & _ & _ & P & _).
      rewrite <- Em in E1. simpl in E1. by simplify_eq.
    + rewrite list_lookup_alter_ne in Hc by done. by apply (a_once _ _ _ _ A ch x).
Qed.

Lemma routed_le w (w' : World S) : routed w → chans_le (channels (w_net w)) (channels (w_net w')) →
  net_peers (w_net w') = net_peers (w_net w) →
  (∀ id ch, w_serving w' !! id = Some ch → w_serving w !! id = Some ch) → routed w'.
Proof. intros [R1 R2] Hle Ep Hsv. split; intros id ch; rewrite ?Ep; auto. Qed.

Lemma send_ok_le chs chs' rs i s : chans_le chs chs' → send_ok chs rs i s → send_ok chs' rs i s.
Proof. intros Hle [[?|?] ?]; split; auto. Qed.

Lemma inv_poll i w : inv w → inv (poll_send i w).
Proof.
  intros I. unfold poll_send. destruct (w_sends w !! i) as [s|] eqn:Hi; [|done].
  destruct (s_phase s) as [till|till|dl|dl|r] eqn:Ep; [| | | |done].
  - case_match; [|done]. by apply (inv_set_phase i s); unfold pushed, finished; rewrite ?Ep.
  - case_match; [|done]. by apply (inv_set_phase i s); unfold pushed, finished; rewrite ?Ep.
  - assert (Hr : w_replies w !! i = None) by (eapply unpushed_unseen; [done..|]; unfold pushed; rewrite Ep; tauto).
    destruct (channels (w_net w) !! s_chan s) as [[o q [|]]|] eqn:Eq;
      [|by apply (inv_set_phase i s); unfold pushed, finished; rewrite ?Ep..].
    case_match; [|case_match; [|done]; by apply (inv_set_phase i s); unfold pushed, finished; rewrite ?Ep].
    destruct I as [A B R]. destruct (B i s Hi) as [[Hf|Hs] _]; [unfold finished in Hf; by rewrite Ep in Hf|].
    assert (Hle : ∀ q', chans_le (channels (w_net w)) (alter (with_queue q') (s_chan s) (channels (w_net w))))
      by (intros; by apply chans_le_alter).
    split; simpl; [|intros j x Hx|].
    + apply (agree_push _ _ _ _ i s (mkChannel o q true)); try done; [unfold pushed; rewrite Ep; tauto|].
      unfold owns in Hs. rewrite Eq in Hs. by injection Hs.
    + apply (send_ok_le _ _ _ _ _ (Hle _)). destruct (decide (i = j)) as [<-|Hne].
      * rewrite list_lookup_alter_eq, Hi in Hx. simplify_eq/=. split; [by right|done].
      * rewrite list_lookup_alter_ne in Hx by done. by apply B.
    + apply (routed_le w); try done. apply Hle.
  - destruct (w_replies w !! i) as [r|] eqn:Er.
    + apply (inv_set_phase i s); try done; unfold pushed, finished; rewrite ?Ep; [done..|].
      intros b [= ->]. done.
    + case_match; [|done]. by apply (inv_set_phase i s); unfold pushed, finished; rewrite ?Ep.
Qed.

(** ** The serve loop *)

Lemma cancel_lookup (q : list InboundMessage) (rs : gmap nat reply) i :
  cancel q rs !! i = if bool_decide (Some i ∈ im_reply <$> q) then Some canceled else rs !! i.
Proof.
  induction q as [|m q IH]; [done|]. simpl. destruct (im_reply m) as [j|] eqn:Ej.
  - destruct (decide (i = j)) as [->|Hne].
    + rewrite lookup_insert_eq, bool_decide_true; [done|]. by left.
    + rewrite lookup_insert_ne, IH by done. apply (f_equal (λ b : bool, if b then _ else _)).
      apply bool_decide_ext. rewrite elem_of_cons. naive_solver.
  - rewrite IH. apply (f_equal (λ b : bool, if b then _ else _)).
    apply bool_decide_ext. rewrite elem_of_cons. naive_solver.
Qed.

(** The receiver of a channel is dropped. *)
Lemma agree_close chs ss rs hs ch : agree chs ss rs hs →
  agree (alter close ch chs) ss (cancel (from_option ch_queue [] (chs !! ch)) rs) hs.
Proof.
  intros A. set (q := from_option ch_queue [] (chs !! ch)).
  assert (Hq : ∀ i, Some i ∈ im_reply <$> q → rs !! i = None ∧ ∃ s, ss !! i = Some s ∧ pushed s ∧ s_chan s = ch).
  { intros i (m & Em & Hm)%list_elem_of_fmap. unfold q in Hm. destruct (chs !! ch) as [c|] eqn:Ec; [|by apply elem_of_nil in Hm].
    destruct (a_queue _ _ _ _ A ch c m Ec Hm) as (j & s & E1 & E2 & _ & E4 & _ & E6 & E7).
    rewrite E1 in Em. simplify_eq. eauto. }
  split.
  - intros ch' c m Hc Hm. destruct (decide (ch = ch')) as [<-|Hne].
    { rewrite list_lookup_alter_eq in Hc. destruct (chs !! ch); simplify_eq/=. by apply elem_of_nil in Hm. }
    rewrite list_lookup_alter_ne in Hc by done.
    destruct (a_queue _ _ _ _ A ch' c m Hc Hm) as (i & s & E1 & E2 & E3 & E4 & E5 & E6 & E7).
    exists i, s. split_and!; try done. rewrite cancel_lookup, bool_decide_false; [done|].
    intros Hin. destruct (Hq i Hin) as (_ & s' & ? & _ & ?). by simplify_eq.
  - intros ch' c Hc. destruct (decide (ch = ch')) as [<-|Hne].
    { rewrite list_lookup_alter_eq in Hc. destruct (chs !! ch); simplify_eq/=. constructor. }
    rewrite list_lookup_alter_ne in Hc by done. by apply (a_once _ _ _ _ A ch' c).
  - intros i id n r Hh. destruct (a_handled _ _ _ _ A i id n r Hh) as [E H]. split; [|done].
    rewrite cancel_lookup, bool_decide_false; [done|]. intros Hin. destruct (Hq i Hin). congruence.
  - apply A.
  - intros i r. rewrite cancel_lookup. case_bool_decide as Hin; [|apply A].
    intros [= <-]. destruct (Hq i Hin) as (_ & s & ? & ? & _). eauto.
Qed.

(** A message leaves its queue and is handled. *)
Lemma agree_take chs ss rs hs ch m q o b i s n :
  agree chs ss rs hs → chs !! ch = Some (mkChannel o (m :: q) b) →
  im_reply m = Some i → ss !! i = Some s → im_body m = s_body s →
  let r := default canceled (serve_body (im_body m) n).1 in
  agree (alter (with_queue q) ch chs) ss (<[i := r]> rs) (hs ++ [(i, s_to s, n, r)]).
Proof.
  intros A Hc Hm Hs Hb r.
  destruct (a_queue _ _ _ _ A ch _ m Hc ltac:(by left)) as (i' & s' & E1 & E2 & _ & E4 & _ & E6 & E7).
  simplify_eq. pose proof (a_once _ _ _ _ A _ _ Hc) as HN. simpl in HN. apply NoDup_cons in HN as [HN HN'].
  split.
  - intros ch c x Hx Hin.
    assert (Hx' : ∃ c', chs !! ch = Some c' ∧ ch_owner c = ch_owner c' ∧ x ∈ ch_queue c' ∧ (ch = s_chan s → x ∈ q)).
    { destruct (decide (s_chan s = ch)) as [<-|Hne].
      - rewrite list_lookup_alter_eq, Hc in Hx. simplify_eq/=. eexists. split_and!; [exact Hc|done|by right|done].
      - rewrite list_lookup_alter_ne in Hx by done. by exists c. }
    destruct Hx' as (c' & Hc' & Ho & Hin' & Hq). rewrite Ho.
    destruct (a_queue _ _ _ _ A ch c' x Hc' Hin') as (j & t & F1 & F2 & F3 & F4 & F5 & F6 & F7).
    exists j, t. split_and!; try done. rewrite lookup_insert_ne; [done|]. intros <-. simplify_eq.
    apply HN. rewrite Hm, <- F1. apply list_elem_of_fmap_2. by apply Hq.
  - intros ch c Hx. destruct (decide (s_chan s = ch)) as [<-|Hne].
    + rewrite list_lookup_alter_eq, Hc in Hx. by simplify_eq/=.
    + rewrite list_lookup_alter_ne in Hx by done. by apply (a_once _ _ _ _ A ch c).
  - intros j id n' r' [Hh|Hh%list_elem_of_singleton]%elem_of_app.
    + destruct (a_handled _ _ _ _ A j id n' r' Hh) as [E H]. split; [|done].
      rewrite lookup_insert_ne; [done|]. intros <-. congruence.
    + simplify_eq. rewrite lookup_insert_eq. split; [done|]. exists s. unfold r. by rewrite Hb.
  - rewrite fmap_app. apply NoDup_app. split_and!; [apply A| |apply NoDup_singleton].
    intros x Hj ->%list_elem_of_singleton. apply list_elem_of_fmap in Hj as ([[[j id] n'] r'] & Hid & Hh).
    destruct (a_handled _ _ _ _ A _ _ _ _ Hh) as [E _]. unfold handled_id in Hid. simpl in Hid. congruence.
  - intros j r'. destruct (decide (i = j)) as [<-|Hne].
    + rewrite lookup_insert_eq. intros [= <-]. split; [eauto|]. right. exists (s_to s), n.
      apply elem_of_app. right. by left.
    + rewrite lookup_insert_ne by done. intros Hr. destruct (a_replies _ _ _ _ A j r' Hr) as [H1 [H2|(id & n' & H2)]].
      * auto.
      * split; [done|]. right. exists id, n'. apply elem_of_app. by left.
Qed.

(** Answers already given stay, and channels keep their owners. *)
Lemma inv_replies w (w' : World S) : inv w →
  agree (channels (w_net w')) (w_sends w') (w_replies w') (w_handled w') →
  w_sends w' = w_sends w → chans_le (channels (w_net w)) (channels (w_net w')) →
  (∀ i r, w_replies w !! i = Some r → w_replies w' !! i = Some r) → routed w' → inv w'.
Proof.
  intros [A B R] A' Es Hle Hr R'. split; [done| |done].
  intros i s. rewrite Es. intros Hi. apply (send_ok_le _ _ _ _ _ Hle). destruct (B i s Hi) as [H1 H2]. split; auto.
Qed.

Lemma queued_unanswered w ch c m i : inv w → channels (w_net w) !! ch = Some c → m ∈ ch_queue c →
  im_reply m = Some i → w_replies w !! i = None.
Proof.
  intros I Hc Hm Hi. destruct (a_queue _ _ _ _ (i_agree w I) ch c m Hc Hm) as (j & s & E & _ & _ & _ & _ & _ & ?).
  congruence.
Qed.

Lemma inv_end_serve id w : inv w → inv (end_serve id w).
Proof.
  intros I. unfold end_serve. destruct (w_serving w !! id) as [ch|] eqn:E; [|done].
  assert (Hle : chans_le (channels (w_net w)) (alter close ch (channels (w_net w)))) by (by apply chans_le_alter).
  apply (inv_replies w); simpl; try done.
  - apply agree_close, I.
  - intros i r Hr. rewrite cancel_lookup, bool_decide_false; [done|].
    intros (m & Em & Hm)%list_elem_of_fmap. destruct (channels (w_net w) !! ch) as [c|] eqn:Ec; [|by apply elem_of_nil in Hm].
    simpl in Hm. pose proof (queued_unanswered w ch c m i I Ec Hm (eq_sym Em)). congruence.
  - apply (routed_le w); [apply I|done|done|]. intros id' ch'. simpl. rewrite lookup_delete_Some. by intros [_ ?].
Qed.

Lemma inv_serve_one id w : inv w → inv (serve_one id w).
Proof.
  intros I. unfold serve_one. destruct (w_serving w !! id) as [ch|] eqn:Es; [|done].
  destruct (channels (w_net w) !! ch) as [[o [|m q] b]|] eqn:Ec; try done.
  destruct (w_nodes w !! id) as [n|] eqn:En; [|done].
  destruct (serve_body (im_body m) n) as [answer n'] eqn:Eb.
  pose proof (i_agree w I) as A.
  destruct (a_queue _ _ _ _ A ch _ m Ec ltac:(by left)) as (i & s & E1 & E2 & E3 & E4 & E5 & E6 & E7).
  rewrite E1. set (w1 := mkWorld _ _ _ _ _ _ _).
  assert (Hle : chans_le (channels (w_net w)) (alter (with_queue q) ch (channels (w_net w)))) by (by apply chans_le_alter).
  assert (I1 : inv w1).
  { apply (inv_replies w); simpl; try done.
    - pose proof (agree_take _ _ _ _ ch m q o b i s n A Ec E1 E2 E3) as H. simpl in H. rewrite Eb in H. simpl in H.
      pose proof (ro_serving w (i_routed w I) id ch Es) as Ho. unfold owns in Ho. rewrite Ec in Ho.
      simpl in Ho, E5. simplify_eq. exact H.
    - intros j r Hr. rewrite lookup_insert_ne; [done|]. intros <-. congruence.
    - by apply (routed_le w); [apply I|..]. }
  destruct answer; [done|by apply inv_end_serve].
Qed.

(** A new channel, for a node that is not served. *)
Lemma inv_reconnect id w : inv w → inv (reconnect id w).
Proof.
  intros I0. pose proof (inv_end_serve id w I0) as I. unfold reconnect. set (w1 := end_serve id w) in *. clearbody w1.
  unfold re_register, register, start_serve, set_net. simpl. destruct I as [A B R].
  set (chs := channels (w_net w1)) in *. set (c := mkChannel id [] true).
  assert (Hle : chans_le chs (chs ++ [c])).
  { intros id' ch. unfold owns. destruct (chs !! ch) as [x|] eqn:E; [|done]. by rewrite lookup_app_l, E by (by eapply lookup_lt_Some). }
  assert (Hnew : owns (chs ++ [c]) id (length chs)) by (unfold owns; by rewrite list_lookup_middle).
  split; simpl.
  - split; [| |apply A|apply A|apply A].
    + intros ch x m [Hx|[_ Hx]]%lookup_app_Some Hm; [by apply (a_queue _ _ _ _ A ch x m)|].
      apply list_lookup_singleton_Some in Hx as [_ <-]. by apply elem_of_nil in Hm.
    + intros ch x [Hx|[_ Hx]]%lookup_app_Some; [by apply (a_once _ _ _ _ A ch x)|].
      apply list_lookup_singleton_Some in Hx as [_ <-]. constructor.
  - intros i s Hs. apply (send_ok_le _ _ _ _ _ Hle). by apply B.
  - destruct R as [R1 R2].
    split; simpl; intros id' ch; rewrite lookup_insert_Some; intros [[<- <-]|[_ H]]; auto.
Qed.

Lemma inv_step l w : inv w → inv (step l w).
Proof.
  intros I. destruct l; simpl;
    [by apply inv_start_send|by apply inv_poll|by apply inv_serve_one|by apply inv_end_serve|by apply inv_reconnect|..];
    destruct I as [A B []]; by split.
Qed.

Lemma inv_steps ls w : inv w → inv (steps ls w).
Proof. revert w. induction ls as [|l ls IH]; intros w I; [done|]. apply IH. by apply inv_step. Qed.

Lemma inv_quiet w : quiet w → routed w → inv w.
Proof.
  intros (E1 & E2 & E3 & E4) R. rewrite Forall_lookup in E4. split; [|intros i s; by rewrite E1|done].
  rewrite E1, E2, E3. split.
  - intros ch c m Hc. rewrite (E4 ch c Hc). by intros Hm%elem_of_nil.
  - intros ch c Hc. rewrite (E4 ch c Hc). constructor.
  - intros i id n r Hh. by apply elem_of_nil in Hh.
  - constructor.
  - done.
Qed.

(** ** Duplicates *)

(** A copy comes right after the call it copies, and carries the same message to the same node. *)
Definition copies_ok (ss : list send) : Prop := ∀ j s i, ss !! j = Some s → s_copy_of s = Some i →
  j = Datatypes.S i ∧ ∃ s0, ss !! i = Some s0 ∧ s_copy_of s0 = None ∧ s_to s0 = s_to s ∧ s_body s0 = s_body s.

Lemma copies_alter i p ss : copies_ok ss → copies_ok (alter (with_phase p) i ss).
Proof.
  intros H j s k Hj Hc. assert (Hs : ∃ s1, ss !! j = Some s1 ∧ s_copy_of s1 = s_copy_of s ∧ s_to s1 = s_to s ∧ s_body s1 = s_body s).
  { apply list_alter_Some in Hj as [(-> & s1 & Hj & ->)|[_ Hj]]; eauto 10. }
  destruct Hs as (s1 & Hj1 & E1 & E2 & E3). rewrite <- E1 in Hc. destruct (H j s1 k Hj1 Hc) as (-> & s0 & H0 & C0 & T0 & B0).
  split; [done|]. rewrite list_lookup_alter. case_decide.
  - subst k. rewrite H0. simpl. eexists. split_and!; [done|done|..]; simpl; congruence.
  - exists s0. split_and!; try done; congruence.
Qed.

Lemma copies_snoc ss s : copies_ok ss → s_copy_of s = None → copies_ok (ss ++ [s]).
Proof.
  intros H Hs j x i [Hj|[Hl Hj]]%lookup_app_Some Hc.
  - destruct (H j x i Hj Hc) as (-> & s0 & H0 & ?). split; [done|]. exists s0. by rewrite lookup_app_l by (by eapply lookup_lt_Some).
  - apply list_lookup_singleton_Some in Hj as [_ <-]. congruence.
Qed.

Lemma copies_start_send self_id dst body w : copies_ok (w_sends w) → copies_ok (w_sends (start_send self_id dst body w)).
Proof.
  intros H. unfold start_send. destruct (net_lookup (w_net w) dst) as [ch|]; [|by apply copies_snoc].
  destruct (before_send _ _ _) as [[| |d|d] sched]; try (by apply copies_snoc). simpl. set (s := mkSend _ _ _ _ None _).
  set (s' := mkSend _ _ _ _ (Some _) _).
  change [s; s'] with ([s] ++ [s']). rewrite app_assoc.
  intros j x i [Hj|[Hl Hj]]%lookup_app_Some Hc.
  - destruct (copies_snoc _ s H eq_refl j x i Hj Hc) as (-> & s0 & H0 & ?). split; [done|]. exists s0.
    by rewrite lookup_app_l by (by eapply lookup_lt_Some).
  - apply list_lookup_singleton_Some in Hj as [Ej <-]. injection Hc as <-. rewrite length_app in *. simpl in *.
    split; [lia|]. exists s. rewrite <- app_assoc. split; [by apply list_lookup_middle|done].
Qed.

Lemma sends_end_serve id (w : World S) : w_sends (end_serve id w) = w_sends w.
Proof. unfold end_serve. by case_match. Qed.

Lemma sends_serve_one id (w : World S) : w_sends (serve_one id w) = w_sends w.
Proof.
  unfold serve_one. destruct (w_serving w !! id) as [ch|]; [|done].
  destruct (channels (w_net w) !! ch) as [[o [|m q] b]|], (w_nodes w !! id) as [n|]; try done.
  destruct (serve_body _ _) as [[]]; [done|]. by rewrite sends_end_serve.
Qed.

(** A relation on the sends that starting a send and moving a phase keep. *)
Lemma sends_steps (P : list send → Prop) ls (w : World S) :
  (∀ self_id dst body (w : World S), P (w_sends w) → P (w_sends (start_send self_id dst body w))) →
  (∀ i p ss, P ss → P (alter (with_phase p) i ss)) → P (w_sends w) → P (w_sends (steps ls w)).
Proof.
  intros Hs Ha. revert w. induction ls as [|l ls IH]; intros w H; [done|]. apply IH.
  destruct l as [self_id dst body|i|id|id|id|id f|ms]; simpl; try done.
  - by apply Hs.
  - unfold poll_send. repeat case_match; try done; by apply Ha.
  - by rewrite sends_serve_one.
  - by rewrite sends_end_serve.
  - unfold reconnect. simpl. by rewrite sends_end_serve.
Qed.

Definition never_duplicates : Prop := ∀ link body (sched : S) d, (before_send link body sched).1 ≠ Duplicate d.

Definition no_copies (ss : list send) : Prop := Forall (λ s, s_copy_of s = None) ss.

Lemma no_copies_start_send self_id dst body w : never_duplicates → no_copies (w_sends w) →
  no_copies (w_sends (start_send self_id dst body w)).
Proof.
  intros Hnd H. unfold start_send. destruct (net_lookup (w_net w) dst) as [ch|].
  - pose proof (Hnd (mkLink self_id dst) body (scheduler (w_net w))) as Hd.
    destruct (before_send _ _ _) as [[| |d|d] sched]; simpl in *; try (apply Forall_app; by split; [|repeat constructor]).
    by destruct (Hd d).
  - apply Forall_app. split; [done|]. by repeat constructor.
Qed.

(** The call a pushed message stands for, and how often the message of a call was handled. *)
Definition origin (w : World S) (i : nat) : nat := default i (w_sends w !! i ≫= s_copy_of).
Definition handlings (i : nat) (w : World S) : list handling := filter (λ h, origin w (handled_id h) = i) (w_handled w).

Lemma handlings_bound i (w : World S) k : NoDup (handled_id <$> w_handled w) → (∀ j, origin w j = i → j ∈ k) →
  (length (handlings i w) <= length k)%nat.
Proof.
  intros Hn Hk. rewrite <- (length_fmap handled_id). apply submseteq_length, NoDup_submseteq.
  - eapply sublist_NoDup; [exact Hn|]. apply fmap_sublist, sublist_filter.
  - intros j (h & -> & Hh)%list_elem_of_fmap. apply list_elem_of_filter in Hh as [Ho _]. by apply Hk.
Qed.

(** C14: replies match requests. In every run of the simulated network, under any fault schedule and any
    interleaving of sends, polls, serve rounds, crashes, restarts and time: the message of a call is handled at most twice (once as
    it is, and once as the copy that a scheduler may order), and at most once when the scheduler orders no copies; it is handled
    by the node it was addressed to, and what is put back is that node's answer to it; and a call that
    returns a reply returns the answer to its own request. *)
Theorem replies_match_requests ls w0 :
  quiet w0 → routed w0 →
  let w := steps ls w0 in
  (∀ i, (length (handlings i w) <= 2)%nat) ∧
  (never_duplicates → ∀ i, (length (handlings i w) <= 1)%nat) ∧
  (∀ i id n r, (i, id, n, r) ∈ w_handled w →
     ∃ s, w_sends w !! origin w i = Some s ∧ s_copy_of s = None ∧ id = s_to s ∧ r = default canceled (serve_body (s_body s) n).1) ∧
  (∀ i s b, w_sends w !! i = Some s → s_phase s = Finished (inr b) →
     ∃ n, (i, s_to s, n, inr b) ∈ w_handled w ∧ (serve_body (s_body s) n).1 = Some (inr b)).
Proof.
  intros Hq Hr w. assert (I : inv w) by (apply inv_steps, inv_quiet; done). pose proof (i_agree w I) as A.
  assert (C : copies_ok (w_sends w)).
  { apply (sends_steps copies_ok); [by intros; apply copies_start_send|by intros; apply copies_alter|].
    destruct Hq as [-> _]. by intros j s i Hj. }
  split_and!.
  - intros i. apply (handlings_bound i w [i; Datatypes.S i]); [apply A|]. unfold origin. intros j.
    destruct (w_sends w !! j) as [s|] eqn:Ej; simpl; [|intros ->; by left].
    destruct (s_copy_of s) as [k|] eqn:Ek; simpl; [|intros ->; by left]. intros ->. destruct (C j s i Ej Ek) as [-> _]. right. by left.
  - intros Hnd i. apply (handlings_bound i w [i]); [apply A|]. unfold origin. intros j.
    assert (N : no_copies (w_sends w)).
    { apply (sends_steps no_copies); [by intros; apply no_copies_start_send| |by destruct Hq as [-> _]; constructor].
      intros k p ss H. apply Forall_lookup. intros x s Hx. unfold no_copies in H. rewrite Forall_lookup in H.
      apply list_alter_Some in Hx as [(_ & s1 & Hx & ->)|[_ Hx]]; by apply H in Hx. }
    destruct (w_sends w !! j) as [s|] eqn:Ej; simpl; [|intros ->; by left].
    unfold no_copies in N. rewrite Forall_lookup in N. pose proof (N j s Ej) as En. cbn beta in En. rewrite En. simpl. intros ->. by left.
  - intros i id n r Hh. destruct (a_handled _ _ _ _ A i id n r Hh) as (_ & s & Hs & _ & -> & ->). unfold origin. rewrite Hs. simpl.
    destruct (s_copy_of s) as [k|] eqn:Ek; simpl; [|by exists s].
    destruct (C i s k Hs Ek) as (_ & s0 & H0 & ? & ? & ?). exists s0. split_and!; congruence.
  - intros i s b Hi Hb. destruct (i_sends w I i s Hi) as [_ H]. specialize (H b Hb).
    destruct (a_replies _ _ _ _ A i _ H) as [_ [?|(id & n & Hh)]]; [done|].
    destruct (a_handled _ _ _ _ A i id n _ Hh) as (_ & s' & Hs' & _ & -> & E). simplify_eq. exists n.
    split; [done|]. by destruct (serve_body (s_body s) n).1 as [x|]; simplify_eq/=.
Qed.

(** ** Lost messages *)

(** Send [i] was dropped, and nothing of it is anywhere. *)
Record lost (i : nat) (w : World S) : Prop := {
  lo_phase : ∃ s, w_sends w !! i = Some s ∧
    match s_phase s with
    | Dropped _ => True
    | Finished r => r = inl (net.Timeout (rpc_timeout (w_net w)))
    | _ => False
    end;
  lo_queue ch c m : channels (w_net w) !! ch = Some c → m ∈ ch_queue c → im_reply m ≠ Some i;
  lo_handled : i ∉ handled_id <$> w_handled w;
}.

Lemma lost_frame i (w w' : World S) : lost i w → w_sends w' !! i = w_sends w !! i →
  rpc_timeout (w_net w') = rpc_timeout (w_net w) →
  (∀ ch c' m, channels (w_net w') !! ch = Some c' → m ∈ ch_queue c' → im_reply m = Some i →
     ∃ c, channels (w_net w) !! ch = Some c ∧ m ∈ ch_queue c) →
  (i ∈ handled_id <$> w_handled w' → i ∈ handled_id <$> w_handled w) → lost i w'.
Proof.
  intros [L1 L2 L3] Es Et Hq Hh. split.
  - by rewrite Es, Et.
  - intros ch c' m Hc Hm Hi. destruct (Hq ch c' m Hc Hm Hi) as (c & Hc' & Hm'). by eapply L2.
  - auto.
Qed.

Lemma lost_start_send i self_id dst body w : lost i w → lost i (start_send self_id dst body w).
Proof.
  intros L. destruct (lo_phase i w L) as (s & Hs & _). pose proof (lookup_lt_Some _ _ _ Hs) as Hlt.
  unfold start_send. destruct (net_lookup _ _); [destruct (before_send _ _ _) as [[]]|];
    (apply (lost_frame i w); [done|by apply lookup_app_l|done|eauto|done]).
Qed.

Lemma lost_poll i j w : lost i w → lost i (poll_send j w).
Proof.
  intros L. unfold poll_send. destruct (w_sends w !! j) as [s|] eqn:Ej; [|done].
  destruct (decide (i = j)) as [<-|Hne].
  - pose proof L as [(s' & Hs' & Hp) L2 L3]. rewrite Ej in Hs'. injection Hs' as <-. destruct (s_phase s) eqn:Ep; try done.
    case_match; [|done]. split; [|done|done]. simpl.
    exists (with_phase (Finished (inl (net.Timeout (rpc_timeout (w_net w))))) s).
    by rewrite list_lookup_alter_eq, Ej.
  - assert (Hset : ∀ p, lost i (set_phase j p w)).
    { intros p. apply (lost_frame i w); [done|by apply list_lookup_alter_ne|done|eauto|done]. }
    repeat case_match; try done. apply (lost_frame i w); [done|by apply list_lookup_alter_ne|done| |done].
    simpl. intros ch c' m Hc Hm Hi. apply list_alter_Some in Hc as [(<- & c1 & Hc & ->)|[_ Hc]]; [|eauto].
    simplify_eq/=. apply elem_of_app in Hm as [Hm|Hm%list_elem_of_singleton]; [eauto|by simplify_eq/=].
Qed.

Lemma lost_end_serve i id w : lost i w → lost i (end_serve id w).
Proof.
  intros L. unfold end_serve. destruct (w_serving w !! id) as [ch|]; [|done].
  apply (lost_frame i w); [done|done|done| |done]. simpl. intros ch' c' m Hc Hm _.
  apply list_alter_Some in Hc as [(_ & c & _ & ->)|[_ Hc]]; [by apply elem_of_nil in Hm|eauto].
Qed.

Lemma lost_serve_one i id w : lost i w → lost i (serve_one id w).
Proof.
  intros L. unfold serve_one. destruct (w_serving w !! id) as [ch|]; [|done].
  destruct (channels (w_net w) !! ch) as [[o [|m q] b]|] eqn:Ec; try done.
  destruct (w_nodes w !! id) as [n|]; [|done]. destruct (serve_body (im_body m) n) as [answer n'].
  set (w1 := mkWorld _ _ _ _ _ _ _). assert (L1 : lost i w1).
  { apply (lost_frame i w); [done|done|done|..]; simpl.
    - intros ch' c' x Hc Hx Hi. apply list_alter_Some in Hc as [(<- & c & Hc & ->)|[_ Hc]]; [|eauto].
      simplify_eq/=. eexists. split; [exact Ec|by right].
    - destruct (im_reply m) as [j|] eqn:Ej; [|done]. rewrite fmap_app, elem_of_app.
      intros [?|Hj%list_elem_of_singleton]; [done|]. unfold handled_id in Hj. simpl in Hj. subst j.
      by destruct (lo_queue i w L ch _ m Ec ltac:(by left)). }
  destruct answer; [done|by apply lost_end_serve].
Qed.

Lemma lost_reconnect i id w : lost i w → lost i (reconnect id w).
Proof.
  intros L. apply (lost_frame i (end_serve id w)); [by apply lost_end_serve|done|done| |done].
  simpl. intros ch c m [Hc|[_ Hc]]%lookup_app_Some Hm _; [eauto|].
  apply list_lookup_singleton_Some in Hc as [_ <-]. by apply elem_of_nil in Hm.
Qed.

Lemma lost_steps i ls w : lost i w → lost i (steps ls w).
Proof.
  revert w. induction ls as [|l ls IH]; intros w L; [done|]. apply IH.
  destruct l; simpl;
    [by apply lost_start_send|by apply lost_poll|by apply lost_serve_one|by apply lost_end_serve|by apply lost_reconnect|..];
    by apply (lost_frame i w); [|done|done|eauto|].
Qed.

Lemma dropped_is_lost i s w till : inv w → w_sends w !! i = Some s → s_phase s = Dropped till → lost i w.
Proof.
  intros [A _ _] Hi Hp. assert (Hn : ¬ pushed s) by (unfold pushed; rewrite Hp; tauto). split.
  - exists s. by rewrite Hp.
  - intros ch c m Hc Hm Hr. destruct (a_queue _ _ _ _ A ch c m Hc Hm) as (j & s' & ? & ? & _ & _ & _ & P & _).
    by simplify_eq.
  - intros ([[[j id] n] r] & Hj & Hh)%list_elem_of_fmap. unfold handled_id in Hj. simpl in Hj. subst j.
    destruct (a_handled _ _ _ _ A i id n r Hh) as (_ & s' & ? & P & _). by simplify_eq.
Qed.

(** a dropped message is gone. In any run in which the scheduler drops a message, no node ever handles it, however the run
    continues; its sender waits, and the first poll at or after the timeout returns [Timeout] with the
    network's timeout. *)
Theorem dropped_messages_are_lost ls w0 i s till ls' :
  quiet w0 → routed w0 →
  w_sends (steps ls w0) !! i = Some s → s_phase s = Dropped till →
  let w := steps ls' (steps ls w0) in
  i ∉ handled_id <$> w_handled w ∧
  ∃ s', w_sends w !! i = Some s' ∧
    match s_phase s' with
    | Dropped t => t <= w_time w →
        s_phase <$> w_sends (poll_send i w) !! i = Some (Finished (inl (net.Timeout (rpc_timeout (w_net w)))))
    | Finished r => r = inl (net.Timeout (rpc_timeout (w_net w)))
    | _ => False
    end.
Proof.
  intros Hq Hr Hi Hp w. assert (L : lost i w).
  { apply lost_steps. eapply dropped_is_lost; [apply inv_steps, inv_quiet; done|done|done]. }
  split; [apply L|]. destruct (lo_phase i w L) as (s' & Hs' & H). exists s'. split; [done|].
  destruct (s_phase s') eqn:Ep; try done. intros Ht. unfold poll_send. rewrite Hs', Ep.
  replace (till0 <=? w_time w) with true by lia. simpl. by rewrite list_lookup_alter_eq, Hs'.
Qed.
End invariant.

(** ** A simulated call and a call over TCP *)

Section comparison.
Context {S : Type} {FS : FaultScheduler S}.
Context {JW : Json WalOp} {JE : Json (list SSTEntry)} {JM : Json SSTableMeta}.
Context {BL : Bincode LogEntry} {JV : Json Value} {JS : Json Snapshot}.

(** Node [dst] runs [n], is registered and served, and has nothing to do; the scheduler lets the message pass. *)
Record ready (ch : nat) (self_id dst : string) (body : InboundMessageBody) (n : RaftNode) (w : World S) : Prop := {
  re_lookup : net_lookup (w_net w) dst = Some ch;
  re_serving : w_serving w !! dst = Some ch;
  re_idle : channels (w_net w) !! ch = Some (mkChannel dst [] true);
  re_node : w_nodes w !! dst = Some n;
  re_passes : (before_send (mkLink self_id dst) body (scheduler (w_net w))).1 = Deliver;
  re_fresh : w_replies w !! length (w_sends w) = None;
}.

(** Send, push, serve, fetch the reply. *)
Definition round_trip (self_id dst : string) (body : InboundMessageBody) (w : World S) : World S :=
  let i := length (w_sends w) in
  steps [LSend self_id dst body; LPoll i; LServe dst; LPoll i] w.

Definition send_result (i : nat) (w : World S) : option (net.TransportError + InboundMessageBody) :=
  s ← w_sends w !! i; match s_phase s with Finished r => Some r | _ => None end.

Lemma poll_pushes i s o q dl (w : World S) : w_sends w !! i = Some s → s_phase s = Pushing dl →
  channels (w_net w) !! s_chan s = Some (mkChannel o q true) → (length q < INBOUND_CAPACITY)%nat →
  poll_send i w = set_phase i (Awaiting dl) (set_net (on_channel
    (with_queue (q ++ [mkInbound (s_from s) (s_body s) (Some i)])) (s_chan s) (w_net w)) w).
Proof.
  intros Hi Hp Hc Hlt. unfold poll_send. rewrite Hi, Hp, Hc.
  by destruct (Nat.ltb_spec (length q) INBOUND_CAPACITY); [|lia].
Qed.

Lemma poll_fetches i s dl r (w : World S) : w_sends w !! i = Some s → s_phase s = Awaiting dl →
  w_replies w !! i = Some r → poll_send i w = set_phase i (Finished r) w.
Proof. intros Hi Hp Hr. unfold poll_send. by rewrite Hi, Hp, Hr. Qed.

Lemma serve_takes id ch o m i n (w : World S) : w_serving w !! id = Some ch →
  channels (w_net w) !! ch = Some (mkChannel o [m] true) → im_reply m = Some i → w_nodes w !! id = Some n →
  w_sends (serve_one id w) = w_sends w ∧
  w_replies (serve_one id w) !! i = Some (default canceled (serve_body (im_body m) n).1) ∧
  w_nodes (serve_one id w) !! id = Some (serve_body (im_body m) n).2.
Proof.
  intros Hs Hc Hm Hn. unfold serve_one. rewrite Hs, Hc, Hn, Hm.
  destruct (serve_body (im_body m) n) as [[r|] n']; simpl.
  - by rewrite !lookup_insert_eq.
  - unfold end_serve. simpl. rewrite Hs. simpl. rewrite cancel_lookup, !lookup_insert_eq. by case_bool_decide.
Qed.

Lemma round_trip_eq ch self_id dst body n w : ready ch self_id dst body n w →
  send_result (length (w_sends w)) (round_trip self_id dst body w) =
    Some (default canceled (serve_body body n).1) ∧
  w_nodes (round_trip self_id dst body w) !! dst = Some (serve_body body n).2.
Proof.
  intros [Hl Hs Hc Hn Hp Hf]. unfold round_trip, send_result. set (i := length (w_sends w)) in *.
  cbn [steps foldl step]. unfold start_send. rewrite Hl.
  destruct (before_send _ _ _) as [o sched]. simpl in Hp. subst o. cbv zeta.
  set (s := mkSend _ _ _ _ _ _). set (wA := set_sends _ _).
  assert (Hi : w_sends wA !! i = Some s) by (by apply list_lookup_middle).
  rewrite (poll_pushes i s dst [] _ wA Hi eq_refl Hc ltac:(unfold INBOUND_CAPACITY; simpl; lia)).
  set (wB := set_phase _ _ _).
  assert (Hch : channels (w_net wB) !! ch = Some (mkChannel dst [mkInbound self_id body (Some i)] true)).
  { simpl. by rewrite list_lookup_alter_eq, Hc. }
  destruct (serve_takes dst ch dst _ i n wB Hs Hch eq_refl Hn) as (E1 & E2 & E3).
  assert (Hb : w_sends wB !! i = Some (with_phase (Awaiting (Some (w_time w + rpc_timeout (w_net w)))) s)).
  { simpl. rewrite list_lookup_alter_eq. change (_ ++ _) with (w_sends wA). by rewrite Hi. }
  rewrite <- E1 in Hb. rewrite (poll_fetches i _ _ _ _ Hb eq_refl E2). split; [|exact E3].
  simpl. by rewrite list_lookup_alter_eq, Hb.
Qed.

(** The requests both transports know. *)
Definition simulated_request (msg : RaftMessage) : Prop :=
  match msg with RequestVote _ | RequestPreVote _ | AppendEntries _ | InstallSnapshot _ => True | _ => False end.

Lemma dispatch_agrees msg : simulated_request msg → dispatch_raft_message msg = handle_raft_rpc msg.
Proof. by destruct msg. Qed.

Context {PR : Prost pb.RaftMessage} {PQ : Prost pb.VoteRequest} {PP : Prost pb.VoteResponse_}.
Context {LR : ProstLaws pb.RaftMessage}.

(** C25: the simulation runs what production runs. Take a Raft request the simulation knows, whose log entries hold
    commands that belong in a log. On the simulated network the receiver is registered, served and idle, and the scheduler
    delivers the message; over TCP the receiver accepts the connection in time, the codec carries the request and the reply, and both fit in a
    frame of 16 MiB. Then delivering it through the in-memory network and sending it over TCP (conversion,
    codec, framing and dispatch included) leave the receiving node in the same state, and the caller gets the same
    reply, or an error in both cases. *)
Theorem simulation_agrees_with_tcp ch self_id dst msg n (w : World S) net delay t :
  ready ch self_id dst (Raft msg) n w → simulated_request msg → message_ok msg →
  net dst = mkConnecting delay (Some (served_by n)) → delay <= t →
  fits (encode_domain msg) → (∀ r n', handle_raft_rpc msg n = (Ok (Some r), n') → fits (encode_domain r)) →
  let w' := round_trip self_id dst (Raft msg) w in
  w_nodes w' !! dst = Some (node_after n (frame KindRaft (encode_to_vec (encode_domain msg)))) ∧
  match raft_result <$> send_result (length (w_sends w)) w', call net dst msg t with
  | Some (inr reply), Some (inr reply') => reply = reply'
  | Some (inl _), Some (inl _) => True
  | _, _ => False
  end.
Proof.
  intros Hready Hreq Hok Hnet Ht Hm Hr w'. destruct (round_trip_eq ch self_id dst (Raft msg) n w Hready) as [E1 E2].
  assert (Ha : arrives msg = msg).
  { destruct msg; try done. unfold arrives. simpl in Hok. rewrite logged_entries_ok by done. by destruct args. }
  unfold w'. rewrite E1, E2. unfold node_after. rewrite served_raft by (rewrite ?Ha; done). cbn [c_node].
  rewrite (raft_call_eq net dst delay t n msg) by (rewrite ?Ha; done). rewrite Ha.
  unfold serve_body. rewrite dispatch_agrees by done.
  by destruct (handle_raft_rpc msg n) as [[[r|]|e] n'].
Qed.
End comparison.

(** ** Executions *)

Import Codec.

(** Two nodes on one network, each with its serve loop. *)
Definition two_nodes {S} (sched : S) : World S :=
  let '(rxa, net) := register "a" (with_scheduler 2000 sched) in
  let '(rxb, net) := register "b" net in
  mkWorld 0 net [] ∅ {["a" := new_node "a" ["b"]; "b" := new_node "b" ["a"]]} {["a" := rxa; "b" := rxb]} [].

Lemma two_nodes_quiet {S} (sched : S) : quiet (two_nodes sched).
Proof. by repeat constructor. Qed.

Lemma two_nodes_routed {S} (sched : S) : routed (two_nodes sched).
Proof.
  split; intros id ch; unfold two_nodes; simpl;
    rewrite !lookup_insert_Some, ?lookup_singleton_Some, ?lookup_empty; naive_solver.
Qed.

(** A vote request from [a] to [b], pushed, served and answered. *)
Definition ask_run : list label := [LSend "a" "b" (Raft ask); LPoll 0; LServe "b"; LPoll 0].

Lemma ask_run_answered :
  s_phase <$> w_sends (steps ask_run (two_nodes mkAlwaysDeliver)) !! 0%nat = Some (Finished (inr (Raft grant))).
Proof. vm_compute. reflexivity. Qed.

Lemma replies_match_requests_witness :
  let w := steps ask_run (two_nodes mkAlwaysDeliver) in
  (∃ n, (0%nat, "b", n, inr (Raft grant)) ∈ w_handled w) ∧ length (handlings 0 w) = 1%nat ∧ (length (handlings 0 w) <= 1)%nat.
Proof.
  destruct (replies_match_requests ask_run (two_nodes mkAlwaysDeliver) (two_nodes_quiet _) (two_nodes_routed _))
    as (_ & H1 & _ & H).
  split_and!; [|vm_compute; reflexivity|by apply H1; intros link body [] d].
  pose proof ask_run_answered as E. apply fmap_Some in E as (s & Hs & Hp).
  assert (Hto : s_to <$> w_sends (steps ask_run (two_nodes mkAlwaysDeliver)) !! 0%nat = Some "b") by (vm_compute; reflexivity).
  rewrite Hs in Hto. simpl in Hto. injection Hto as Hto.
  destruct (H 0%nat s (Raft grant) Hs (eq_sym Hp)) as (n & Hn & _). exists n. rewrite <- Hto. exact Hn.
Defined.

(** The same with the link from [a] to [b] cut. *)
Lemma dropped_messages_are_lost_witness :
  0%nat ∉ handled_id <$> w_handled
    (steps [LPoll 0; LServe "b"; LTime 2000; LPoll 0] (steps [LSend "a" "b" (Raft ask)] (two_nodes (mkDropLink "a" "b")))).
Proof.
  destruct (w_sends (steps [LSend "a" "b" (Raft ask)] (two_nodes (mkDropLink "a" "b"))) !! 0%nat) as [s|] eqn:E;
    [|vm_compute in E; discriminate E].
  assert (Hp : s_phase s = Dropped 2000) by (vm_compute in E; injection E as <-; reflexivity).
  destruct (dropped_messages_are_lost [LSend "a" "b" (Raft ask)] (two_nodes (mkDropLink "a" "b")) 0 s 2000
    [LPoll 0; LServe "b"; LTime 2000; LPoll 0] (two_nodes_quiet _) (two_nodes_routed _) E Hp) as [H _].
  exact H.
Defined.

#[local] Instance sim_raft : Prost pb.RaftMessage := table_prost [encode_domain ask; encode_domain grant].
#[local] Instance sim_request : Prost pb.VoteRequest := table_prost [].
#[local] Instance sim_response : Prost pb.VoteResponse_ := table_prost [].
#[local] Instance sim_raft_laws : ProstLaws pb.RaftMessage := table_prost_laws _.

Lemma ready_b : ready 1 "a" "b" (Raft ask) (new_node "b" ["a"]) (two_nodes mkAlwaysDeliver).
Proof. split; vm_compute; reflexivity. Qed.

Lemma simulation_agrees_with_tcp_witness :
  w_nodes (round_trip "a" "b" (Raft ask) (two_nodes mkAlwaysDeliver)) !! "b" =
    Some (node_after (new_node "b" ["a"]) (frame KindRaft (encode_to_vec (encode_domain ask)))).
Proof.
  apply (simulation_agrees_with_tcp 1 "a" "b" ask (new_node "b" ["a"]) (two_nodes mkAlwaysDeliver)
    (λ _, mkConnecting 3 (Some (served_by (new_node "b" ["a"])))) 3 1000 ready_b I I eq_refl ltac:(lia)).
  - split; [left|vm_compute; congruence].
  - intros r n' Hr. assert (Hg : (handle_raft_rpc ask (new_node "b" ["a"])).1 = Ok (Some grant)) by (vm_compute; reflexivity).
    rewrite Hr in Hg. injection Hg as ->. split; [right; left|vm_compute; congruence].
Defined.

(** A message delayed by more than the timeout is still answered: the sender sleeps first, and its timeout starts
    only when it pushes. *)
Definition slow : RandomDelay :=
  random_delay_new (mkRng unit tt (λ _, (Finite (0 # 1)%Q, tt))) (Finite (1 # 1)%Q) 5000.

Lemma long_delay_is_no_timeout :
  let w := steps [LSend "a" "b" (Raft ask); LPoll 0; LTime 4999; LPoll 0; LTime 1; LPoll 0; LPoll 0; LServe "b"; LPoll 0]
             (two_nodes slow) in
  rpc_timeout (w_net w) < w_time w ∧
  s_phase <$> w_sends w !! 0%nat = Some (Finished (inr (Raft grant))).
Proof. vm_compute. split; reflexivity. Qed.

(** A duplicated message is handled twice, and the second answer is dropped. *)
Lemma duplicate_is_handled_twice :
  let w := steps (ask_run ++ [LTime 50; LPoll 1; LPoll 1; LServe "b"; LPoll 1]) (two_nodes duplicate_all_default) in
  handled_id <$> w_handled w = [0%nat; 1%nat] ∧ length (handlings 0 w) = 2%nat.
Proof. vm_compute. split; reflexivity. Qed.

(** A request to join is answered over TCP and refused by the simulation, as if it were a reply. *)
Lemma join_is_not_simulated addr n :
  (serve_body (Raft (JoinCluster (mkJoinRequest addr))) n).1 =
    Some (inl (net.Protocol "unexpected inbound reply variant: Discriminant(8)")) ∧
  ∃ r, (handle_raft_rpc (JoinCluster (mkJoinRequest addr)) n).1 = Ok (Some (JoinClusterReply r)).
Proof. split; [done|]. unfold handle_raft_rpc, mbind, M_bind, gets. simpl. eauto. Qed.
