(* ===== verification/SimHarness.v ===== *)
(** * The simulation harness ([src/rust/oxide-kv/src/raft/sim_harness.rs])

    A cluster of nodes on one simulated network, and the operations a test drives it with. An operation that
    panics (an index out of range, a failed assertion, a wait that ran out of time) has no result. The loops
    that wait are given what they see each time they look: the world, and the time they then read. *)

From stdpp Require Import prelude gmap strings pretty sorting countable list.
From S2P Require Import Prelude Serde Display Protocol StateMachine Storage Rpc FaultScheduler Node SimTransport.
#[local] Open Scope Z_scope.

Section harness.
Context {S : Type} {FS : FaultScheduler S}.
Context {JW : Json WalOp} {JE : Json (list SSTEntry)} {JM : Json SSTableMeta}.
Context {BL : Bincode LogEntry} {JV : Json Value} {JS : Json Snapshot}.

(** The ids of the nodes, in order; nodes, channels and serve loops are in the world. *)
Record SimCluster := mkCluster { c_ids : list string; c_world : World S }.

(** [format!("n{}", i)] *)
Definition node_name (i : nat) : string := "n" +:+ pretty i.

(** Registers the ids in order; the receivers, in order. *)
Fixpoint register_all (ids : list string) (net : Network S) : list nat * Network S :=
  match ids with
  | [] => ([], net)
  | id :: ids' =>
      let '(rx, net) := register id net in
      let '(rxs, net) := register_all ids' net in
      (rx :: rxs, net)
  end.

(** A node on an empty temporary directory. *)
Definition sim_node (all : list string) (epoch : Z) (id : string) : option RaftNode :=
  match (sm_open (mkSMConfig (4 * 1024 * 1024)) (mkHost EmptyString ∅ [] epoch)).1 with
  | Err _ => None
  | Ok sm => Some (raft_node_new id (filter (λ p, p ≠ id) all) sm (mkDisk ∅ []) epoch)
  end.

Definition new_n_nodes (n : nat) (sched : S) (epoch : Z) : option SimCluster :=
  if (n <? 1)%nat then None else
  let ids := node_name <$> seq 0 n in
  let '(rxs, net) := register_all ids (with_scheduler 2000 sched) in
  nodes ← mapM (sim_node ids epoch) ids;
  Some (mkCluster ids
    (mkWorld epoch net [] ∅ (list_to_map (zip ids nodes)) (list_to_map (zip ids rxs)) [])).

Definition new_3_nodes (sched : S) (epoch : Z) : option SimCluster := new_n_nodes 3 sched epoch.

(** [self.nodes[i].raft], and a critical section on it. *)
Definition raft_of (i : nat) (c : SimCluster) : option RaftNode :=
  id ← c_ids c !! i; w_nodes (c_world c) !! id.

Definition on_raft {A} (i : nat) (m : M RaftNode A) (c : SimCluster) : option (A * SimCluster) :=
  id ← c_ids c !! i;
  n ← w_nodes (c_world c) !! id;
  match m n with
  | (Ok a, n') => Some (a, mkCluster (c_ids c) (step (LNode id (λ _, n')) (c_world c)))
  | (Err _, _) => None
  end.

(** [become_candidate]: the critical section, and one spawned send per message. *)
Definition campaign (i : nat) (c : SimCluster) : option SimCluster :=
  id ← c_ids c !! i;
  '(out, c) ← on_raft i become_candidate c;
  Some (mkCluster (c_ids c) (steps ((λ om : string * RaftMessage, LSend id om.1 (Raft om.2)) <$> out) (c_world c))).

(** ** Waiting *)

Inductive waiting :=
  | Reached (w : World S)
  | GaveUp (w : World S)
  | StillWaiting.

(** A loop that looks, gives up once the time is past the deadline, and sleeps. *)
Fixpoint poll_loop (done : World S → bool) (deadline : Z) (looks : list (World S * Z)) : waiting :=
  match looks with
  | [] => StillWaiting
  | (w, now) :: looks' =>
      if done w then Reached w
      else if deadline <=? now then GaveUp w
      else poll_loop done deadline looks'
  end.

Definition is_leader (id : string) (w : World S) : bool :=
  match w_nodes w !! id with Some n => bool_decide (state n = Leader) | None => false end.

(** After [campaign]: [GaveUp] is the panic. [start] is when the deadline was computed. *)
Definition drive_election (id : string) (start : Z) (looks : list (World S * Z)) : waiting :=
  poll_loop (is_leader id) (start + 5 * 1000) looks.

Definition try_drive_election (id : string) (timeout start : Z) (looks : list (World S * Z)) : option bool :=
  match poll_loop (is_leader id) (start + timeout) looks with
  | Reached _ => Some true
  | GaveUp _ => Some false
  | StillWaiting => None
  end.

(** Every node whose index is not excluded has applied up to the target. *)
Definition all_applied (ids : list string) (excluded : list nat) (target : Z) (w : World S) : bool :=
  forallb (λ x : nat * string,
    bool_decide (x.1 ∈ excluded) ||
    match w_nodes w !! x.2 with Some n => target <=? last_applied n | None => false end)
    (imap pair ids).

Definition wait_for_replication_except (ids : list string) (target : Z) (excluded : list nat) (timeout start : Z)
    (looks : list (World S * Z)) : waiting :=
  poll_loop (all_applied ids excluded target) (start + timeout) looks.

Definition wait_for_replication (ids : list string) (target timeout start : Z) (looks : list (World S * Z)) : waiting :=
  wait_for_replication_except ids target [] timeout start looks.

(** ** Driving the cluster *)

Definition leader_index (c : SimCluster) : option nat :=
  fst <$> list_find (λ id, is_leader id (c_world c) = true) (c_ids c).

Definition submit_command (i : nat) (command : Command) (c : SimCluster) : option (Z * SimCluster) :=
  n ← raft_of i c;
  let new_index := u64_add (log_len n) 1 in
  '(ok, c) ← on_raft i (propose command) c;
  if (ok : bool) then Some (new_index, c) else None.

Definition submit_set (i : nat) (key value : string) (c : SimCluster) : option (Z * SimCluster) :=
  submit_command i (CSet key value) c.

Definition read_key (i : nat) (key : string) (c : SimCluster) : option (option string) :=
  n ← raft_of i c;
  match (get key (state_machine n)).1 with Ok v => Some v | Err _ => None end.

Definition current_term_of (i : nat) (c : SimCluster) : option Z := current_term <$> raft_of i c.

(** The node forgets that it leads; its serve loop, which is waiting for a message, stops. *)
Definition kill_node (i : nat) (c : SimCluster) : option SimCluster :=
  id ← c_ids c !! i;
  Some (mkCluster (c_ids c) (steps [LNode id (with_state Follower); LStop id; LTime 50] (c_world c))).

Definition restart_node (i : nat) (c : SimCluster) : option SimCluster :=
  id ← c_ids c !! i;
  Some (mkCluster (c_ids c) (steps [LStop id; LTime 50; LRestart id] (c_world c))).

Definition shutdown (c : SimCluster) : SimCluster :=
  mkCluster (c_ids c) (steps ((LStop <$> c_ids c) ++ [LTime 50]) (c_world c)).
End harness.

Arguments SimCluster : clear implicits.
Arguments waiting : clear implicits.
