(* ===== verification/SimRun.v ===== *)
(** * Running the simulated cluster

    [SimTransport] and [SimHarness] leave open in which order the runtime polls the tasks. Here is one such
    order, as a function: in every round the leaders send their heartbeats, time passes, every send is polled, every
    serve loop takes what is queued for it, and the tasks whose answer has come go on ([on_vote_reply], [on_append_reply]). It
    runs the whole composition: nodes, reply tasks, network with its faults, serve loops and harness. *)

From stdpp Require Import prelude gmap strings pretty sorting countable list.
From S2P Require Import Prelude Serde Display Protocol StateMachine Storage Rpc Proto FaultScheduler Node Timer Net SimTransport SimHarness.
#[local] Open Scope Z_scope.

Section run.
Context {S : Type} {FS : FaultScheduler S}.
Context {JW : Json WalOp} {JE : Json (list SSTEntry)} {JM : Json SSTableMeta}.
Context {BL : Bincode LogEntry} {JV : Json Value} {JS : Json Snapshot}.

(** The cluster, the vote counter of every candidacy (node and term), and the sends whose task has ended. *)
Record Sim := mkSim { sim_cluster : SimCluster S; sim_votes : gmap (string * Z) nat; sim_ended : gset nat }.

Definition world (s : Sim) : World S := c_world (sim_cluster s).
Definition set_world (w : World S) (s : Sim) : Sim :=
  mkSim (mkCluster (c_ids (sim_cluster s)) w) (sim_votes s) (sim_ended s).

(** A critical section on a node; an error is a panic of its task. *)
Definition at_sim_node {A} (id : string) (m : M RaftNode A) (s : Sim) : option A * Sim :=
  match w_nodes (world s) !! id with
  | None => (None, s)
  | Some n =>
      let '(r, n') := m n in
      (match r with Ok a => Some a | Err _ => None end, set_world (step (LNode id (λ _, n')) (world s)) s)
  end.

Definition send_all (id : string) (out : outgoing) (s : Sim) : Sim :=
  set_world (steps ((λ om : string * RaftMessage, LSend id om.1 (Raft om.2)) <$> out) (world s)) s.

(** One tick of the heartbeat loop of a node. *)
Definition beat (threshold : Z) (s : Sim) (id : string) : Sim :=
  let '(out, s') := at_sim_node id (heartbeat_tick threshold) s in send_all id (default [] out) s'.

(** Time passes, for the network and for the clocks of the nodes. *)
Definition pass (ms : N) (s : Sim) : Sim :=
  let w := step (LTime ms) (world s) in
  set_world (steps ((λ id, LNode id (with_clock (w_time w))) <$> c_ids (sim_cluster s)) w) s.

(** Every send is polled, every serve loop takes up to [k] messages, every send is polled again. *)
Definition poll_all (w : World S) : World S := steps (LPoll <$> seq 0 (length (w_sends w))) w.
Definition deliver (k : nat) (s : Sim) : Sim :=
  let serve w := steps (LServe <$> c_ids (sim_cluster s)) w in
  set_world (poll_all (Nat.iter k serve (poll_all (world s)))) s.

(** The rest of the task that waited for send [i]. *)
Definition end_task (s : Sim) (i : nat) : Sim :=
  match w_sends (world s) !! i with
  | Some (mkSend from to _ body None (Finished r)) =>
      if bool_decide (i ∈ sim_ended s) then s else
      let s := mkSim (sim_cluster s) (sim_votes s) ({[i]} ∪ sim_ended s) in
      match body, raft_result r with
      | Raft (RequestVote args), inr (VoteResponse reply) =>
          let key := (from, rv_term args) in
          let total := match w_nodes (world s) !! from with Some n => Datatypes.S (length (peers n)) | None => 1%nat end in
          let '(count, s') := at_sim_node from
            (on_vote_reply total (rv_term args) (default 1%nat (sim_votes s !! key)) reply) s in
          mkSim (sim_cluster s')
            (match count with Some c => <[key := c]> (sim_votes s') | None => sim_votes s' end) (sim_ended s')
      | Raft (AppendEntries args), inr (AppendReply reply) => (at_sim_node from (on_append_reply to args reply) s).2
      | _, _ => s
      end
  | _ => s
  end.

Definition end_tasks (s : Sim) : Sim := foldl end_task s (seq 0 (length (w_sends (world s)))).

(** A round lasts one heartbeat interval; the WAL stays below the snapshot threshold. *)
Definition round (s : Sim) : Sim :=
  let s := foldl (beat (64 * 1024 * 1024)) s (c_ids (sim_cluster s)) in
  end_tasks (deliver 8 (pass (Z.to_N heartbeat_interval_ms) s)).

(** A loop of the harness that looks once per round. *)
Fixpoint wait (fuel : nat) (done : World S → bool) (deadline : Z) (s : Sim) : option Sim :=
  match fuel with
  | O => None
  | Datatypes.S fuel' =>
      if done (world s) then Some s
      else if deadline <=? w_time (world s) then None
      else wait fuel' done deadline (round s)
  end.

Fixpoint looks (fuel : nat) (s : Sim) : list (World S * Z) :=
  match fuel with
  | O => []
  | Datatypes.S fuel' => (world s, w_time (world s)) :: looks fuel' (round s)
  end.

(** It is the loop of the harness. *)
Lemma wait_poll fuel done deadline s s' : wait fuel done deadline s = Some s' →
  poll_loop done deadline (looks fuel s) = Reached (world s').
Proof.
  revert s. induction fuel as [|fuel IH]; intros s; simpl; [done|].
  destruct (done (world s)); [by intros [= <-]|]. destruct (deadline <=? w_time (world s)); [done|apply IH].
Qed.

(** Enough rounds for any of the deadlines the tests set. *)
Definition rounds : nat := 100.

Definition start (c : SimCluster S) : Sim := mkSim c ∅ ∅.

(** [drive_election(i)] *)
Definition elects (i : nat) (s : Sim) : option Sim :=
  id ← c_ids (sim_cluster s) !! i;
  c ← campaign i (sim_cluster s);
  let s := mkSim c (sim_votes s) (sim_ended s) in
  wait rounds (is_leader id) (w_time (world s) + 5 * 1000) s.

(** [wait_for_replication_except(target, excluded, timeout)] *)
Definition replicates (target : Z) (excluded : list nat) (timeout : Z) (s : Sim) : option Sim :=
  wait rounds (all_applied (c_ids (sim_cluster s)) excluded target) (w_time (world s) + timeout) s.
End run.

Arguments Sim : clear implicits.
