(* ===== verification/HarnessTheorems.v ===== *)
(** * The simulated cluster

    The cluster the harness builds is wired as the invariant of the network asks, and stays so under every operation of
    the harness; what restarting and submitting do. *)

From stdpp Require Import prelude gmap strings pretty sorting countable list.
From S2P Require Import Prelude Serde Display Protocol StateMachine StateMachineProps Storage StorageProps Instances.
From S2P Require Import Rpc Proto FaultScheduler Node NodeVotes ReferenceModel Refinement NodeLog NodeLeader Samples.
From S2P Require Import Timer Transport Net NetTheorems SimTransport SimTheorems SimHarness.
#[local] Open Scope Z_scope.

Section cluster.
Context {S : Type} {FS : FaultScheduler S}.
Context {JW : Json WalOp} {JE : Json (list SSTEntry)} {JM : Json SSTableMeta}.
Context {BL : Bincode LogEntry} {JV : Json Value} {JS : Json Snapshot}.

(** ** What steps keep *)

(** No node disappears, and none becomes unreachable. *)
Definition world_le (w w' : World S) : Prop :=
  (∀ id, is_Some (w_nodes w !! id) → is_Some (w_nodes w' !! id)) ∧
  (∀ id, is_Some (net_lookup (w_net w) id) → is_Some (net_lookup (w_net w') id)).

#[local] Instance world_le_preorder : PreOrder world_le.
Proof. split; [by intros w|]. intros w1 w2 w3 [A1 B1] [A2 B2]. split; auto. Qed.

Lemma end_serve_le id (w : World S) : world_le w (end_serve id w).
Proof. unfold end_serve. by case_match. Qed.

Lemma is_Some_insert {A} (m : gmap string A) id id' a : is_Some (m !! id') → is_Some (<[id := a]> m !! id').
Proof. intros H. destruct (decide (id = id')) as [<-|Hne]; [by rewrite lookup_insert_eq|by rewrite lookup_insert_ne]. Qed.

Lemma step_le l w : world_le w (step l w).
Proof.
  destruct l as [self_id dst body|i|id|id|id|id f|ms]; simpl.
  - unfold start_send. case_match; [|done]. by destruct (before_send _ _ _) as [[]].
  - unfold poll_send. by repeat case_match.
  - unfold serve_one. destruct (w_serving w !! id) as [ch|]; [|done].
    destruct (channels (w_net w) !! ch) as [[o [|m q] b]|], (w_nodes w !! id) as [n|]; try done.
    destruct (serve_body _ _) as [answer n'].
    assert (H : ∀ rs hs, world_le w (mkWorld (w_time w) (on_channel (with_queue q) ch (w_net w)) (w_sends w) rs
      (<[id := n']> (w_nodes w)) (w_serving w) hs)).
    { intros. split; [|done]. simpl. intros id'. apply is_Some_insert. }
    destruct answer; [apply H|]. etransitivity; [apply H|apply end_serve_le].
  - apply end_serve_le.
  - unfold reconnect. etransitivity; [apply end_serve_le|]. split; simpl; [by auto|].
    unfold net_lookup. simpl. intros id'. apply is_Some_insert.
  - split; [|done]. simpl. intros id'. by rewrite lookup_alter_is_Some.
  - done.
Qed.

Lemma steps_le ls w : world_le w (steps ls w).
Proof.
  revert w. induction ls as [|l ls IH]; intros w; [by simpl|]. etransitivity; [apply step_le|apply IH].
Qed.

(** Node [id] is up: the channel under its name is open and its serve loop reads it. It is down: it has no serve loop, and the
    channel is closed. *)
Definition up (w : World S) (id : string) : Prop :=
  ∃ ch, net_lookup (w_net w) id = Some ch ∧ w_serving w !! id = Some ch ∧ ch_open <$> channels (w_net w) !! ch = Some true.
Definition down (w : World S) (id : string) : Prop :=
  ∃ ch, net_lookup (w_net w) id = Some ch ∧ w_serving w !! id = None ∧ ch_open <$> channels (w_net w) !! ch = Some false.

(** A registered node is up or down. *)
Definition served (w : World S) : Prop := ∀ id, is_Some (net_lookup (w_net w) id) → up w id ∨ down w id.

(** Who is up and who is down is a matter of these. *)
Definition same_wiring (w w' : World S) : Prop :=
  net_peers (w_net w') = net_peers (w_net w) ∧ w_serving w' = w_serving w ∧
  ∀ ch, ch_open <$> channels (w_net w') !! ch = ch_open <$> channels (w_net w) !! ch.

#[local] Instance same_wiring_preorder : PreOrder same_wiring.
Proof. split; [by intros w|]. intros w1 w2 w3 (A1 & B1 & C1) (A2 & B2 & C2). split_and!; [congruence..|]. intros ch. by rewrite C2. Qed.

Lemma same_up w w' id : same_wiring w w' → up w' id ↔ up w id.
Proof. intros (A & B & C). unfold up, net_lookup. rewrite A, B. by setoid_rewrite C. Qed.

Lemma same_down w w' id : same_wiring w w' → down w' id ↔ down w id.
Proof. intros (A & B & C). unfold down, net_lookup. rewrite A, B. by setoid_rewrite C. Qed.

Lemma served_frame (w w' : World S) : served w → same_wiring w w' → served w'.
Proof.
  intros Hs H id Hid. rewrite (same_up w w'), (same_down w w') by done. apply Hs. destruct H as (A & _). unfold net_lookup in *.
  by rewrite <- A.
Qed.

Lemma alter_same_open (f : Channel → Channel) ch (chs : list Channel) ch' : (∀ c, ch_open (f c) = ch_open c) →
  ch_open <$> alter f ch chs !! ch' = ch_open <$> chs !! ch'.
Proof.
  intros Hf. rewrite list_lookup_alter. case_decide as E; [|done]. subst ch'.
  destruct (chs !! ch) as [c|]; [|done]. simpl. by rewrite Hf.
Qed.

(** Stopping a node takes it down, and no other. *)
Lemma end_serve_down id (w : World S) : served w → routed w → is_Some (net_lookup (w_net w) id) → down (end_serve id w) id.
Proof.
  intros Hs [_ R] Hid. destruct (Hs id Hid) as [(ch & H1 & H2 & H3)|(ch & H1 & H2 & H3)].
  - unfold end_serve. rewrite H2. exists ch. simpl. rewrite lookup_delete_eq, list_lookup_alter_eq. split_and!; [done..|].
    by destruct (channels (w_net w) !! ch).
  - unfold end_serve. rewrite H2. by exists ch.
Qed.

Lemma end_serve_channels id id' ch (w : World S) : routed w → id' ≠ id → net_lookup (w_net w) id' = Some ch →
  ch_open <$> channels (w_net (end_serve id w)) !! ch = ch_open <$> channels (w_net w) !! ch.
Proof.
  intros [R1 R2] Hne Hl. unfold end_serve. destruct (w_serving w !! id) as [ch0|] eqn:E; [|done]. simpl.
  rewrite list_lookup_alter_ne; [done|]. intros ->. pose proof (R1 id' ch Hl) as O1. pose proof (R2 id ch E) as O2.
  unfold owns in *. congruence.
Qed.

Lemma end_serve_serving id id' (w : World S) : id' ≠ id → w_serving (end_serve id w) !! id' = w_serving w !! id'.
Proof. intros Hne. unfold end_serve. case_match; [|done]. simpl. by rewrite lookup_delete_ne. Qed.

Lemma end_serve_lookup id id' (w : World S) : net_lookup (w_net (end_serve id w)) id' = net_lookup (w_net w) id'.
Proof. unfold end_serve. by case_match. Qed.

Lemma end_serve_up id id' (w : World S) : routed w → id' ≠ id → up (end_serve id w) id' ↔ up w id'.
Proof.
  intros R Hne. unfold up. setoid_rewrite end_serve_lookup. rewrite end_serve_serving by done.
  split; intros (ch & H1 & H2 & H3); exists ch; split_and!; try done; by rewrite (end_serve_channels id id') in *.
Qed.

Lemma end_serve_others id id' (w : World S) : routed w → id' ≠ id → down (end_serve id w) id' ↔ down w id'.
Proof.
  intros R Hne. unfold down. setoid_rewrite end_serve_lookup. rewrite end_serve_serving by done.
  split; intros (ch & H1 & H2 & H3); exists ch; split_and!; try done; by rewrite (end_serve_channels id id') in *.
Qed.

Lemma served_end id (w : World S) : served w → routed w → served (end_serve id w).
Proof.
  intros Hs R id' Hid. rewrite end_serve_lookup in Hid. destruct (decide (id' = id)) as [->|Hne].
  - right. by apply end_serve_down.
  - rewrite end_serve_up, end_serve_others by done. by apply Hs.
Qed.

(** A restarted node is up, and no other changes. *)
Lemma reconnect_up id (w : World S) : up (reconnect id w) id.
Proof.
  unfold reconnect. exists (length (channels (w_net (end_serve id w)))). unfold net_lookup. simpl.
  rewrite !lookup_insert_eq. split_and!; [done..|]. by rewrite list_lookup_middle.
Qed.

Lemma reconnect_channels id id' ch (w : World S) : routed w → id' ≠ id → net_lookup (w_net w) id' = Some ch →
  ch_open <$> channels (w_net (reconnect id w)) !! ch = ch_open <$> channels (w_net w) !! ch.
Proof.
  intros R Hne Hl. rewrite <- (end_serve_channels id id' ch w R Hne Hl). unfold reconnect. simpl.
  assert (O : owns (channels (w_net (end_serve id w))) id' ch).
  { unfold end_serve. case_match; [|by apply R]. simpl. apply chans_le_alter; [done|]. by apply R. }
  unfold owns in O. destruct (channels (w_net (end_serve id w)) !! ch) as [c|] eqn:E; [|done].
  by rewrite lookup_app_l, E by (by eapply lookup_lt_Some).
Qed.

Lemma reconnect_lookup id id' (w : World S) : id' ≠ id → net_lookup (w_net (reconnect id w)) id' = net_lookup (w_net w) id'.
Proof. intros Hne. unfold reconnect, net_lookup. simpl. rewrite lookup_insert_ne by done. apply end_serve_lookup. Qed.

Lemma reconnect_serving id id' (w : World S) : id' ≠ id → w_serving (reconnect id w) !! id' = w_serving w !! id'.
Proof. intros Hne. unfold reconnect. simpl. rewrite lookup_insert_ne by done. by apply end_serve_serving. Qed.

Lemma reconnect_others id id' (w : World S) : routed w → id' ≠ id →
  (up (reconnect id w) id' ↔ up w id') ∧ (down (reconnect id w) id' ↔ down w id').
Proof.
  intros R Hne. unfold up, down. rewrite reconnect_lookup, reconnect_serving by done.
  split; split; intros (ch & H1 & H2 & H3); exists ch; split_and!; try done; by rewrite (reconnect_channels id id') in *.
Qed.

(** Sends, polls, time and what nodes do by themselves leave the wiring alone; serving a message too, unless the handler panics. *)
Definition quiet_label (l : label) : Prop := match l with LServe _ | LStop _ | LRestart _ => False | _ => True end.

Lemma step_wiring l (w : World S) : quiet_label l → same_wiring w (step l w).
Proof.
  intros Hl. destruct l as [self_id dst body|i|id|id|id|id f|ms]; try done; simpl.
  - unfold start_send. case_match; [destruct (before_send _ _ _) as [[]]|]; done.
  - unfold poll_send. repeat case_match; try done; split_and!; try done; intros ch'; simpl; by apply alter_same_open.
Qed.

Lemma steps_wiring ls (w : World S) : Forall quiet_label ls → same_wiring w (steps ls w).
Proof.
  revert w. induction ls as [|l ls IH]; intros w Hl; [by simpl|]. apply Forall_cons in Hl as [Hl Hls].
  etransitivity; [by apply step_wiring|]. by apply IH.
Qed.

Lemma served_step l (w : World S) : served w → routed w → served (step l w).
Proof.
  intros Hs R. destruct l as [self_id dst body|i|id|id|id|id f|ms].
  - by apply (served_frame w), step_wiring.
  - by apply (served_frame w), step_wiring.
  - simpl. unfold serve_one. destruct (w_serving w !! id) as [ch|]; [|done].
    destruct (channels (w_net w) !! ch) as [[o [|m q] b]|] eqn:Ec, (w_nodes w !! id) as [n|]; try done.
    destruct (serve_body _ _) as [answer n']. set (w1 := mkWorld _ _ _ _ _ _ _).
    assert (H1 : served w1) by (apply (served_frame w); [done|]; split_and!; try done; simpl; intros ch'; by apply alter_same_open).
    assert (R1 : routed w1) by (by apply (routed_le w); [done|apply chans_le_alter|..]).
    destruct answer; [done|by apply served_end].
  - by apply served_end.
  - simpl. intros id' Hid. destruct (decide (id' = id)) as [->|Hne]; [left; apply reconnect_up|].
    destruct (reconnect_others id id' w R Hne) as [-> ->]. rewrite reconnect_lookup in Hid by done. by apply Hs.
  - by apply (served_frame w), step_wiring.
  - by apply (served_frame w), step_wiring.
Qed.

Lemma served_steps ls (w : World S) : served w → inv w → served (steps ls w).
Proof.
  revert w. induction ls as [|l ls IH]; intros w Hs I; [done|].
  apply IH; [apply served_step; [done|apply I]|by apply inv_step].
Qed.

(** ** The cluster is well formed *)

Record wired (c : SimCluster S) : Prop := {
  wi_ids : NoDup (c_ids c);
  wi_nodes id : id ∈ c_ids c → is_Some (w_nodes (c_world c) !! id);
  wi_reach id : id ∈ c_ids c → is_Some (net_lookup (w_net (c_world c)) id);
  wi_inv : inv (c_world c);
  wi_served : served (c_world c);
}.

Lemma wired_steps c ls : wired c → wired (mkCluster (c_ids c) (steps ls (c_world c))).
Proof.
  intros [W1 W2 W3 W4 W5]. destruct (steps_le ls (c_world c)) as [L1 L2].
  split; simpl; [done|by auto|by auto|by apply inv_steps|by apply served_steps].
Qed.

Lemma wired_on_raft {A} i (m : M RaftNode A) c a c' : wired c → on_raft i m c = Some (a, c') →
  wired c' ∧ c_ids c' = c_ids c ∧ same_wiring (c_world c) (c_world c').
Proof.
  intros W. unfold on_raft. destruct (c_ids c !! i) as [id|]; [|done]. simpl.
  destruct (w_nodes (c_world c) !! id) as [n|]; [|done]. simpl. destruct (m n) as [[x|e] n']; [|done].
  intros [= <- <-]. split_and!; try done. by apply (wired_steps c [LNode id (λ _, n')]).
Qed.

Lemma node_names_nodup n : NoDup (node_name <$> seq 0 n).
Proof.
  apply NoDup_fmap; [|apply NoDup_seq]. intros i j. unfold node_name. intros E.
  by injection E as E%pretty_nat_inj.
Qed.

(** Registering distinct ids gives each its own channel. *)
Lemma register_all_eq ids (net : Network S) : NoDup ids →
  let '(rxs, net') := register_all ids net in
  rxs = seq (length (channels net)) (length ids) ∧
  channels net' = channels net ++ ((λ id, mkChannel id [] true) <$> ids) ∧
  net_peers net' = list_to_map (zip ids rxs) ∪ net_peers net.
Proof.
  revert net. induction ids as [|id ids IH]; intros net HN; simpl.
  { by rewrite app_nil_r, map_empty_union. }
  apply NoDup_cons in HN as [Hid HN].
  specialize (IH (mkNetwork (<[id := length (channels net)]> (net_peers net))
    (channels net ++ [mkChannel id [] true]) (rpc_timeout net) (scheduler net)) HN).
  simpl in IH. destruct (register_all ids _) as [rxs net']. destruct IH as (-> & -> & ->).
  rewrite length_app, Nat.add_1_r. split_and!; [done|by rewrite <- app_assoc|].
  simpl. rewrite <- insert_union_r, insert_union_l; [done|].
  apply not_elem_of_list_to_map_1. intros (x & -> & Hx)%list_elem_of_fmap. apply Hid.
  destruct x as [y k]. by apply elem_of_zip_l in Hx.
Qed.

Lemma zip_seq_lookup (ids : list string) id k :
  (list_to_map (zip ids (seq 0 (length ids))) : gmap string nat) !! id = Some k → ids !! k = Some id.
Proof.
  intros H%elem_of_list_to_map_2. apply list_elem_of_lookup in H as [i Hi].
  apply lookup_zip_Some in Hi as [Hid Hk]. apply lookup_seq in Hk as [-> _]. done.
Qed.

Lemma zip_lookup_is_Some {A} (ids : list string) (l : list A) id : length l = length ids → id ∈ ids →
  is_Some ((list_to_map (zip ids l) : gmap string A) !! id).
Proof.
  revert l. induction ids as [|x ids IH]; intros [|a l] Hl Hid; try done; [by apply elem_of_nil in Hid|]. simpl.
  apply elem_of_cons in Hid as [->|Hid]; [by rewrite lookup_insert_eq|].
  apply is_Some_insert, IH; [by injection Hl|done].
Qed.

Lemma sim_node_ok all epoch id : ∃ n, sim_node all epoch id = Some n ∧ state n = Follower ∧
  current_term n = 0 ∧ log n = [] ∧ peers n = filter (λ p, p ≠ id) all.
Proof. unfold sim_node. vm_compute sm_open. eexists. split; [done|]. by split_and!. Qed.

Lemma new_n_nodes_wired n (sched : S) epoch : (1 <= n)%nat →
  ∃ c, new_n_nodes n sched epoch = Some c ∧ length (c_ids c) = n ∧ wired c.
Proof.
  intros Hn. unfold new_n_nodes. destruct (Nat.ltb_spec n 1); [lia|]. set (ids := node_name <$> seq 0 n).
  pose proof (node_names_nodup n) as HN. fold ids in HN.
  pose proof (register_all_eq ids (with_scheduler 2000 sched) HN) as H1.
  destruct (register_all ids _) as [rxs net]. destruct H1 as (-> & Hc & Hp). simpl in Hc, Hp. rewrite map_union_empty in Hp.
  assert (Hm : ∃ nodes, mapM (sim_node ids epoch) ids = Some nodes).
  { apply mapM_is_Some, Forall_forall. intros id _. destruct (sim_node_ok ids epoch id) as (x & Hx & _).
    unfold compose. rewrite Hx. eauto. }
  destruct Hm as [nodes Hm]. rewrite Hm. simpl. eexists. split; [done|]. simpl.
  assert (Hown : ∀ id ch, (list_to_map (zip ids (seq 0 (length ids))) : gmap string nat) !! id = Some ch → owns (channels net) id ch).
  { intros id ch H2%zip_seq_lookup. unfold owns. by rewrite Hc, list_lookup_fmap, H2. }
  split; [unfold ids; by rewrite length_fmap, length_seq|]. split; simpl; [done| | | |].
  - intros id Hid. apply zip_lookup_is_Some; [by apply length_mapM in Hm|done].
  - intros id Hid. unfold net_lookup. rewrite Hp. apply zip_lookup_is_Some; [by rewrite length_seq|done].
  - apply inv_quiet.
    + unfold quiet. simpl. split_and!; try done. rewrite Hc. by apply Forall_fmap, Forall_true.
    + split; simpl; intros id ch; rewrite ?Hp; apply Hown.
  - intros id [ch Hch]. left. exists ch. unfold net_lookup in *. simpl in *. rewrite Hp in *. split_and!; [done..|].
    specialize (Hown id ch Hch). unfold owns in Hown. rewrite Hc in *. rewrite list_lookup_fmap in *.
    by destruct (ids !! ch).
Qed.

(** The operations of the harness on the wiring. *)
Lemma wired_stop c id : wired c → id ∈ c_ids c →
  down (end_serve id (c_world c)) id ∧ ∀ id', id' ≠ id → up (end_serve id (c_world c)) id' ↔ up (c_world c) id'.
Proof.
  intros W Hid. pose proof (i_routed _ (wi_inv c W)) as R. split.
  - apply end_serve_down; [apply W|done|by apply W].
  - intros id' Hne. by apply end_serve_up.
Qed.

Lemma wired_new n (sched : S) epoch : (1 <= n)%nat → ∃ c, new_n_nodes n sched epoch = Some c ∧ length (c_ids c) = n ∧ wired c ∧
  ∀ id, id ∈ c_ids c → up (c_world c) id.
Proof.
  intros Hn. destruct (new_n_nodes_wired n sched epoch Hn) as (c & E & Hl & W). exists c. split_and!; try done.
  intros id Hid. destruct (wi_served c W id (wi_reach c W id Hid)) as [?|(ch & Hch & Hno & _)]; [done|exfalso].
  revert E Hch Hno. unfold new_n_nodes. destruct (n <? 1)%nat; [done|]. set (ids := node_name <$> seq 0 n).
  pose proof (register_all_eq ids (with_scheduler 2000 sched) (node_names_nodup n)) as H1.
  destruct (register_all ids _) as [rxs net]. destruct H1 as (-> & _ & Hp). simpl in Hp. rewrite map_union_empty in Hp.
  destruct (mapM _ ids); [|done]. simpl. intros [= <-]. unfold net_lookup. simpl. rewrite Hp. congruence.
Qed.

Lemma stop_all ids (w : World S) : served w → inv w → (∀ id, id ∈ ids → is_Some (net_lookup (w_net w) id)) →
  ∀ id, id ∈ ids ∨ down w id → down (steps (LStop <$> ids) w) id.
Proof.
  revert w. induction ids as [|x ids IH]; intros w Hs I Hids id Hid; simpl.
  { destruct Hid as [Hid|?]; [by apply elem_of_nil in Hid|done]. }
  assert (Hx : down (end_serve x w) x) by (apply end_serve_down; [done|apply I|apply Hids; by left]).
  apply (IH (end_serve x w)); [by apply served_end, I|by apply inv_end_serve|..].
  - intros id' Hid'. rewrite end_serve_lookup. apply Hids. by right.
  - destruct (decide (id = x)) as [->|Hne]; [by right|]. rewrite end_serve_others by (done || apply I).
    rewrite elem_of_cons in Hid. naive_solver.
Qed.


(** ** Crashes and restarts *)

Lemma lookup_end_serve id id' (w : World S) : w_nodes (end_serve id w) !! id' = w_nodes w !! id'.
Proof. unfold end_serve. by case_match. Qed.

(** A replies slot beyond the sends is empty. *)
Lemma fresh_slot (w : World S) : inv w → w_replies w !! length (w_sends w) = None.
Proof.
  intros I. destruct (w_replies w !! length (w_sends w)) as [r|] eqn:E; [|done].
  destruct (a_replies _ _ _ _ (i_agree w I) _ r E) as ((s & Hs & _) & _). apply lookup_lt_Some in Hs. lia.
Qed.

(** After [reconnect] the node is served on an empty channel. *)
Lemma reconnect_ready self_id id body n (w : World S) : inv w → w_nodes w !! id = Some n →
  (before_send (mkLink self_id id) body (scheduler (w_net (reconnect id w)))).1 = Deliver →
  ready (length (channels (w_net (end_serve id w)))) self_id id body n (reconnect id w).
Proof.
  intros I Hn Hp. pose proof (inv_reconnect id w I) as I'. pose proof (fresh_slot _ I') as Hf.
  unfold reconnect in *. split; simpl in *; try done.
  - unfold net_lookup. simpl. by rewrite lookup_insert_eq.
  - by rewrite lookup_insert_eq.
  - by apply list_lookup_middle.
  - by rewrite lookup_end_serve.
Qed.

(** A message to a node that is not served finds its channel closed. *)
Lemma unserved_is_unreachable self_id id body w : inv w → served w → w_serving w !! id = None →
  is_Some (net_lookup (w_net w) id) →
  (before_send (mkLink self_id id) body (scheduler (w_net w))).1 = Deliver →
  let i := length (w_sends w) in
  send_result i (steps [LSend self_id id body; LPoll i] w) = Some (inl (net.Unreachable "peer inbound channel closed")).
Proof.
  intros I Hs Hno Hl Hp i. destruct (Hs id Hl) as [(? & _ & ? & _)|(ch & Hch & _ & Hc)]; [congruence|]. clear Hl. rename Hch into Hl.
  cbn [steps foldl step]. unfold start_send. rewrite Hl. destruct (before_send _ _ _) as [o sched]. simpl in Hp. subst o.
  cbv zeta. set (s := mkSend _ _ _ _ _ _). set (wA := set_sends _ _).
  assert (Hi : w_sends wA !! i = Some s) by (by apply list_lookup_middle).
  assert (Hph : ∀ p, w_sends (set_phase i p wA) !! i = Some (with_phase p s)).
  { intros p. change (w_sends (set_phase i p wA)) with (alter (with_phase p) i (w_sends wA)). by rewrite list_lookup_alter_eq, Hi. }
  unfold send_result, poll_send. rewrite Hi. cbn [s_phase s].
  change (channels (w_net wA) !! s_chan s) with (channels (w_net w) !! ch).
  destruct (channels (w_net w) !! ch) as [[o q b]|] eqn:E; [|done]. simpl in Hc. simplify_eq. by rewrite Hph.
Qed.

(** a crashed node is silent, a restarted one answers. After [kill_node] every message that the scheduler lets
    through to the node fails as unreachable; after [restart_node] the node has the state it had, as a follower, and the
    first such message is handled by it and answered. *)
Theorem restarted_node_answers c i id n c1 c2 :
  wired c → c_ids c !! i = Some id → raft_of i c = Some n →
  kill_node i c = Some c1 → restart_node i c1 = Some c2 →
  raft_of i c2 = Some (with_state Follower n) ∧
  (∀ self_id body, (before_send (mkLink self_id id) body (scheduler (w_net (c_world c1)))).1 = Deliver →
     let j := length (w_sends (c_world c1)) in
     send_result j (steps [LSend self_id id body; LPoll j] (c_world c1)) =
       Some (inl (net.Unreachable "peer inbound channel closed"))) ∧
  (∀ self_id body, (before_send (mkLink self_id id) body (scheduler (w_net (c_world c2)))).1 = Deliver →
     send_result (length (w_sends (c_world c2))) (round_trip self_id id body (c_world c2)) =
       Some (default canceled (serve_body body (with_state Follower n)).1)).
Proof.
  intros W Hid Hn Hk Hr. unfold raft_of in Hn. rewrite Hid in Hn. simpl in Hn.
  unfold kill_node in Hk. rewrite Hid in Hk. cbn [mbind option_bind] in Hk. apply (inj Some) in Hk as <-.
  unfold restart_node in Hr. cbn [c_ids] in Hr. rewrite Hid in Hr. cbn [mbind option_bind c_world] in Hr. apply (inj Some) in Hr as <-.
  cbn [c_ids c_world].
  pose proof (wired_steps c [LNode id (with_state Follower); LStop id; LTime 50] W) as W1.
  set (w1 := steps _ (c_world c)) in *.
  assert (Hn1 : w_nodes w1 !! id = Some (with_state Follower n)).
  { unfold w1. simpl. rewrite lookup_end_serve. simpl. by rewrite lookup_alter_eq, Hn. }
  assert (Hs1 : w_serving w1 !! id = None).
  { unfold w1. simpl. unfold end_serve. simpl. destruct (w_serving (c_world c) !! id) eqn:E; simpl; [|done].
    by rewrite lookup_delete_eq. }
  destruct W1 as [_ _ Hreach I1 S1]. cbn [c_ids c_world] in *. clearbody w1.
  assert (Hin : id ∈ c_ids c) by (by eapply list_elem_of_lookup_2). split_and!.
  - unfold raft_of. simpl. rewrite Hid. simpl. unfold reconnect. simpl.
    rewrite lookup_end_serve. simpl. by rewrite lookup_end_serve.
  - intros self_id body Hp. apply unserved_is_unreachable; auto.
  - intros self_id body Hp.
    pose proof (inv_steps [LStop id; LTime 50] w1 I1) as I2. simpl in I2.
    eapply round_trip_eq. apply reconnect_ready; [exact I2| |exact Hp]. simpl. by rewrite lookup_end_serve.
Qed.
End cluster.

(** ** Waiting *)

(** A wait ends with what it waited for, or at a look after the deadline at which, as at every look before, it was
    not there; it goes on only while every look was early and in vain. *)
Lemma poll_loop_spec {S} (done : World S → bool) deadline looks :
  match poll_loop done deadline looks with
  | Reached w => done w = true ∧ w ∈ looks.*1
  | GaveUp w => ∃ now, (w, now) ∈ looks ∧ done w = false ∧ deadline <= now
  | StillWaiting => Forall (λ l, done l.1 = false ∧ l.2 < deadline) looks
  end.
Proof.
  induction looks as [|[w now] looks IH]; simpl; [constructor|].
  destruct (done w) eqn:Ed; [split; [done|by left]|].
  destruct (Z.leb_spec deadline now); [exists now; split_and!; [by left|done..]|].
  destruct (poll_loop done deadline looks).
  - destruct IH. split; [done|by right].
  - destruct IH as (t & ? & ? & ?). exists t. split_and!; [by right|done..].
  - by constructor.
Qed.

(** ** Submitting *)

Section submit.
Context {S : Type} {FS : FaultScheduler S}.
Context {JW : Json WalOp} {JE : Json (list SSTEntry)} {JM : Json SSTableMeta}.
Context {BL : Bincode LogEntry} {LB : BincodeLaws LogEntry} {JV : Json Value} {JS : Json Snapshot}.

(** The index [submit_command] returns is that of the entry the leader appended, at the end of its log. *)
Lemma submit_returns_position i command (c : SimCluster S) k c' n : raft_of i c = Some n → log_len n + 1 < U64 →
  submit_command i command c = Some (k, c') →
  state n = Leader ∧
  ∃ n', raft_of i c' = Some n' ∧ log n' = log n ++ [mkLogEntry (current_term n) k command].
Proof.
  unfold raft_of, submit_command, on_raft. destruct (c_ids c !! i) as [id|] eqn:Hid; [|done]. simpl. intros Hn Hlen.
  unfold raft_of. rewrite Hid. simpl. rewrite Hn. simpl. rewrite u64_add_small by (unfold log_len in *; lia).
  unfold propose, mbind, M_bind, gets. simpl. case_bool_decide as Hl; [|done].
  pose proof (append_own_wp command n) as H. unfold wp in H. unfold catch.
  destruct (append_own command n) as [[x|e] n1] eqn:Ea; [|done]. simpl in *.
  intros [= <- <-]. split; [done|]. exists n1. simpl. rewrite Hid. simpl. rewrite lookup_alter_eq, Hn. split; [done|].
  destruct H as (d & _ & [_ ->] & _). done.
Qed.
End submit.

(** ** Executions *)

Import Codec.

(** Three nodes, with every message delivered. *)
Definition three : SimCluster AlwaysDeliver := default (mkCluster [] (two_nodes mkAlwaysDeliver)) (new_3_nodes mkAlwaysDeliver 0).

Lemma three_wired : wired three.
Proof.
  destruct (new_n_nodes_wired 3 mkAlwaysDeliver 0 ltac:(lia)) as (c & E & _ & W).
  assert (Ec : three = c) by (unfold three, new_3_nodes; by rewrite E). by rewrite Ec.
Qed.


(** Node 0 stands, both peers answer, and the first answer makes it leader. *)
Definition elected : option (SimCluster AlwaysDeliver) :=
  c ← campaign 0 three;
  let w := steps [LPoll 0; LPoll 1; LServe "n1"; LServe "n2"; LPoll 0; LPoll 1] (c_world c) in
  '(_, c) ← on_raft 0 (on_vote_reply 3 1 1 (yes 1)) (mkCluster (c_ids c) w);
  Some c.

Lemma three_nodes_elect :
  (λ c, (leader_index c, s_phase <$> w_sends (c_world c), current_term_of 2 c)) <$> elected =
    Some (Some 0%nat, [Finished (inr (Raft (VoteResponse (yes 1)))); Finished (inr (Raft (VoteResponse (yes 1))))], Some 1).
Proof. vm_compute. reflexivity. Qed.

(** A message for node 1 before, during and after a crash. *)
Lemma restarted_node_answers_witness :
  ∃ c1 c2 n, kill_node 1 three = Some c1 ∧ restart_node 1 c1 = Some c2 ∧ raft_of 1 three = Some n ∧
    send_result (length (w_sends (c_world c2))) (round_trip "n0" "n1" (Raft ask) (c_world c2)) =
      Some (default canceled (serve_body (Raft ask) (with_state Follower n)).1).
Proof.
  destruct (raft_of 1 three) as [n|] eqn:En; [|vm_compute in En; discriminate En].
  destruct (kill_node 1 three) as [c1|] eqn:E1; [|vm_compute in E1; discriminate E1].
  destruct (restart_node 1 c1) as [c2|] eqn:E2.
  - exists c1, c2, n. split_and!; try done.
    destruct (restarted_node_answers three 1 "n1" n c1 c2 three_wired eq_refl En E1 E2) as (_ & _ & H).
    by apply H.
  - exfalso. unfold kill_node in E1. change (c_ids three !! 1%nat) with (Some "n1") in E1.
    apply (inj Some) in E1. rewrite <- E1 in E2. discriminate E2.
Defined.
