(* ===== verification/MetricsServer.v ===== *)
(** * The metrics endpoint ([src/rust/oxide-kv/src/observability/server.rs])

    One connection of the HTTP server: the request head is read in whatever pieces the network delivers, its
    first line decides, and one response is written. The Prometheus registry is a library: what it
    encodes is a parameter. Bytes are integers below 256. *)

From stdpp Require Import prelude gmap strings pretty list.
From Stdlib Require Import Ascii.
From S2P Require Import Prelude.
#[local] Open Scope Z_scope.

(** The bytes of an ASCII literal. *)
Definition bytes_of (s : string) : list Z := (λ a, Z.of_N (N_of_ascii a)) <$> String.list_ascii_of_string s.

Definition CR : Z := 13.
Definition LF : Z := 10.
Definition crlf : list Z := [CR; LF].

(** [buf.windows(4).position(|w| w == b"\r\n\r\n")] *)
Fixpoint find_double_crlf (buf : list Z) : option nat :=
  match buf with
  | [] => None
  | _ :: rest =>
      if bool_decide (take 4 buf = crlf ++ crlf) then Some O
      else S <$> find_double_crlf rest
  end.

Definition reason_of (status : Z) : string :=
  if status =? 200 then "OK"
  else if status =? 404 then "Not Found"
  else if status =? 500 then "Internal Server Error"
  else "Status".

Definition http_response (status : Z) (content_type : string) (body : list Z) : list Z :=
  bytes_of ("HTTP/1.1 " +:+ pretty status +:+ " " +:+ reason_of status) ++ crlf ++
  bytes_of ("Content-Type: " +:+ content_type) ++ crlf ++
  bytes_of ("Content-Length: " +:+ pretty (length body)) ++ crlf ++
  bytes_of "Connection: close" ++ crlf ++ crlf ++ body.

(** ** Text *)

(** [str::from_utf8] succeeds. *)
Fixpoint utf8 (bs : list Z) : bool :=
  let cont b := (128 <=? b) && (b <=? 191) in
  let between lo hi b := (lo <=? b) && (b <=? hi) in
  match bs with
  | [] => true
  | b0 :: r0 =>
      if b0 <? 128 then utf8 r0 else
      match r0 with
      | [] => false
      | b1 :: r1 =>
          if between 194 223 b0 then cont b1 && utf8 r1 else
          match r1 with
          | [] => false
          | b2 :: r2 =>
              if b0 =? 224 then between 160 191 b1 && cont b2 && utf8 r2
              else if b0 =? 237 then between 128 159 b1 && cont b2 && utf8 r2
              else if between 225 239 b0 then cont b1 && cont b2 && utf8 r2
              else
              match r2 with
              | [] => false
              | b3 :: r3 =>
                  if b0 =? 240 then between 144 191 b1 && cont b2 && cont b3 && utf8 r3
                  else if between 241 243 b0 then cont b1 && cont b2 && cont b3 && utf8 r3
                  else if b0 =? 244 then between 128 143 b1 && cont b2 && cont b3 && utf8 r3
                  else false
              end
          end
      end
  end.

(** The length of the white-space character a valid text starts with, or zero ([char::is_whitespace]). *)
Definition ws_len (bs : list Z) : nat :=
  match bs with
  | b0 :: r =>
      if ((9 <=? b0) && (b0 <=? 13)) || (b0 =? 32) then 1%nat
      else match r with
      | b1 :: r' =>
          if (b0 =? 194) && ((b1 =? 133) || (b1 =? 160)) then 2%nat
          else match r' with
          | b2 :: _ =>
              if (b0 =? 225) && (b1 =? 154) && (b2 =? 128) then 3%nat
              else if (b0 =? 226) && (b1 =? 128) &&
                (((128 <=? b2) && (b2 <=? 138)) || (b2 =? 168) || (b2 =? 169) || (b2 =? 175)) then 3%nat
              else if (b0 =? 226) && (b1 =? 129) && (b2 =? 159) then 3%nat
              else if (b0 =? 227) && (b1 =? 128) && (b2 =? 128) then 3%nat
              else 0%nat
          | [] => 0%nat
          end
      | [] => 0%nat
      end
  | [] => 0%nat
  end.

(** [split_whitespace]; [skip] bytes of a white-space character are still to be passed, [word] is the
    word read so far. *)
Fixpoint words (skip : nat) (word : list Z) (bs : list Z) : list (list Z) :=
  let flush rest := if bool_decide (word = []) then rest else word :: rest in
  match bs with
  | [] => flush []
  | b :: bs' =>
      match skip with
      | S k => words k word bs'
      | O =>
          match ws_len bs with
          | O => words O (word ++ [b]) bs'
          | S k => flush (words k [] bs')
          end
      end
  end.

Definition split_whitespace (bs : list Z) : list (list Z) := words 0 [] bs.

(** The first piece of [split("\r\n")]. *)
Fixpoint first_line (bs : list Z) : list Z :=
  match bs with
  | [] => []
  | b :: bs' => if bool_decide (take 2 bs = crlf) then [] else b :: first_line bs'
  end.

Definition is_path (path : list Z) (route : string) : bool :=
  bool_decide (path = bytes_of route) ||
  bool_decide (take (length (bytes_of (route +:+ "?"))) path = bytes_of (route +:+ "?")).

(** ** A connection *)

(** What [Metrics::gather_text] returns: the error's text, or the body. *)
Definition respond (gather : string + list Z) (head : list Z) : result (list Z) :=
  if negb (utf8 head) then Err InvalidData else
  let parts := split_whitespace (first_line head) in
  let method := default [] (parts !! 0%nat) in
  let path := default [] (parts !! 1%nat) in
  Ok (if bool_decide (method = bytes_of "GET") && is_path path "/metrics" then
        match gather with
        | inr body => http_response 200 "text/plain; version=0.0.4; charset=utf-8" body
        | inl e => http_response 500 "text/plain; charset=utf-8" (bytes_of ("metrics encode failed: " +:+ e))
        end
      else if bool_decide (method = bytes_of "GET") && is_path path "/health" then
        http_response 200 "text/plain; charset=utf-8" (bytes_of "ok" ++ [LF])
      else http_response 404 "text/plain; charset=utf-8" (bytes_of "not found" ++ [LF])).

Definition HEAD_MAX : nat := 8192.

(** What the read loop meets next. *)
Inductive arrival :=
  | Stopped                    (** the stop signal *)
  | ReadFailed (e : io_error)
  | Bytes (bs : list Z).       (** what one [read] returns; nothing at the end of the stream *)

(** The response written, if any; [Ok None]: the connection is dropped without one. *)
Fixpoint handle_connection (gather : string + list Z) (buf : list Z) (arrivals : list arrival) :
    result (option (list Z)) :=
  match arrivals with
  | [] | Stopped :: _ => Ok None
  | ReadFailed e :: _ => Err e
  | Bytes bs :: arrivals' =>
      if bool_decide (bs = []) then Ok None else
      let buf := buf ++ bs in
      match find_double_crlf buf with
      | Some pos =>
          match respond gather (take (pos + 4) buf) with
          | Ok r => Ok (Some r)
          | Err e => Err e
          end
      | None => if (length buf =? HEAD_MAX)%nat then Ok None else handle_connection gather buf arrivals'
      end
  end.

(** ** The response does not depend on how the request is cut *)

(** The pieces a reader with [room] bytes of space gets: none empty, none larger than the space left. *)
Fixpoint fit_in (room : nat) (pieces : list (list Z)) : Prop :=
  match pieces with
  | [] => True
  | p :: ps => p ≠ [] ∧ (length p <= room)%nat ∧ fit_in (room - length p) ps
  end.

Lemma find_double_crlf_bound buf p : find_double_crlf buf = Some p → (p + 4 <= length buf)%nat.
Proof.
  revert p. induction buf as [|b buf IH]; intros p; [done|]. cbn [find_double_crlf]. case_bool_decide as E.
  - intros [= <-]. apply (f_equal length) in E. rewrite length_take in E.
    change (length (crlf ++ crlf)) with 4%nat in E. lia.
  - destruct (find_double_crlf buf) as [q|]; [|done]. simpl. intros [= <-]. specialize (IH q eq_refl). simpl in *. lia.
Qed.

Lemma find_double_crlf_app buf more p : find_double_crlf buf = Some p → find_double_crlf (buf ++ more) = Some p.
Proof.
  revert p. induction buf as [|b buf IH]; intros p; [done|]. intros Hp.
  pose proof (find_double_crlf_bound _ _ Hp) as Hb. revert Hp. cbn [find_double_crlf app].
  assert (Ht : (4 <= length (b :: buf))%nat → take 4 (b :: buf ++ more) = take 4 (b :: buf)).
  { intros H. change (b :: buf ++ more) with ((b :: buf) ++ more). by rewrite take_app_le. }
  rewrite Ht by lia. case_bool_decide; [done|].
  destruct (find_double_crlf buf) as [q|]; [|done]. simpl. intros [= <-]. by rewrite (IH q eq_refl).
Qed.

(** What the whole of the stream, up to the size of the buffer, asks for. *)
Definition answer_to (gather : string + list Z) (stream : list Z) : result (option (list Z)) :=
  match find_double_crlf stream with
  | Some pos => match respond gather (take (pos + 4) stream) with Ok r => Ok (Some r) | Err e => Err e end
  | None => Ok None
  end.

Lemma handle_connection_eq gather buf pieces : find_double_crlf buf = None → (length buf < HEAD_MAX)%nat →
  fit_in (HEAD_MAX - length buf) pieces →
  handle_connection gather buf (Bytes <$> pieces) = answer_to gather (buf ++ concat pieces).
Proof.
  revert buf. induction pieces as [|p ps IH]; intros buf Hb Hl; simpl.
  { intros _. rewrite app_nil_r. unfold answer_to. by rewrite Hb. }
  intros (Hp & Hfit & Hrest). rewrite bool_decide_false by done. rewrite app_assoc.
  destruct (find_double_crlf (buf ++ p)) as [pos|] eqn:E.
  - unfold answer_to. rewrite (find_double_crlf_app _ (concat ps) _ E).
    by rewrite (take_app_le (buf ++ p)) by (by apply find_double_crlf_bound).
  - pose proof (length_app buf p) as Hlen.
    destruct (Nat.eqb_spec (length (buf ++ p)) HEAD_MAX) as [Hfull|Hnot].
    + destruct ps as [|q ps].
      * simpl. rewrite app_nil_r. unfold answer_to. by rewrite E.
      * simpl in Hrest. destruct Hrest as (Hq & Hq' & _). destruct q; [done|]. simpl in Hq'. lia.
    + rewrite <- (IH (buf ++ p) E); [done|lia|].
      rewrite Hlen. replace (HEAD_MAX - (length buf + length p))%nat with (HEAD_MAX - length buf - length p)%nat by lia.
      done.
Qed.

(** the metrics endpoint answers the request, not its packets. Whatever pieces the request arrives in, as long as they fill at most the
    8 KiB buffer, the response is the one for the whole of it: none until the blank line that ends
    the head has come, then the one its first line asks for; two ways of cutting the same bytes
    give the same response. *)
Theorem response_ignores_packets gather pieces pieces' :
  fit_in HEAD_MAX pieces → fit_in HEAD_MAX pieces' → concat pieces = concat pieces' →
  handle_connection gather [] (Bytes <$> pieces) = answer_to gather (concat pieces) ∧
  handle_connection gather [] (Bytes <$> pieces) = handle_connection gather [] (Bytes <$> pieces').
Proof.
  intros H1 H2 E.
  assert (H : ∀ ps, fit_in HEAD_MAX ps → handle_connection gather [] (Bytes <$> ps) = answer_to gather (concat ps)).
  { intros ps Hps. apply (handle_connection_eq gather [] ps); [done|by apply Nat.ltb_lt|by rewrite Nat.sub_0_r]. }
  rewrite !H by done. by rewrite E.
Qed.

Definition scrape : list Z := bytes_of "GET /metrics HTTP/1.1" ++ crlf ++ bytes_of "Host: x" ++ crlf ++ crlf.

Lemma response_ignores_packets_witness :
  handle_connection (inr (bytes_of "up 1")) [] (Bytes <$> [scrape]) =
  handle_connection (inr (bytes_of "up 1")) [] (Bytes <$> [take 7 scrape; drop 7 scrape]).
Proof.
  apply (response_ignores_packets (inr (bytes_of "up 1")) [scrape] [take 7 scrape; drop 7 scrape]).
  - simpl. split_and!; [vm_compute; congruence|vm_compute; lia|done].
  - simpl. split_and!; [vm_compute; congruence|vm_compute; lia|vm_compute; congruence|vm_compute; lia|done].
  - vm_compute. reflexivity.
Defined.

(** The three routes, and the text that says everything else is not found. *)
Lemma routes gather : gather = inr (bytes_of "up 1") →
  handle_connection gather [] [Bytes scrape] =
    Ok (Some (http_response 200 "text/plain; version=0.0.4; charset=utf-8" (bytes_of "up 1"))) ∧
  handle_connection gather [] [Bytes (bytes_of "GET /health?x HTTP/1.1" ++ crlf ++ crlf)] =
    Ok (Some (http_response 200 "text/plain; charset=utf-8" (bytes_of "ok" ++ [LF]))) ∧
  handle_connection gather [] [Bytes (bytes_of "POST /metrics HTTP/1.1" ++ crlf ++ crlf)] =
    Ok (Some (http_response 404 "text/plain; charset=utf-8" (bytes_of "not found" ++ [LF]))).
Proof. intros ->. vm_compute. split_and!; reflexivity. Qed.
