(* ===== verification/Task.v ===== *)
(** * Asynchronous tasks over a shared node

    The client front end and the transaction coordinator are [async] functions
    that hold an [Arc<RwLock<RaftNode>>]: they take the lock, release it, sleep, wait for
    replies and take the lock again, while everything else happens to the node in
    between. A [task] is such a function: one constructor per point where it
    meets its environment. [run] executes a task against a list of [turn]s, each of which says what
    happened to the node since the last point (a list of events of
    [NodeEvents]), how much time passed and what the environment answered. [tspec] is a program
    logic for tasks that holds for every list of turns ([run_tspec]). *)

From stdpp Require Import prelude gmap strings sorting countable list.
From S2P Require Import Prelude Serde Protocol StateMachine Storage Rpc Node NodeEvents.
#[local] Open Scope Z_scope.

(** What awaiting the vote RPC to one peer gives. *)
Inductive vote_result :=
  | Answered (resp : TxVoteResponse)
  | TransportError (e : string)
  | RpcTimedOut
  | TaskPanicked (e : string).

Inductive task (A : Type) : Type :=
  | Done (a : A)
  | Panic                                              (** the thread unwinds *)
  | OutOfFuel                                          (** a loop of the model ran out of fuel *)
  | Lock {B : Type} (m : M RaftNode B) (k : result B → task A)   (** one acquisition of the lock *)
  | Now (k : Z → task A)                               (** [Instant::now()], in milliseconds *)
  | Sleep (ms : Z) (k : task A)                        (** [tokio::time::sleep] *)
  | Send (out : outgoing) (k : task A)                 (** RPC tasks are spawned *)
  | CallVotes (addrs : list string) (req : TxVoteRequest) (k : list vote_result → task A)
  | Choice (k : bool → task A).                        (** which of two ready futures is polled *)
Arguments Done {A} a.
Arguments Panic {A}.
Arguments OutOfFuel {A}.
Arguments Lock {A B} m k.
Arguments Now {A} k.
Arguments Sleep {A} ms k.
Arguments Send {A} out k.
Arguments CallVotes {A} addrs req k.
Arguments Choice {A} k.

#[export] Instance task_ret : MRet task := λ A a, Done a.
#[export] Instance task_bind : MBind task := λ A B f,
  fix go t :=
    match t with
    | Done a => f a
    | Panic => Panic
    | OutOfFuel => OutOfFuel
    | Lock m k => Lock m (λ r, go (k r))
    | Now k => Now (λ t, go (k t))
    | Sleep ms k => Sleep ms (go k)
    | Send out k => Send out (go k)
    | CallVotes addrs req k => CallVotes addrs req (λ rs, go (k rs))
    | Choice k => Choice (λ b, go (k b))
    end.

(** [node_arc.write().unwrap()], a method call, unlock. *)
Definition lock {B} (m : M RaftNode B) : task B :=
  Lock m (λ r, match r with Ok b => Done b | Err _ => Panic end).

(** [node_arc.read().unwrap()] and a pure observation. *)
Definition read {B} (f : RaftNode → B) : task B := lock (gets f).

Definition now : task Z := Now Done.
Definition sleep (ms : Z) : task unit := Sleep ms (Done tt).
Definition send (out : outgoing) : task unit := Send out (Done tt).
Definition call_votes (addrs : list string) (req : TxVoteRequest) : task (list vote_result) :=
  CallVotes addrs req Done.

(** [RaftNode::sync_logs], with the lock released between the peers. *)
Section sync.
Context {JW : Json WalOp} {JE : Json (list SSTEntry)} {JM : Json SSTableMeta}.
Context {BL : Bincode LogEntry}.

Fixpoint sync_peers (v : SyncView) (ps : list string) : task unit :=
  match ps with
  | [] => mret tt
  | peer :: ps' =>
      args ← lock (append_args v peer);
      send [(peer, AppendEntries args)] ;;
      sync_peers v ps'
  end.

Definition sync_logs_async : task unit :=
  v ← read sync_view;
  if bool_decide (sv_peers v = []) then
    lock (st ← gets state; if bool_decide (st = Leader) then maybe_commit else mret tt)
  else sync_peers v (sv_peers v).
End sync.

(** [tokio::time::timeout]: the inner future is polled first; when it is not
    ready and the deadline has passed, it is dropped. A future is pending at its
    sleeps and at its calls. *)
Fixpoint until {A} (start bound : Z) (late : A) (t : task A) : task A :=
  match t with
  | Done a => Done a
  | Panic => Panic
  | OutOfFuel => OutOfFuel
  | Lock m k => Lock m (λ r, until start bound late (k r))
  | Now k => Now (λ z, until start bound late (k z))
  | Sleep ms k =>
      Now (λ z, if bound <=? z - start then Done late
                else Sleep (ms `min` (bound - (z - start))) (Now (λ z',
                  if ms <=? z' - z then until start bound late k else Done late)))
  | Send out k => Send out (until start bound late k)
  | CallVotes addrs req k =>
      CallVotes addrs req (λ rs, Now (λ z,
        if bound <=? z - start
        then Choice (λ ready, if ready then until start bound late (k rs) else Done late)
        else until start bound late (k rs)))
  | Choice k => Choice (λ b, until start bound late (k b))
  end.

Definition timeout {A} (bound : Z) (late : A) (t : task A) : task A :=
  start ← now; until start bound late t.

(** ** Executions *)

(** What can be observed of a run: the node before and after each critical
    section, the messages sent, the votes called for with their results. *)
Inductive obs :=
  | OLock (n n' : RaftNode)
  | OSend (out : outgoing)
  | OVotes (addrs : list string) (req : TxVoteRequest) (replies : list vote_result).

(** Between two points of the task: [elapsed] milliseconds, the events the node
    took part in, and what the environment answers at the next point. *)
Record turn := mkTurn {
  elapsed : N;
  meanwhile : list event;
  replies_of : string → vote_result;
  chosen : bool;
}.

Inductive status (A : Type) :=
  | Finished (a : A)
  | Unwound
  | Exhausted
  | Pending.
Arguments Finished {A} a.
Arguments Unwound {A}.
Arguments Exhausted {A}.
Arguments Pending {A}.

Section run.
Context {JW : Json WalOp} {JE : Json (list SSTEntry)} {JM : Json SSTableMeta}.
Context {BL : Bincode LogEntry} {JV : Json Value} {JS : Json Snapshot}.

Definition run_events (evs : list event) (n : RaftNode) : RaftNode :=
  foldl (λ n ev, (run_event ev n).2) n evs.

(** The status, the node, the time and the observations. *)
Definition outcome_of A : Type := status A * RaftNode * Z * list obs.

Definition seen {A} (o : obs) (x : outcome_of A) : outcome_of A := (x.1, o :: x.2).

Fixpoint run {A} (t : task A) (turns : list turn) (n : RaftNode) (z : Z) {struct t} : outcome_of A :=
  match t with
  | Done a => (Finished a, n, z, [])
  | Panic => (Unwound, n, z, [])
  | OutOfFuel => (Exhausted, n, z, [])
  | _ =>
      match turns with
      | [] => (Pending, n, z, [])
      | u :: turns =>
          let n1 := run_events (meanwhile u) n in
          let z1 := z + Z.of_N (elapsed u) in
          match t with
          | Lock m k => seen (OLock n1 (m n1).2) (run (k (m n1).1) turns (m n1).2 z1)
          | Now k => run (k z1) turns n1 z1
          | Sleep ms k => run k turns n1 (z1 + Z.max 0 ms)
          | Send out k => seen (OSend out) (run k turns n1 z1)
          | CallVotes addrs req k =>
              let rs := replies_of u <$> addrs in
              seen (OVotes addrs req rs) (run (k rs) turns n1 z1)
          | Choice k => run (k (chosen u)) turns n1 z1
          | _ => (Pending, n, z, [])
          end
      end
  end.

(** ** A logic for tasks

    [tspec R t n z Q]: whatever happens between the points of the task, as long as it
    respects [R], every observation satisfies [Q]: [Q None] at every point on the
    way, [Q (Some a)] when the task returns [a]; and the task does not run out of fuel. *)

Abbreviation post A := (option A → RaftNode → Z → list obs → Prop).

Fixpoint tspec {A} (R : RaftNode → RaftNode → Prop) (t : task A) (n : RaftNode) (z : Z) (Q : post A) :
    Prop :=
  Q None n z [] ∧
  match t with
  | Done a => Q (Some a) n z []
  | Panic => True
  | OutOfFuel => False
  | Lock m k => ∀ n1 z1, R n n1 → z <= z1 →
      tspec R (k (m n1).1) (m n1).2 z1 (λ o n' z' tr, Q o n' z' (OLock n1 (m n1).2 :: tr))
  | Now k => ∀ n1 z1, R n n1 → z <= z1 → tspec R (k z1) n1 z1 Q
  | Sleep ms k => ∀ n1 z1, R n n1 → z + Z.max 0 ms <= z1 → tspec R k n1 z1 Q
  | Send out k => ∀ n1 z1, R n n1 → z <= z1 →
      tspec R k n1 z1 (λ o n' z' tr, Q o n' z' (OSend out :: tr))
  | CallVotes addrs req k => ∀ n1 z1 rs, R n n1 → z <= z1 → length rs = length addrs →
      tspec R (k rs) n1 z1 (λ o n' z' tr, Q o n' z' (OVotes addrs req rs :: tr))
  | Choice k => ∀ n1 z1 b, R n n1 → z <= z1 → tspec R (k b) n1 z1 Q
  end.

Lemma tspec_mono {A} R (t : task A) n z (Q Q' : post A) :
  tspec R t n z Q → (∀ o n' z' tr, Q o n' z' tr → Q' o n' z' tr) → tspec R t n z Q'.
Proof.
  revert n z Q Q'. induction t; simpl; intros n z Q Q' [H0 HQ] Himp; (split; [by apply Himp|]);
    try done; try (by apply Himp); intros; eauto.
Qed.

Lemma tspec_bind {A B} R (t : task A) (f : A → task B) n z (Q1 : post A) (Q : post B) :
  tspec R t n z Q1 →
  (∀ n' z' tr, Q1 None n' z' tr → Q None n' z' tr) →
  (∀ a n' z' tr, Q1 (Some a) n' z' tr → tspec R (f a) n' z' (λ o n z tr', Q o n z (tr ++ tr'))) →
  tspec R (t ≫= f) n z Q.
Proof.
  revert n z Q1 Q. induction t; simpl; intros n z Q1 Q [H0 HQ] HN HS.
  - by apply (HS a n z []).
  - split; [by apply HN|done].
  - done.
  - split; [by apply HN|]. intros. eapply H; [by apply HQ| |]; simpl.
    + intros. by apply HN.
    + intros. by apply (HS a n' z' (_ :: tr)).
  - split; [by apply HN|]. intros. eapply H; [by apply HQ|done|done].
  - split; [by apply HN|]. intros. eapply IHt; [by eapply HQ|done|done].
  - split; [by apply HN|]. intros. eapply IHt; [by eapply HQ| |]; simpl.
    + intros. by apply HN.
    + intros. by apply (HS a n' z' (_ :: tr)).
  - split; [by apply HN|]. intros. eapply H; [by eapply HQ| |]; simpl.
    + intros. by apply HN.
    + intros. by apply (HS a n' z' (_ :: tr)).
  - split; [by apply HN|]. intros. eapply H; [by eapply HQ|done|done].
Qed.

Lemma tspec_none {A} R (t : task A) n z (Q : post A) : tspec R t n z Q → Q None n z [].
Proof. destruct t; simpl; by intros [? _]. Qed.

(** What every turn does respects [R]. *)
Definition respects (R : RaftNode → RaftNode → Prop) (u : turn) : Prop :=
  ∀ n, R n (run_events (meanwhile u) n).

Definition answer {A} (s : status A) : option A := match s with Finished a => Some a | _ => None end.

Lemma run_tspec {A} R (t : task A) turns n z Q : Forall (respects R) turns → tspec R t n z Q →
  let '(s, n', z', tr) := run t turns n z in s ≠ Exhausted ∧ Q (answer s) n' z' tr.
Proof.
  intros Hall. revert turns Hall n z Q.
  induction t; simpl; intros turns Hall n z Q HQ; try (by destruct HQ);
    (destruct Hall as [|u turns Hu Hall]; [by destruct HQ|]); destruct HQ as [_ HQ].
  - specialize (H _ turns Hall _ _ _ (HQ _ (z + Z.of_N (elapsed u)) (Hu n) ltac:(lia))).
    simpl in H. by destruct (run (k _) turns _ _) as [[[]]].
  - by apply H, HQ; [|apply Hu|lia].
  - by apply IHt, HQ; [|apply Hu|lia].
  - specialize (IHt turns Hall _ _ _ (HQ _ (z + Z.of_N (elapsed u)) (Hu n) ltac:(lia))).
    by destruct (run t turns _ _) as [[[]]].
  - specialize (H (replies_of u <$> addrs) turns Hall _ _ _
      (HQ _ (z + Z.of_N (elapsed u)) _ (Hu n) ltac:(lia) (length_fmap _ _))).
    simpl in H. by destruct (run (k _) turns _ _) as [[[]]].
  - by apply H, HQ; [|apply Hu|lia].
Qed.

(** Any environment: nothing is known of the node at the next lock. *)
Definition anything (_ _ : RaftNode) : Prop := True.
(** No interference: between two points the node does not move. *)
Definition alone (n n' : RaftNode) : Prop := n' = n.

Lemma respects_anything turns : Forall (respects anything) turns.
Proof. induction turns; constructor; done. Qed.

(** ** Rules for the primitives *)

Lemma tspec_lock {B} R (m : M RaftNode B) n z (Q : post B) :
  Q None n z [] →
  (∀ n1 z1, R n n1 → z <= z1 → Q None (m n1).2 z1 [OLock n1 (m n1).2] ∧
     match (m n1).1 with Ok b => Q (Some b) (m n1).2 z1 [OLock n1 (m n1).2] | Err _ => True end) →
  tspec R (lock m) n z Q.
Proof.
  intros H0 H1. split; [done|]. intros n1 z1 HR Hz. destruct (H1 n1 z1 HR Hz) as [HN HS].
  destruct (m n1) as [[b|e] n2]; simpl in *; by split.
Qed.

(** ** Every task ends

    A task is a finite tree, so along an infinite environment it reaches a
    leaf; which leaf is what [run_tspec] is about. *)
Definition upto (env : nat → turn) (k : nat) : list turn := env <$> seq 0 k.

Lemma upto_S env k : upto env (S k) = env 0%nat :: upto (λ i, env (S i)) k.
Proof. unfold upto. rewrite <- cons_seq, <- fmap_S_seq, fmap_cons, <- list_fmap_compose. done. Qed.

Lemma run_ends {A} (t : task A) env n z : ∃ k, (run t (upto env k) n z).1.1.1 ≠ Pending.
Proof.
  revert env n z. induction t; intros env n z; try (by exists 0%nat).
  - destruct (H (m (run_events (meanwhile (env 0%nat)) n)).1 (λ i, env (S i))
      (m (run_events (meanwhile (env 0%nat)) n)).2 (z + Z.of_N (elapsed (env 0%nat)))) as [j Hj].
    exists (S j). rewrite upto_S. simpl. done.
  - destruct (H (z + Z.of_N (elapsed (env 0%nat))) (λ i, env (S i))
      (run_events (meanwhile (env 0%nat)) n) (z + Z.of_N (elapsed (env 0%nat)))) as [j Hj].
    exists (S j). by rewrite upto_S.
  - destruct (IHt (λ i, env (S i)) (run_events (meanwhile (env 0%nat)) n)
      (z + Z.of_N (elapsed (env 0%nat)) + Z.max 0 ms)) as [j Hj].
    exists (S j). by rewrite upto_S.
  - destruct (IHt (λ i, env (S i)) (run_events (meanwhile (env 0%nat)) n)
      (z + Z.of_N (elapsed (env 0%nat)))) as [j Hj].
    exists (S j). by rewrite upto_S.
  - destruct (H (replies_of (env 0%nat) <$> addrs) (λ i, env (S i))
      (run_events (meanwhile (env 0%nat)) n) (z + Z.of_N (elapsed (env 0%nat)))) as [j Hj].
    exists (S j). by rewrite upto_S.
  - destruct (H (chosen (env 0%nat)) (λ i, env (S i))
      (run_events (meanwhile (env 0%nat)) n) (z + Z.of_N (elapsed (env 0%nat)))) as [j Hj].
    exists (S j). by rewrite upto_S.
Qed.
End run.

#[global] Arguments tspec : simpl never.

(** ** Invariants of observations

    [I seen tr]: having seen [seen], the observations [tr] are fine. The rules
    below carry such an invariant through a task, together with what it returns. *)

Class TraceInv (I : list obs → list obs → Prop) := {
  ti_nil seen : I seen [];
  ti_app seen tr tr' : I seen tr → I (seen ++ tr) tr' → I seen (tr ++ tr');
  ti_same seen n : I seen [OLock n n];
  ti_other seen o : match o with OLock _ _ => False | _ => True end → I seen [o];
}.

Definition ipost (I : list obs → list obs → Prop) (seen : list obs) {A}
    (Φ : A → RaftNode → Z → list obs → Prop) : option A → RaftNode → Z → list obs → Prop :=
  λ o n z tr, I seen tr ∧ match o with Some a => Φ a n z tr | None => True end.

(** No invariant. *)
Definition whatever (_ _ : list obs) : Prop := True.
#[export] Instance whatever_inv : TraceInv whatever.
Proof. by split. Qed.

Section rules.
Context (I : list obs → list obs → Prop) `{!TraceInv I} (R : RaftNode → RaftNode → Prop).

Lemma i_bind {A B} seen (t : task A) (f : A → task B) n z Φ1 Φ :
  tspec R t n z (ipost I seen Φ1) →
  (∀ a n' z' tr, Φ1 a n' z' tr →
     tspec R (f a) n' z' (ipost I (seen ++ tr) (λ b m y tr', Φ b m y (tr ++ tr')))) →
  tspec R (t ≫= f) n z (ipost I seen Φ).
Proof.
  intros Ht Hf. eapply tspec_bind; [exact Ht|by intros ??? [? _]|]. intros a n' z' tr [Hj H1].
  eapply tspec_mono; [by apply Hf|]. intros o m y tr' [Hj' H2]. split; [by apply ti_app|done].
Qed.

Lemma i_ret {A} seen (a : A) n z (Φ : A → RaftNode → Z → list obs → Prop) : Φ a n z [] →
  tspec R (mret a) n z (ipost I seen Φ).
Proof. intros H. by split; (split; [apply ti_nil|]). Qed.

Lemma i_mono {A} seen (t : task A) n z (Φ Φ' : A → RaftNode → Z → list obs → Prop) :
  tspec R t n z (ipost I seen Φ) → (∀ a m y tr, Φ a m y tr → Φ' a m y tr) →
  tspec R t n z (ipost I seen Φ').
Proof.
  intros Ht H. eapply tspec_mono; [exact Ht|]. intros [a|] m y tr [Hj H1]; split; auto.
Qed.

Lemma i_lock {B} seen (m : M RaftNode B) n z (Φ : B → RaftNode → Z → list obs → Prop) :
  (∀ n1, I seen [OLock n1 (m n1).2]) →
  (∀ n1 z1 b n2, R n n1 → z <= z1 → m n1 = (Ok b, n2) → Φ b n2 z1 [OLock n1 n2]) →
  tspec R (lock m) n z (ipost I seen Φ).
Proof.
  intros Hm H. apply tspec_lock; [by split; [apply ti_nil|]|]. intros n1 z1 HR Hz.
  specialize (Hm n1). split; [by split|]. specialize (H n1 z1).
  destruct (m n1) as [[b|e] n2]; simpl in *; [|done]. split; auto.
Qed.

Lemma i_read {B} seen (f : RaftNode → B) n z (Φ : B → RaftNode → Z → list obs → Prop) :
  (∀ n1 z1, R n n1 → z <= z1 → Φ (f n1) n1 z1 [OLock n1 n1]) →
  tspec R (read f) n z (ipost I seen Φ).
Proof.
  intros H. apply i_lock; [intros; apply ti_same|]. intros n1 z1 b n2 HR Hz [= <- <-]. auto.
Qed.

Lemma i_now seen n z (Φ : Z → RaftNode → Z → list obs → Prop) :
  (∀ n1 z1, R n n1 → z <= z1 → Φ z1 n1 z1 []) → tspec R now n z (ipost I seen Φ).
Proof.
  intros H. split; [by split; [apply ti_nil|]|]. intros n1 z1 HR Hz. apply i_ret. auto.
Qed.

Lemma i_sleep seen ms n z (Φ : unit → RaftNode → Z → list obs → Prop) :
  (∀ n1 z1, R n n1 → z + Z.max 0 ms <= z1 → Φ tt n1 z1 []) → tspec R (sleep ms) n z (ipost I seen Φ).
Proof.
  intros H. split; [by split; [apply ti_nil|]|]. intros n1 z1 HR Hz. apply (i_ret _ tt). auto.
Qed.

Lemma i_send seen out n z (Φ : unit → RaftNode → Z → list obs → Prop) :
  (∀ n1 z1, R n n1 → z <= z1 → Φ tt n1 z1 [OSend out]) → tspec R (send out) n z (ipost I seen Φ).
Proof.
  intros H. assert (I seen [OSend out]) by (by apply ti_other).
  split; [by split; [apply ti_nil|]|]. intros n1 z1 HR Hz. split; (split; [done|auto]).
Qed.

Lemma i_call seen addrs req n z (Φ : list vote_result → RaftNode → Z → list obs → Prop) :
  (∀ n1 z1 rs, R n n1 → z <= z1 → length rs = length addrs → Φ rs n1 z1 [OVotes addrs req rs]) →
  tspec R (call_votes addrs req) n z (ipost I seen Φ).
Proof.
  intros H. split; [by split; [apply ti_nil|]|]. intros n1 z1 rs HR Hz Hl.
  assert (I seen [OVotes addrs req rs]) by (by apply ti_other).
  split; (split; [done|auto]).
Qed.
End rules.

(** Symbolic execution of a task. *)
Ltac i_step :=
  lazymatch goal with
  | |- tspec _ (mret _) _ _ _ => apply i_ret; [apply _|]
  | |- tspec _ (_ ≫= _) _ _ _ => eapply i_bind; [apply _| |]
  | |- tspec _ (read _) _ _ _ => apply i_read; [apply _|]; intros ?n ?z _ ?Hz
  | |- tspec _ now _ _ _ => apply i_now; [apply _|]; intros ?n ?z _ ?Hz
  | |- tspec _ (sleep _) _ _ _ => apply i_sleep; [apply _|]; intros ?n ?z _ ?Hz
  | |- tspec _ (send _) _ _ _ => apply i_send; [apply _|]; intros ?n ?z _ ?Hz
  end.

(** A bind, with what its first part guarantees. *)
Tactic Notation "i_bind_with" uconstr(P) := eapply i_bind with (Φ1 := P); [apply _| |].
