(* ===== verification/Coordinator.v ===== *)
(** * The transaction coordinator ([src/rust/oxide-kv/src/raft/coordinator.rs])

    Two-phase commit driven by the leader, as tasks over the shared node
    ([Task]): propose [BeginTx], wait until every peer holds it, call for votes, tally, propose
    [DecideTx]; and the sweep that aborts transactions whose coordinator is gone.
    Times are in milliseconds. *)

From stdpp Require Import prelude gmap strings pretty sorting countable list.
From S2P Require Import Prelude Serde Protocol StateMachine Storage Display Rpc Node NodeEvents Timer Task.
#[local] Open Scope Z_scope.

Inductive TxOutcome :=
  | Committed (begin_index decide_index : Z) (tx_id : string)
  | Aborted (tx_id reason : string)
  | NotLeader (tx_id : string).

#[export] Instance TxOutcome_eq_dec : EqDecision TxOutcome.
Proof. solve_decision. Defined.

Definition TX_VOTE_TIMEOUT_MS : Z := 2000.
Definition COORDINATE_TIMEOUT : Z := 10000.

(** ** [Debug] output of the values the reasons print *)

Definition state_debug (s : NodeState) : string :=
  match s with
  | Follower => "Follower"
  | Candidate => "Candidate"
  | Leader => "Leader"
  | PreCandidate => "PreCandidate"
  end.

Definition snapshot_debug : list (string * Z) → string := debug_vec (debug_pair debug_str pretty).

Section coordinator.
Context {JW : Json WalOp} {JE : Json (list SSTEntry)} {JM : Json SSTableMeta}.
Context {BL : Bincode LogEntry} {JV : Json Value}.

(** ** Polling

    The loops poll every 20 ms for at most 5 s. Each sleep takes at least its
    time, so the 252nd round is past the bound: [poll_rounds] is fuel enough. *)

Definition wait_bound : Z := 5000.
Definition poll_ms : Z := 20.
Definition poll_rounds : nat := 252.

Definition applied_error (what : string) (index commit applied : Z) : string :=
  "timed out waiting for " +:+ what +:+ " " +:+ pretty index +:+ " to apply (commit=" +:+
    pretty commit +:+ ", applied=" +:+ pretty applied +:+ ")".

(** The loop of [propose_and_wait_for_apply] and [propose_batch_and_wait_for_apply]. *)
Fixpoint wait_applied (fuel : nat) (start index : Z) (what : string) : task (Z + string) :=
  match fuel with
  | O => OutOfFuel
  | S fuel' =>
      seen ← read (λ n, (state n, commit_index n, last_applied n));
      let '(st, commit_idx, applied) := seen in
      if negb (bool_decide (st = Leader))
      then mret (inr ("stepped down to " +:+ state_debug st +:+ " mid-commit"))
      else if (index <=? commit_idx) && (index <=? applied) then mret (inl index)
      else
      t ← now;
      if wait_bound <? t - start then mret (inr (applied_error what index commit_idx applied)) else
      sleep poll_ms ;;
      wait_applied fuel' start index what
  end.

Definition propose_and_wait_for_apply (command : Command) : task (Z + string) :=
  r ← lock (
    st ← gets state;
    if negb (bool_decide (st = Leader)) then mret (inr "not leader at propose time"%string) else
    ok ← propose command;
    if negb ok then mret (inr "propose rejected"%string) else
    len ← gets log_len;
    mret (inl len));
  match r with
  | inr e => mret (inr e)
  | inl index =>
      sync_logs_async ;;
      start ← now;
      wait_applied poll_rounds start index "index"
  end.

Definition propose_batch_and_wait_for_apply (commands : list Command) : task (Z + string) :=
  r ← lock (
    st ← gets state;
    if negb (bool_decide (st = Leader)) then mret (inr "not leader at propose time"%string) else
    ok ← propose_batch commands;
    if negb ok then mret (inr "propose_batch rejected"%string) else
    first ← gets (λ n, log_len n - Z.of_nat (length commands) + 1);
    mret (inl first));
  match r with
  | inr e => mret (inr e)
  | inl first_index =>
      sync_logs_async ;;
      start ← now;
      wait_applied poll_rounds start first_index "batch first index"
  end.

(** Under the lock: an error when the node no longer leads, else the
    replication state of every peer. *)
Definition replication_snapshot (n : RaftNode) : list (string * Z) + string :=
  if negb (bool_decide (state n = Leader))
  then inr ("stepped down to " +:+ state_debug (state n) +:+ " during replication wait")
  else inl ((λ p, (p, match_index_for p n)) <$> peers n).

Fixpoint wait_replicated (fuel : nat) (start index : Z) : task (unit + string) :=
  match fuel with
  | O => OutOfFuel
  | S fuel' =>
      snapshot ← read replication_snapshot;
      match snapshot with
      | inr e => mret (inr e)
      | inl snapshot =>
          if forallb (λ p, index <=? p.2) snapshot then mret (inl tt) else
          t ← now;
          if wait_bound <? t - start then
            mret (inr ("timed out waiting for index " +:+ pretty index +:+
              " to replicate to all peers (current: " +:+ snapshot_debug snapshot +:+ ")"))
          else
          sleep poll_ms ;;
          wait_replicated fuel' start index
      end
  end.

Definition wait_for_replication (index : Z) : task (unit + string) :=
  start ← now;
  wait_replicated poll_rounds start index.

(** ** The round *)

Definition single_node_fast_path (tx_id : string) (ops : list TxOp) : task TxOutcome :=
  r ← propose_batch_and_wait_for_apply [CBeginTx tx_id ops; CDecideTx tx_id Commit];
  match r with
  | inl begin_index => mret (Committed begin_index (begin_index + 1) tx_id)
  | inr _ => mret (NotLeader tx_id)
  end.

(** One spawned task's result as the coordinator sees it. *)
Definition vote_pair (addr : string) (r : vote_result) : string * (TxVoteResponse + string) :=
  match r with
  | Answered resp => (addr, inl resp)
  | TransportError e => (addr, inr ("vote transport error: " +:+ e))
  | RpcTimedOut => (addr, inr ("vote RPC timed out after " +:+ pretty TX_VOTE_TIMEOUT_MS +:+ "ms"))
  | TaskPanicked e => ("<unknown peer>"%string, inr ("vote task panicked: " +:+ e))
  end.

Definition declined (addr reason : string) : string :=
  if bool_decide (reason = EmptyString) then "peer " +:+ addr +:+ " declined vote"
  else "peer " +:+ addr +:+ " declined vote: " +:+ reason.

Definition rpc_failed (addr e : string) : string :=
  "peer " +:+ addr +:+ " vote RPC failed: " +:+ e +:+ " (treated as No)".

(** Step 4, the loop over the results: the yes voters and the last reason to
    abort, or [inr tt] when a peer is in a higher term and the node has stepped down. *)
Fixpoint tally (tx_id : string) (leader_term : Z) (results : list (string * (TxVoteResponse + string)))
    (yes_voters : gset string) (abort_reason : option string) : task (gset string * option string + unit) :=
  match results with
  | [] => mret (inl (yes_voters, abort_reason))
  | (addr, inl resp) :: results' =>
      if leader_term <? tr_term resp then
        lock (tx_step_down (tr_term resp)) ;;
        mret (inr tt)
      else if tr_granted resp then
        lock (ignore (on_sm (record_vote tx_id addr VoteYes))) ;;
        tally tx_id leader_term results' ({[addr]} ∪ yes_voters) abort_reason
      else
        tally tx_id leader_term results' yes_voters (Some (declined addr (tr_reason resp)))
  | (addr, inr e) :: results' =>
      tally tx_id leader_term results' yes_voters (Some (rpc_failed addr e))
  end.

(** What the coordinator reads before it calls for votes. *)
Record TxView := mkTxView {
  tx_leader_term : Z;
  tx_peers : list string;
  tx_leader_id : string;
  tx_begin_term : Z;
}.

Definition tx_view (begin_index : Z) (n : RaftNode) : TxView :=
  mkTxView (current_term n) (peers n) (self_id n)
    (default (current_term n) (le_term <$> get_log_entry begin_index n)).

(** Step 5: all the expected voters, and no reason to abort. *)
Definition decision_of (expected_voters yes_voters : gset string) (abort_reason : option string) : TxDecision :=
  if bool_decide (is_Some abort_reason) || negb (bool_decide (yes_voters = expected_voters))
  then Abort else Commit.

Definition finish_round (tx_id : string) (begin_index : Z) (expected yes_voters : gset string)
    (abort_reason : option string) : task TxOutcome :=
  let decision := decision_of expected yes_voters abort_reason in
  r ← propose_and_wait_for_apply (CDecideTx tx_id decision);
  match r, decision with
  | inr _, _ => mret (NotLeader tx_id)
  | inl decide_index, Commit => mret (Committed begin_index decide_index tx_id)
  | inl _, Abort => mret (Aborted tx_id (default "incomplete vote set"%string abort_reason))
  end.

(** Steps 2 to 5. *)
Definition vote_round_tx (tx_id : string) (begin_index : Z) : task TxOutcome :=
  v ← read (tx_view begin_index);
  lock (ignore (on_sm (record_vote tx_id (tx_leader_id v) VoteYes))) ;;
  let req := mkTxVoteRequest (tx_leader_term v) tx_id begin_index (tx_begin_term v) in
  replies ← call_votes (tx_peers v) req;
  let results := zip_with vote_pair (tx_peers v) replies in
  t ← tally tx_id (tx_leader_term v) results {[tx_leader_id v]} None;
  match t with
  | inr _ => mret (NotLeader tx_id)
  | inl (yes_voters, abort_reason) =>
      finish_round tx_id begin_index ({[tx_leader_id v]} ∪ list_to_set (tx_peers v)) yes_voters abort_reason
  end.

Definition coordinate_tx_inner (tx_id : string) (ops : list TxOp) : task TxOutcome :=
  single ← read is_single_node;
  if (single : bool) then single_node_fast_path tx_id ops else
  r ← propose_and_wait_for_apply (CBeginTx tx_id ops);
  match r with
  | inr _ => mret (NotLeader tx_id)
  | inl begin_index =>
      w ← wait_for_replication begin_index;
      match w with
      | inr reason => mret (Aborted tx_id ("replication failed: " +:+ reason))
      | inl _ => vote_round_tx tx_id begin_index
      end
  end.

Definition coordinate_tx (tx_id : string) (ops : list TxOp) : task TxOutcome :=
  timeout COORDINATE_TIMEOUT
    (Aborted tx_id ("coordinator round exceeded " +:+ pretty (COORDINATE_TIMEOUT / 1000) +:+
       "s wall-clock bound"))
    (coordinate_tx_inner tx_id ops).

(** [SimCluster::run_tx]: the round under a bound of the caller's; [None] when it elapsed. *)
Definition run_tx (bound : Z) (tx_id : string) (ops : list TxOp) : task (option TxOutcome) :=
  timeout bound None (o ← coordinate_tx tx_id ops; mret (Some o)).

(** ** The sweep *)

(** The transactions of one pass; the result of each proposal is only logged. *)
Fixpoint abort_stale (stale : list string) : task unit :=
  match stale with
  | [] => mret tt
  | tx_id :: stale' => lock (propose_abort_tx tx_id) ;; abort_stale stale'
  end.

Definition tx_timeout_sweep (timeout_env : option Z) : task unit :=
  is_leader ← read (λ n, bool_decide (state n = Leader));
  if negb is_leader then mret tt else
  stale ← read (node_pending_txs_older_than (tx_timeout_ms timeout_env));
  abort_stale stale.

(** [run_tx_timeout_loop] when [ticks] periods pass before the stop signal. *)
Fixpoint run_tx_timeout_loop (timeout_env sweep_env : option Z) (ticks : nat) : task unit :=
  match ticks with
  | O => mret tt
  | S ticks' =>
      sleep (tx_timeout_sweep_interval_ms sweep_env) ;;
      tx_timeout_sweep timeout_env ;;
      run_tx_timeout_loop timeout_env sweep_env ticks'
  end.
End coordinator.
