(* ===== verification/CoordinatorProps.v ===== *)
(** * What the coordinator proposes, and why

    Every critical section of a coordinator appends at most the command it
    proposes, apart from the configuration entries of [apply_logs]; every decision it
    proposes is justified by what it has seen before. *)

From stdpp Require Import prelude gmap strings pretty sorting countable list.
From S2P Require Import Prelude Serde Protocol StateMachine Storage Rpc Node NodeEvents Timer Task Coordinator.
From S2P Require Import StorageProps NodeVotes NodeLog NodeLeader.
#[local] Open Scope Z_scope.

(** ** Sections that only append to the log *)

Definition appends (P : Command → Prop) (n n' : RaftNode) : Prop :=
  ∃ es, log n' = log n ++ es ∧ Forall (λ e, P (le_command e)) es.

#[export] Instance appends_preorder P : PreOrder (appends P).
Proof.
  split.
  - intros n. exists []. by rewrite app_nil_r.
  - intros n1 n2 n3 (es & E & H) (es' & E' & H'). exists (es ++ es').
    rewrite E', E, app_assoc. by rewrite Forall_app.
Qed.

Lemma appends_weaken (P P' : Command → Prop) n n' : (∀ c, P c → P' c) → appends P n n' → appends P' n n'.
Proof. intros HP (es & E & H). exists es. split; [done|]. eapply Forall_impl; [done|]. naive_solver. Qed.

Lemma appends_same P n n' : log n' = log n → appends P n n'.
Proof. intros E. exists []. by rewrite app_nil_r. Qed.

Definition is_config (c : Command) : Prop := ∃ cf, c = CInstallConfiguration cf.

Section sections.
Context {JW : Json WalOp} {JE : Json (list SSTEntry)} {JM : Json SSTableMeta}.
Context {BL : Bincode LogEntry} {JV : Json Value}.
Context (P : Command → Prop).

Lemma appends_modify f : (∀ n, log (f n) = log n) → keeps (appends P) (modify f).
Proof. intros Hf n. apply appends_same, Hf. Qed.

Lemma appends_on_sm {A} (m : M StateMachine A) : keeps (appends P) (on_sm m).
Proof. intros n. unfold on_sm, zoom. by destruct (m (state_machine n)); apply appends_same. Qed.

Lemma appends_on_disk {A} (m : M Disk A) : keeps (appends P) (on_disk m).
Proof. intros n. unfold on_disk, zoom. by destruct (m (storage n)); apply appends_same. Qed.

Lemma appends_append_own c : P c → keeps (appends P) (append_own c).
Proof.
  intros Hc n. unfold append_own, gets, mbind, M_bind, on_disk, zoom, modify. simpl.
  destruct (append_wal_log _ _) as [[[]|e] d]; simpl; [|by apply appends_same].
  eexists. split; [done|]. by constructor.
Qed.

Lemma appends_catch {A B} (m : M RaftNode A) (f : A → B) g :
  keeps (appends P) m → keeps (appends P) (catch m f g).
Proof. intros Hm n. specialize (Hm n). unfold catch. by destruct (m n) as [[]]. Qed.

Lemma appends_propose c : P c → keeps (appends P) (propose c).
Proof. intros Hc. unfold propose. keep. by apply appends_catch, appends_append_own. Qed.

Lemma appends_propose_loop cs i : Forall P cs → keeps (appends P) (propose_loop cs i).
Proof.
  intros H. revert i. induction H as [|c cs Hc _ IH]; intros i; simpl; [keep|].
  apply (keeps_bind (appends P)); [keep|intros t].
  intros n. unfold mbind, M_bind, on_disk, zoom, modify. simpl.
  destruct (append_wal_log _ _) as [[[]|e] d]; simpl; [|by apply appends_same].
  etransitivity; [|apply IH]. eexists. split; [done|]. by constructor.
Qed.

Lemma appends_propose_batch cs : Forall P cs → keeps (appends P) (propose_batch cs).
Proof. intros Hc. unfold propose_batch. keep. by apply appends_catch, appends_propose_loop. Qed.

Lemma appends_propose_abort_tx tx : P (CDecideTx tx Abort) → keeps (appends P) (propose_abort_tx tx).
Proof. intros Hc. unfold propose_abort_tx. keep. by apply appends_catch, appends_append_own. Qed.

Lemma appends_adopt_term t : keeps (appends P) (adopt_term t).
Proof. unfold adopt_term, persist_meta. keep; try (by apply appends_modify). apply appends_on_disk. Qed.

Context (HP : ∀ cf, P (CInstallConfiguration cf)).

Lemma appends_apply_command c : keeps (appends P) (apply_command c).
Proof.
  destruct c; simpl; keep; try apply appends_on_sm.
  unfold install_configuration. keep; try (by apply appends_modify). by apply appends_append_own.
Qed.

Lemma appends_apply_loop fuel : keeps (appends P) (apply_loop fuel).
Proof.
  induction fuel; simpl; keep; [apply appends_apply_command|by apply appends_modify].
Qed.

Lemma appends_maybe_commit : keeps (appends P) maybe_commit.
Proof.
  unfold maybe_commit, apply_logs. keep; [by apply appends_modify|]. apply appends_apply_loop.
Qed.

Lemma appends_append_args v p : keeps (appends P) (append_args v p).
Proof. unfold append_args. keep. Qed.
End sections.

(** [sync_logs] appends at most configuration entries. *)
Section sync.
Context {JW : Json WalOp} {JE : Json (list SSTEntry)} {JM : Json SSTableMeta}.
Context {BL : Bincode LogEntry}.
Context (I : list obs → list obs → Prop) `{!TraceInv I}.
Context (HI : ∀ seen n n', appends is_config n n' → I seen [OLock n n']).

Lemma i_sync_peers seen v ps n z Φ : (∀ n' z' tr, z <= z' → Φ tt n' z' tr) →
  tspec anything (sync_peers v ps) n z (ipost I seen Φ).
Proof.
  revert seen n z Φ. induction ps as [|p ps IH]; intros seen n z Φ H; cbn [sync_peers].
  { i_step. apply H. lia. }
  i_bind_with (λ _ _ z' _, z <= z').
  { apply i_lock; [done|intros; apply HI, appends_append_args|done]. }
  intros args n1 z1 tr Hz. i_bind_with (λ _ _ z' _, z1 <= z'); [by i_step|].
  intros [] n2 z2 tr2 Hz2. apply IH. intros. apply H. lia.
Qed.

Lemma i_sync seen n z Φ : (∀ n' z' tr, z <= z' → Φ tt n' z' tr) →
  tspec anything sync_logs_async n z (ipost I seen Φ).
Proof.
  intros H. unfold sync_logs_async. i_bind_with (λ _ _ z' _, z <= z'); [by i_step|].
  intros v n1 z1 tr Hz. case_bool_decide; [|apply i_sync_peers; intros; apply H; lia].
  apply i_lock; [done| |intros ?? []; intros; apply H; lia]. intros m. apply HI.
  assert (keeps (appends is_config) (st ← gets state; if bool_decide (st = Leader) then maybe_commit else mret tt))
    as Hk; [|apply Hk]. keep. apply appends_maybe_commit. intros cf. by exists cf.
Qed.
End sync.

(** ** Justified decisions *)

(** The section that took the node from [n] to [n'] put this decision into the log. *)
Definition decides (tx : string) (d : TxDecision) (n n' : RaftNode) : Prop :=
  ∃ e, e ∈ drop (length (log n)) (log n') ∧ le_command e = CDecideTx tx d.

Lemma appends_decides P tx d n n' : appends P n n' → decides tx d n n' → P (CDecideTx tx d).
Proof.
  intros (es & E & H) (e & He & Hc). rewrite E, drop_app_length in He.
  rewrite Forall_forall in H. specialize (H e He). by rewrite Hc in H.
Qed.

(** The peer answered yes, in a term no later than the one it was asked in. *)
Definition granted (req : TxVoteRequest) (r : vote_result) : bool :=
  match r with
  | Answered resp => negb (tv_term req <? tr_term resp) && tr_granted resp
  | _ => false
  end.

(** What entitles the coordinator to a decision: a commit needs a cluster of
    one or a vote in which every peer said yes, an abort needs a vote in which some peer did not. *)
Definition licence (tx : string) (d : TxDecision) (seen : list obs) : Prop :=
  match d with
  | Commit =>
      (∃ n, OLock n n ∈ seen ∧ peers n = []) ∨
      ∃ addrs req replies, OVotes addrs req replies ∈ seen ∧ tv_tx_id req = tx ∧
        length replies = length addrs ∧ forallb (granted req) replies = true
  | Abort =>
      ∃ addrs req replies, OVotes addrs req replies ∈ seen ∧ tv_tx_id req = tx ∧
        length replies = length addrs ∧ forallb (granted req) replies = false
  end.

Lemma licence_app tx d seen tr : licence tx d seen → licence tx d (seen ++ tr).
Proof.
  destruct d; simpl.
  - intros [(n & Hn & Hp)|(a & q & r & H & Ht)].
    + left. exists n. rewrite elem_of_app. auto.
    + right. exists a, q, r. rewrite elem_of_app. auto.
  - intros (a & q & r & H & Ht). exists a, q, r. rewrite elem_of_app. auto.
Qed.

Definition justified (tx : string) (seen tr : list obs) : Prop :=
  ∀ tr1 n1 n2 tr2 d, tr = tr1 ++ OLock n1 n2 :: tr2 → decides tx d n1 n2 → licence tx d (seen ++ tr1).

Lemma justified_nil tx seen : justified tx seen [].
Proof. intros [|? ?] ????; discriminate. Qed.

Lemma justified_app tx seen tr tr' :
  justified tx seen tr → justified tx (seen ++ tr) tr' → justified tx seen (tr ++ tr').
Proof.
  intros H H' tr1 n1 n2 tr2 d E Hd. apply app_eq_inv in E as [(k & -> & E)|(k & -> & ->)].
  - destruct k as [|o k]; simpl in E.
    + rewrite app_nil_r in H'. rewrite <- (app_nil_r tr1). rewrite app_assoc.
      by eapply (H' [] n1 n2 tr2 d).
    + injection E as <- ->. by eapply H.
  - rewrite app_assoc. by eapply H'.
Qed.

Lemma justified_lock tx seen n1 n2 :
  (∀ d, decides tx d n1 n2 → licence tx d seen) → justified tx seen [OLock n1 n2].
Proof.
  intros H [|o tr1] m1 m2 tr2 d E Hd; simpl in E.
  - injection E as <- <- <-. rewrite app_nil_r. by apply H.
  - injection E as _ E. by destruct tr1.
Qed.

Lemma justified_other tx seen o :
  match o with OLock _ _ => False | _ => True end → justified tx seen [o].
Proof. intros Ho [|o' tr1] m1 m2 tr2 d E; simpl in E; [by injection E as ->|injection E as _ E; by destruct tr1]. Qed.

(** A section that appends only commands of [P], none of which is an unjustified decision. *)
Lemma justified_appends tx seen P n1 n2 :
  appends P n1 n2 → (∀ d, P (CDecideTx tx d) → licence tx d seen) → justified tx seen [OLock n1 n2].
Proof. intros Ha HP. apply justified_lock. intros d Hd. eapply HP, appends_decides; done. Qed.

#[export] Instance justified_inv tx : TraceInv (justified tx).
Proof.
  split; [apply justified_nil|apply justified_app| |apply justified_other].
  intros seen n. apply justified_lock. intros d Hd. by apply (appends_decides (λ _, False)) in Hd; [|reflexivity].
Qed.

Abbreviation jpost tx := (ipost (justified tx)).

Lemma j_lock tx {B} seen (m : M RaftNode B) P n z (Φ : B → RaftNode → Z → list obs → Prop) :
  keeps (appends P) m → (∀ d, P (CDecideTx tx d) → licence tx d seen) →
  (∀ n1 z1 b n2, z <= z1 → m n1 = (Ok b, n2) → Φ b n2 z1 [OLock n1 n2]) →
  tspec anything (lock m) n z (jpost tx seen Φ).
Proof.
  intros Hm HP H. apply i_lock; [apply _| |intros; by apply H]. intros n1.
  eapply justified_appends; [apply Hm|done].
Qed.

(** ** The parts of the coordinator *)

Section parts.
Context {JW : Json WalOp} {JE : Json (list SSTEntry)} {JM : Json SSTableMeta}.
Context {BL : Bincode LogEntry} {JV : Json Value}.
Context (tx : string).

Lemma config_licence d seen : is_config (CDecideTx tx d) → licence tx d seen.
Proof. by intros [cf ?]. Qed.

Lemma j_sync seen n z Φ : (∀ n' z' tr, z <= z' → Φ tt n' z' tr) →
  tspec anything sync_logs_async n z (jpost tx seen Φ).
Proof.
  intros H. apply i_sync; [apply _| |exact H]. intros seen' n1 n2 Ha. eapply justified_appends; [exact Ha|]. intros. by apply config_licence.
Qed.

(** Every round sleeps 20 ms, so there are at most 252 of them. *)
Lemma j_wait_applied seen fuel start index what n z Φ :
  start + poll_ms * (Z.of_nat poll_rounds - Z.of_nat fuel) <= z → (1 <= fuel)%nat →
  (∀ r n' z' tr, match r with inl i => i = index | inr _ => True end → Φ r n' z' tr) →
  tspec anything (wait_applied fuel start index what) n z (jpost tx seen Φ).
Proof.
  unfold poll_ms, poll_rounds. revert seen n z Φ.
  induction fuel as [|fuel IH]; intros seen n z Φ Hz Hf H; [lia|]. cbn [wait_applied].
  i_bind_with (λ _ _ z' _, z <= z'); [by i_step|].
  intros [[st commit] applied] n1 z1 tr1 Hz1.
  destruct (negb _); [i_step; by apply H|].
  destruct ((index <=? commit) && (index <=? applied)); [i_step; by apply H|].
  i_bind_with (λ t _ z' _, z1 <= t ∧ t <= z'); [by i_step|].
  intros t n2 z2 tr2 [Ht Hz2]. destruct (Z.ltb_spec wait_bound (t - start)) as [Hb|Hb]; unfold wait_bound in Hb.
  { i_step. by apply H. }
  i_bind_with (λ _ _ z' _, z2 + 20 <= z').
  { i_step. unfold poll_ms in *. lia. }
  intros [] n3 z3 tr3 Hz3. apply IH; [lia|lia|]. intros. by apply H.
Qed.

Lemma j_wait_replicated seen fuel start index n z Φ :
  start + poll_ms * (Z.of_nat poll_rounds - Z.of_nat fuel) <= z → (1 <= fuel)%nat →
  (∀ r n' z' tr, Φ r n' z' tr) →
  tspec anything (wait_replicated fuel start index) n z (jpost tx seen Φ).
Proof.
  unfold poll_ms, poll_rounds. revert seen n z Φ.
  induction fuel as [|fuel IH]; intros seen n z Φ Hz Hf H; [lia|]. cbn [wait_replicated].
  i_bind_with (λ _ _ z' _, z <= z'); [by i_step|].
  intros [snapshot|e] n1 z1 tr1 Hz1; [|by i_step].
  destruct (forallb _ snapshot); [by i_step|].
  i_bind_with (λ t _ z' _, z1 <= t ∧ t <= z'); [by i_step|].
  intros t n2 z2 tr2 [Ht Hz2]. destruct (Z.ltb_spec wait_bound (t - start)) as [Hb|Hb]; unfold wait_bound in Hb.
  { by i_step. }
  i_bind_with (λ _ _ z' _, z2 + 20 <= z').
  { i_step. unfold poll_ms in *. lia. }
  intros [] n3 z3 tr3 Hz3. apply IH; [lia|lia|]. intros. by apply H.
Qed.

Context {LB : BincodeLaws LogEntry}.

(** The WAL gained the frames of [es]. *)
Definition wal_gained (es : list LogEntry) (d d' : Disk) : Prop :=
  ∀ before, wal_holds before d → wal_holds (before ++ es) d'.

Lemma wal_gained_append e d d' : append_wal_log e d = (Ok tt, d') → wal_gained [e] d d'.
Proof.
  intros E before Hb. by destruct (wp_elim _ _ _ _ _ (append_wal_log_wp e before d Hb) E) as (_ & _ & Hok & _); auto.
Qed.

Lemma wal_gained_cons e es d d1 d' : wal_gained [e] d d1 → wal_gained es d1 d' → wal_gained (e :: es) d d'.
Proof. intros H1 H2 before Hb. rewrite cons_middle, app_assoc. by apply H2, H1. Qed.

Lemma append_own_gained c n i n' : append_own c n = (Ok i, n') →
  wal_gained [mkLogEntry (current_term n) (log_len n + 1) c] (storage n) (storage n').
Proof.
  unfold append_own, on_disk, zoom, modify, gets, mbind, M_bind. simpl.
  destruct (append_wal_log _ _) as [[[]|e] d] eqn:E; simpl; [|done]. intros [= _ <-]. by apply wal_gained_append.
Qed.

Lemma propose_loop_gained cs i n n' : propose_loop cs i n = (Ok tt, n') →
  wal_gained (batch_entries (current_term n) i cs) (storage n) (storage n').
Proof.
  revert i n. induction cs as [|c cs IH]; intros i n; simpl.
  { intros [= <-] before. by rewrite app_nil_r. }
  unfold on_disk, zoom, modify, gets, mbind, M_bind. simpl.
  destruct (append_wal_log _ _) as [[[]|e] d] eqn:E; simpl; [|done]. intros H%IH. simpl in H.
  eapply wal_gained_cons; [by apply wal_gained_append|exact H].
Qed.

(** A section of a leader appended [c] at index [i], in its term, to its log and to its WAL. *)
Definition proposed (c : Command) (i : Z) (tr : list obs) : Prop :=
  ∃ n n' es, OLock n n' ∈ tr ∧ state n = Leader ∧ log n' = log n ++ es ∧
    log_len n < i ∧ es !! Z.to_nat (i - log_len n - 1) = Some (mkLogEntry (current_term n) i c) ∧
    wal_gained es (storage n) (storage n').

Lemma proposed_sub c i tr tr' : proposed c i tr → tr ⊆ tr' → proposed c i tr'.
Proof. intros (n & n' & es & Hin & H) Hs. exists n, n', es. auto. Qed.

Lemma propose_ok c n r n' : propose c n = (r, n') →
  r = Ok true ∧ state n = Leader ∧ log n' = log n ++ [mkLogEntry (current_term n) (log_len n + 1) c] ∧
    wal_gained [mkLogEntry (current_term n) (log_len n + 1) c] (storage n) (storage n') ∨
  r = Ok false.
Proof.
  unfold propose, catch, append_own, on_disk, zoom, modify, gets, mbind, M_bind. simpl.
  case_bool_decide as Hs; [|intros [= <- <-]; auto].
  destruct (append_wal_log (mkLogEntry (current_term n) (log_len n + 1) c) (storage n)) as [[[]|e] d] eqn:E;
    simpl; intros [= <- <-]; [|auto]. left. split_and!; [done..|by apply wal_gained_append].
Qed.

Lemma j_propose_and_wait seen c n z Φ :
  (∀ d, c = CDecideTx tx d → licence tx d seen) →
  (∀ r n' z' tr, match r with inl i => proposed c i tr | inr _ => True end → Φ r n' z' tr) →
  tspec anything (propose_and_wait_for_apply c) n z (jpost tx seen Φ).
Proof.
  intros Hc H. unfold propose_and_wait_for_apply.
  i_bind_with (λ r _ _ tr, match r with inl i => proposed c i tr | inr _ => True end).
  - eapply (j_lock _ _ _ (eq c)); [keep; by apply appends_propose|exact Hc|].
    intros n1 z1 r n2 _. unfold gets, mbind, M_bind. simpl.
    case_bool_decide as Hs; simpl; [|by intros [= <- <-]].
    destruct (propose c n1) as [b n3] eqn:E.
    destruct (propose_ok c n1 b n3 E) as [(-> & Hl & Hlog & Hw)| ->]; simpl; intros [= <- <-]; [|done].
    assert (El : log_len n3 = log_len n1 + 1).
    { unfold log_len. rewrite Hlog, length_app. simpl. lia. }
    rewrite El. eexists n1, n3, _. split_and!; [by apply list_elem_of_singleton|done..|lia| |exact Hw].
    by replace (log_len n1 + 1 - log_len n1 - 1) with 0 by lia.
  - intros [i|e] n1 z1 tr Hp; [|i_step; by apply H].
    i_bind_with (λ _ _ _ _, True); [by apply j_sync|]. intros [] n2 z2 tr2 _.
    i_bind_with (λ t _ z' _, t <= z'); [by i_step|]. intros t n3 z3 tr3 Ht.
    apply j_wait_applied; [unfold poll_ms, poll_rounds; lia|unfold poll_rounds; lia|].
    intros [j|e] n4 z4 tr4 Hj; apply H; [|done]. subst j.
    eapply proposed_sub; [done|set_solver].
Qed.

Lemma propose_batch_ok cs n n' : propose_batch cs n = (Ok true, n') →
  state n = Leader ∧ log n' = log n ++ batch_entries (current_term n) (log_len n + 1) cs ∧
  wal_gained (batch_entries (current_term n) (log_len n + 1) cs) (storage n) (storage n').
Proof.
  unfold propose_batch, gets, mbind, M_bind. simpl. case_bool_decide as Hs; [|done]. unfold catch.
  pose proof (propose_loop_wp cs (log_len n + 1) n) as (k & d & _ & _ & En & Hr & _).
  destruct (propose_loop cs (log_len n + 1) n) as [[[]|e] n2] eqn:El; simpl in *; intros [= <-].
  split; [done|]. split; [|by apply propose_loop_gained]. rewrite En. simpl. rewrite (proj1 Hr eq_refl), firstn_all2; [done|].
  by rewrite batch_entries_length.
Qed.

Lemma batch_entries_lookup t i cs k c : cs !! k = Some c →
  batch_entries t i cs !! k = Some (mkLogEntry t (i + Z.of_nat k) c).
Proof.
  revert i k. induction cs as [|c' cs IH]; intros i [|k] H; simplify_eq/=.
  - by replace (i + Z.of_nat 0) with i by lia.
  - rewrite (IH _ _ H). do 2 f_equal. lia.
Qed.

Lemma j_propose_batch_and_wait seen cs n z Φ :
  (∀ d, CDecideTx tx d ∈ cs → licence tx d seen) →
  (∀ r n' z' tr, match r with
                 | inl i => ∀ k c, cs !! k = Some c → proposed c (i + Z.of_nat k) tr
                 | inr _ => True
                 end → Φ r n' z' tr) →
  tspec anything (propose_batch_and_wait_for_apply cs) n z (jpost tx seen Φ).
Proof.
  intros Hc H. unfold propose_batch_and_wait_for_apply.
  i_bind_with (λ r _ _ tr, match r with
    | inl i => ∀ k c, cs !! k = Some c → proposed c (i + Z.of_nat k) tr | inr _ => True end).
  - eapply (j_lock _ _ _ (.∈ cs)); [keep; apply appends_propose_batch; by apply Forall_forall|exact Hc|].
    intros n1 z1 r n2 _. unfold gets, mbind, M_bind. simpl.
    case_bool_decide as Hs; simpl; [|by intros [= <- <-]].
    destruct (propose_batch cs n1) as [[[]|] n3] eqn:E; simpl; intros [= <- <-]; [|done].
    apply propose_batch_ok in E as (_ & Hlog & Hw). intros k c Hk.
    assert (El : log_len n3 = log_len n1 + Z.of_nat (length cs)).
    { unfold log_len. rewrite Hlog, length_app, batch_entries_length. lia. }
    rewrite El. eexists n1, n3, _. split_and!; [by apply list_elem_of_singleton|done..|lia| |exact Hw].
    replace (Z.to_nat _) with k by lia. rewrite (batch_entries_lookup _ _ _ _ _ Hk). do 2 f_equal. lia.
  - intros [i|e] n1 z1 tr Hp; [|i_step; by apply H].
    i_bind_with (λ _ _ _ _, True); [by apply j_sync|]. intros [] n2 z2 tr2 _.
    i_bind_with (λ t _ z' _, t <= z'); [by i_step|]. intros t n3 z3 tr3 Ht.
    apply j_wait_applied; [unfold poll_ms, poll_rounds; lia|unfold poll_rounds; lia|].
    intros [j|e] n4 z4 tr4 Hj; apply H; [|done]. subst j. intros.
    eapply proposed_sub; [by apply Hp|set_solver].
Qed.

(** ** Tallying *)

Lemma j_tally req addrs replies seen yes ab n z Φ : length replies = length addrs →
  (∀ r n' z' tr, match r with
     | inl (yes', ab') =>
         (is_Some ab' ↔ is_Some ab ∨ forallb (granted req) replies = false) ∧
         (forallb (granted req) replies = true → yes' = list_to_set addrs ∪ yes)
     | inr _ => True
     end → Φ r n' z' tr) →
  tspec anything (tally tx (tv_term req) (zip_with vote_pair addrs replies) yes ab) n z (jpost tx seen Φ).
Proof.
  revert addrs seen yes ab n z Φ.
  induction replies as [|r replies IH]; intros [|a addrs] seen yes ab n z Φ Hlen H; try done.
  { cbn [tally zip_with]. i_step. apply H. simpl. split; [naive_solver|set_solver]. }
  injection Hlen as Hlen. cbn [zip_with].
  assert (Hno : ∀ a' e, granted req r = false → vote_pair a r = (a', inr e) →
    tspec anything (tally tx (tv_term req) (vote_pair a r :: zip_with vote_pair addrs replies) yes ab) n z
      (jpost tx seen Φ)).
  { intros a' e Hg ->. cbn [tally]. apply IH; [done|]. intros [[ys ab']|] n' z' tr; intros Hr; apply H; [|done].
    simpl. rewrite Hg. simpl. destruct Hr as [Hab _]. split; [naive_solver|done]. }
  destruct r as [resp|e| |e]; try (by eapply Hno). clear Hno. cbn [vote_pair tally].
  destruct (tv_term req <? tr_term resp) eqn:Et.
  { i_bind_with (λ _ _ _ _, True); [|intros; i_step; by apply H].
    eapply (j_lock _ _ _ is_config); [|intros; by apply config_licence|done].
    unfold tx_step_down. keep. apply appends_adopt_term. }
  destruct (tr_granted resp) eqn:Eg.
  - i_bind_with (λ _ _ _ _, True).
    { eapply (j_lock _ _ _ is_config); [|intros; by apply config_licence|done]. keep. apply appends_on_sm. }
    intros [] n1 z1 tr1 _. apply IH; [done|]. intros [[ys ab']|] n' z' tr Hr; apply H; [|done].
    simpl. rewrite Et, Eg. simpl. destruct Hr as [Hab Hy]. split; [done|]. intros Hall. rewrite Hy by done. set_solver.
  - apply IH; [done|]. intros [[ys ab']|] n' z' tr Hr; apply H; [|done].
    simpl. rewrite Et, Eg. simpl. destruct Hr as [Hab _]. split; [naive_solver|done].
Qed.

(** ** The round *)

(** What an outcome says about the run that reported it. *)
Definition outcome_ok (ops : list TxOp) (o : TxOutcome) (tr : list obs) : Prop :=
  match o with
  | Committed b d tx' => tx' = tx ∧ proposed (CBeginTx tx ops) b tr ∧ proposed (CDecideTx tx Commit) d tr
  | Aborted tx' _ | NotLeader tx' => tx' = tx
  end.

Lemma decision_of_votes req addrs replies leader yes ab :
  (is_Some ab ↔ is_Some (None : option string) ∨ forallb (granted req) replies = false) →
  (forallb (granted req) replies = true → yes = list_to_set addrs ∪ {[leader]}) →
  decision_of ({[leader]} ∪ list_to_set addrs) yes ab =
    (if forallb (granted req) replies then Commit else Abort).
Proof.
  intros Hab Hy. unfold decision_of. destruct (forallb _ _).
  - rewrite bool_decide_false by (rewrite Hab; intros [[]|?]; done). simpl.
    rewrite bool_decide_true; [done|]. rewrite Hy by done. set_solver.
  - rewrite bool_decide_true; [done|]. apply Hab. by right.
Qed.

Lemma j_vote_round seen begin_index ops n z :
  proposed (CBeginTx tx ops) begin_index seen →
  tspec anything (vote_round_tx tx begin_index) n z
    (jpost tx seen (λ o _ _ tr, outcome_ok ops o (seen ++ tr))).
Proof.
  intros Hb. unfold vote_round_tx. i_bind_with (λ _ _ _ _, True); [by i_step|].
  intros v n1 z1 tr1 _. i_bind_with (λ _ _ _ _, True).
  { eapply (j_lock _ _ _ is_config); [|intros; by apply config_licence|done]. keep. apply appends_on_sm. }
  intros [] n2 z2 tr2 _. set (req := mkTxVoteRequest (tx_leader_term v) tx begin_index (tx_begin_term v)).
  i_bind_with (λ rs _ _ tr, tr = [OVotes (tx_peers v) req rs] ∧ length rs = length (tx_peers v)).
  { apply i_call; [apply _|]. auto. }
  intros replies n3 z3 tr3 [-> Hlen].
  i_step; [apply (j_tally req); [done|]; intros r n' z' tr H; exact H|]. simpl.
  intros [[ys ab]|[]] n4 z4 tr4 H; [|by i_step].
  unfold finish_round. rewrite (decision_of_votes req _ replies) by apply H.
  set (d := if forallb _ _ then Commit else Abort).
  i_step; [apply j_propose_and_wait; [|intros r n' z' tr Hr; exact Hr]|].
  { intros d' [= <-]. apply licence_app.
    assert (Hin : OVotes (tx_peers v) req replies ∈ ((seen ++ tr1) ++ tr2) ++ [OVotes (tx_peers v) req replies])
      by set_solver.
    subst d. destruct (forallb (granted req) replies) eqn:Eg; [right|]; by exists (tx_peers v), req, replies. }
  simpl. intros [i|e] n5 z5 tr5 Hp; [|by i_step].
  destruct d eqn:Ed; i_step; simpl; [|done]. split_and!; [done| |].
  - eapply proposed_sub; [done|set_solver].
  - eapply proposed_sub; [done|set_solver].
Qed.

Lemma j_inner ops n z :
  tspec anything (coordinate_tx_inner tx ops) n z (jpost tx [] (λ o _ _ tr, outcome_ok ops o tr)).
Proof.
  unfold coordinate_tx_inner.
  i_bind_with (λ b _ _ tr, ∃ m, tr = [OLock m m] ∧ b = is_single_node m); [i_step; by exists n0|].
  intros single n1 z1 tr1 (m & -> & ->). simpl app. destruct (is_single_node m) eqn:Es.
  - unfold single_node_fast_path. apply bool_decide_eq_true in Es.
    i_step; [apply j_propose_batch_and_wait; [|intros r n' z' tr Hr; exact Hr]|].
    + intros d Hd. assert (d = Commit) as -> by set_solver. left. exists m. split; [set_solver|done].
    + simpl. intros [i|e] n2 z2 tr2 Hp; i_step; [|done]. split_and!; [done| |].
      * replace i with (i + Z.of_nat 0) by lia. eapply proposed_sub; [by apply (Hp 0%nat)|set_solver].
      * replace (i + 1) with (i + Z.of_nat 1) by lia. eapply proposed_sub; [by apply (Hp 1%nat)|set_solver].
  - i_step; [apply j_propose_and_wait; [done|intros r n' z' tr Hr; exact Hr]|].
    cbn beta. intros [i|e] n2 z2 tr2 Hp; cbn iota; [|by i_step].
    i_bind_with (λ _ _ _ _, True).
    { unfold wait_for_replication. i_bind_with (λ t _ z' _, t <= z'); [by i_step|].
      intros t n3 z3 tr3 Ht. apply j_wait_replicated; [unfold poll_ms, poll_rounds; lia|unfold poll_rounds; lia|done]. }
    intros [[]|e] n3 z3 tr3 _; [|by i_step].
    eapply i_mono; [apply (j_vote_round _ _ ops)|].
    + eapply proposed_sub; [done|set_solver].
    + intros o m4 z4 tr. cbn beta. rewrite <- app_assoc. exact id.
Qed.
End parts.

(** ** The wall-clock bound *)

(** Dropping a task at one of its waits adds no behaviour but the fallback. *)
Lemma tspec_until {A} R (t : task A) start bound late n z (Q : option A → RaftNode → Z → list obs → Prop) :
  PreOrder R →
  (∀ n n' z z' tr, Q None n z tr → R n n' → z <= z' → Q None n' z' tr ∧ Q (Some late) n' z' tr) →
  tspec R t n z Q → tspec R (until start bound late t) n z Q.
Proof.
  intros HR. revert n z Q. induction t as [a| | |B m k IH|k IH|ms t IH|out t IH|addrs req k IH|k IH];
    intros n z Q Hl; cbn [until tspec]; try done; intros [H0 HQ].
  - split; [done|]. intros n1 z1 H1 Hz. apply IH; [|by apply HQ]. intros. by eapply Hl.
  - split; [done|]. intros n1 z1 H1 Hz. apply IH; [|by apply HQ]. done.
  - split; [done|]. intros n1 z1 H1 Hz. destruct (Hl _ _ _ _ _ H0 H1 Hz) as [HN1 HL1].
    destruct (bound <=? z1 - start); [by split|]. cbn [tspec]. split; [done|]. intros n2 z2 H2 Hz2.
    destruct (Hl _ _ _ z2 _ HN1 H2 ltac:(lia)) as [HN2 _]. split; [done|]. intros n3 z3 H3 Hz3.
    destruct (Hl _ _ _ _ _ HN2 H3 Hz3) as [HN3 HL3]. destruct (Z.leb_spec ms (z3 - z1)); [|by split].
    apply IH; [done|]. apply HQ; [|lia]. etransitivity; [exact H1|]. by etransitivity.
  - split; [done|]. intros n1 z1 H1 Hz. apply IH; [|by apply HQ]. intros. by eapply Hl.
  - split; [done|]. intros n1 z1 rs H1 Hz Hlen.
    assert (Hk : ∀ n2 z2, R n1 n2 → z1 <= z2 → tspec R (until start bound late (k rs)) n2 z2
      (λ o n' z' tr, Q o n' z' (OVotes addrs req rs :: tr))).
    { intros n2 z2 H2 Hz2. apply IH; [intros; by eapply Hl|]. apply HQ; [by etransitivity|lia|done]. }
    pose proof (HQ n1 z1 rs H1 Hz Hlen) as HN1. apply tspec_none in HN1.
    split; [done|]. intros n2 z2 H2 Hz2. destruct (Hl _ _ _ _ _ HN1 H2 Hz2) as [HN2 _].
    destruct (bound <=? z2 - start); [|by apply Hk]. split; [done|]. intros n3 z3 b H3 Hz3.
    destruct (Hl _ _ _ _ _ HN2 H3 Hz3) as [HN3 HL3].
    destruct b; [apply Hk; [by etransitivity|lia]|by split].
  - split; [done|]. intros n1 z1 b H1 Hz. apply IH; [|by apply HQ]. done.
Qed.

#[export] Instance anything_preorder : PreOrder anything.
Proof. by split. Qed.

Section round.
Context {JW : Json WalOp} {JE : Json (list SSTEntry)} {JM : Json SSTableMeta}.
Context {BL : Bincode LogEntry} {LB : BincodeLaws LogEntry} {JV : Json Value}.

Lemma coordinate_tx_spec tx ops n z :
  tspec anything (coordinate_tx tx ops) n z (jpost tx [] (λ o _ _ tr, outcome_ok tx ops o tr)).
Proof.
  unfold coordinate_tx, timeout. i_bind_with (λ _ _ _ tr, tr = []); [by i_step|].
  intros start n1 z1 tr ->. apply tspec_until; [apply _| |exact (j_inner tx ops n1 z1)].
  intros n2 n3 z2 z3 tr [Hj _] _ _. by split.
Qed.
End round.
