(* ===== verification/CoordinatorTheorems.v ===== *)
(** * The coordinator: claims

    Decisions follow the votes, a lone leader commits at
    once, the sweep aborts what is stuck; and a round that ran out of time may have committed. *)

From stdpp Require Import prelude gmap strings pretty sorting countable list.
From S2P Require Import Prelude Serde Protocol StateMachine StateMachineProps Storage StorageProps Instances Rpc Node.
From S2P Require Import NodeVotes NodeEvents ReferenceModel Refinement NodeLog NodeLeader Samples Timer Task Coordinator.
From S2P Require Import CoordinatorProps.
#[local] Open Scope Z_scope.

Import Codec.

(** ** Sample environments *)

Definition quiet (ms : N) : turn := mkTurn ms [] (λ _, RpcTimedOut) true.

Definition tx_yes (term : Z) : TxVoteResponse := mkTxVoteResponse term true EmptyString.

(** Peers [b] and [c] acknowledge [entries], which follow [prev] of term 1. *)
Definition acked (ms : N) (prev prev_term : Z) (entries : list LogEntry) : turn :=
  let args := mkAppendEntries 1 "a" prev prev_term entries 0 in
  mkTurn ms [EvAppendReply "b" args (mkAppendReply 1 true); EvAppendReply "c" args (mkAppendReply 1 true)]
    (λ _, Answered (tx_yes 1)) true.

Definition begin_entry : LogEntry := mkLogEntry 1 1 (CBeginTx "t" [TxPut "k" "v"]).
Definition decide_entry : LogEntry := mkLogEntry 1 2 (CDecideTx "t" Commit).

(** Both peers hold [BeginTx], vote yes, and hold [DecideTx]. *)
Definition happy_turns : list turn :=
  replicate 8 (quiet 1) ++ [acked 1 0 0 [begin_entry]] ++ replicate 5 (acked 1 0 0 [begin_entry]) ++
  replicate 20 (acked 1 1 1 [decide_entry]).

(** Votes take so long that the decision is proposed in the tenth second. *)
Definition late_turns : list turn :=
  replicate 8 (quiet 1) ++ [acked 4900 0 0 [begin_entry]] ++ replicate 9 (acked 200 0 0 [begin_entry]) ++
  replicate 7 (quiet 1) ++ replicate 5 (quiet 1700).

(** ** Claims *)

Section claims.
Context {JW : Json WalOp} {LW : JsonLaws WalOp}.
Context {JE : Json (list SSTEntry)} {LE : JsonLaws (list SSTEntry)}.
Context {JM : Json SSTableMeta} {LM : JsonLaws SSTableMeta}.
Context {BL : Bincode LogEntry} {LB : BincodeLaws LogEntry}.
Context {JV : Json Value} {LV : JsonLaws Value}.
Context {JS : Json Snapshot} {LS : JsonLaws Snapshot}.

(** C11: two-phase commit decides by the votes. Whatever happens to the node
    between the critical sections of a round, and wherever the round is cut off, a [DecideTx(Commit)] it puts into
    the log follows a vote in which every peer it asked answered yes in no later
    term (or an observation that the node has no peers), and a
    [DecideTx(Abort)] follows a vote in which some peer refused, failed or was late. When the round reports [Committed],
    this node, leading, appended [BeginTx] and [DecideTx(Commit)] at the reported indices. *)
Theorem decisions_follow_votes tx ops turns n z :
  let '(s, _, _, tr) := run (coordinate_tx tx ops) turns n z in
  justified tx [] tr ∧ ∀ o, s = Finished o → outcome_ok tx ops o tr.
Proof.
  pose proof (run_tspec anything (coordinate_tx tx ops) turns n z _ (respects_anything turns)
    (coordinate_tx_spec tx ops n z)) as H.
  destruct (run _ turns n z) as [[[s n'] z'] tr]. destruct H as (_ & Hj & Ho).
  split; [done|]. by intros o ->.
Qed.

(** ** A lone leader *)

Definition lone (n : RaftNode) : Prop :=
  state n = Leader ∧ peers n = [] ∧ current_config n = Simple [server_of (self_id n)].

Lemma lone_quorum s (mi : gmap string Z) len : 0 <= len < 2 ^ 63 →
  config_quorum_reached_index (Simple [server_of s]) mi s len = len.
Proof.
  intros Hl. destruct (quorum_index_spec (Simple [server_of s]) mi s len Hl) as (Hr & _ & Hgt).
  cbv zeta in *. generalize dependent (config_quorum_reached_index (Simple [server_of s]) mi s len).
  intros r Hr Hgt. destruct (Z.lt_ge_cases r len) as [Hlt|]; [|lia].
  specialize (Hgt len ltac:(lia)). simpl in Hgt. unfold majority_ok in Hgt. simpl in Hgt.
  unfold server_index in Hgt. simpl in Hgt. by rewrite String.eqb_refl, Z.leb_refl in Hgt.
Qed.

(** On a lone leader, [maybe_commit] commits and applies the whole log. *)
Lemma lone_commit n x k e : lone n → log_len n < 2 ^ 63 → 0 <= k →
  0 <= last_applied n <= commit_index n → commit_index n < log_len n →
  last (log n) = Some e → le_term e = current_term n →
  refines (total_cost x (slice (last_applied n) (log_len n) (log n)) + k) x (state_machine n) →
  wp maybe_commit (λ r n', r = Ok tt ∧ state n' = Leader ∧ commit_index n' = log_len n ∧
    last_applied n' = log_len n ∧
    refines k (apply_all (slice (last_applied n) (log_len n) (log n)) x) (state_machine n')) n.
Proof.
  intros (Hs & Hp & Hcf) Hlen Hk Ha Hc Hlast Ht HR. unfold maybe_commit. do 2 wp_step.
  rewrite bool_decide_true by done. simpl negb. cbn iota. do 2 wp_step.
  rewrite Hcf, lone_quorum by (unfold log_len in *; lia). do 2 wp_step.
  replace (commit_index n <? log_len n) with true by lia. do 4 wp_step.
  rewrite last_lookup in Hlast. unfold log_len in *.
  replace (Z.to_nat (Z.of_nat (length (log n)) - 1)) with (pred (length (log n))) by lia.
  rewrite Hlast. simpl. rewrite Ht, Z.eqb_refl. do 2 wp_step. unfold apply_logs. do 2 wp_step.
  eapply wp_mono; [apply (apply_loop_refines _ _ x k); simpl; unfold log_len; simpl; try lia; exact HR|].
  simpl. intros r n' (-> & F & Hl & HR'). destruct F as (_ & Fc & _ & _ & Fs & _). simpl in *.
  split_and!; [done|congruence|done|lia|done].
Qed.

(** *** Steps without interference *)

Lemma run_now_quiet {A} (k : Z → task A) u us n z : meanwhile u = [] →
  run (Now k) (u :: us) n z = run (k (z + Z.of_N (elapsed u))) us n (z + Z.of_N (elapsed u)).
Proof. intros E. simpl. by rewrite E. Qed.

Lemma run_lock_quiet {A B} (m : M RaftNode B) (k : result B → task A) u us n z r n' :
  meanwhile u = [] → m n = (r, n') →
  run (Lock m k) (u :: us) n z = seen (OLock n n') (run (k r) us n' (z + Z.of_N (elapsed u))).
Proof. intros E Em. simpl. rewrite E. unfold run_events. simpl. by rewrite Em. Qed.

(** The proposal of a lone leader's batch, with the first index of the batch. *)
Lemma lone_propose cs n : state n = Leader → wal_synced (log n) (storage n) →
  ∃ n1, (st ← gets state;
     if negb (bool_decide (st = Leader)) then mret (inr "not leader at propose time"%string) else
     ok ← propose_batch cs;
     if negb ok then mret (inr "propose_batch rejected"%string) else
     first ← gets (λ n, log_len n - Z.of_nat (length cs) + 1);
     mret (inl first)) n = (Ok (inl (log_len n + 1)), n1) ∧
   ∃ d, n1 = with_storage d (with_log (log n ++ batch_entries (current_term n) (log_len n + 1) cs) n).
Proof.
  intros Hs Hw. unfold gets, mbind, M_bind. rewrite Hs. simpl.
  unfold propose_batch, gets, mbind, M_bind, catch. rewrite Hs. simpl.
  pose proof (propose_loop_wp cs (log_len n + 1) n) as (k & d & _ & _ & En & Hr & Hok).
  destruct (Hok Hw) as [Eo _]. destruct (propose_loop cs (log_len n + 1) n) as [r n2]. simpl in *.
  subst r. simpl. rewrite (proj1 Hr eq_refl), firstn_all2 in En
    by (by rewrite batch_entries_length).
  exists n2. subst n2. split; [|by exists d]. set (m := with_storage _ _).
  assert (log_len m = log_len n + Z.of_nat (length cs)) as ->.
  { unfold log_len. simpl. rewrite length_app, batch_entries_length. lia. }
  by replace (log_len n + Z.of_nat (length cs) - Z.of_nat (length cs)) with (log_len n) by lia.
Qed.

Lemma lone_tx_effect (x : gmap string string * gmap string (list TxOp)) tx ops :
  apply_all [CBeginTx tx ops; CDecideTx tx Commit] x = (foldl rm_op x.1 ops, base.delete tx x.2).
Proof. unfold apply_all. simpl. rewrite lookup_insert_eq. simpl. by rewrite delete_insert_eq. Qed.

(** The batch of a round on an idle lone leader, appended, committed and applied. *)
Lemma lone_batch tx ops n (cs := [CBeginTx tx ops; CDecideTx tx Commit]) :
  lone n → wal_synced (log n) (storage n) → log_len n + 2 < 2 ^ 63 →
  last_applied n = log_len n → commit_index n = log_len n →
  wf (state_machine n) → no_faults (host (state_machine n)) →
  room (Z.of_nat (length ops)) (state_machine n) →
  ∀ d, let n1 := with_storage d (with_log (log n ++ batch_entries (current_term n) (log_len n + 1) cs) n) in
  ∃ n2, maybe_commit n1 = (Ok tt, n2) ∧
    state n2 = Leader ∧ commit_index n2 = log_len n + 2 ∧ last_applied n2 = log_len n + 2 ∧
    contents (state_machine n2) = foldl rm_op (contents (state_machine n)) ops ∧
    tx_ops <$> pending_txs (state_machine n2) = base.delete tx (tx_ops <$> pending_txs (state_machine n)).
Proof.
  intros (Hs & Hp & Hcf) Hw Hlen Ha Hc Hwf Hnf Hroom d n1.
  assert (Hl1 : log_len n1 = log_len n + 2) by (unfold log_len; simpl; rewrite length_app; simpl; lia).
  set (x := (contents (state_machine n), tx_ops <$> pending_txs (state_machine n))).
  assert (Hsl : slice (last_applied n1) (log_len n1) (log n1) = cs).
  { rewrite Hl1. simpl. rewrite Ha. unfold slice, log_len. rewrite Nat2Z.id, drop_app_length.
    by replace (Z.to_nat _) with 2%nat by lia. }
  pose proof (lone_commit n1 x 0 (mkLogEntry (current_term n) (log_len n + 2) (CDecideTx tx Commit))) as HC.
  rewrite Hsl, Hl1 in HC. subst cs. rewrite lone_tx_effect in HC.
  assert (H0 : 0 <= log_len n) by (unfold log_len; lia).
  destruct HC as (Er & Hs2 & Hc2 & Ha2 & [[HR1 HR2] _ _ _]); simpl; try done; try lia.
  - by rewrite last_app; simpl; do 2 f_equal; lia.
  - rewrite lookup_insert_eq. simpl. split; [done..|unfold room in *; simpl; lia|done].
  - destruct (maybe_commit n1) as [r n2] eqn:E2. simpl in Er, Hs2, Hc2, Ha2, HR1, HR2. subst r.
    exists n2. by split_and!.
Qed.

(** A lone leader commits at once. On an idle leader without peers, when
    nothing else touches the node and no I/O fails, a round of at most seven steps
    reports [Committed] at the next two indices, with the operations applied to the map in order
    and nothing of the transaction left pending. *)
Theorem lone_leader_commits tx ops turns n z :
  lone n → wal_synced (log n) (storage n) → log_len n + 2 < 2 ^ 63 →
  last_applied n = log_len n → commit_index n = log_len n →
  wf (state_machine n) → no_faults (host (state_machine n)) →
  room (Z.of_nat (length ops)) (state_machine n) →
  Forall (λ u, meanwhile u = []) turns → (7 <= length turns)%nat →
  ∃ n' z' tr, run (coordinate_tx tx ops) turns n z =
    (Finished (Committed (log_len n + 1) (log_len n + 2) tx), n', z', tr) ∧
    last_applied n' = log_len n + 2 ∧
    contents (state_machine n') = foldl rm_op (contents (state_machine n)) ops ∧
    tx_ops <$> pending_txs (state_machine n') = base.delete tx (tx_ops <$> pending_txs (state_machine n)).
Proof.
  intros HL Hw Hlen Ha Hc Hwf Hnf Hroom Hq Hturns. pose proof HL as (Hs & Hp & _).
  set (cs := [CBeginTx tx ops; CDecideTx tx Commit]).
  destruct (lone_propose cs n Hs Hw) as (n1 & E1 & d & En1).
  destruct (lone_batch tx ops n HL Hw Hlen Ha Hc Hwf Hnf Hroom d) as (n2 & E2 & Hs2 & Hc2 & Ha2 & H2).
  fold cs in E2. rewrite <- En1 in E2.
  assert (Hp1 : peers n1 = []) by (by subst n1). assert (Hs1 : state n1 = Leader) by (by subst n1).
  clear En1 Hw Hroom.
  destruct turns as [|u1 [|u2 [|u3 [|u4 [|u5 [|u6 [|u7 us]]]]]]]; simpl in Hturns; try lia.
  repeat match goal with H : Forall _ (_ :: _) |- _ => apply Forall_cons in H as [? H] end.
  unfold coordinate_tx, timeout, now. cbn [mbind task_bind]. rewrite run_now_quiet by done.
  unfold coordinate_tx_inner, read, lock. cbn [mbind task_bind until].
  erewrite run_lock_quiet; [|done|reflexivity]. cbn [mbind task_bind until].
  unfold is_single_node. rewrite (bool_decide_true (peers n = [])) by done.
  unfold single_node_fast_path, propose_batch_and_wait_for_apply, lock. cbn [mbind task_bind until].
  erewrite run_lock_quiet; [|done|exact E1]. cbn [mbind task_bind until].
  unfold sync_logs_async, read, lock. cbn [mbind task_bind until].
  erewrite run_lock_quiet; [|done|reflexivity]. cbn [mbind task_bind until].
  rewrite (bool_decide_true (sv_peers _ = [])) by done. cbn [mbind task_bind until].
  erewrite run_lock_quiet; [|done|].
  2:{ unfold gets, mbind, M_bind. rewrite Hs1. exact E2. }
  cbn [mbind task_bind until]. unfold now. cbn [mbind task_bind until]. rewrite run_now_quiet by done.
  unfold poll_rounds. cbn [wait_applied]. unfold read, lock. cbn [mbind task_bind until].
  erewrite run_lock_quiet; [|done|reflexivity]. cbn [mbind task_bind until].
  rewrite Hs2, Hc2, Ha2. simpl negb. cbn iota.
  replace (log_len n + 1 <=? log_len n + 2) with true by lia. cbn [andb mbind task_bind until mret task_ret run].
  replace (log_len n + 1 + 1) with (log_len n + 2) by lia. eexists n2, _, _. by split.
Qed.

(** ** The sweep *)

Lemma elem_of_stale threshold tx s : tx ∈ pending_txs_older_than threshold s ↔
  ∃ p, pending_txs s !! tx = Some p ∧ threshold < saturating_sub (now_unix_ms (host s)) (tx_begin_unix_ms p).
Proof.
  unfold pending_txs_older_than. rewrite list_elem_of_fmap. split.
  - intros ([t p] & -> & [Ht Hin]%list_elem_of_filter). apply elem_of_btree_iter in Hin. by exists p.
  - intros (p & Hp & Ht). exists (tx, p). split; [done|]. apply list_elem_of_filter.
    split; [done|]. by apply elem_of_btree_iter.
Qed.

Definition aborts (stale : list string) : list Command := (λ t, CDecideTx t Abort) <$> stale.

Lemma propose_abort_ok tx n : state n = Leader → wal_synced (log n) (storage n) →
  is_Some (pending_txs (state_machine n) !! tx) →
  ∃ d, let l := log n ++ [mkLogEntry (current_term n) (log_len n + 1) (CDecideTx tx Abort)] in
    propose_abort_tx tx n = (Ok (inl (log_len n + 1)), with_storage d (with_log l n)) ∧ wal_synced l d.
Proof.
  intros Hs Hw Hp. unfold propose_abort_tx, gets, mbind, M_bind. rewrite Hs. simpl.
  unfold is_tx_pending. rewrite bool_decide_true by done. simpl. unfold catch.
  pose proof (append_own_wp (CDecideTx tx Abort) n) as (d & _ & Er & Hd).
  destruct (Hd Hw) as [Hok Hw']. exists d.
  destruct (append_own (CDecideTx tx Abort) n) as [[i|e] n1]; simpl in *; [|done].
  destruct Er as [-> ->]. by split.
Qed.

Lemma run_abort_stale stale turns n z : state n = Leader → wal_synced (log n) (storage n) →
  Forall (λ tx, is_Some (pending_txs (state_machine n) !! tx)) stale →
  Forall (λ u, meanwhile u = []) turns → (length stale <= length turns)%nat →
  ∃ d z' tr, let l := log n ++ batch_entries (current_term n) (log_len n + 1) (aborts stale) in
    run (abort_stale stale) turns n z = (Finished tt, with_storage d (with_log l n), z', tr) ∧ wal_synced l d.
Proof.
  revert turns n z. induction stale as [|tx stale IH]; intros turns n z Hs Hw Hp Hq Hl.
  { exists (storage n), z, []. simpl. rewrite app_nil_r. split; [by destruct n|done]. }
  apply Forall_cons in Hp as [Hp Hps]. destruct turns as [|u turns]; simpl in Hl; [lia|].
  apply Forall_cons in Hq as [Hu Hq].
  destruct (propose_abort_ok tx n Hs Hw Hp) as (d & E & Hw').
  destruct (IH turns (with_storage d (with_log (log n ++ [mkLogEntry (current_term n) (log_len n + 1)
    (CDecideTx tx Abort)]) n)) (z + Z.of_N (elapsed u))) as (d' & z' & tr & E' & Hw2);
    [done..|lia|]. cbv zeta in *.
  assert (El : ∀ c (m := with_storage d (with_log (log n ++ [c]) n)), log_len m = log_len n + 1).
  { intros c m. unfold log_len. simpl. rewrite length_app. simpl. lia. }
  rewrite El in E', Hw2. simpl in E', Hw2. rewrite <- app_assoc in E', Hw2. simpl in E', Hw2.
  cbn [abort_stale]. unfold lock. cbn [mbind task_bind].
  erewrite run_lock_quiet; [|done|exact E]. cbn [mbind task_bind]. rewrite E'. simpl.
  by eexists d', _, _.
Qed.

Lemma apply_aborts stale (m : gmap string string) (p : gmap string (list TxOp)) :
  apply_all (aborts stale) (m, p) = (m, filter (λ q, q.1 ∉ stale) p).
Proof.
  revert p. induction stale as [|tx stale IH]; intros p.
  { simpl. unfold apply_all. simpl. f_equal. symmetry. apply map_filter_id. set_solver. }
  unfold apply_all, aborts in *. simpl. rewrite (surjective_pairing (match p !! tx with _ => _ end)).
  assert (E : match p !! tx with Some _ => (m, base.delete tx p) | None => (m, p) end = (m, base.delete tx p)).
  { destruct (p !! tx) eqn:Ep; [done|]. by rewrite delete_id. }
  rewrite E. simpl. rewrite IH. f_equal. apply map_eq. intros t.
  simpl snd. apply option_eq. intros v. rewrite !map_lookup_filter_Some, lookup_delete_Some. simpl. set_solver.
Qed.

(** C27: the sweep aborts what is stuck, and nothing else. On a leader whose
    disk works, and when nothing else touches the node, one pass of the sweep
    appends one durable [DecideTx(Abort)] for every transaction that has been
    pending longer than the timeout, and only for those; applying these entries
    leaves the map as it is and removes exactly these transactions. *)
Theorem sweep_aborts_stale timeout_env turns n z
    (stale := node_pending_txs_older_than (tx_timeout_ms timeout_env) n) :
  state n = Leader → wal_synced (log n) (storage n) →
  Forall (λ u, meanwhile u = []) turns → (2 + length stale <= length turns)%nat →
  (∃ n' z' tr, run (tx_timeout_sweep timeout_env) turns n z = (Finished tt, n', z', tr) ∧
     log n' = log n ++ batch_entries (current_term n) (log_len n + 1) (aborts stale) ∧
     wal_synced (log n') (storage n')) ∧
  (∀ tx, tx ∈ stale ↔ ∃ p, pending_txs (state_machine n) !! tx = Some p ∧
     tx_timeout_ms timeout_env <
       saturating_sub (now_unix_ms (host (state_machine n))) (tx_begin_unix_ms p)) ∧
  (∀ m p, apply_all (aborts stale) (m, p) = (m, filter (λ q, q.1 ∉ stale) p)).
Proof.
  intros Hs Hw Hq Hl. split_and!; [|intros tx; apply elem_of_stale|apply apply_aborts].
  destruct turns as [|u1 [|u2 turns]]; simpl in Hl; try lia.
  apply Forall_cons in Hq as [H1 Hq]. apply Forall_cons in Hq as [H2 Hq].
  unfold tx_timeout_sweep, read, lock. cbn [mbind task_bind].
  erewrite run_lock_quiet; [|done|reflexivity]. cbn [mbind task_bind].
  rewrite Hs. simpl negb. cbn [mbind task_bind]. erewrite run_lock_quiet; [|done|reflexivity]. cbn [mbind task_bind].
  fold stale. destruct (run_abort_stale stale turns n (z + Z.of_N (elapsed u1) + Z.of_N (elapsed u2)))
    as (d & z' & tr & E & Hw'); [done..| |done|lia|].
  { apply Forall_forall. intros tx (p & Hp & _)%elem_of_stale. by exists p. }
  rewrite E. simpl. by eexists _, _, _.
Qed.
End claims.

(** ** Witnesses *)

Lemma decisions_follow_votes_witness :
  let '(s, _, _, tr) := run (coordinate_tx "t" [TxPut "k" "v"]) happy_turns leader_a 0 in
  s = Finished (Committed 1 2 "t") ∧ proposed (CDecideTx "t" Commit) 2 tr ∧ justified "t" [] tr.
Proof.
  pose proof (decisions_follow_votes "t" [TxPut "k" "v"] happy_turns leader_a 0) as H.
  assert (E : (run (coordinate_tx "t" [TxPut "k" "v"]) happy_turns leader_a 0).1.1.1 =
    Finished (Committed 1 2 "t")) by (vm_compute; reflexivity).
  destruct (run _ happy_turns leader_a 0) as [[[s n'] z'] tr]. simpl in E. subst s.
  destruct H as [Hj Ho]. destruct (Ho _ eq_refl) as (_ & _ & Hd). by split_and!.
Defined.

Definition lone_leader : RaftNode := with_state Leader (new_node "a" []).

Lemma lone_leader_commits_witness :
  contents (state_machine (run (coordinate_tx "t" [TxPut "k" "v"]) (replicate 7 (quiet 1)) lone_leader 0).1.1.2) =
    {["k" := "v"]}.
Proof.
  destruct (lone_leader_commits "t" [TxPut "k" "v"] (replicate 7 (quiet 1)) lone_leader 0)
    as (n' & z' & tr & E & _ & Hc & _).
  - split_and!; vm_compute; reflexivity.
  - apply wal_synced_empty; vm_compute; reflexivity.
  - vm_compute. reflexivity.
  - vm_compute. reflexivity.
  - vm_compute. reflexivity.
  - apply fresh_machine.
  - vm_compute. reflexivity.
  - vm_compute. reflexivity.
  - repeat constructor.
  - simpl. lia.
  - rewrite E. simpl. rewrite Hc. vm_compute. reflexivity.
Defined.

(** [BeginTx] has been applied, and no decision follows for more than 30 seconds. *)
Definition stuck_leader : RaftNode :=
  (on_sm (begin_tx "t" [TxPut "k" "v"]) leader_a).2.
Definition stuck_later : RaftNode :=
  with_state_machine (with_host (mkHost (h_wal (host (state_machine stuck_leader))) ∅ [] 40000)
    (state_machine stuck_leader)) stuck_leader.

Lemma sweep_aborts_stale_witness :
  log (run (tx_timeout_sweep None) (replicate 3 (quiet 1)) stuck_later 0).1.1.2 =
    [mkLogEntry 1 1 (CDecideTx "t" Abort)].
Proof.
  destruct (sweep_aborts_stale None (replicate 3 (quiet 1)) stuck_later 0) as [(n' & z' & tr & E & El & _) _].
  - vm_compute. reflexivity.
  - apply wal_synced_empty; vm_compute; reflexivity.
  - repeat constructor.
  - vm_compute. lia.
  - rewrite E. simpl. rewrite El. vm_compute. reflexivity.
Defined.

(** The outer bound of ten seconds is not a decision: here the round reports
    [Aborted], but the [DecideTx(Commit)] it had proposed is replicated
    afterwards and the operations take effect. *)
Lemma aborted_round_commits :
  let '(s, n, _, _) := run (coordinate_tx "t" [TxPut "k" "v"]) late_turns leader_a 0 in
  s = Finished (Aborted "t" "coordinator round exceeded 10s wall-clock bound") ∧
  contents (state_machine n) !! "k" = None ∧
  contents (state_machine (run_events (meanwhile (acked 1 1 1 [decide_entry])) n)) !! "k" = Some "v".
Proof. vm_compute. split_and!; reflexivity. Qed.

(** When replication of [BeginTx] is late the round reports [Aborted] without
    proposing a decision: the transaction stays pending on the leader. *)
Definition slow_turns : list turn :=
  let args := mkAppendEntries 1 "a" 0 0 [begin_entry] 0 in
  replicate 8 (quiet 1) ++
  [mkTurn 1 [EvAppendReply "b" args (mkAppendReply 1 true)] (λ _, RpcTimedOut) true] ++
  replicate 5 (quiet 1) ++ replicate 12 (quiet 1500).

Lemma aborted_round_stays_pending :
  let '(s, n, _, _) := run (coordinate_tx "t" [TxPut "k" "v"]) slow_turns leader_a 0 in
  (∃ reason, s = Finished (Aborted "t" reason)) ∧ log n = [begin_entry] ∧
  is_tx_pending "t" (state_machine n) = true.
Proof. vm_compute. split_and!; [by eexists|reflexivity..]. Qed.

(** The step-down compares the peer's term with the term the round started in,
    not with the node's: a node re-elected in term 3 goes back to term 2, with its vote forgotten. *)
Lemma tally_regresses_term :
  let n := with_current_term 3 (with_vote_for (Some "a") leader_a) in
  let '(s, n', _, _) :=
    run (tally "t" 1 [("b", inl (mkTxVoteResponse 2 false EmptyString))] ∅ None) [quiet 1] n 0 in
  s = Finished (inr tt) ∧ current_term n = 3 ∧ state n = Leader ∧ current_term n' = 2 ∧ vote_for n' = None.
Proof. vm_compute. split_and!; reflexivity. Qed.
