(* ===== verification/Client.v ===== *)
(** * The client front end ([src/rust/oxide-kv/src/client.rs])

    A client sends one command per line and gets one JSON object per
    line back. Each command is a task over the shared node ([Task]). The gauges are left out. *)

From stdpp Require Import prelude gmap strings pretty sorting countable list.
From S2P Require Import Prelude Serde Protocol StateMachine Storage Rpc Node NodeEvents Timer Task Coordinator.
#[local] Open Scope Z_scope.

(** [json!({..})]: the keys of an object are kept in order ([BTreeMap]). *)
Definition json_object (fields : list (string * Value)) : Value :=
  VObject (btree_iter (list_to_map fields)).

(** [as_object_mut] and [insert]. *)
Definition value_insert (k : string) (x v : Value) : Value :=
  match v with
  | VObject m => json_object ((k, x) :: m)
  | _ => v
  end.

Module ClientHandler.
Section client.
Context {JW : Json WalOp} {JE : Json (list SSTEntry)} {JM : Json SSTableMeta}.
Context {BL : Bincode LogEntry} {JV : Json Value}.

(** [Display] of an [io::Error] and of a parse error of [serde_json]. *)
Context (io_display : io_error → string) (parse_display : string → string).

(** ** Replies *)

Definition not_leader_text : string := "Not a leader. Please connect to the leader node.".

Definition not_leader : Value := json_object [("error"%string, VString not_leader_text)].

Definition error_reply (message : string) : Value :=
  json_object [("status"%string, VString "error"); ("message"%string, VString message)].

Definition error_code (code : string) (fields : list (string * Value)) : Value :=
  json_object ([("status"%string, VString "error"); ("code"%string, VString code)] ++ fields).

Definition membership_error_to_json (e : MembershipError) : Value :=
  match e with
  | MNotLeader => error_code "not_leader" [("message"%string, VString not_leader_text)]
  | AlreadyMember id => error_code "already_member" [("node_id"%string, VString id)]
  | NotMember id => error_code "not_member" [("node_id"%string, VString id)]
  | CannotRemoveSelf =>
      error_code "cannot_remove_self"
        [("message"%string, VString "Refusing to remove the leader itself; do this on another node")]
  | CannotRemoveLastServer =>
      error_code "cannot_remove_last_server"
        [("message"%string,
          VString "Refusing to remove the last server; the cluster would be unable to make progress")]
  | MStorageError e => error_code "storage_error" [("message"%string, VString (io_display e))]
  end.

Definition abort_tx_error_to_json (e : AbortTxError) : Value :=
  match e with
  | ANotLeader => error_code "not_leader" [("message"%string, VString not_leader_text)]
  | ANotFound tx_id =>
      error_code "tx_not_found"
        [("tx_id"%string, VString tx_id);
         ("message"%string,
          VString "tx_id is not in pending_txs; already committed/aborted or never existed")]
  | AStorageError e => error_code "storage_error" [("message"%string, VString (io_display e))]
  end.

Definition value_reply (v : option string) : Value :=
  match v with
  | Some val => json_object [("status"%string, VString "ok"); ("data"%string, VString val)]
  | None => json_object [("status"%string, VString "not_found")]
  end.

(** ** Reads *)

(** [RaftNode::begin_read], with the lock released before the heartbeats. *)
Definition begin_read_async : task (option ReadIndex) :=
  ri ← read (λ n, if bool_decide (state n = Leader)
                  then Some (mkReadIndex (commit_index n) (clock n)) else None);
  match ri with
  | None => mret None
  | Some ri => sync_logs_async ;; mret (Some ri)
  end.

Definition read_wait : Z := 2000.
Definition read_poll : Z := 10.
(** Sleeps of 10 ms until 2 s have passed. *)
Definition read_rounds : nat := 202.

(** Poll [confirm_read]; the wall clock is read under the lock, after the state. *)
Fixpoint wait_confirmed (fuel : nat) (start : Z) (ri : ReadIndex) : task bool :=
  match fuel with
  | O => OutOfFuel
  | S fuel' =>
      check ← read (λ n wall, confirm_read max_election_timeout_ms wall ri n);
      wall ← now;
      if (check wall : bool) then mret true else
      t ← now;
      if read_wait <? t - start then mret false else
      sleep read_poll ;;
      wait_confirmed fuel' start ri
  end.

Definition linearizable_get (key : string) : task Value :=
  single ← read is_single_node;
  if (single : bool) then
    leader ← lock (st ← gets state;
                   if negb (bool_decide (st = Leader)) then mret false else apply_logs ;; mret true);
    if negb leader then mret not_leader else
    v ← lock (on_sm (get key));
    mret (value_reply v)
  else
  ri ← begin_read_async;
  match ri with
  | None => mret not_leader
  | Some ri =>
      start ← now;
      confirmed ← wait_confirmed read_rounds start ri;
      if negb confirmed then
        mret (error_reply "read confirmation timeout (leader may have lost quorum)")
      else
      v ← lock (on_sm (get key));
      mret (value_reply v)
  end.

(** ** Mutations *)

Definition apply_mutation (command : Command) : task Value :=
  r ← lock (ok ← propose command; len ← gets log_len; mret (ok, len));
  if (r.1 : bool) then
    sync_logs_async ;;
    mret (json_object [("status"%string, VString "ok"); ("index"%string, VNumber r.2)])
  else mret (json_object [("status"%string, VString "error")]).

(** ** Membership *)

Definition member_wait : Z := 10000.
Definition member_poll : Z := 20.
(** Sleeps of 20 ms until 10 s have passed. *)
Definition member_rounds : nat := 501.

(** Poll until [p] holds of the node or the deadline has come. *)
Fixpoint wait_until (fuel : nat) (deadline : Z) (p : RaftNode → bool) : task bool :=
  match fuel with
  | O => OutOfFuel
  | S fuel' =>
      ok ← read p;
      if (ok : bool) then mret true else
      t ← now;
      if deadline <=? t then mret false else
      sleep member_poll ;;
      wait_until fuel' deadline p
  end.

(** The part [add_node] and [remove_node] share; [what] names the command and
    [done] is the last field of the reply. *)
Definition change_membership (propose : M RaftNode (Z + MembershipError)) (what : string)
    (done : string * Value) : task Value :=
  r ← lock propose;
  match r with
  | inr e => mret (membership_error_to_json e)
  | inl joint_index =>
      sync_logs_async ;;
      t0 ← now;
      committed ← wait_until member_rounds (t0 + member_wait) (λ n, joint_index <=? commit_index n);
      if negb committed then
        mret (error_reply (what +:+ ": Joint entry at index " +:+ pretty joint_index +:+
                " did not commit within 10s"))
      else
      t1 ← now;
      appended ← wait_until member_rounds (t1 + member_wait) (λ n, joint_index <? log_len n);
      if negb appended then
        mret (json_object [("status"%string, VString "ok"); ("joint_index"%string, VNumber joint_index);
                           ("simple_appended"%string, VBool false)])
      else
      mret (json_object [("status"%string, VString "ok"); ("joint_index"%string, VNumber joint_index);
                         ("simple_index"%string, VNumber (joint_index + 1)); done])
  end.

Definition add_node (server : ServerId) : task Value :=
  change_membership (propose_add_node server) "AddNode" ("new_member"%string, VString (node_id server)).

Definition remove_node (id : string) : task Value :=
  change_membership (propose_remove_node id) "RemoveNode" ("removed_member"%string, VString id).

(** ** Transactions *)

Definition begin_tx (tx_id : string) (ops : list TxOp) : task Value :=
  outcome ← coordinate_tx tx_id ops;
  mret match outcome with
       | Committed begin_index decide_index tx_id =>
           json_object [("status"%string, VString "ok"); ("tx_id"%string, VString tx_id);
             ("decision"%string, VString "commit"); ("begin_index"%string, VNumber begin_index);
             ("decide_index"%string, VNumber decide_index)]
       | Aborted tx_id reason =>
           json_object [("status"%string, VString "aborted"); ("tx_id"%string, VString tx_id);
             ("reason"%string, VString reason)]
       | NotLeader tx_id =>
           json_object [("status"%string, VString "error"); ("message"%string, VString "not leader");
             ("tx_id"%string, VString tx_id)]
       end.

Definition abort_tx (tx_id : string) : task Value :=
  r ← lock (propose_abort_tx tx_id);
  match r with
  | inl decide_index =>
      mret (json_object [("status"%string, VString "ok"); ("tx_id"%string, VString tx_id);
        ("decision"%string, VString "abort"); ("decide_index"%string, VNumber decide_index)])
  | inr e => mret (value_insert "tx_id" (VString tx_id) (abort_tx_error_to_json e))
  end.

(** ** Dispatch *)

Definition dispatch_command (command : Command) : task Value :=
  leader ← read (λ n, bool_decide (state n = Leader));
  if negb leader then mret not_leader else
  match command with
  | CSet _ _ | CDelete _ | CDecideTx _ _ => apply_mutation command
  | CGet key => linearizable_get key
  | CBeginTx tx_id ops => begin_tx tx_id ops
  | CCompact => mret (error_reply "compact not supported yet")
  | CAddNode server => add_node server
  | CRemoveNode id => remove_node id
  | CInstallConfiguration _ =>
      mret (error_reply
        "InstallConfiguration is a leader-internal log entry; not a valid client command")
  | CAbortTx tx_id => abort_tx tx_id
  end.

(** A connection: the lines that arrive ([None] is a read error) and whether each
    write to the socket succeeds (the missing ones do); the result is the
    replies handed to the socket. *)
Context {JC : Json Command}.

Fixpoint handle_client_request (input : list (option string)) (writes : list bool) : task (list Value) :=
  match input with
  | [] | None :: _ => mret []
  | Some line :: input' =>
      match from_str line with
      | None =>
          rest ← handle_client_request input' (tail writes);
          mret (error_reply ("Invalid JSON: " +:+ parse_display line) :: rest)
      | Some command =>
          reply ← dispatch_command command;
          if default true (head writes)
          then rest ← handle_client_request input' (tail writes); mret (reply :: rest)
          else mret [reply]
      end
  end.
End client.
End ClientHandler.
