(* ===== verification/ClientTheorems.v ===== *)
(** * The client front end: claims

    Every request is answered, a served read was confirmed, a reply to a write
    says what happened to the log; and two executions where the front end goes wrong. *)

From stdpp Require Import prelude gmap strings pretty sorting countable list.
From S2P Require Import Prelude Serde Protocol StateMachine StateMachineProps Storage StorageProps Instances Rpc Node.
From S2P Require Import NodeVotes NodeEvents NodeLog NodeLeader Samples Timer Task Coordinator CoordinatorProps Client.
#[local] Open Scope Z_scope.

Import ClientHandler.

Section claims.
Context {JW : Json WalOp} {JE : Json (list SSTEntry)} {JM : Json SSTableMeta}.
Context {BL : Bincode LogEntry} {LB : BincodeLaws LogEntry}.
Context {JV : Json Value} {JS : Json Snapshot}.
Context (io_display : io_error → string).

(** ** No loop runs out of fuel *)

Abbreviation wpost := (ipost whatever).

Lemma w_lock {B} seen (m : M RaftNode B) n z (Φ : B → RaftNode → Z → list obs → Prop) :
  (∀ n1 z1 b n2, z <= z1 → m n1 = (Ok b, n2) → Φ b n2 z1 [OLock n1 n2]) →
  tspec anything (lock m) n z (wpost seen Φ).
Proof. intros H. apply i_lock; [apply _|done|]. intros. by apply H. Qed.

Lemma w_sync seen n z Φ : (∀ n' z' tr, z <= z' → Φ tt n' z' tr) →
  tspec anything sync_logs_async n z (wpost seen Φ).
Proof. intros H. apply i_sync; [apply _|done|exact H]. Qed.

(** What a confirmation has seen. *)
Definition confirmed_at (ri : ReadIndex) (n : RaftNode) : Prop :=
  state n = Leader ∧ ri_index ri <= last_applied n ∧
  ∃ t, last_quorum_heartbeat_at n = Some t ∧ ri_issued_at ri <= t.

Lemma confirm_read_spec max wall ri n : confirm_read max wall ri n = true → confirmed_at ri n.
Proof.
  unfold confirm_read. case_bool_decide; [|done]. simpl.
  destruct (Z.ltb_spec (last_applied n) (ri_index ri)); [done|].
  destruct (last_quorum_heartbeat_at n) as [t|] eqn:E; [|done]. intros Hc%andb_true_iff.
  split_and!; [done|done|]. exists t. split; [done|]. apply Z.leb_le, Hc.
Qed.

Lemma w_wait_confirmed seen fuel start ri n z Φ :
  start + read_poll * (Z.of_nat read_rounds - Z.of_nat fuel) <= z → (1 <= fuel)%nat →
  (∀ b n' z' tr, (b = true → ∃ n1, OLock n1 n1 ∈ tr ∧ confirmed_at ri n1) → Φ b n' z' tr) →
  tspec anything (wait_confirmed fuel start ri) n z (wpost seen Φ).
Proof.
  unfold read_poll, read_rounds. revert seen n z Φ.
  induction fuel as [|fuel IH]; intros seen n z Φ Hz Hf H; [lia|]. cbn [wait_confirmed].
  i_bind_with (λ f _ z' tr, z <= z' ∧ ∃ n1, tr = [OLock n1 n1] ∧
    f = λ wall, confirm_read max_election_timeout_ms wall ri n1); [i_step; eauto|].
  intros check n1 z1 tr1 (Hz1 & m & -> & ->).
  i_bind_with (λ _ _ z' tr, z1 <= z' ∧ tr = []); [by i_step|]. intros wall n2 z2 tr2 [Hz2 ->].
  destruct (confirm_read _ wall ri m) eqn:Ec.
  { i_step. apply H. intros _. exists m. split; [set_solver|by eapply confirm_read_spec]. }
  i_bind_with (λ t _ z' _, z2 <= t ∧ t <= z'); [by i_step|].
  intros t n3 z3 tr3 [Ht Hz3]. destruct (Z.ltb_spec read_wait (t - start)) as [Hb|Hb]; unfold read_wait in Hb.
  { i_step. by apply H. }
  i_bind_with (λ _ _ z' _, z3 + 10 <= z'); [i_step; unfold read_poll in *; lia|].
  intros [] n4 z4 tr4 Hz4. apply IH; [lia|lia|].
  intros b n' z' tr Hc. apply H. intros Hb'. destruct (Hc Hb') as (m' & Hin & Hm). exists m'. set_solver.
Qed.

(** ** Reads *)

(** The run of a read that was served: the read index was taken from a leader,
    then a confirmation, then the lookup. *)
Definition served (key : string) (v : option string) (tr : list obs) : Prop :=
  ∃ tr0 n0 tr1 n1 tr2 n2 n3,
    tr = tr0 ++ OLock n0 n0 :: tr1 ++ OLock n1 n1 :: tr2 ++ [OLock n2 n3] ∧
    state n0 = Leader ∧ confirmed_at (mkReadIndex (commit_index n0) (clock n0)) n1 ∧
    get key (state_machine n2) = (Ok v, state_machine n3).

(** A read of a node without peers: committed entries are applied, then the lookup. *)
Definition served_alone (key : string) (v : option string) (tr : list obs) : Prop :=
  ∃ n0 n1 n1' n2 n3, tr = [OLock n0 n0; OLock n1 n1'; OLock n2 n3] ∧
    peers n0 = [] ∧ state n1 = Leader ∧ n1' = (apply_logs n1).2 ∧
    get key (state_machine n2) = (Ok v, state_machine n3).

Lemma on_sm_get key n v n' : on_sm (get key) n = (Ok v, n') →
  get key (state_machine n) = (Ok v, state_machine n').
Proof. unfold on_sm, zoom. destruct (get key _) as [r s]. by intros [= -> <-]. Qed.

Lemma w_lookup seen key n z (Φ : Value → RaftNode → Z → list obs → Prop) :
  (∀ v n1 n2 z', get key (state_machine n1) = (Ok v, state_machine n2) →
     Φ (value_reply v) n2 z' [OLock n1 n2]) →
  tspec anything (v ← lock (on_sm (get key)); mret (value_reply v)) n z (wpost seen Φ).
Proof.
  intros H. i_bind_with (λ v n' _ tr, ∃ n1, tr = [OLock n1 n'] ∧
    get key (state_machine n1) = (Ok v, state_machine n')).
  { apply w_lock. intros n1 z1 v n2 _ E. exists n1. split; [done|]. by apply on_sm_get. }
  intros v n1 z1 tr (m & -> & E). i_step. rewrite app_nil_r. by apply H.
Qed.

Definition read_outcome (key : string) (reply : Value) (tr : list obs) : Prop :=
  reply = not_leader ∨
  reply = error_reply "read confirmation timeout (leader may have lost quorum)" ∨
  ∃ v, reply = value_reply v ∧ (served key v tr ∨ served_alone key v tr).

Lemma w_begin_read seen n z (Φ : option ReadIndex → RaftNode → Z → list obs → Prop) :
  (∀ n' z' tr, Φ None n' z' tr) →
  (∀ n0 n' z' tr, state n0 = Leader →
     Φ (Some (mkReadIndex (commit_index n0) (clock n0))) n' z' (OLock n0 n0 :: tr)) →
  tspec anything begin_read_async n z (wpost seen Φ).
Proof.
  intros HN HS. unfold begin_read_async.
  i_bind_with (λ r _ _ tr, ∃ m, tr = [OLock m m] ∧ r = if bool_decide (state m = Leader)
    then Some (mkReadIndex (commit_index m) (clock m)) else None); [i_step; eauto|].
  intros r n1 z1 tr (m & -> & ->). case_bool_decide as Hs; cbn iota; [|i_step; apply HN].
  i_bind_with (λ _ _ _ _, True); [by apply w_sync|]. intros [] n2 z2 tr2 _. i_step. by apply HS.
Qed.

Lemma w_linearizable_get key n z :
  tspec anything (linearizable_get key) n z (wpost [] (λ reply _ _ tr, read_outcome key reply tr)).
Proof.
  unfold linearizable_get.
  i_bind_with (λ b _ _ tr, ∃ m, tr = [OLock m m] ∧ b = is_single_node m); [i_step; eauto|].
  intros b n1 z1 tr1 (m & -> & ->). destruct (is_single_node m) eqn:Es.
  - apply bool_decide_eq_true in Es.
    i_bind_with (λ b n' _ tr, b = true → ∃ n1, tr = [OLock n1 n'] ∧ state n1 = Leader ∧ n' = (apply_logs n1).2).
    { apply w_lock. intros n2 z2 b n3 _. unfold gets, mbind, M_bind.
      case_bool_decide as Hs; simpl; [|by intros [= <- <-]].
      destruct (apply_logs n2) as [[[]|e] n4] eqn:E; [|done]. intros [= <- <-] _. exists n2. by rewrite E. }
    intros [] n2 z2 tr2 H; cbn [negb]; [|i_step; by left]. destruct (H eq_refl) as (m1 & -> & Hl & E).
    apply w_lookup. intros v m2 m3 z' Hg. right. right. exists v. split; [done|]. right.
    by exists m, m1, n2, m2, m3.
  - i_bind_with (λ r _ _ tr, ∀ ri, r = Some ri → ∃ n0 tr', tr = OLock n0 n0 :: tr' ∧ state n0 = Leader ∧
      ri = mkReadIndex (commit_index n0) (clock n0)).
    { apply w_begin_read; [done|]. intros n0 n' z' tr Hs ri [= <-]. by exists n0, tr. }
    intros [ri|] n2 z2 tr2 H; [|i_step; by left]. destruct (H ri eq_refl) as (n0 & tr' & -> & Hs & ->).
    i_bind_with (λ t _ z' tr, t <= z' ∧ tr = []); [by i_step|]. intros start n3 z3 tr3 [Hst ->].
    i_bind_with (λ b _ _ tr, b = true → ∃ n1, OLock n1 n1 ∈ tr ∧
      confirmed_at (mkReadIndex (commit_index n0) (clock n0)) n1).
    { apply w_wait_confirmed; [unfold read_poll, read_rounds; lia|unfold read_rounds; lia|done]. }
    intros [] n4 z4 tr4 Hc; cbn [negb]; [|i_step; right; by left].
    destruct (Hc eq_refl) as (m1 & Hin & Hm1). apply w_lookup. intros v m2 m3 z' Hg.
    right. right. exists v. split; [done|]. left. apply list_elem_of_split in Hin as (l1 & l2 & ->).
    exists [OLock m m], n0, (tr' ++ l1), m1, l2, m2, m3. split_and!; try done.
    simpl. by rewrite <- !app_assoc.
Qed.

(** ** Writes *)

Definition ok_index (i : Z) : Value :=
  json_object [("status"%string, VString "ok"); ("index"%string, VNumber i)].

(** What the reply to a write says about the run: accepted at index [i] by a
    leader; or refused with the log as it was. *)
Definition write_outcome (c : Command) (reply : Value) (tr : list obs) : Prop :=
  (∃ i, reply = ok_index i ∧ proposed c i tr) ∨
  (reply = not_leader ∨ reply = json_object [("status"%string, VString "error")]) ∧
    Forall (λ o, match o with OLock n n' => log n' = log n | _ => False end) tr.

Lemma propose_false c n n' : propose c n = (Ok false, n') → log n' = log n.
Proof.
  unfold propose, catch, append_own, on_disk, zoom, modify, gets, mbind, M_bind. simpl.
  case_bool_decide; [|by intros [= <-]].
  destruct (append_wal_log (mkLogEntry (current_term n) (log_len n + 1) c) (storage n)) as [[[]|e] d];
    simpl; intros [= <-]; done.
Qed.

Lemma w_apply_mutation seen c n z :
  tspec anything (apply_mutation c) n z (wpost seen (λ reply _ _ tr, write_outcome c reply tr)).
Proof.
  unfold apply_mutation.
  i_bind_with (λ r _ _ tr, if (r.1 : bool) then proposed c r.2 tr
    else Forall (λ o, match o with OLock n n' => log n' = log n | _ => False end) tr).
  { apply w_lock. intros n1 z1 r n2 _. unfold gets, mbind, M_bind.
    destruct (propose c n1) as [b n3] eqn:E.
    destruct (propose_ok c n1 b n3 E) as [(-> & Hl & Hlog & Hw)| ->]; simpl; intros [= <- <-]; simpl.
    - assert (El : log_len n3 = log_len n1 + 1) by (unfold log_len; rewrite Hlog, length_app; simpl; lia).
      rewrite El. eexists n1, n3, _. split_and!; [by apply list_elem_of_singleton|done..|lia| |exact Hw].
      by replace (log_len n1 + 1 - log_len n1 - 1) with 0 by lia.
    - constructor; [|done]. by apply propose_false in E. }
  intros [[] i] n1 z1 tr H; cbn [fst snd] in *.
  - i_bind_with (λ _ _ _ _, True); [by apply w_sync|]. intros [] n2 z2 tr2 _. i_step. left. exists i.
    split; [done|]. eapply proposed_sub; [done|set_solver].
  - i_step. right. rewrite app_nil_r. auto.
Qed.

(** ** Membership changes and transactions *)

(** The change was committed: some section proposed a joint configuration at
    [j], and the commit index was then seen at or past it. *)
Definition joint_committed (j : Z) (tr : list obs) : Prop :=
  ∃ old new, proposed (CInstallConfiguration (Joint old new)) j tr ∧
  ∃ n, OLock n n ∈ tr ∧ j <= commit_index n.

Definition change_reply (done : string * Value) (j : Z) (simple : bool) : Value :=
  if simple
  then json_object [("status"%string, VString "ok"); ("joint_index"%string, VNumber j);
                    ("simple_index"%string, VNumber (j + 1)); done]
  else json_object [("status"%string, VString "ok"); ("joint_index"%string, VNumber j);
                    ("simple_appended"%string, VBool false)].

Lemma w_wait_until seen fuel deadline p n z Φ :
  deadline - member_wait + member_poll * (Z.of_nat member_rounds - Z.of_nat fuel) <= z → (1 <= fuel)%nat →
  (∀ b n' z' tr, (b = true → ∃ m, OLock m m ∈ tr ∧ p m = true) → Φ b n' z' tr) →
  tspec anything (wait_until fuel deadline p) n z (wpost seen Φ).
Proof.
  unfold member_wait, member_poll, member_rounds. revert seen n z Φ.
  induction fuel as [|fuel IH]; intros seen n z Φ Hz Hf H; [lia|]. cbn [wait_until].
  i_bind_with (λ b _ z' tr, z <= z' ∧ ∃ m, tr = [OLock m m] ∧ b = p m); [i_step; eauto|].
  intros ok n1 z1 tr1 (Hz1 & m & -> & ->).
  destruct (p m) eqn:Ep; [i_step; apply H; intros _; exists m; set_solver|].
  i_bind_with (λ t _ z' _, z1 <= t ∧ t <= z'); [by i_step|].
  intros t n2 z2 tr2 [Ht Hz2]. destruct (Z.leb_spec deadline t); [i_step; by apply H|].
  i_bind_with (λ _ _ z' _, z2 + 20 <= z'); [i_step; unfold member_poll in *; lia|].
  intros [] n3 z3 tr3 Hz3. apply IH; [lia|lia|]. intros b n' z' tr Hb. apply H.
  intros Hb'. destruct (Hb Hb') as (m' & ? & ?). exists m'. set_solver.
Qed.

Lemma w_change seen (pr : M RaftNode (Z + MembershipError)) what done n z :
  (∀ n j n', pr n = (Ok (inl j), n') →
     ∃ old new, proposed (CInstallConfiguration (Joint old new)) j [OLock n n']) →
  tspec anything (change_membership io_display pr what done) n z (wpost seen (λ reply _ _ tr,
    (∃ e, reply = membership_error_to_json io_display e) ∨ (∃ t, reply = error_reply t) ∨
    ∃ j simple, reply = change_reply done j simple ∧ joint_committed j tr)).
Proof.
  intros Hpr. unfold change_membership.
  i_bind_with (λ r _ _ tr, ∀ j, r = inl j → ∃ old new, proposed (CInstallConfiguration (Joint old new)) j tr).
  { apply w_lock. intros n1 z1 r n2 _ E j ->. by apply Hpr. }
  intros [j|e] n1 z1 tr1 H; [|i_step; left; eauto]. destruct (H j eq_refl) as (old & new & Hp).
  i_bind_with (λ _ _ _ _, True); [by apply w_sync|]. intros [] n2 z2 tr2 _.
  i_bind_with (λ t _ z' _, t <= z'); [by i_step|]. intros t0 n3 z3 tr3 Ht0.
  i_bind_with (λ b _ _ tr, b = true → ∃ m, OLock m m ∈ tr ∧ (j <=? commit_index m) = true).
  { apply w_wait_until; [unfold member_poll, member_rounds; lia|unfold member_rounds; lia|done]. }
  intros [] n4 z4 tr4 Hc; cbn [negb]; [|i_step; right; left; eauto].
  destruct (Hc eq_refl) as (m & Hm & Hcm). apply Z.leb_le in Hcm.
  i_bind_with (λ t _ z' _, t <= z'); [by i_step|]. intros t1 n5 z5 tr5 Ht1.
  i_bind_with (λ _ _ _ _, True).
  { apply w_wait_until; [unfold member_poll, member_rounds; lia|unfold member_rounds; lia|done]. }
  assert (Hj : ∀ tr', joint_committed j (tr1 ++ tr2 ++ tr3 ++ tr4 ++ tr5 ++ tr')).
  { intros tr'. exists old, new. split; [eapply proposed_sub; [done|set_solver]|]. exists m. set_solver. }
  intros b n6 z6 tr6 _. destruct b; cbn [negb]; i_step; right; right.
  - exists j, true. split; [done|apply Hj].
  - exists j, false. split; [done|apply Hj].
Qed.

Lemma propose_joint_ok old new n j n' : state n = Leader → propose_joint old new n = (Ok (inl j), n') →
  proposed (CInstallConfiguration (Joint old new)) j [OLock n n'].
Proof.
  intros Hs. unfold propose_joint, catch, mbind, M_bind.
  pose proof (append_own_wp (CInstallConfiguration (Joint old new)) n) as (d & _ & Er & _).
  destruct (append_own _ n) as [[i|e] n1] eqn:E; simpl in *; [|done]. apply append_own_gained in E. destruct Er as [-> ->].
  intros [= <- <-]. eexists n, _, _. split_and!; [by apply list_elem_of_singleton|done..|lia| |exact E].
  by replace (log_len n + 1 - log_len n - 1) with 0 by lia.
Qed.

Lemma propose_add_ok s n j n' : propose_add_node s n = (Ok (inl j), n') →
  ∃ old new, proposed (CInstallConfiguration (Joint old new)) j [OLock n n'].
Proof.
  unfold propose_add_node, gets, mbind, M_bind. simpl. case_bool_decide; [|done]. simpl.
  destruct (contains _ _); [done|]. intros E. do 2 eexists. by eapply propose_joint_ok.
Qed.

Lemma propose_remove_ok s n j n' : propose_remove_node s n = (Ok (inl j), n') →
  ∃ old new, proposed (CInstallConfiguration (Joint old new)) j [OLock n n'].
Proof.
  unfold propose_remove_node, gets, mbind, M_bind. simpl. case_bool_decide; [|done]. simpl.
  destruct (String.eqb _ _); [done|]. simpl. destruct (contains _ _); [|done]. simpl.
  case_bool_decide; [done|]. intros E. do 2 eexists. by eapply propose_joint_ok.
Qed.

(** ** The claims *)

Lemma dispatch_spec c n z :
  tspec anything (dispatch_command io_display c) n z (wpost [] (λ _ _ _ _, True)).
Proof.
  unfold dispatch_command. i_bind_with (λ _ _ _ _, True); [by i_step|]. intros l n1 z1 tr1 _.
  destruct l; cbn [negb]; [|by i_step].
  assert (Hm : ∀ seen c' m y, tspec anything (apply_mutation c') m y (wpost seen (λ _ _ _ _, True))).
  { intros. by eapply i_mono; [apply w_apply_mutation|]. }
  assert (Hw : ∀ {A} (t : task A) I seen Φ m y, tspec anything t m y (ipost I [] Φ) →
    tspec anything t m y (wpost seen (λ _ _ _ _, True))).
  { intros A t I seen Φ m y H. eapply tspec_mono; [exact H|]. intros [a|] ????; by split. }
  destruct c; try (by apply Hm); try (by i_step).
  - eapply Hw, w_linearizable_get.
  - unfold abort_tx. i_bind_with (λ _ _ _ _, True); [by apply w_lock|]. intros [i|e] ? ? ? _; by i_step.
  - unfold begin_tx. i_bind_with (λ _ _ _ _, True); [eapply Hw, coordinate_tx_spec|].
    intros o ? ? ? _. by i_step.
  - eapply i_mono; [by apply w_change, propose_add_ok|done].
  - eapply i_mono; [by apply w_change, propose_remove_ok|done].
Qed.

(** A write, from the dispatcher on. *)
Lemma w_write c n z : match c with CSet _ _ | CDelete _ | CDecideTx _ _ => True | _ => False end →
  tspec anything (dispatch_command io_display c) n z (wpost [] (λ reply _ _ tr, write_outcome c reply tr)).
Proof.
  intros Hc. unfold dispatch_command.
  i_bind_with (λ _ _ _ tr, ∃ m, tr = [OLock m m]); [i_step; eauto|]. intros l n1 z1 tr1 (m & ->).
  destruct l; cbn [negb].
  - assert (Hm : tspec anything (apply_mutation c) n1 z1
      (wpost ([] ++ [OLock m m]) (λ reply _ _ tr, write_outcome c reply ([OLock m m] ++ tr)))).
    { eapply i_mono; [apply w_apply_mutation|].
      intros reply _ _ tr [(i & -> & Hp)|[Hr Hf]]; [left|right].
      - exists i. split; [done|]. eapply proposed_sub; [done|set_solver].
      - split; [done|]. by constructor. }
    destruct c; by try apply Hm.
  - i_step. right. split; [by left|]. by repeat constructor.
Qed.

(** C21: every request is answered. Whatever the command and however the rest
    of the cluster behaves, along every infinite environment the front end returns a reply after
    finitely many steps, or its thread panics: no polling loop, of a read, a
    membership change or a transaction round, runs on. *)
Theorem every_request_is_answered c (env : nat → turn) n z :
  ∃ k, match (run (dispatch_command io_display c) (upto env k) n z).1.1.1 with
       | Finished _ | Unwound => True
       | Exhausted | Pending => False
       end.
Proof.
  destruct (run_ends (dispatch_command io_display c) env n z) as [k Hk]. exists k.
  pose proof (run_tspec anything (dispatch_command io_display c) (upto env k) n z _ (respects_anything _)
    (dispatch_spec c n z)) as H.
  destruct (run _ (upto env k) n z) as [[[s n'] z'] tr]. destruct H as [H _]. by destruct s.
Qed.

(** C22: a served read was confirmed. Whatever happens in between, a read
    returns a value (or its absence) only when the read index was taken while the node led, a later
    observation found the node still leading, with everything up to that index applied and an acknowledgement
    received since, and the value is what the store held at a moment after that; on a node
    without peers, when it led and had applied what was committed. Otherwise
    the reply is an error. *)
Theorem served_reads_are_confirmed key turns n z :
  let '(s, _, _, tr) := run (linearizable_get key) turns n z in
  ∀ reply, s = Finished reply → read_outcome key reply tr.
Proof.
  pose proof (run_tspec anything (linearizable_get key) turns n z _ (respects_anything turns)
    (w_linearizable_get key n z)) as H.
  destruct (run _ turns n z) as [[[s n'] z'] tr]. destruct H as (_ & _ & Ho). by intros reply ->.
Qed.

(** C15: the reply to a write is true. An [ok] with an index means that this
    node, leading, appended the command at that index in its term, to its log and to its WAL (a WAL that held some entries in whole frames
    then holds them and the new ones); an error means that no critical section of the request changed the log in memory (a WAL write
    that failed may have left part of a frame). *)
Theorem write_replies_are_true c turns n z :
  match c with CSet _ _ | CDelete _ | CDecideTx _ _ => True | _ => False end →
  let '(s, _, _, tr) := run (dispatch_command io_display c) turns n z in
  ∀ reply, s = Finished reply → write_outcome c reply tr.
Proof.
  intros Hc.
  pose proof (run_tspec anything _ turns n z _ (respects_anything turns) (w_write c n z Hc)) as H.
  destruct (run _ turns n z) as [[[s n'] z'] tr]. destruct H as (_ & _ & Ho). by intros reply ->.
Qed.

(** A membership change that is reported done is committed. When [add_node]
    answers with a joint index, this node, leading, proposed the joint
    configuration at that index and its commit index was then seen at or beyond
    it; every other answer is an error. *)
Theorem membership_reply_is_committed server turns n z :
  let '(s, _, _, tr) := run (add_node io_display server) turns n z in
  ∀ reply, s = Finished reply →
    (∃ e, reply = membership_error_to_json io_display e) ∨ (∃ t, reply = error_reply t) ∨
    ∃ j simple, reply = change_reply ("new_member"%string, VString (node_id server)) j simple ∧
      joint_committed j tr.
Proof.
  pose proof (run_tspec anything (add_node io_display server) turns n z _ (respects_anything turns)
    (w_change [] _ "AddNode" ("new_member"%string, VString (node_id server)) n z (propose_add_ok server))) as H.
  destruct (run _ turns n z) as [[[s n'] z'] tr]. destruct H as (_ & _ & Ho). by intros reply ->.
Qed.
End claims.

(** ** Witnesses and executions *)

Import Codec.

Definition io_text (e : io_error) : string := "io error".

Definition calm (ms : N) (evs : list event) : turn := mkTurn ms evs (λ _, RpcTimedOut) true.

Lemma every_request_is_answered_witness :
  ∃ k, match (run (dispatch_command io_text (CGet "x")) (upto (λ _, calm 1 []) k) leader_a 0).1.1.1 with
       | Finished _ | Unwound => True | Exhausted | Pending => False end.
Proof. apply (every_request_is_answered io_text (CGet "x") (λ _, calm 1 []) leader_a 0). Defined.

(** Two peers acknowledge, at clock 5, the heartbeat of a read issued at 0. *)
Definition read_acks : list event :=
  [EvClock 5; EvAppendReply "b" (mkAppendEntries 1 "a" 0 0 [] 0) (mkAppendReply 1 true)].

Lemma served_reads_are_confirmed_witness :
  let '(s, _, _, tr) := run (linearizable_get "x") (replicate 8 (calm 1 []) ++ [calm 1 read_acks] ++
    replicate 20 (calm 1 [])) leader_a 0 in
  s = Finished (value_reply None) ∧ read_outcome "x" (value_reply None) tr.
Proof.
  set (turns := replicate 8 (calm 1 []) ++ [calm 1 read_acks] ++ replicate 20 (calm 1 [])).
  pose proof (served_reads_are_confirmed "x" turns leader_a 0) as H.
  assert (E : (run (linearizable_get "x") turns leader_a 0).1.1.1 = Finished (value_reply None))
    by (vm_compute; reflexivity).
  destruct (run _ turns leader_a 0) as [[[s n'] z'] tr]. simpl in E. subst s. split; [done|]. by apply H.
Defined.

Lemma write_replies_are_true_witness :
  let '(s, _, _, tr) := run (dispatch_command io_text (CSet "x" "1")) (replicate 9 (calm 1 [])) leader_a 0 in
  s = Finished (ok_index 1) ∧ write_outcome (CSet "x" "1") (ok_index 1) tr.
Proof.
  pose proof (write_replies_are_true io_text (CSet "x" "1") (replicate 9 (calm 1 [])) leader_a 0 Logic.I) as H.
  assert (E : (run (dispatch_command io_text (CSet "x" "1")) (replicate 9 (calm 1 [])) leader_a 0).1.1.1 =
    Finished (ok_index 1)) by (vm_compute; reflexivity).
  destruct (run _ _ leader_a 0) as [[[s n'] z'] tr]. simpl in E. subst s. split; [done|]. by apply H.
Defined.

(** While node [d] is being added, another client writes; then [b] and [c]
    acknowledge both entries. *)
Definition joint_d : LogEntry := mkLogEntry 1 1 (CInstallConfiguration
  (Joint [server_of "a"; server_of "b"; server_of "c"]
         [server_of "a"; server_of "b"; server_of "c"; server_of "d"])).
Definition other_write : LogEntry := mkLogEntry 1 2 (CSet "x" "1").
Definition add_turns : list turn :=
  let args := mkAppendEntries 1 "a" 0 0 [joint_d; other_write] 0 in
  replicate 6 (calm 1 []) ++
  [calm 1 [EvPropose [CSet "x" "1"]; EvAppendReply "b" args (mkAppendReply 1 true);
           EvAppendReply "c" args (mkAppendReply 1 true)]] ++ replicate 20 (calm 1 []).

Lemma membership_reply_is_committed_witness :
  let '(s, _, _, tr) := run (add_node io_text (server_of "d")) add_turns leader_a 0 in
  s = Finished (change_reply ("new_member"%string, VString "d") 1 true) ∧
  ∀ reply, s = Finished reply → (∃ e, reply = membership_error_to_json io_text e) ∨
    (∃ t, reply = error_reply t) ∨
    ∃ j simple, reply = change_reply ("new_member"%string, VString "d") j simple ∧ joint_committed j tr.
Proof.
  pose proof (membership_reply_is_committed io_text (server_of "d") add_turns leader_a 0) as H.
  assert (E : (run (add_node io_text (server_of "d")) add_turns leader_a 0).1.1.1 =
    Finished (change_reply ("new_member"%string, VString "d") 1 true)) by (vm_compute; reflexivity).
  destruct (run _ _ leader_a 0) as [[[s n'] z'] tr]. simpl in E. subst s. by split.
Defined.

(** The same run: the reply names index 2 as the entry of the new configuration, but that is the other
    client's write; the configuration is entry 3 and is not committed. *)
Lemma simple_index_is_guessed :
  let '(s, n, _, _) := run (add_node io_text (server_of "d")) add_turns leader_a 0 in
  s = Finished (change_reply ("new_member"%string, VString "d") 1 true) ∧
  log n !! 1%nat = Some other_write ∧
  (le_command <$> log n !! 2%nat) = Some (CInstallConfiguration
     (Simple [server_of "a"; server_of "b"; server_of "c"; server_of "d"])) ∧
  commit_index n = 2.
Proof. vm_compute. split_and!; reflexivity. Qed.

(** Between the proposal of a write and its [sync_logs], the leader of term 1
    votes for [b] in term 2: it then sends AppendEntries as the leader of term 2, and a
    follower of term 2 accepts them. *)
Definition deposing : list turn :=
  [calm 1 []; calm 1 []; calm 1 [EvRpc (RequestVote (mkRequestVote 2 "b" 1 1))]] ++ replicate 4 (calm 1 []).

Lemma deposed_leader_sends_appends :
  let '(s, n, _, tr) := run (dispatch_command io_text (CSet "x" "1")) deposing leader_a 0 in
  let args := mkAppendEntries 2 "a" 0 0 [mkLogEntry 1 1 (CSet "x" "1")] 0 in
  let follower := (handle_request_vote (mkRequestVote 2 "b" 1 1) (new_node "c" ["a"; "b"])).2 in
  s = Finished (ok_index 1) ∧ state n = Follower ∧ current_term n = 2 ∧ vote_for n = Some "b" ∧
  last tr = Some (OSend [("c"%string, AppendEntries args)]) ∧
  vote_for follower = Some "b" ∧ (handle_append_entries args follower).1 = Ok (mkAppendReply 2 true).
Proof. vm_compute. split_and!; reflexivity. Qed.
