(* ===== verification/Invariants.v ===== *)
(** * The cluster invariant checker ([src/rust/oxide-kv/src/raft/invariants.rs])

    The simulation checks its clusters with five observational checks. Each is
    a function of the nodes of the cluster; a check passes, reports a violation, or panics when it
    indexes a log out of range. *)

From stdpp Require Import prelude gmap strings pretty sorting countable list.
From S2P Require Import Prelude Serde Protocol StateMachine Storage Display Rpc Node.
#[local] Open Scope Z_scope.

(** What the checks see of a [SimNode] and of a [SimCluster]. *)
Record SimNode := mkSimNode { sn_id : string; sn_raft : RaftNode }.

Abbreviation SimCluster := (list SimNode).

Inductive InvariantViolation :=
  | ElectionSafety (term : Z) (leader_ids : list string)
  | StateMachineSafety (index : Z) (node_a node_b a_command b_command : string)
  | LogMatchingProperty (index : Z) (node_a node_b : string) (a_term b_term : Z)
      (a_command b_command : string)
  | CommittedEntryDurability (index : Z) (id expected_command actual_command : string)
  | TwoPhaseCommitAtomicity (tx_id : string) (per_node : list (string * string)).

#[export] Instance InvariantViolation_eq_dec : EqDecision InvariantViolation.
Proof. solve_decision. Defined.

(** [Display] *)
Definition violation_display (v : InvariantViolation) : string :=
  match v with
  | ElectionSafety term leader_ids =>
      "ElectionSafety violated: term " +:+ pretty term +:+ " had " +:+ pretty (length leader_ids) +:+
      " leaders (" +:+ debug_vec debug_str leader_ids +:+ ")"
  | StateMachineSafety index node_a node_b a_command b_command =>
      "StateMachineSafety violated at index " +:+ pretty index +:+ ": " +:+ node_a +:+ " has '" +:+
      a_command +:+ "', " +:+ node_b +:+ " has '" +:+ b_command +:+ "'"
  | LogMatchingProperty index node_a node_b a_term b_term a_command b_command =>
      "LogMatchingProperty violated at index " +:+ pretty index +:+ ": " +:+ node_a +:+ " (term=" +:+
      pretty a_term +:+ ", cmd=" +:+ a_command +:+ ") vs " +:+ node_b +:+ " (term=" +:+
      pretty b_term +:+ ", cmd=" +:+ b_command +:+ ")"
  | CommittedEntryDurability index id expected_command actual_command =>
      "CommittedEntryDurability violated at index " +:+ pretty index +:+ " on node " +:+ id +:+
      ": expected '" +:+ expected_command +:+ "', got '" +:+ actual_command +:+ "'"
  | TwoPhaseCommitAtomicity tx_id per_node =>
      "2PC atomicity violated for tx " +:+ tx_id +:+ ": per-node outcomes = " +:+
      debug_vec (debug_pair debug_str debug_str) per_node
  end.

Inductive check := Pass | Violated (v : InvariantViolation) | CheckPanics.

(** [c?; k] *)
Definition and_then (c k : check) : check := match c with Pass => k | _ => c end.

(** A loop that returns the first violation. *)
Fixpoint for_all {A} (f : A → check) (l : list A) : check :=
  match l with
  | [] => Pass
  | x :: l' => and_then (f x) (for_all f l')
  end.

(** The loops [for i in 0..n { for j in (i + 1)..n { .. } }]. *)
Fixpoint for_pairs {A} (f : A → A → check) (l : list A) : check :=
  match l with
  | [] => Pass
  | x :: l' => and_then (for_all (f x) l') (for_pairs f l')
  end.

(** ** [fmt_command] *)

Definition decision_debug (d : TxDecision) : string :=
  match d with Commit => "Commit" | Abort => "Abort" end.

Definition fmt_command (cmd : Command) : string :=
  match cmd with
  | CSet key value => "Set(" +:+ key +:+ "," +:+ value +:+ ")"
  | CGet key => "Get(" +:+ key +:+ ")"
  | CDelete key => "Delete(" +:+ key +:+ ")"
  | CCompact => "Compact"
  | CBeginTx tx_id ops => "BeginTx(" +:+ tx_id +:+ ", " +:+ pretty (length ops) +:+ " ops)"
  | CDecideTx tx_id decision => "DecideTx(" +:+ tx_id +:+ "," +:+ decision_debug decision +:+ ")"
  | CAddNode server => "AddNode(" +:+ node_id server +:+ "," +:+ addr server +:+ ")"
  | CRemoveNode id => "RemoveNode(" +:+ id +:+ ")"
  | CInstallConfiguration (Simple s) =>
      "InstallConfiguration(Simple," +:+ pretty (length s) +:+ " servers)"
  | CInstallConfiguration (Joint old new) =>
      "InstallConfiguration(Joint, old:" +:+ pretty (length old) +:+ " new:" +:+ pretty (length new) +:+ ")"
  | CAbortTx tx_id => "AbortTx(" +:+ tx_id +:+ ")"
  end.

(** ** Election safety *)

(** [by_term.entry(term).or_default().push(id)] *)
Definition add_leader (by_term : gmap Z (list string)) (node : SimNode) : gmap Z (list string) :=
  if bool_decide (state (sn_raft node) = Leader)
  then let t := current_term (sn_raft node) in
       <[t := default [] (by_term !! t) ++ [sn_id node]]> by_term
  else by_term.

(** The iteration order of a [BTreeMap] with integer keys. *)
Definition term_le {V} (p q : Z * V) : Prop := p.1 <= q.1.
#[export] Instance term_le_dec {V} : RelDecision (@term_le V).
Proof. intros p q. unfold term_le. apply _. Defined.

Definition terms_iter {V} (m : gmap Z V) : list (Z * V) := merge_sort term_le (map_to_list m).

Definition check_election_safety (cluster : SimCluster) : check :=
  for_all (λ p : Z * list string,
      if (1 <? length p.2)%nat then Violated (ElectionSafety p.1 p.2) else Pass)
    (terms_iter (foldl add_leader ∅ cluster)).

(** ** Agreement of logs *)

(** [for k in 0..n]: compare the entries at [k] with [f]; indexing panics. *)
Definition compare_prefix (f : Z → LogEntry → LogEntry → check) (n : Z) (la lb : list LogEntry) : check :=
  for_all (λ k : nat,
      match la !! k, lb !! k with
      | Some ea, Some eb => f (Z.of_nat k + 1) ea eb
      | _, _ => CheckPanics
      end) (seq 0 (Z.to_nat n)).

Definition compare_entries (a b : SimNode) (index : Z) (ea eb : LogEntry) : check :=
  if negb (le_term ea =? le_term eb) || negb (bool_decide (le_command ea = le_command eb))
  then Violated (LogMatchingProperty index (sn_id a) (sn_id b) (le_term ea) (le_term eb)
                   (fmt_command (le_command ea)) (fmt_command (le_command eb)))
  else Pass.

Definition check_log_matching_property (cluster : SimCluster) : check :=
  for_pairs (λ a b,
      let ra := sn_raft a in
      let rb := sn_raft b in
      let min_commit := commit_index ra `min` commit_index rb in
      compare_prefix (compare_entries a b) min_commit (log ra) (log rb)) cluster.

Definition compare_commands (a b : SimNode) (index : Z) (ea eb : LogEntry) : check :=
  if negb (bool_decide (le_command ea = le_command eb))
  then Violated (StateMachineSafety index (sn_id a) (sn_id b)
                   (fmt_command (le_command ea)) (fmt_command (le_command eb)))
  else Pass.

Definition check_state_machine_safety (cluster : SimCluster) : check :=
  for_pairs (λ a b,
      let ra := sn_raft a in
      let rb := sn_raft b in
      let min_applied := last_applied ra `min` last_applied rb in
      compare_prefix (compare_commands a b) min_applied (log ra) (log rb)) cluster.

(** ** Committed-entry durability *)

Definition u64_max : Z := U64 - 1.

Definition min_commit_of (cluster : SimCluster) : Z :=
  foldl (λ m node, if commit_index (sn_raft node) <? m then commit_index (sn_raft node) else m)
    u64_max cluster.

(** The first node with the highest commit index: its position. *)
Definition reference_index (cluster : SimCluster) : nat :=
  (foldl (λ (acc : nat * Z) (p : nat * SimNode),
      let c := commit_index (sn_raft p.2) in
      if acc.2 <? c then (p.1, c) else acc) (0%nat, 0) (imap pair cluster)).1.

Definition check_node_against (ref_log : list (Z * string)) (node : SimNode) : check :=
  for_all (λ p : nat * (Z * string),
      let k := (p.1 + 1)%nat in
      let expected := p.2 in
      let l := log (sn_raft node) in
      if (length l <? k)%nat
      then Violated (CommittedEntryDurability (Z.of_nat k) (sn_id node) expected.2 "<missing>")
      else match l !! (k - 1)%nat with
           | None => CheckPanics
           | Some e =>
               let actual := fmt_command (le_command e) in
               if String.eqb actual expected.2 then Pass
               else Violated (CommittedEntryDurability (Z.of_nat k) (sn_id node) expected.2 actual)
           end) (imap pair ref_log).

Definition check_committed_entry_durability (cluster : SimCluster) : check :=
  if bool_decide (cluster = []) then Pass else
  let min_commit := min_commit_of cluster in
  if min_commit =? u64_max then Pass else
  let ref_idx := reference_index cluster in
  match cluster !! ref_idx with
  | None => CheckPanics
  | Some ref_node =>
      let ref_log := (λ e, (le_term e, fmt_command (le_command e))) <$>
                       take (Z.to_nat min_commit) (log (sn_raft ref_node)) in
      for_all (λ p : nat * SimNode,
          if (p.1 =? ref_idx)%nat then Pass else check_node_against ref_log p.2) (imap pair cluster)
  end.

(** ** Two-phase commit *)

Abbreviation decisions := (gmap string (gmap string (Z * string))).

(** One log entry of one node. *)
Definition note_decision (id : string) (m : decisions) (entry : LogEntry) : decisions :=
  match le_command entry with
  | CDecideTx tx_id decision =>
      <[tx_id := <[id := (le_term entry, decision_debug decision)]> (default ∅ (m !! tx_id))]> m
  | _ => m
  end.

Definition tx_decisions (cluster : SimCluster) : decisions :=
  foldl (λ m node, foldl (note_decision (sn_id node)) m (log (sn_raft node))) ∅ cluster.

(** [Vec::dedup] *)
Fixpoint dedup (l : list string) : list string :=
  match l with
  | x :: ((y :: _) as l') => if String.eqb x y then dedup l' else x :: dedup l'
  | _ => l
  end.

Definition check_tx (p : string * gmap string (Z * string)) : check :=
  let per_node := btree_iter p.2 in
  let outcomes := dedup (merge_sort String.le ((λ q, q.2.2) <$> per_node)) in
  if (1 <? length outcomes)%nat
  then Violated (TwoPhaseCommitAtomicity p.1 ((λ q, (q.1, q.2.2)) <$> per_node))
  else Pass.

Definition check_2pc_atomicity (cluster : SimCluster) : check :=
  if bool_decide (cluster = []) then Pass
  else for_all check_tx (btree_iter (tx_decisions cluster)).

Definition assert_invariants (cluster : SimCluster) : check :=
  and_then (check_election_safety cluster)
    (and_then (check_log_matching_property cluster)
       (and_then (check_state_machine_safety cluster)
          (and_then (check_committed_entry_durability cluster)
             (check_2pc_atomicity cluster)))).
