(* ===== verification/InvariantTheorems.v ===== *)
(** * The invariant checker: claims

    The five checks pass exactly on the clusters that satisfy four
    properties: one leader per term, agreement on committed entries, on applied commands, and on decisions. *)

From stdpp Require Import prelude gmap strings pretty sorting countable list.
From S2P Require Import Prelude Serde Protocol StateMachine Storage Instances Rpc Node Samples Invariants.
#[local] Open Scope Z_scope.

(** ** The properties *)

Definition leads (t : Z) (a : SimNode) : Prop := state (sn_raft a) = Leader ∧ current_term (sn_raft a) = t.

#[export] Instance leads_dec t a : Decision (leads t a).
Proof. unfold leads. apply _. Defined.

(** At most one leader per term. *)
Definition election_safe (c : SimCluster) : Prop :=
  ∀ t i j a b, c !! i = Some a → c !! j = Some b → leads t a → leads t b → i = j.

(** What two nodes hold committed is the same. *)
Definition committed_agree (c : SimCluster) : Prop :=
  ∀ i j a b k ea eb, c !! i = Some a → c !! j = Some b →
    Z.of_nat k < commit_index (sn_raft a) → Z.of_nat k < commit_index (sn_raft b) →
    log (sn_raft a) !! k = Some ea → log (sn_raft b) !! k = Some eb →
    le_term ea = le_term eb ∧ le_command ea = le_command eb.

(** The last decision on a transaction in a log. *)
Definition last_decision (tx : string) (l : list LogEntry) : option TxDecision :=
  foldl (λ acc e, match le_command e with
                  | CDecideTx t d => if bool_decide (t = tx) then Some d else acc
                  | _ => acc
                  end) None l.

Definition decisions_agree (c : SimCluster) : Prop :=
  ∀ i j a b tx d d', c !! i = Some a → c !! j = Some b →
    last_decision tx (log (sn_raft a)) = Some d → last_decision tx (log (sn_raft b)) = Some d' → d = d'.

(** The commands two nodes have applied are the same. *)
Definition applied_agree (c : SimCluster) : Prop :=
  ∀ i j a b k ea eb, c !! i = Some a → c !! j = Some b →
    Z.of_nat k < last_applied (sn_raft a) → Z.of_nat k < last_applied (sn_raft b) →
    log (sn_raft a) !! k = Some ea → log (sn_raft b) !! k = Some eb → le_command ea = le_command eb.

(** Commit and applied indices lie within the logs. *)
Definition in_range (a : SimNode) : Prop :=
  0 <= last_applied (sn_raft a) <= log_len (sn_raft a) ∧
  commit_index (sn_raft a) <= log_len (sn_raft a) ∧ log_len (sn_raft a) < u64_max.

(** ** Loops *)

Lemma and_then_pass c k : and_then c k = Pass ↔ c = Pass ∧ k = Pass.
Proof. destruct c; naive_solver. Qed.

Lemma for_all_pass {A} (f : A → check) l : for_all f l = Pass ↔ ∀ x, x ∈ l → f x = Pass.
Proof.
  induction l as [|x l IH]; simpl; [set_solver|]. rewrite and_then_pass, IH. set_solver.
Qed.

Lemma for_pairs_pass {A} (f : A → A → check) l : for_pairs f l = Pass ↔
  ∀ i j a b, (i < j)%nat → l !! i = Some a → l !! j = Some b → f a b = Pass.
Proof.
  induction l as [|x l IH]; simpl; [split; [|done]; by intros _ [|i] j a b|].
  rewrite and_then_pass, for_all_pass, IH. split.
  - intros [H1 H2] [|i] [|j] a b Hij Ha Hb; simplify_eq/=; try lia.
    + eapply H1, list_elem_of_lookup_2, Hb.
    + eapply (H2 i j); [lia|done..].
  - intros H. split.
    + intros y [i Hi]%list_elem_of_lookup_1. by apply (H 0%nat (S i)); [lia|..].
    + intros i j a b Hij Ha Hb. by apply (H (S i) (S j)); [lia|..].
Qed.

Lemma compare_prefix_pass f n la lb :
  n <= Z.of_nat (length la) → n <= Z.of_nat (length lb) →
  compare_prefix f n la lb = Pass ↔
  ∀ k ea eb, Z.of_nat k < n → la !! k = Some ea → lb !! k = Some eb → f (Z.of_nat k + 1) ea eb = Pass.
Proof.
  intros Ha Hb. unfold compare_prefix. rewrite for_all_pass. split.
  - intros H k ea eb Hk Ea Eb. specialize (H k ltac:(apply elem_of_seq; lia)). by rewrite Ea, Eb in H.
  - intros H k Hk. apply elem_of_seq in Hk.
    destruct (lookup_lt_is_Some_2 la k) as [ea Ea]; [lia|].
    destruct (lookup_lt_is_Some_2 lb k) as [eb Eb]; [lia|]. rewrite Ea, Eb. apply H; [lia|done..].
Qed.

(** ** Election safety *)

Lemma foldl_add_leader c m t :
  default [] (foldl add_leader m c !! t) = default [] (m !! t) ++ (sn_id <$> filter (leads t) c).
Proof.
  revert m. induction c as [|a c IH]; intros m; simpl; [by rewrite app_nil_r|].
  rewrite IH, filter_cons. unfold add_leader, leads. case_bool_decide as Hs.
  - destruct (decide (current_term (sn_raft a) = t)) as [Ht|Ht].
    + rewrite decide_True by done. subst t. rewrite lookup_insert_eq. simpl. by rewrite <- app_assoc.
    + rewrite decide_False by naive_solver. by rewrite lookup_insert_ne.
  - rewrite decide_False by naive_solver. done.
Qed.

Lemma filter_at_most_one {A} (P : A → Prop) `{∀ x, Decision (P x)} (l : list A) :
  (length (filter P l) <= 1)%nat ↔
  ∀ i j a b, l !! i = Some a → l !! j = Some b → P a → P b → i = j.
Proof.
  induction l as [|x l IH]; [split; [done|]; intros _; simpl; lia|]. rewrite filter_cons. case_decide as Hx.
  - simpl. split.
    + intros Hl. assert (Hn : filter P l = []) by (destruct (filter P l); simpl in *; [done|lia]).
      assert (Hno : ∀ i a, l !! i = Some a → ¬ P a).
      { intros i a Hi Ha. apply (elem_of_nil a). rewrite <- Hn. apply list_elem_of_filter.
        split; [done|]. by eapply list_elem_of_lookup_2. }
      intros [|i] [|j] a b Ha Hb HPa HPb; simplify_eq/=; try done; exfalso; by eapply Hno.
    + intros Hu. destruct (filter P l) as [|y r] eqn:E; [simpl; lia|].
      assert (Hy : y ∈ filter P l) by (rewrite E; set_solver). apply list_elem_of_filter in Hy as [HPy Hy].
      apply list_elem_of_lookup_1 in Hy as [i Hi]. by specialize (Hu 0%nat (S i) x y eq_refl Hi Hx HPy).
  - rewrite IH. split.
    + intros Hu [|i] [|j] a b Ha Hb HPa HPb; simplify_eq/=; try done. f_equal. by eapply Hu.
    + intros Hu i j a b Ha Hb HPa HPb. by specialize (Hu (S i) (S j) a b Ha Hb HPa HPb) as [= ->].
Qed.

Lemma election_pass c : check_election_safety c = Pass ↔ election_safe c.
Proof.
  unfold check_election_safety. rewrite for_all_pass. split.
  - intros H t. apply (proj1 (filter_at_most_one (leads t) c)).
    pose proof (foldl_add_leader c ∅ t) as E. rewrite lookup_empty in E. simpl in E.
    destruct (foldl add_leader ∅ c !! t) as [ids|] eqn:El; simpl in E.
    2:{ apply (f_equal length) in E. rewrite length_fmap in E. simpl in E. lia. }
    specialize (H (t, ids)). simpl in H. rewrite <- (length_fmap sn_id), <- E.
    destruct (Nat.ltb_spec 1 (length ids)); [|done]. exfalso.
    enough (Violated (ElectionSafety t ids) = Pass) by done.
    apply H. unfold terms_iter. rewrite merge_sort_Permutation. by apply elem_of_map_to_list.
  - intros Hs [t ids] Hin. unfold terms_iter in Hin. rewrite merge_sort_Permutation in Hin.
    apply elem_of_map_to_list in Hin. simpl.
    pose proof (foldl_add_leader c ∅ t) as E. rewrite lookup_empty, Hin in E. simpl in E.
    assert (Hl : (length (filter (leads t) c) <= 1)%nat) by (apply filter_at_most_one; apply Hs).
    rewrite E, length_fmap. by destruct (Nat.ltb_spec 1 (length (filter (leads t) c))); [lia|].
Qed.

(** ** Agreement of logs *)

Lemma compare_entries_pass a b i ea eb : compare_entries a b i ea eb = Pass ↔
  le_term ea = le_term eb ∧ le_command ea = le_command eb.
Proof.
  unfold compare_entries. destruct (Z.eqb_spec (le_term ea) (le_term eb)); simpl; [|naive_solver].
  case_bool_decide; simpl; naive_solver.
Qed.

Lemma log_matching_pass c : Forall in_range c → check_log_matching_property c = Pass ↔ committed_agree c.
Proof.
  intros Hr. rewrite Forall_lookup in Hr. unfold check_log_matching_property. rewrite for_pairs_pass.
  assert (Hp : ∀ i j a b, c !! i = Some a → c !! j = Some b →
    compare_prefix (compare_entries a b) (commit_index (sn_raft a) `min` commit_index (sn_raft b))
      (log (sn_raft a)) (log (sn_raft b)) = Pass ↔
    ∀ k ea eb, Z.of_nat k < commit_index (sn_raft a) → Z.of_nat k < commit_index (sn_raft b) →
      log (sn_raft a) !! k = Some ea → log (sn_raft b) !! k = Some eb →
      le_term ea = le_term eb ∧ le_command ea = le_command eb).
  { intros i j a b Ha Hb. destruct (Hr i a Ha) as (_ & Ra & _), (Hr j b Hb) as (_ & Rb & _).
    unfold log_len in *. rewrite compare_prefix_pass by lia.
    setoid_rewrite compare_entries_pass. split; intros H k ea eb; intros; apply (H k); auto; lia. }
  split.
  - intros H i j a b k ea eb Ha Hb Hka Hkb Ea Eb. destruct (Nat.lt_trichotomy i j) as [Hij|[->|Hij]].
    + by eapply (proj1 (Hp i j a b Ha Hb) (H i j a b Hij Ha Hb)).
    + simplify_eq. done.
    + destruct (proj1 (Hp j i b a Hb Ha) (H j i b a Hij Hb Ha) k eb ea) as [-> ->]; done.
  - intros H i j a b Hij Ha Hb. apply (Hp i j a b Ha Hb). intros. by eapply (H i j).
Qed.

Lemma state_machine_safety_pass c : Forall in_range c → check_state_machine_safety c = Pass ↔ applied_agree c.
Proof.
  intros Hr. rewrite Forall_lookup in Hr. unfold check_state_machine_safety. rewrite for_pairs_pass.
  assert (Hp : ∀ i j a b, c !! i = Some a → c !! j = Some b →
    compare_prefix (compare_commands a b) (last_applied (sn_raft a) `min` last_applied (sn_raft b))
      (log (sn_raft a)) (log (sn_raft b)) = Pass ↔
    ∀ k ea eb, Z.of_nat k < last_applied (sn_raft a) → Z.of_nat k < last_applied (sn_raft b) →
      log (sn_raft a) !! k = Some ea → log (sn_raft b) !! k = Some eb → le_command ea = le_command eb).
  { intros i j a b Ha Hb. destruct (Hr i a Ha) as (Ra & _), (Hr j b Hb) as (Rb & _).
    unfold log_len in *. rewrite compare_prefix_pass by lia.
    assert (Hc : ∀ k ea eb, compare_commands a b k ea eb = Pass ↔ le_command ea = le_command eb)
      by (intros; unfold compare_commands; case_bool_decide; naive_solver).
    setoid_rewrite Hc. split; intros H k ea eb; intros; apply (H k); auto; lia. }
  split.
  - intros H i j a b k ea eb Ha Hb Hka Hkb Ea Eb. destruct (Nat.lt_trichotomy i j) as [Hij|[->|Hij]].
    + by eapply (proj1 (Hp i j a b Ha Hb) (H i j a b Hij Ha Hb)).
    + by simplify_eq.
    + symmetry. by eapply (proj1 (Hp j i b a Hb Ha) (H j i b a Hij Hb Ha) k eb ea).
  - intros H i j a b Hij Ha Hb. apply (Hp i j a b Ha Hb). intros. by eapply (H i j).
Qed.

(** Agreement on committed entries settles the durability check. *)
Lemma min_commit_le c m : foldl (λ m node, if commit_index (sn_raft node) <? m
    then commit_index (sn_raft node) else m) m c <= m ∧
  ∀ a, a ∈ c → foldl (λ m node, if commit_index (sn_raft node) <? m
    then commit_index (sn_raft node) else m) m c <= commit_index (sn_raft a).
Proof.
  revert m. induction c as [|x c IH]; intros m; simpl; [split; [lia|set_solver]|].
  destruct (IH (if commit_index (sn_raft x) <? m then commit_index (sn_raft x) else m)) as [H1 H2].
  destruct (Z.ltb_spec (commit_index (sn_raft x)) m); split; try lia.
  - intros a [->|Ha]%elem_of_cons; [lia|auto].
  - intros a [->|Ha]%elem_of_cons; [lia|auto].
Qed.

Lemma reference_exists c : c ≠ [] → is_Some (c !! reference_index c).
Proof.
  intros Hc. unfold reference_index.
  set (f := λ (acc : nat * Z) (p : nat * SimNode), _).
  assert (Hg : ∀ (l : list (nat * SimNode)) acc, (∀ p, p ∈ l → (p.1 < length c)%nat) →
    (acc.1 < length c)%nat → ((foldl f acc l).1 < length c)%nat).
  { induction l as [|p l IH]; intros acc Hl Ha; simpl; [done|]. apply IH; [set_solver|].
    unfold f. destruct (_ <? _); simpl; [apply Hl; set_solver|done]. }
  apply lookup_lt_is_Some, Hg; [|simpl; destruct c; [done|simpl; lia]].
  intros p Hp. apply elem_of_lookup_imap in Hp as (i & a & -> & Hi). simpl. by eapply lookup_lt_Some.
Qed.

Lemma durability_pass c : Forall in_range c → committed_agree c →
  check_committed_entry_durability c = Pass.
Proof.
  intros Hr H. unfold check_committed_entry_durability. case_bool_decide as Hc; [done|].
  destruct (_ =? _); [done|]. destruct (reference_exists c Hc) as [r Er]. rewrite Er.
  apply for_all_pass. intros p Hp. apply elem_of_lookup_imap in Hp as (i & a & -> & Hi). simpl.
  destruct (_ =? _)%nat; [done|]. unfold check_node_against. apply for_all_pass.
  intros q Hq. apply elem_of_lookup_imap in Hq as (k & x & -> & Hk). simpl.
  apply list_lookup_fmap_Some in Hk as (e & -> & He). apply lookup_take_Some in He as [He Hk].
  rewrite Forall_lookup in Hr. destruct (Hr i a Hi) as (_ & Ra & _). unfold log_len in Ra.
  pose proof (proj2 (min_commit_le c u64_max)) as Hm. fold (min_commit_of c) in Hm.
  pose proof (Hm a ltac:(by eapply list_elem_of_lookup_2)) as Ma.
  pose proof (Hm r ltac:(by eapply list_elem_of_lookup_2)) as Mr.
  destruct (Nat.ltb_spec (length (log (sn_raft a))) (k + 1)); [lia|].
  replace (k + 1 - 1)%nat with k by lia.
  destruct (lookup_lt_is_Some_2 (log (sn_raft a)) k) as [e' He']; [lia|]. rewrite He'.
  destruct (H _ _ r a k e e' Er Hi) as [_ ->]; [lia|lia|done|done|]. by rewrite String.eqb_refl.
Qed.

(** ** Decisions *)

(** What the table records for one node on one transaction. *)
Definition recorded (m : decisions) (tx id : string) : option string := snd <$> (m !! tx ≫= (.!! id)).

Lemma note_log id m l tx id' :
  recorded (foldl (note_decision id) m l) tx id' =
  if bool_decide (id' = id) then
    match last_decision tx l with Some d => Some (decision_debug d) | None => recorded m tx id' end
  else recorded m tx id'.
Proof.
  unfold last_decision. induction l as [|e l IH] using rev_ind; [simpl; by case_bool_decide|].
  rewrite !foldl_app. simpl.
  set (m' := foldl (note_decision id) m l) in *. unfold note_decision.
  destruct (le_command e); try exact IH.
  unfold recorded in *. destruct (decide (tx_id = tx)) as [->|Hne].
  - rewrite lookup_insert_eq. simpl. rewrite (bool_decide_true (tx = tx)) by done.
    case_bool_decide as Hid; [subst; by rewrite lookup_insert_eq|].
    rewrite lookup_insert_ne by done. rewrite <- IH.
    by destruct (m' !! tx).
  - rewrite lookup_insert_ne by done. rewrite (bool_decide_false (tx_id = tx)) by done. exact IH.
Qed.

Lemma recorded_other c m tx id : id ∉ sn_id <$> c →
  recorded (foldl (λ m node, foldl (note_decision (sn_id node)) m (log (sn_raft node))) m c) tx id =
    recorded m tx id.
Proof.
  revert m. induction c as [|b c IH]; intros m Hid; simpl; [done|].
  rewrite IH by set_solver. rewrite note_log, bool_decide_false by set_solver. done.
Qed.

Lemma recorded_cluster c m tx id s : NoDup (sn_id <$> c) → id ∈ sn_id <$> c ∨ recorded m tx id = None →
  recorded (foldl (λ m node, foldl (note_decision (sn_id node)) m (log (sn_raft node))) m c) tx id = Some s →
  recorded m tx id = None →
  ∃ a d, a ∈ c ∧ sn_id a = id ∧ last_decision tx (log (sn_raft a)) = Some d ∧ s = decision_debug d.
Proof.
  revert m. induction c as [|a c IH]; intros m Hnd Hid Hs Hm; simpl in *; [congruence|].
  apply NoDup_cons in Hnd as [Hna Hnd].
  set (m1 := foldl (note_decision (sn_id a)) m (log (sn_raft a))) in *.
  pose proof (note_log (sn_id a) m (log (sn_raft a)) tx id) as E. fold m1 in E.
  destruct (recorded m1 tx id) as [s1|] eqn:E1.
  - case_bool_decide as Hi; [|congruence]. subst id.
    destruct (last_decision tx (log (sn_raft a))) as [d|] eqn:Ed; [|congruence]. simplify_eq.
    exists a, d. split_and!; [set_solver|done|done|].
    rewrite recorded_other in Hs by done.
    congruence.
  - destruct (IH m1 Hnd) as (b & d & Hb & ?); [by right|done|done|]. exists b, d. set_solver.
Qed.

Lemma recorded_node c m tx a d : NoDup (sn_id <$> c) → a ∈ c →
  last_decision tx (log (sn_raft a)) = Some d →
  recorded (foldl (λ m node, foldl (note_decision (sn_id node)) m (log (sn_raft node))) m c) tx (sn_id a) =
    Some (decision_debug d).
Proof.
  revert m. induction c as [|b c IH]; intros m Hnd Ha Hd; simpl in *; [set_solver|].
  apply NoDup_cons in Hnd as [Hnb Hnd]. apply elem_of_cons in Ha as [->|Ha]; [|by apply IH].
  rewrite recorded_other, note_log, bool_decide_true by done. by rewrite Hd.
Qed.

(** A list that [dedup] shortens to one element has one value. *)
Lemma dedup_short l : (length (dedup l) <= 1)%nat ↔ ∀ x y, x ∈ l → y ∈ l → x = y.
Proof.
  induction l as [|x [|y l] IH]; [split; [set_solver|simpl; lia]|split; [set_solver|simpl; lia]|].
  cbn [dedup]. destruct (String.eqb_spec x y) as [->|Hxy].
  - rewrite IH. set_solver.
  - split; [|intros H; exfalso; apply Hxy, H; set_solver].
    assert (1 <= length (dedup (y :: l)))%nat; [|simpl in *; lia].
    clear. revert y. induction l as [|z l IH]; intros y; [simpl; lia|]. cbn [dedup].
    destruct (String.eqb y z); [apply IH|simpl; lia].
Qed.

Lemma check_tx_pass tx pm : check_tx (tx, pm) = Pass ↔
  ∀ id1 id2 p1 p2, pm !! id1 = Some p1 → pm !! id2 = Some p2 → p1.2 = p2.2.
Proof.
  unfold check_tx. simpl. set (l := merge_sort _ _).
  assert (Hl : ∀ s, s ∈ l ↔ ∃ id p, pm !! id = Some p ∧ s = p.2).
  { intros s. unfold l. rewrite merge_sort_Permutation, list_elem_of_fmap. split.
    - intros ([id p] & -> & Hin). apply elem_of_btree_iter in Hin. eauto.
    - intros (id & p & Hp & ->). exists (id, p). split; [done|]. by apply elem_of_btree_iter. }
  destruct (Nat.ltb_spec 1 (length (dedup l))) as [Hlt|Hle].
  - split; [done|]. intros H. exfalso. enough (length (dedup l) <= 1)%nat by lia. apply dedup_short.
    intros x y (i1 & p1 & H1 & ->)%Hl (i2 & p2 & H2 & ->)%Hl. by eapply H.
  - split; [|done]. intros _ i1 i2 p1 p2 H1 H2. apply (proj1 (dedup_short l) Hle); apply Hl; eauto.
Qed.

Lemma decision_debug_inj d d' : decision_debug d = decision_debug d' → d = d'.
Proof. by destruct d, d'. Qed.

Lemma atomicity_pass c : NoDup (sn_id <$> c) → check_2pc_atomicity c = Pass ↔ decisions_agree c.
Proof.
  intros Hnd. unfold check_2pc_atomicity. case_bool_decide as Hc.
  { subst c. split; [|done]. by intros _ i j a b tx d d'. }
  rewrite for_all_pass. split.
  - intros H i j a b tx d d' Ha Hb Hd Hd'.
    apply list_elem_of_lookup_2 in Ha, Hb.
    pose proof (recorded_node c ∅ tx a d Hnd Ha Hd) as Ra. pose proof (recorded_node c ∅ tx b d' Hnd Hb Hd') as Rb.
    fold (tx_decisions c) in Ra, Rb. unfold recorded in Ra, Rb.
    destruct (tx_decisions c !! tx) as [pm|] eqn:Ep; [|done]. simpl in Ra, Rb.
    destruct (pm !! sn_id a) as [p1|] eqn:E1, (pm !! sn_id b) as [p2|] eqn:E2; simplify_eq/=.
    assert (Hp : check_tx (tx, pm) = Pass) by (apply H, elem_of_btree_iter, Ep).
    apply decision_debug_inj. pose proof (proj1 (check_tx_pass tx pm) Hp _ _ _ _ E1 E2). congruence.
  - intros H [tx pm] Hin. apply elem_of_btree_iter in Hin. apply check_tx_pass.
    assert (Hr : ∀ id p, pm !! id = Some p → ∃ i a d, c !! i = Some a ∧
      last_decision tx (log (sn_raft a)) = Some d ∧ p.2 = decision_debug d).
    { intros id p Hp. destruct (recorded_cluster c ∅ tx id p.2 Hnd) as (a & d & Ha & _ & Hd & ->).
      - right. unfold recorded. by rewrite lookup_empty.
      - fold (tx_decisions c). unfold recorded. rewrite Hin. simpl. by rewrite Hp.
      - unfold recorded. by rewrite lookup_empty.
      - apply list_elem_of_lookup_1 in Ha as [i Hi]. eauto 10. }
    intros i1 i2 p1 p2 H1 H2. destruct (Hr _ _ H1) as (i & a & d & Ha & Hd & ->).
    destruct (Hr _ _ H2) as (j & b & d' & Hb & Hd' & ->). f_equal. by eapply (H i j).
Qed.

(** ** Claims *)


(** ** Witnesses and executions *)

Definition sample_cluster : SimCluster :=
  [mkSimNode "a" leader_2; mkSimNode "b" (new_node "b" ["a"; "c"]); mkSimNode "c" (new_node "c" ["a"; "b"])].


(** A node that still leads term 1 next to one that leads it too. *)
Lemma two_leaders_are_reported :
  assert_invariants [mkSimNode "a" leader_2; mkSimNode "b" (with_state Leader (with_current_term 1 (new_node "b" ["a"])))] =
    Violated (ElectionSafety 1 ["a"; "b"]%string).
Proof. vm_compute. reflexivity. Qed.

(** The comment excludes nodes that have not applied a decision; the code reads
    whole logs: two entries nobody has committed are reported as a violation. *)
Lemma uncommitted_decisions_are_reported :
  let a := with_log [mkLogEntry 1 1 (CDecideTx "t" Commit)] (new_node "a" ["b"]) in
  let b := with_log [mkLogEntry 2 1 (CDecideTx "t" Abort)] (new_node "b" ["a"]) in
  commit_index a = 0 ∧ commit_index b = 0 ∧
  assert_invariants [mkSimNode "a" a; mkSimNode "b" b] =
    Violated (TwoPhaseCommitAtomicity "t" [("a", "Commit"); ("b", "Abort")]%string).
Proof. vm_compute. split_and!; reflexivity. Qed.

(** After InstallSnapshot the log is shorter than the commit index: the checker
    itself panics. *)
Lemma checker_panics_after_snapshot :
  let a := with_commit_index 1 (new_node "a" ["b"]) in
  let b := with_commit_index 1 (new_node "b" ["a"]) in
  assert_invariants [mkSimNode "a" a; mkSimNode "b" b] = CheckPanics.
Proof. vm_compute. reflexivity. Qed.
