(* ===== verification/Sdk.v ===== *)
(** * The client library ([src/rust/oxide-kv-client])

    What the library sends, what the server's derived deserialiser makes of it, and how the library reads
    the server's replies. *)

From stdpp Require Import prelude gmap strings pretty sorting countable list.
From S2P Require Import Prelude Serde Protocol StateMachine Storage Rpc Node NodeEvents Task Coordinator Client.
#[local] Open Scope Z_scope.

(** ** The server's [Deserialize] for [Command] ([protocol.rs])

    Serde's default for an enum: an object with the variant's name as its only key, or the name alone
    for a variant without fields; fields come by name, or all in order in an array. *)

Definition enum_tag (v : Value) : option (string * Value) :=
  match v with
  | VString name => Some (name, VNull)
  | VObject [(name, content)] => Some (name, content)
  | _ => None
  end.

Definition fields (names : list string) (v : Value) : option (list Value) :=
  match v with
  | VObject m => mapM (λ k, assoc_lookup k m) names
  | VArray l => if (length l =? length names)%nat then Some l else None
  | _ => None
  end.

Definition as_string (v : Value) : option string := match v with VString s => Some s | _ => None end.

Definition as_vec {A} (f : Value → option A) (v : Value) : option (list A) :=
  match v with VArray l => mapM f l | _ => None end.

(** A variant without fields. *)
Definition no_fields (v : Value) : option unit := match v with VNull => Some tt | _ => None end.

Definition server_of_value (v : Value) : option ServerId :=
  fs ← fields ["node_id"; "addr"] v;
  match fs with
  | [a; b] => a ← as_string a; b ← as_string b; Some (mkServerId a b)
  | _ => None
  end.

Definition config_of_value (v : Value) : option Configuration :=
  '(tag, c) ← enum_tag v;
  if (tag =? "Simple")%string then Simple <$> as_vec server_of_value c
  else if (tag =? "Joint")%string then
    fs ← fields ["old"; "new"] c;
    match fs with
    | [a; b] => a ← as_vec server_of_value a; b ← as_vec server_of_value b; Some (Joint a b)
    | _ => None
    end
  else None.

Definition op_of_value (v : Value) : option TxOp :=
  '(tag, c) ← enum_tag v;
  if (tag =? "Put")%string then
    fs ← fields ["key"; "value"] c;
    match fs with [a; b] => a ← as_string a; b ← as_string b; Some (TxPut a b) | _ => None end
  else if (tag =? "Delete")%string then
    fs ← fields ["key"] c;
    match fs with [a] => TxDelete <$> as_string a | _ => None end
  else None.

Definition decision_of_value (v : Value) : option TxDecision :=
  '(tag, c) ← enum_tag v;
  if (tag =? "Commit")%string then _ ← no_fields c; Some Commit
  else if (tag =? "Abort")%string then _ ← no_fields c; Some Abort
  else None.

Definition command_of_value (v : Value) : option Command :=
  '(tag, c) ← enum_tag v;
  let one name (f : Value → option Command) := fs ← fields [name] c; match fs with [a] => f a | _ => None end in
  let two n1 n2 (f : Value → Value → option Command) :=
    fs ← fields [n1; n2] c; match fs with [a; b] => f a b | _ => None end in
  if (tag =? "Set")%string then
    two "key"%string "value"%string (λ a b, a ← as_string a; b ← as_string b; Some (CSet a b))
  else if (tag =? "Get")%string then one "key"%string (λ a, CGet <$> as_string a)
  else if (tag =? "Delete")%string then one "key"%string (λ a, CDelete <$> as_string a)
  else if (tag =? "Compact")%string then _ ← no_fields c; Some CCompact
  else if (tag =? "AbortTx")%string then one "tx_id"%string (λ a, CAbortTx <$> as_string a)
  else if (tag =? "BeginTx")%string then
    two "tx_id"%string "ops"%string (λ a b, a ← as_string a; b ← as_vec op_of_value b; Some (CBeginTx a b))
  else if (tag =? "DecideTx")%string then
    two "tx_id"%string "decision"%string (λ a b, a ← as_string a; b ← decision_of_value b; Some (CDecideTx a b))
  else if (tag =? "AddNode")%string then one "server"%string (λ a, CAddNode <$> server_of_value a)
  else if (tag =? "RemoveNode")%string then one "node_id"%string (λ a, CRemoveNode <$> as_string a)
  else if (tag =? "InstallConfiguration")%string then
    one "config"%string (λ a, CInstallConfiguration <$> config_of_value a)
  else None.

Module sdk.

(** ** Errors ([error.rs]) *)

Inductive Error :=
  | Transport (e : io_error)
  | MalformedResponse
  | NotLeader (msg : string)
  | TxAborted (tx_id reason : string)
  | Server (msg : string)
  | ConnectionClosed.

Section client.
Context {JV : Json Value}.

(** ** The connection ([connection.rs]) *)

(** What the socket does with a request line: an error, or the line read back, empty at the end of the
    stream. *)
Definition Peer : Type := string → io_error + string.

Definition newline : string := String (Ascii.ascii_of_N 10) EmptyString.

Definition send_request (peer : Peer) (request : Value) : Error + Value :=
  match to_string request with
  | None => inl MalformedResponse
  | Some line =>
      match peer (line +:+ newline) with
      | inl e => inl (Transport e)
      | inr buf =>
          if bool_decide (buf = EmptyString) then inl ConnectionClosed
          else match from_str buf with Some v => inr v | None => inl MalformedResponse end
      end
  end.

(** ** Replies ([client.rs]) *)

(** [Value::get] with a key, [Value::as_u64], and [{resp}]. *)
Definition field (k : string) (v : Value) : option Value :=
  match v with VObject m => assoc_lookup k m | _ => None end.
Definition as_u64 (v : Value) : option Z :=
  match v with VNumber n => if (0 <=? n) && (n <? U64) then Some n else None | _ => None end.
Definition shown (v : Value) : string := default EmptyString (to_string v).

Definition status (resp : Value) : option string := field "status" resp ≫= as_string.

Definition check_not_leader (resp : Value) : Error + unit :=
  match field "error" resp ≫= as_string with
  | Some msg => if String.prefix "Not a leader" msg then inl (NotLeader msg) else inl (Server msg)
  | None => inr tt
  end.

Definition server_message (resp : Value) : string :=
  default "server error"%string (field "message" resp ≫= as_string).

Definition parse_index_response (resp : Value) : Error + Z :=
  match check_not_leader resp with
  | inl e => inl e
  | inr _ =>
      match status resp with
      | Some "ok"%string =>
          match field "index" resp ≫= as_u64 with
          | Some i => inr i
          | None => inl (Server ("missing index: " +:+ shown resp))
          end
      | Some "error"%string => inl (Server (server_message resp))
      | _ => inl (Server ("unexpected response: " +:+ shown resp))
      end
  end.

(** The tail of [Client::get]. *)
Definition parse_get_response (resp : Value) : Error + option string :=
  match check_not_leader resp with
  | inl e => inl e
  | inr _ =>
      match status resp with
      | Some "ok"%string => inr (field "data" resp ≫= as_string)
      | Some "not_found"%string => inr None
      | _ => inl (Server ("unexpected Get response: " +:+ shown resp))
      end
  end.

Record TxResult := mkTxResult { decision : string; begin_index : Z; decide_index : Z; tx_id : string }.

(** The tail of [Client::send_begin_tx]. *)
Definition parse_begin_response (tx_id : string) (resp : Value) : Error + TxResult :=
  match check_not_leader resp with
  | inl e => inl e
  | inr _ =>
      match status resp with
      | Some "ok"%string =>
          let decision := default "commit"%string (field "decision" resp ≫= as_string) in
          match field "begin_index" resp ≫= as_u64 with
          | None => inl (Server ("missing begin_index: " +:+ shown resp))
          | Some b =>
              match field "decide_index" resp ≫= as_u64 with
              | None => inl (Server ("missing decide_index: " +:+ shown resp))
              | Some d => inr (mkTxResult decision b d tx_id)
              end
          end
      | Some "aborted"%string =>
          inl (TxAborted tx_id (default EmptyString (field "reason" resp ≫= as_string)))
      | Some "error"%string => inl (Server (server_message resp))
      | _ => inl (Server ("unexpected BeginTx response: " +:+ shown resp))
      end
  end.

(** ** Requests ([client.rs], [transaction.rs]) *)

Definition tagged (tag : string) (fs : list (string * Value)) : Value := json_object [(tag, json_object fs)].

Definition set_request (key value : string) : Value :=
  tagged "Set" [("key"%string, VString key); ("value"%string, VString value)].
Definition get_request (key : string) : Value := tagged "Get" [("key"%string, VString key)].
Definition delete_request (key : string) : Value := tagged "Delete" [("key"%string, VString key)].
Definition begin_request (tx_id : string) (ops : list Value) : Value :=
  tagged "BeginTx" [("tx_id"%string, VString tx_id); ("ops"%string, VArray ops)].
Definition decide_request (tx_id : string) (commit : bool) : Value :=
  let decision := if commit then json_object [("Commit"%string, VNull)] else json_object [("Abort"%string, VNull)] in
  tagged "DecideTx" [("tx_id"%string, VString tx_id); ("decision"%string, decision)].

Definition and_then {A B} (r : Error + A) (f : A → Error + B) : Error + B :=
  match r with inl e => inl e | inr a => f a end.

Definition set (peer : Peer) (key value : string) : Error + Z :=
  and_then (send_request peer (set_request key value)) parse_index_response.
Definition get (peer : Peer) (key : string) : Error + option string :=
  and_then (send_request peer (get_request key)) parse_get_response.
Definition delete (peer : Peer) (key : string) : Error + Z :=
  and_then (send_request peer (delete_request key)) parse_index_response.
Definition send_begin_tx (peer : Peer) (tx_id : string) (ops : list Value) : Error + TxResult :=
  and_then (send_request peer (begin_request tx_id ops)) (parse_begin_response tx_id).
Definition send_decide_tx (peer : Peer) (tx_id : string) (commit : bool) : Error + unit :=
  and_then (and_then (send_request peer (decide_request tx_id commit)) parse_index_response) (λ _, inr tt).

Record Transaction := mkTransaction { t_id : string; t_ops : list Value }.

Definition begin_tx (tx_id : string) : Transaction := mkTransaction tx_id [].
Definition tx_set (key value : string) (t : Transaction) : Transaction :=
  mkTransaction (t_id t)
    (t_ops t ++ [tagged "put" [("key"%string, VString key); ("value"%string, VString value)]]).
Definition tx_delete (key : string) (t : Transaction) : Transaction :=
  mkTransaction (t_id t) (t_ops t ++ [tagged "delete" [("key"%string, VString key)]]).
Definition commit (peer : Peer) (t : Transaction) : Error + TxResult := send_begin_tx peer (t_id t) (t_ops t).
Definition abort (peer : Peer) (t : Transaction) : Error + unit := send_decide_tx peer (t_id t) false.
End client.
End sdk.
