(* ===== verification/SdkTheorems.v ===== *)
(** * The client library and the server

    A call of the library reaches the server as the command it stands for, and its result is what
    happened there; except for transactions with operations, which the server does not understand. *)

From stdpp Require Import prelude gmap strings pretty sorting countable list.
From S2P Require Import Prelude Serde Protocol StateMachine Storage Instances Rpc Node NodeEvents Samples Timer Task.
From S2P Require Import Coordinator CoordinatorProps Client ClientTheorems Sdk.
#[local] Open Scope Z_scope.

Import ClientHandler.

(** ** Requests *)

(** What the server decodes from the requests of the library. *)
Lemma requests_decode key value tx :
  command_of_value (sdk.set_request key value) = Some (CSet key value) ∧
  command_of_value (sdk.get_request key) = Some (CGet key) ∧
  command_of_value (sdk.delete_request key) = Some (CDelete key) ∧
  command_of_value (sdk.decide_request tx true) = Some (CDecideTx tx Commit) ∧
  command_of_value (sdk.decide_request tx false) = Some (CDecideTx tx Abort) ∧
  command_of_value (sdk.begin_request tx []) = Some (CBeginTx tx []).
Proof. by split_and!. Qed.

(** The operations a transaction of the library holds. *)
Inductive staged : sdk.Transaction → Prop :=
  | staged_new tx : staged (sdk.begin_tx tx)
  | staged_set k v t : staged t → staged (sdk.tx_set k v t)
  | staged_delete k t : staged t → staged (sdk.tx_delete k t).

Lemma staged_ops_unknown t : staged t → Forall (λ v, op_of_value v = None) (sdk.t_ops t).
Proof. induction 1; simpl; [constructor|..]; (apply Forall_app; split; [done|by repeat constructor]). Qed.

(** A transaction with at least one operation is not a command for the server: the library names the
    operations put and delete, the server Put and Delete. *)
Lemma sdk_transactions_are_rejected t : staged t → sdk.t_ops t ≠ [] →
  command_of_value (sdk.begin_request (sdk.t_id t) (sdk.t_ops t)) = None.
Proof.
  intros Hs Hne. apply staged_ops_unknown in Hs. destruct (sdk.t_ops t) as [|v ops]; [done|].
  apply Forall_cons in Hs as [Hv _]. destruct t as [tx o]. simpl.
  change (command_of_value (sdk.begin_request tx (v :: ops))) with
    (b ← mapM op_of_value (v :: ops); Some (CBeginTx tx b)). simpl. by rewrite Hv.
Qed.

(** ** Replies *)

Section replies.
Context {JV : Json Value}.

Lemma parse_not_leader :
  sdk.parse_index_response not_leader = inl (sdk.NotLeader not_leader_text) ∧
  sdk.parse_get_response not_leader = inl (sdk.NotLeader not_leader_text).
Proof. by split. Qed.

Lemma parse_ok_index i : 0 <= i < U64 → sdk.parse_index_response (ok_index i) = inr i.
Proof.
  intros Hi. change (sdk.parse_index_response (ok_index i)) with
    (match sdk.as_u64 (VNumber i) with
     | Some i => inr i
     | None => inl (sdk.Server ("missing index: " +:+ sdk.shown (ok_index i)))
     end). unfold sdk.as_u64. by replace ((0 <=? i) && (i <? U64)) with true by lia.
Qed.

Lemma parse_refused : sdk.parse_index_response (json_object [("status"%string, VString "error")]) =
  inl (sdk.Server "server error").
Proof. done. Qed.

Lemma parse_value v : sdk.parse_get_response (value_reply v) = inr v.
Proof. by destruct v. Qed.

Lemma parse_timeout : ∃ msg, sdk.parse_get_response
  (error_reply "read confirmation timeout (leader may have lost quorum)") = inl (sdk.Server msg).
Proof. eexists. by vm_compute. Qed.
End replies.

(** ** Calls *)

Inductive write := WSet (key value : string) | WDelete (key : string) | WDecide (tx_id : string) (commit : bool).

Definition write_request (w : write) : Value :=
  match w with
  | WSet k v => sdk.set_request k v
  | WDelete k => sdk.delete_request k
  | WDecide tx b => sdk.decide_request tx b
  end.

Definition write_command (w : write) : Command :=
  match w with
  | WSet k v => CSet k v
  | WDelete k => CDelete k
  | WDecide tx b => CDecideTx tx (if b then Commit else Abort)
  end.

Lemma write_request_decodes w : command_of_value (write_request w) = Some (write_command w).
Proof. by destruct w as [| |tx []]. Qed.

(** No critical section of the request changed the log. *)
Definition log_untouched (tr : list obs) : Prop :=
  Forall (λ o, match o with OLock n n' => log n' = log n | _ => False end) tr.

Section calls.
Context {JW : Json WalOp} {JE : Json (list SSTEntry)} {JM : Json SSTableMeta}.
Context {BL : Bincode LogEntry} {LB : BincodeLaws LogEntry} {JV : Json Value} {LV : JsonLaws Value}.
Context {JS : Json Snapshot} {LS : JsonLaws Snapshot}.
Context (io_display : io_error → string).

Lemma proposed_positive c i tr : proposed c i tr → 0 <= i.
Proof. unfold proposed. intros (n & n' & cs & _ & _ & _ & H & _). unfold log_len in H. lia. Qed.

(** What a write of the library returns for an index: a decision drops it. *)
Definition indexed (w : write) (i : Z) : option Z := match w with WDecide _ _ => None | _ => Some i end.

(** The library's reading of the answer to a write. *)
Lemma index_result (w : write) reply tr : write_outcome (write_command w) reply tr →
  match sdk.and_then (sdk.parse_index_response reply) (λ i, inr (indexed w i)) with
  | inr (Some i) => proposed (write_command w) i tr
  | inr None => ∃ i, proposed (write_command w) i tr
  | inl (sdk.NotLeader _) | inl (sdk.Server _) => log_untouched tr ∨ ∃ i, U64 <= i ∧ proposed (write_command w) i tr
  | inl _ => False
  end.
Proof.
  intros [(i & -> & Hp)|[[-> | ->] Hf]].
  - pose proof (proposed_positive _ _ _ Hp). destruct (Z.lt_ge_cases i U64).
    + rewrite parse_ok_index by lia. destruct w; simpl; eauto.
    + change (sdk.parse_index_response (ok_index i)) with
        (match sdk.as_u64 (VNumber i) with
         | Some i => inr i
         | None => inl (sdk.Server ("missing index: " +:+ sdk.shown (ok_index i)))
         end). unfold sdk.as_u64. replace ((0 <=? i) && (i <? U64)) with false by lia. right. eauto.
  - rewrite (proj1 parse_not_leader). by left.
  - rewrite parse_refused. by left.
Qed.

(** And to a read. *)
Lemma get_result key reply tr :
  reply = not_leader ∨ (∃ m rest, tr = OLock m m :: rest ∧ read_outcome key reply rest) →
  match sdk.parse_get_response reply with
  | inr v => ∃ m rest, tr = OLock m m :: rest ∧ (served key v rest ∨ served_alone key v rest)
  | inl (sdk.NotLeader _) | inl (sdk.Server _) => ¬ ∃ v, Finished [reply] = Finished [value_reply v]
  | inl _ => False
  end.
Proof.
  assert (Hno : ∀ e, sdk.parse_get_response reply = inl e → ¬ ∃ v, Finished [reply] = Finished [value_reply v]).
  { intros e He [v [= ->]]. by rewrite parse_value in He. }
  intros [->|(m & rest & -> & [->|[->|(v & -> & Hv)]])].
  - rewrite (proj2 parse_not_leader) in *. by eapply Hno.
  - rewrite (proj2 parse_not_leader) in *. by eapply Hno.
  - destruct parse_timeout as [msg Hm]. rewrite Hm in *. by eapply Hno.
  - rewrite parse_value. eauto.
Qed.

(** The server reads a line with serde's derived [Deserialize] for [Command]: parsing the text of a JSON value as a
    command is reading the command off the value. *)
Context {JC : Json Command} (parse_display : string → string).
Context (json_command : ∀ v line, to_string v = Some line → from_str line = command_of_value v).

(** The server, on a connection over which one line arrives. *)
Definition front_door (turns : list turn) (n : RaftNode) (z : Z) (line : string) :=
  run (handle_client_request io_display parse_display [Some line] []) turns n z.

(** The socket carries each line to that server and its answer back, or it fails: with an error, or with the end of the
    stream. *)
Definition relays (turns : list turn) (n : RaftNode) (z : Z) (peer : sdk.Peer) : Prop := ∀ line,
  match peer (line +:+ sdk.newline) with
  | inl _ => True
  | inr buf => buf = EmptyString ∨ ∃ reply, (front_door turns n z line).1.1.1 = Finished [reply] ∧ from_str buf = Some reply
  end.

(** The writes of the library; [send_decide_tx] drops the index. *)
Definition sdk_write (peer : sdk.Peer) (w : write) : sdk.Error + option Z :=
  match w with
  | WSet k v => sdk.and_then (sdk.set peer k v) (λ i, inr (Some i))
  | WDelete k => sdk.and_then (sdk.delete peer k) (λ i, inr (Some i))
  | WDecide tx b => sdk.and_then (sdk.send_decide_tx peer tx b) (λ _, inr None)
  end.

Lemma sdk_write_eq peer w : sdk_write peer w = sdk.and_then (sdk.send_request peer (write_request w))
  (λ resp, sdk.and_then (sdk.parse_index_response resp) (λ i, inr (indexed w i))).
Proof.
  destruct w; unfold sdk_write, sdk.set, sdk.delete, sdk.send_decide_tx; cbn [write_request];
    (destruct (sdk.send_request _ _) as [e|resp]; [done|]); simpl; by destruct (sdk.parse_index_response resp).
Qed.

(** What one line makes the server do. *)
Lemma w_write_line w line n z : from_str line = Some (write_command w) →
  tspec anything (handle_client_request io_display parse_display [Some line] []) n z
    (ipost whatever [] (λ replies _ _ tr, ∃ reply, replies = [reply] ∧ write_outcome (write_command w) reply tr)).
Proof.
  intros E. cbn [handle_client_request]. rewrite E.
  i_bind_with (λ reply _ _ tr, write_outcome (write_command w) reply tr); [by apply w_write; destruct w|].
  intros reply n1 z1 tr H. cbn [head default tail]. i_bind_with (λ rest _ _ tr, rest = [] ∧ tr = []); [by i_step|].
  intros rest n2 z2 tr2 [-> ->]. i_step. rewrite app_nil_r. eauto.
Qed.

Lemma w_get_line key line n z : from_str line = Some (CGet key) →
  tspec anything (handle_client_request io_display parse_display [Some line] []) n z
    (ipost whatever [] (λ replies _ _ tr, ∃ reply, replies = [reply] ∧
       (reply = not_leader ∨ ∃ m rest, tr = OLock m m :: rest ∧ read_outcome key reply rest))).
Proof.
  intros E. cbn [handle_client_request]. rewrite E.
  i_bind_with (λ reply _ _ tr, reply = not_leader ∨ ∃ m rest, tr = OLock m m :: rest ∧ read_outcome key reply rest).
  - unfold dispatch_command. i_bind_with (λ _ _ _ tr, ∃ m, tr = [OLock m m]); [i_step; eauto|].
    intros l n1 z1 tr1 (m & ->). destruct l; cbn [negb]; [|i_step; by left].
    eapply tspec_mono; [apply w_linearizable_get|]. intros [reply|] n2 z2 tr [_ H]; (split; [done|]); [|done].
    right. by exists m, tr.
  - intros reply n1 z1 tr H. cbn [head default tail]. i_bind_with (λ rest _ _ tr, rest = [] ∧ tr = []); [by i_step|].
    intros rest n2 z2 tr2 [-> ->]. i_step. rewrite app_nil_r. eauto.
Qed.

(** The value read back is the server's reply, or the connection failed. *)
Lemma send_request_cases turns n z peer v line : relays turns n z peer → to_string v = Some line →
  match sdk.send_request peer v with
  | inr reply => (front_door turns n z line).1.1.1 = Finished [reply]
  | inl (sdk.Transport e) => peer (line +:+ sdk.newline) = inl e
  | inl sdk.ConnectionClosed => peer (line +:+ sdk.newline) = inr EmptyString
  | inl _ => False
  end.
Proof.
  intros Hr E. unfold sdk.send_request. rewrite E. specialize (Hr line).
  destruct (peer (line +:+ sdk.newline)) as [e|buf]; [done|]. case_bool_decide as Hb; [by subst|].
  destruct Hr as [?|(reply & Hf & ->)]; done.
Qed.

End calls.

Import Codec.

(** A server that reads commands off the JSON value of a line. *)
#[local] Instance json_of_value : Json Command := {
  to_string _ := None; to_string_pretty _ := None;
  from_str line := v ← from_str line; command_of_value v;
}.

Lemma json_of_value_reads (v : Value) line : to_string v = Some line → from_str line = command_of_value v.
Proof.
  intros E. destruct (json_compact v) as (s & Es & Ep & _). rewrite E in Es. injection Es as <-.
  change (from_str line) with ((from_str line : option Value) ≫= command_of_value). by rewrite Ep.
Qed.

(** A connection to a leader, which always works. *)
Definition quick : list turn := replicate 9 (calm 1 []).

Definition reply_text (line : string) : string :=
  match (front_door io_text id quick leader_a 0 line).1.1.1 with
  | Finished [reply] => default EmptyString (to_string reply)
  | _ => EmptyString
  end.

(** The line, without the line break the client added. *)
Fixpoint chopped (line : string) : string :=
  match line with
  | EmptyString | String _ EmptyString => EmptyString
  | String c rest => String c (chopped rest)
  end.

Definition wire_to_a : sdk.Peer := λ line, inr (reply_text (chopped line)).

Lemma chopped_line line : chopped (line +:+ sdk.newline) = line.
Proof. induction line as [|c [|c' line] IH]; [done..|]. simpl in *. by rewrite IH. Qed.

Lemma wire_to_a_relays : relays io_text id quick leader_a 0 wire_to_a.
Proof.
  intros line. unfold wire_to_a. rewrite chopped_line. unfold reply_text.
  destruct (front_door io_text id quick leader_a 0 line) as [[[s n'] z'] tr]. cbn [fst].
  destruct s as [[|reply [|]]| | |]; try (by left). right. exists reply. split; [done|].
  destruct (json_compact reply) as (text & -> & E & _). exact E.
Qed.

