(* ===== verification/PyClient.v ===== *)
(** * The Python client ([src/python/oxide_kv/client.py])

    The line protocol over a socket that delivers its bytes in pieces, the requests, the checks on the
    answers, transactions, and the search for a leader. A call runs on a connection and ends with a value or an
    exception. *)

From stdpp Require Import prelude gmap strings pretty sorting countable list.
From S2P Require Import Prelude Serde Protocol StateMachine Storage Instances Rpc Node NodeEvents Samples Timer Task.
From S2P Require Import Coordinator CoordinatorProps Client ClientTheorems Sdk SdkTheorems.
#[local] Open Scope Z_scope.

Import ClientHandler.

Module py.

(** ** Exceptions and effects *)

Inductive exn :=
  | NotLeaderError (msg : string)
  | TxAbortedError (tx_id reason : string)
  | OxideKVError (msg : string)
  | OSError                     (** [ConnectionError] and [socket.timeout] among them *)
  | JSONDecodeError
  | OtherError.                 (** [TypeError], [KeyError], [ValueError], ... *)

(** [except OxideKVError] catches its subclasses. *)
Definition is_oxide (e : exn) : bool :=
  match e with NotLeaderError _ | TxAbortedError _ _ | OxideKVError _ => true | _ => false end.

(** A connection: [_buf], and the pieces [recv] will return next; an empty one is the end of the stream, and with none
    left [recv] times out. *)
Record Connection := mkConnection { buf : string; incoming : list string }.

Definition Py (A : Type) : Type := Connection → (exn + A) * Connection.

#[global] Instance Py_ret : MRet Py := λ A a c, (inr a, c).
#[global] Instance Py_bind : MBind Py := λ A B k m c,
  match m c with
  | (inr a, c') => k a c'
  | (inl e, c') => (inl e, c')
  end.
Definition raise {A} (e : exn) : Py A := λ c, (inl e, c).

Section client.

(** [json.dumps(.., separators=(",", ":"))], [json.loads], the decoding of a piece ([errors="replace"]), [int(..)],
    [repr], and what the server sends back when a line has been written, unless the write fails. *)
Context (dumps : Value → string) (loads : string → option Value) (decode : string → string).
Context (int : Value → option Z) (repr : Value → string) (net : string → option (list string)).

(** ** [_Connection] *)

(** [split] at the first newline. *)
Fixpoint split_line (s : string) : option (string * string) :=
  match s with
  | EmptyString => None
  | String c s' =>
      if Ascii.eqb c newline then Some (EmptyString, s')
      else '(l, r) ← split_line s'; Some (String c l, r)
  end.

(** The loop of [_recv], on what is buffered and what arrives. *)
Fixpoint recv_line (b : string) (pieces : list string) : (exn + string) * Connection :=
  match split_line b with
  | Some (line, rest) => (inr line, mkConnection rest pieces)
  | None =>
      match pieces with
      | [] => (inl OSError, mkConnection b [])
      | EmptyString :: more => (inl OSError, mkConnection b more)
      | piece :: more => recv_line (b +:+ decode piece) more
      end
  end.

Definition _recv : Py Value := λ c,
  match recv_line (buf c) (incoming c) with
  | (inr line, c') => (match loads line with Some v => inr v | None => inl JSONDecodeError end, c')
  | (inl e, c') => (inl e, c')
  end.

Definition _send (payload : Value) : Py unit := λ c,
  match net (dumps payload +:+ String newline EmptyString) with
  | Some pieces => (inr tt, mkConnection (buf c) (incoming c ++ pieces))
  | None => (inl OSError, c)
  end.

Definition request (payload : Value) : Py Value := _ ← _send payload; _recv.

(** ** [Client] *)

(** [k in resp] and [resp.get(k)]; on an answer that is no object, one of these raises in every call. *)
Definition has (k : string) (resp : Value) : Py (option Value) :=
  match resp with VObject m => mret (assoc_lookup k m) | _ => raise OtherError end.

Definition field_is (k s : string) (resp : Value) : Py bool :=
  v ← has k resp; mret (bool_decide (v = Some (VString s))).

(** [sub in msg], for a string, a list and a dictionary. *)
Definition within (sub : string) (msg : Value) : Py bool :=
  match msg with
  | VString s => mret (match String.index 0 sub s with Some _ => true | None => false end)
  | VArray l => mret (existsb (λ v, match v with VString s => String.eqb s sub | _ => false end) l)
  | VObject m => mret (existsb (λ p, String.eqb p.1 sub) m)
  | _ => raise OtherError
  end.

Definition text (v : Value) : string := match v with VString s => s | _ => repr v end.

Definition _request (payload : Value) : Py Value :=
  resp ← request payload;
  e ← has "error" resp;
  match e with
  | Some msg =>
      leaderless ← within "Not a leader" msg;
      if (leaderless : bool) then raise (NotLeaderError (text msg)) else mret resp
  | None => mret resp
  end.

Definition _expect_ok (resp : Value) (want_index : bool) : Py unit :=
  e ← has "error" resp;
  match e with
  | Some msg => raise (OxideKVError (text msg))
  | None =>
      ok ← field_is "status" "ok" resp;
      if negb ok then raise (OxideKVError ("unexpected response: " +:+ repr resp)) else
      i ← has "index" resp;
      match i with
      | None => if want_index then raise (OxideKVError ("response missing index: " +:+ repr resp)) else mret tt
      | Some _ => mret tt
      end
  end.

(** [int(resp[k])] *)
Definition int_field (k : string) (resp : Value) : Py Z :=
  v ← has k resp;
  match v ≫= int with Some i => mret i | None => raise OtherError end.

(** The dictionaries of the requests, in the order they are written. *)
Definition tagged (tag : string) (fs : list (string * Value)) : Value := VObject [(tag, VObject fs)].
Definition set_request (key value : string) : Value :=
  tagged "Set" [("key"%string, VString key); ("value"%string, VString value)].
Definition get_request (key : string) : Value := tagged "Get" [("key"%string, VString key)].
Definition delete_request (key : string) : Value := tagged "Delete" [("key"%string, VString key)].
Definition begin_request (tx_id : string) (ops : list Value) : Value :=
  tagged "BeginTx" [("tx_id"%string, VString tx_id); ("ops"%string, VArray ops)].
Definition decide_request (tx_id : string) (commit : bool) : Value :=
  tagged "DecideTx" [("tx_id"%string, VString tx_id);
    ("decision"%string, if commit then VObject [("Commit"%string, VNull)] else VObject [("Abort"%string, VNull)])].

Definition set (key value : string) : Py Z :=
  resp ← _request (set_request key value); _ ← _expect_ok resp true; int_field "index" resp.

Definition delete (key : string) : Py Z :=
  resp ← _request (delete_request key); _ ← _expect_ok resp true; int_field "index" resp.

(** The tail of [get]: the value, whatever its type. *)
Definition check_get (resp : Value) : Py (option Value) :=
  e ← has "error" resp;
  match e with
  | Some msg => raise (NotLeaderError (text msg))
  | None =>
      ok ← field_is "status" "ok" resp;
      if (ok : bool) then has "data" resp else
      gone ← field_is "status" "not_found" resp;
      if (gone : bool) then mret None else raise (OxideKVError ("unexpected Get response: " +:+ repr resp))
  end.

Definition get (key : string) : Py (option Value) := resp ← _request (get_request key); check_get resp.

(** ** [Transaction] *)

Record Transaction := mkTransaction { tx_id : string; ops : list Value }.

Definition begin_tx (tx_id : string) : Transaction := mkTransaction tx_id [].
Definition tx_set (key value : string) (t : Transaction) : Transaction :=
  mkTransaction (tx_id t)
    (ops t ++ [tagged "Put" [("key"%string, VString key); ("value"%string, VString value)]]).
Definition tx_delete (key : string) (t : Transaction) : Transaction :=
  mkTransaction (tx_id t) (ops t ++ [tagged "Delete" [("key"%string, VString key)]]).

Record TxResult := mkTxResult { decision : Value; begin_index : Z; decide_index : Z; result_tx : string }.

Definition _commit_tx (tx : string) (ops : list Value) : Py TxResult :=
  resp ← _request (begin_request tx ops);
  e ← has "error" resp;
  failed ← field_is "status" "error" resp;
  match e, failed with
  | Some msg, false => raise (NotLeaderError (text msg))
  | _, _ =>
      ok ← field_is "status" "ok" resp;
      if (ok : bool) then
        d ← has "decision" resp;
        match d with
        | None => raise OtherError
        | Some d => b ← int_field "begin_index" resp; i ← int_field "decide_index" resp; mret (mkTxResult d b i tx)
        end
      else
        aborted ← field_is "status" "aborted" resp;
        if (aborted : bool) then
          r ← has "reason" resp; raise (TxAbortedError tx (from_option text EmptyString r))
        else raise (OxideKVError ("unexpected BeginTx response: " +:+ repr resp))
  end.

Definition commit (t : Transaction) : Py TxResult := _commit_tx (tx_id t) (ops t).

Definition _send_decide (tx : string) (commit : bool) : Py unit :=
  resp ← _request (decide_request tx commit); _expect_ok resp false.

Definition abort (t : Transaction) : Py unit := _send_decide (tx_id t) false.
End client.

(** ** [Client.discover] *)

(** An endpoint: [None] when it cannot be connected to, else what it sends. The probe key is random. *)
Definition Endpoint : Type := option (string → option (list string)).

Section discover.
Context (dumps : Value → string) (loads : string → option Value) (decode : string → string) (repr : Value → string).

Definition probe (net : string → option (list string)) (key : string) : (exn + option Value) * Connection :=
  get dumps loads decode repr net key (mkConnection EmptyString []).

Definition next (r : exn + (nat * Connection)) : exn + (nat * Connection) :=
  match r with inr (i, c) => inr (S i, c) | inl e => inl e end.

(** The position of the endpoint whose connection is returned. *)
Fixpoint discover (key : string) (eps : list Endpoint) : exn + (nat * Connection) :=
  match eps with
  | [] => inl (OxideKVError "no leader found")
  | None :: eps' => next (discover key eps')
  | Some net :: eps' =>
      match probe net key with
      | (inr _, c) => inr (0%nat, c)
      | (inl e, _) => if is_oxide e then next (discover key eps') else inl e
      end
  end.
End discover.
End py.

(** ** Lines and pieces *)

Lemma split_line_spec s : match py.split_line s with
  | Some (l, r) => s = l +:+ String newline r ∧ no_newline l = true
  | None => no_newline s = true
  end.
Proof.
  induction s as [|c s IH]; [done|]. simpl. destruct (Ascii.eqb_spec c newline) as [->|Hc]; simpl; [done|].
  destruct (py.split_line s) as [[l r]|]; simpl; [|done]. destruct IH as [-> Hl]. split; [done|].
  rewrite Hl, andb_true_r. by apply negb_true_iff, Ascii.eqb_neq.
Qed.

Lemma split_line_app l r : no_newline l = true → py.split_line (l +:+ String newline r) = Some (l, r).
Proof.
  induction l as [|c l IH]; simpl; intros Hl; [done|]. apply andb_true_iff in Hl as [Hc Hl].
  apply negb_true_iff in Hc. rewrite Hc, IH by done. done.
Qed.

Definition texts (decode : string → string) (pieces : list string) : string :=
  foldr (λ p s, decode p +:+ s) EmptyString pieces.

(** A line is read whole however it is cut into pieces, and nothing after it is lost. *)
Lemma recv_line_pieces decode b pieces line rest : Forall (λ p, p ≠ EmptyString) pieces → no_newline line = true →
  b +:+ texts decode pieces = line +:+ String newline rest →
  ∃ r more, py.recv_line decode b pieces = (inr line, py.mkConnection r more) ∧ r +:+ texts decode more = rest.
Proof.
  revert b. induction pieces as [|p pieces IH]; intros b Hp Hl E; cbn [py.recv_line texts foldr] in *.
  - rewrite str_app_empty_r in E. subst b. rewrite split_line_app by done. exists rest, []. split; [done|].
    cbn. apply str_app_empty_r.
  - apply Forall_cons in Hp as [Hne Hp]. pose proof (split_line_spec b) as Hs. destruct (py.split_line b) as [[l r]|] eqn:Eb.
    + destruct Hs as [-> Hn]. rewrite str_app_assoc in E. fold (texts decode pieces) in E.
      change (l +:+ String newline (r +:+ (decode p +:+ texts decode pieces)) = line +:+ String newline rest) in E.
      pose proof (f_equal py.split_line E) as E'. rewrite !split_line_app in E' by done.
      apply Some_inj, pair_equal_spec in E' as [-> <-]. by exists r, (p :: pieces).
    + destruct p as [|x p]; [done|]. rewrite <- str_app_assoc in E. by apply IH.
Qed.

(** ** Requests *)

Definition py_request (w : write) : Value :=
  match w with
  | WSet k v => py.set_request k v
  | WDelete k => py.delete_request k
  | WDecide tx b => py.decide_request tx b
  end.

Lemma py_request_decodes w : command_of_value (py_request w) = Some (write_command w).
Proof. by destruct w as [| |tx []]. Qed.

(** The operations a transaction holds, as the server reads them. *)
Inductive py_staged : py.Transaction → list TxOp → Prop :=
  | py_staged_new tx : py_staged (py.begin_tx tx) []
  | py_staged_set k v t os : py_staged t os → py_staged (py.tx_set k v t) (os ++ [TxPut k v])
  | py_staged_delete k t os : py_staged t os → py_staged (py.tx_delete k t) (os ++ [TxDelete k]).

Lemma mapM_snoc {A B} (f : A → option B) l x ys y : mapM f l = Some ys → f x = Some y → mapM f (l ++ [x]) = Some (ys ++ [y]).
Proof.
  intros Hl Hx. apply mapM_Some. apply mapM_Some in Hl. apply Forall2_app; [done|]. by repeat constructor.
Qed.

Lemma py_staged_ops t os : py_staged t os → mapM op_of_value (py.ops t) = Some os.
Proof. induction 1; [done|by apply mapM_snoc|by apply mapM_snoc]. Qed.

Lemma py_transactions_decode t os : py_staged t os →
  command_of_value (py.begin_request (py.tx_id t) (py.ops t)) = Some (CBeginTx (py.tx_id t) os).
Proof.
  intros Hs%py_staged_ops. change (command_of_value (py.begin_request (py.tx_id t) (py.ops t))) with
    (b ← mapM op_of_value (py.ops t); Some (CBeginTx (py.tx_id t) b)). by rewrite Hs.
Qed.

(** ** Calls *)

Section calls.
Context {JW : Json WalOp} {JE : Json (list SSTEntry)} {JM : Json SSTableMeta}.
Context {BL : Bincode LogEntry} {LB : BincodeLaws LogEntry} {JV : Json Value} {LV : JsonLaws Value}.
Context {JS : Json Snapshot} {LS : JsonLaws Snapshot}.
Context (io_display : io_error → string).
Context (dumps : Value → string) (loads : string → option Value) (decode : string → string).
Context (int : Value → option Z) (repr : Value → string) (net : string → option (list string)).

(** [int] of a JSON number. *)
Context (int_number : ∀ i, int (VNumber i) = Some i).

(** The server's answer to a payload: a line that Python reads as [reply], in some pieces. *)
Definition answers (payload reply : Value) : Prop :=
  ∃ pieces line, net (dumps payload +:+ String newline EmptyString) = Some pieces ∧
    Forall (λ p, p ≠ EmptyString) pieces ∧ texts decode pieces = line +:+ String newline EmptyString ∧
    no_newline line = true ∧ loads line = Some reply.

#[local] Abbreviation idle := (py.mkConnection EmptyString []).

Lemma request_answered payload reply : answers payload reply →
  ∃ c, py.request dumps loads decode net payload idle = (inr reply, c).
Proof.
  intros (pieces & line & Hn & Hp & Ht & Hl & Hv). unfold py.request, mbind, py.Py_bind, py._send. rewrite Hn. simpl.
  unfold py._recv. simpl. destruct (recv_line_pieces decode EmptyString pieces line EmptyString Hp Hl Ht) as (r & more & E & _).
  rewrite E, Hv. eauto.
Qed.

(** What the client makes of an answer. *)
Definition checked (resp : Value) : py.Py Value :=
  e ← py.has "error" resp;
  match e with
  | Some msg =>
      leaderless ← py.within "Not a leader" msg;
      if (leaderless : bool) then py.raise (py.NotLeaderError (py.text repr msg)) else mret resp
  | None => mret resp
  end.

Definition read_index (resp : Value) : py.Py (option Z) :=
  _ ← py._expect_ok repr resp true; i ← py.int_field int "index" resp; mret (Some i).

Definition read_write (w : write) (resp : Value) : py.Py (option Z) :=
  match w with WDecide _ _ => _ ← py._expect_ok repr resp false; mret None | _ => read_index resp end.

Definition write_call (w : write) : py.Py (option Z) :=
  match w with
  | WSet k v => i ← py.set dumps loads decode int repr net k v; mret (Some i)
  | WDelete k => i ← py.delete dumps loads decode int repr net k; mret (Some i)
  | WDecide tx b => _ ← py._send_decide dumps loads decode repr net tx b; mret None
  end.

Lemma bind_assoc {A B C} (m : py.Py A) (f : A → py.Py B) (g : B → py.Py C) c : ((m ≫= f) ≫= g) c = (m ≫= λ x, f x ≫= g) c.
Proof. unfold mbind, py.Py_bind. by destruct (m c) as [[]]. Qed.

Lemma write_call_answered w reply : answers (py_request w) reply →
  ∃ c, write_call w idle = (checked reply ≫= read_write w) c.
Proof.
  intros H. destruct (request_answered _ _ H) as [c E]. exists c.
  assert (E' : py._request dumps loads decode repr net (py_request w) idle = checked reply c).
  { unfold py._request, mbind, py.Py_bind in *. by rewrite E. }
  destruct w; cbn [write_call py_request read_write] in *; unfold py.set, py.delete, py._send_decide;
    rewrite bind_assoc; unfold mbind, py.Py_bind in *; rewrite E'; unfold read_write, read_index, mbind, py.Py_bind;
    destruct (checked reply c) as [[e|v] c']; try done;
    destruct (py._expect_ok repr v _ c') as [[?|[]] c2]; try done.
  all: by destruct (py.int_field int "index" v c2) as [[?|i] c3].
Qed.

Lemma get_answered key reply : answers (py.get_request key) reply →
  ∃ c, py.get dumps loads decode repr net key idle = (checked reply ≫= py.check_get repr) c.
Proof.
  intros H. destruct (request_answered _ _ H) as [c E]. exists c. unfold py.get, py._request, checked.
  unfold mbind, py.Py_bind in *. by rewrite E.
Qed.

(** The answers of the server. *)
Lemma read_ok_index w i c : ((checked (ok_index i) ≫= read_write w) c).1 =
  inr (match w with WDecide _ _ => None | _ => Some i end).
Proof.
  destruct w; vm_compute; rewrite ?int_number; done.
Qed.

Lemma read_not_leader w c : ((checked not_leader ≫= read_write w) c).1 = inl (py.NotLeaderError not_leader_text).
Proof. done. Qed.

Lemma read_refused w c : ∃ msg,
  ((checked (json_object [("status"%string, VString "error")]) ≫= read_write w) c).1 = inl (py.OxideKVError msg).
Proof. destruct w; eexists; by cbn. Qed.

Lemma read_value v c : ((checked (value_reply v) ≫= py.check_get repr) c).1 = inr (VString <$> v).
Proof. by destruct v. Qed.

Lemma read_no_leader c : ((checked not_leader ≫= py.check_get repr) c).1 = inl (py.NotLeaderError not_leader_text).
Proof. done. Qed.

Lemma read_timeout c : ∃ msg, ((checked (error_reply "read confirmation timeout (leader may have lost quorum)")
  ≫= py.check_get repr) c).1 = inl (py.OxideKVError msg).
Proof. eexists. by cbn. Qed.

End calls.

(** ** Discovery *)

Section discovery.
Context (dumps : Value → string) (loads : string → option Value) (decode : string → string) (repr : Value → string).

#[local] Abbreviation probed := (py.probe dumps loads decode repr).
#[local] Abbreviation search := (py.discover dumps loads decode repr).

(** An endpoint that is passed over. *)
Definition passed_over (key : string) (e : py.Endpoint) : Prop :=
  match e with
  | None => True
  | Some net => ∃ err, (probed net key).1 = inl err ∧ py.is_oxide err = true
  end.

(** The endpoint returned is the first that answers the probe; none is found only when every one refuses, and any other
    exception is the one of the endpoint reached. *)
Lemma discover_first key eps : match search key eps with
  | inr (i, c) => ∃ net v, eps !! i = Some (Some net) ∧ probed net key = (inr v, c) ∧ Forall (passed_over key) (take i eps)
  | inl err => if py.is_oxide err then Forall (passed_over key) eps else
      ∃ i net, eps !! i = Some (Some net) ∧ (probed net key).1 = inl err ∧ Forall (passed_over key) (take i eps)
  end.
Proof.
  induction eps as [|e eps IH]; [constructor|].
  assert (Hn : passed_over key e → match py.next (search key eps) with
    | inr (i, c) => ∃ net v, (e :: eps) !! i = Some (Some net) ∧ probed net key = (inr v, c) ∧
        Forall (passed_over key) (take i (e :: eps))
    | inl err => if py.is_oxide err then Forall (passed_over key) (e :: eps) else
        ∃ i net, (e :: eps) !! i = Some (Some net) ∧ (probed net key).1 = inl err ∧
          Forall (passed_over key) (take i (e :: eps))
    end).
  { intros He. destruct (search key eps) as [err|[i c]]; simpl.
    - destruct (py.is_oxide err); [by constructor|]. destruct IH as (i & net & H1 & H2 & H3).
      exists (S i), net. simpl. split_and!; [done..|by constructor].
    - destruct IH as (net & v & H1 & H2 & H3). exists net, v. split_and!; [done..|by constructor]. }
  destruct e as [net|]; simpl; [|by apply Hn]. destruct (probed net key) as [[err|v] c] eqn:E.
  - destruct (py.is_oxide err) eqn:Ee; [apply Hn; exists err; by rewrite E|]. rewrite Ee. exists 0%nat, net.
    rewrite E. split_and!; [done..|constructor].
  - exists net, v. split_and!; [done..|constructor].
Qed.
End discovery.

(** ** A concrete client *)

Import Codec.

Definition dumps_value (v : Value) : string := default EmptyString (to_string v).

(** The answer, in two pieces. *)
Definition in_pieces (k : nat) (reply : Value) : list string :=
  let line := dumps_value reply in
  [String.substring 0 k line; String.substring k (String.length line - k) line +:+ String newline EmptyString].

Definition as_int (v : Value) : option Z := match v with VNumber i => Some i | _ => None end.

Definition sends (pieces : list string) : string → option (list string) := λ _, Some pieces.


(** After a time-out the answer to the first request is taken for the answer to the second. *)
Lemma late_answer_is_misread :
  let first := py.set dumps_value from_str id as_int dumps_value (sends []) "x" "1" in
  let second := py.delete dumps_value from_str id as_int dumps_value
    (sends (in_pieces 4 (ok_index 1) ++ in_pieces 4 (ok_index 2))) "x" in
  let '(r, c) := first (py.mkConnection EmptyString []) in r = inl py.OSError ∧ (second c).1 = inr 1.
Proof. vm_compute. by split. Qed.

(** An endpoint that accepts the connection and closes it ends the search, though the next one would answer. *)
Lemma discovery_stops_at_a_dead_endpoint :
  let good := Some (sends (in_pieces 4 (value_reply None))) in
  let dead := Some (sends [EmptyString]) in
  py.discover dumps_value from_str id dumps_value "k" [dead; good] = inl py.OSError ∧
  (∃ c, py.discover dumps_value from_str id dumps_value "k" [None; good] = inr (1%nat, c)).
Proof. split; [vm_compute; reflexivity|]. eexists. vm_compute. reflexivity. Qed.
