(* ===== verification/Cli.v ===== *)
(** * The command-line client ([src/rust/oxide-kv/examples/oxide_kv_cli.rs])

    The flag parser, the subcommands over the client library, what is printed and the exit status. *)

From stdpp Require Import prelude gmap strings pretty sorting countable list.
From S2P Require Import Prelude Serde Protocol StateMachine Storage Rpc Node NodeEvents Task Coordinator Client Sdk.
From S2P Require Import Timer Config Instances Samples.
#[local] Open Scope Z_scope.

(** ** Arguments *)

Record Flags := mkFlags { fl_host : string; fl_port : Z; fl_positional : list string }.

Definition no_flags : Flags := mkFlags "127.0.0.1" 9101 [].

(** How the program ends: [Exited status], [Failed] when [main] returns an error, [Crashed] on a panic. *)
Inductive ending :=
  | Exited (status : Z)
  | Failed (why : string)
  | Crashed.

(** [str::parse::<u16>] *)
Definition parse_u16 (s : string) : option Z :=
  n ← parse_u64 s; if n <? 2 ^ 16 then Some n else None.

(** The loop over the arguments after the program's name; [args[i + 1]] past the end panics. *)
Fixpoint parse_flags (args : list string) (f : Flags) : ending + Flags :=
  match args with
  | [] => inr f
  | "--host"%string :: rest =>
      match rest with
      | [] => inl Crashed
      | v :: rest' => parse_flags rest' (mkFlags v (fl_port f) (fl_positional f))
      end
  | "--port"%string :: rest =>
      match rest with
      | [] => inl Crashed
      | v :: rest' =>
          match parse_u16 v with
          | None => inl (Failed "invalid port")
          | Some p => parse_flags rest' (mkFlags (fl_host f) p (fl_positional f))
          end
      end
  | other :: rest => parse_flags rest (mkFlags (fl_host f) (fl_port f) (fl_positional f ++ [other]))
  end.

(** ** The program *)

Section cli.
Context {JV : Json Value}.

(** [Client::connect]: a peer, or an error. *)
Context (connect : string → Z → sdk.Error + sdk.Peer).

(** What the program sent to standard output, and how it ended. *)
Definition outcome : Type := list string * ending.

(** [?] on an error of the client. *)
Definition printing {A} (r : sdk.Error + A) (k : A → outcome) : outcome :=
  match r with inl _ => ([], Failed "client error") | inr a => k a end.

Definition positional (i : nat) (why : string) (f : Flags) (k : string → outcome) : outcome :=
  match fl_positional f !! i with None => ([], Failed why) | Some s => k s end.

Definition run_command (peer : sdk.Peer) (f : Flags) : outcome :=
  let cmd := default EmptyString (fl_positional f !! 0%nat) in
  if (cmd =? "set")%string then
    positional 1 "set requires <key> <value>" f (λ key,
      positional 2 "set requires <key> <value>" f (λ value,
        printing (sdk.set peer key value) (λ idx, ([pretty idx], Exited 0))))
  else if (cmd =? "get")%string then
    positional 1 "get requires <key>" f (λ key,
      printing (sdk.get peer key) (λ r,
        match r with Some v => ([v], Exited 0) | None => (["(nil)"%string], Exited 1) end))
  else if (cmd =? "delete")%string then
    positional 1 "delete requires <key>" f (λ key,
      printing (sdk.delete peer key) (λ idx, ([pretty idx], Exited 0)))
  else ([], Exited 2).

(** [main]: [args] starts with the program's name. *)
Definition cli_main (args : list string) : outcome :=
  if (length args <? 2)%nat then ([], Exited 2)
  else
    match parse_flags (drop 1 args) no_flags with
    | inl e => ([], e)
    | inr f => printing (connect (fl_host f) (fl_port f)) (λ peer, run_command peer f)
    end.

(** ** Facts *)

(** The flags may stand anywhere among the words: parsing two lists in turn is parsing them together. *)
Definition flag_free (ws : list string) : Prop := Forall (λ w, w ≠ "--host"%string ∧ w ≠ "--port"%string) ws.

Lemma parse_word w rest f : w ≠ "--host"%string → w ≠ "--port"%string →
  parse_flags (w :: rest) f = parse_flags rest (mkFlags (fl_host f) (fl_port f) (fl_positional f ++ [w])).
Proof. intros H1 H2. cbn [parse_flags]. repeat (case_match; try reflexivity; subst); congruence. Qed.

Lemma parse_words ws rest f : flag_free ws →
  parse_flags (ws ++ rest) f = parse_flags rest (mkFlags (fl_host f) (fl_port f) (fl_positional f ++ ws)).
Proof.
  revert f. induction ws as [|w ws IH]; intros f Hw; [by rewrite app_nil_r; destruct f|].
  apply Forall_cons in Hw as [[H1 H2] Hw]. cbn [app]. rewrite parse_word by done. rewrite IH by done.
  cbn [fl_host fl_port fl_positional]. by rewrite <-app_assoc.
Qed.

Lemma parse_u16_pretty (p : N) : Z.of_N p < 2 ^ 16 → parse_u16 (pretty p) = Some (Z.of_N p).
Proof.
  intros Hp. unfold parse_u16. rewrite parse_u64_pretty by (unfold U64_BOUND; lia).
  cbn [mbind option_bind]. by rewrite (proj2 (Z.ltb_lt _ _) Hp).
Qed.

(** The flags are read wherever they stand among the words, and the words keep their order. *)
Theorem flags_stand_anywhere ws1 ws2 ws3 host (p : N) :
  flag_free ws1 → flag_free ws2 → flag_free ws3 → Z.of_N p < 2 ^ 16 →
  parse_flags (ws1 ++ "--host"%string :: host :: ws2 ++ "--port"%string :: pretty p :: ws3) no_flags =
    inr (mkFlags host (Z.of_N p) (ws1 ++ ws2 ++ ws3)).
Proof.
  intros H1 H2 H3 Hp. rewrite parse_words by done. cbn [parse_flags].
  rewrite parse_words by done. cbn [parse_flags]. rewrite parse_u16_pretty by done.
  rewrite <-(app_nil_r ws3) at 1. rewrite parse_words by done. cbn. by rewrite <-app_assoc.
Qed.

(** Status 0 is reported exactly if a subcommand was given with its words and the library's
    call succeeded, for [get] with a value; the output is then the index or the value. *)
Theorem status_zero_is_success peer f out :
  run_command peer f = (out, Exited 0) ↔
  (∃ key value idx ws, fl_positional f = "set"%string :: key :: value :: ws ∧
     sdk.set peer key value = inr idx ∧ out = [pretty idx]) ∨
  (∃ key v ws, fl_positional f = "get"%string :: key :: ws ∧ sdk.get peer key = inr (Some v) ∧ out = [v]) ∨
  (∃ key idx ws, fl_positional f = "delete"%string :: key :: ws ∧ sdk.delete peer key = inr idx ∧ out = [pretty idx]).
Proof.
  split.
  - unfold run_command, positional, printing. destruct (fl_positional f) as [|cmd ws]; simpl; [done|].
    destruct (String.eqb_spec cmd "set") as [->|_]; [|destruct (String.eqb_spec cmd "get") as [->|_];
      [|destruct (String.eqb_spec cmd "delete") as [->|_]; [|done]]]; intros H; repeat (case_match; try done);
      simplify_eq.
    + destruct ws as [|? [|? ?]]; simplify_eq/=. left. naive_solver.
    + destruct ws as [|? ?]; simplify_eq/=. right; left. naive_solver.
    + destruct ws as [|? ?]; simplify_eq/=. right; right. naive_solver.
  - unfold run_command, positional, printing.
    intros [(key & value & idx & ws & -> & E & ->)|[(key & v & ws & -> & E & ->)|(key & idx & ws & -> & E & ->)]];
      simpl; by rewrite E.
Qed.

(** A flag without its value is a panic, not a usage message. *)
Lemma bare_flag_crashes prog ws : flag_free ws → cli_main (prog :: ws ++ ["--host"%string]) = ([], Crashed).
Proof.
  intros Hw. unfold cli_main. cbn [length drop skipn]. rewrite length_app. cbn [length].
  destruct (Nat.ltb_spec (S (length ws + 1)) 2); [lia|].
  change (drop 0 (ws ++ ["--host"%string])) with (ws ++ ["--host"%string]). by rewrite parse_words.
Qed.
End cli.

(** ** Executions *)

Import Codec.

Definition answering (reply : Value) : sdk.Peer := λ _, inr (default EmptyString (to_string reply)).

(** A server that has no value: nothing but the marker is printed, and the status is 1. *)
Lemma get_of_absent_key :
  cli_main (λ _ _, inr (answering (json_object [("status"%string, VString "not_found")])))
    ["cli"; "get"; "--port"; "9102"; "k"] = (["(nil)"%string], Exited 1).
Proof. vm_compute. reflexivity. Qed.
