(* ===== verification/TestKit.v ===== *)
(** * Running the program's tests

    The repository tests its modules with small scenarios: set up a value, call its operations, assert what is seen. The
    files [.._tests] translate them one by one into computations of the model, and check that all pass: the
    model does on them what the code does. A test is a computation in which a failed assertion panics. Files
    are compared by what they decode to, not by their text. *)

From stdpp Require Import prelude gmap strings pretty sorting countable list.
From S2P Require Import Prelude Serde Protocol StateMachine Storage Instances Rpc Node.
#[local] Open Scope Z_scope.

Import Codec.

(** [assert!], [assert_eq!], [unwrap] and [panic!]. *)
Definition assert {S} (b : bool) : M S unit := if b then mret tt else throw Panicked.
Definition assert_eq {S A} `{EqDecision A} (x y : A) : M S unit := assert (bool_decide (x = y)).
Definition unwrap {S A} (o : option A) : M S A := of_option Panicked o.
Definition unwrap_left {S A B} (r : A + B) : M S A := match r with inl a => mret a | inr _ => throw Panicked end.

(** [text.contains(sub)] *)
Definition contains_text (sub text : string) : bool := match String.index 0 sub text with Some _ => true | None => false end.

(** The test body ran to its end. *)
Definition passes {S} (s : S) (body : M S unit) : bool := is_ok (body s).1.

(** What a test observes. *)
Definition lookup_log {S} (l : list LogEntry) (i : nat) : M S LogEntry := unwrap (l !! i).

Definition is_begin (c : Command) : bool := match c with CBeginTx _ _ => true | _ => false end.
Definition is_decide (c : Command) : bool := match c with CDecideTx _ _ => true | _ => false end.

#[export] Instance MembershipError_eq_dec : EqDecision MembershipError.
Proof. solve_decision. Defined.
#[export] Instance AbortTxError_eq_dec : EqDecision AbortTxError.
Proof. solve_decision. Defined.

(** A machine opened on an empty directory. *)
Definition open_sm (threshold : Z) (h : Host) : option StateMachine :=
  match sm_open (mkSMConfig threshold) h with (Ok sm, _) => Some sm | (Err _, _) => None end.

Definition empty_host : Host := fresh_host [].
Definition empty_disk : Disk := mkDisk ∅ [].
