(* ===== verification/NodeTests.v ===== *)
(** * The tests of the node ([raft/node.rs], module [tests]) *)

From stdpp Require Import prelude gmap strings pretty sorting countable list.
From S2P Require Import Prelude Serde Protocol StateMachine Storage Instances Rpc Node Samples Timer TestKit.
#[local] Open Scope Z_scope.

Import Codec.

Module node_tests.

(** ** Helpers *)

Definition make_node (node_id : string) (peers : list string) : RaftNode :=
  raft_node_new node_id peers (default (fresh_sm (1024 * 1024) []) (open_sm (1024 * 1024) empty_host)) empty_disk 0.

Definition vote_args (term : Z) (candidate : string) (last_idx last_term : Z) : RequestVoteArgs :=
  mkRequestVote term candidate last_idx last_term.

Definition append_args_of (term : Z) (leader : string) (prev_idx prev_term : Z) (entries : list LogEntry)
    (leader_commit : Z) : AppendEntriesArgs :=
  mkAppendEntries term leader prev_idx prev_term entries leader_commit.

Definition make_entry (term index : Z) (key value : string) : LogEntry := mkLogEntry term index (CSet key value).

Definition assert_node_state (key : string) (expected : option string) : M RaftNode unit :=
  v ← on_sm (get key); assert_eq v expected.

(** ** [handle_request_vote] *)

Definition vote_rejects_when_candidate_term_is_older : bool :=
  passes (make_node "n1" ["n2"]) (
    modify (with_current_term 5) ;;
    reply ← handle_request_vote (vote_args 4 "n2" 0 0);
    assert (negb (vr_granted reply)) ;;
    assert_eq (vr_term reply) 5 ;;
    n ← gets id;
    assert_eq (current_term n) 5 ;;
    assert_eq (vote_for n) None).

Definition vote_steps_down_and_grants_on_newer_term_when_log_is_up_to_date : bool :=
  passes (make_node "n1" ["n2"]) (
    modify (with_state Candidate) ;;
    modify (with_current_term 1) ;;
    modify (with_vote_for (Some "n1"%string)) ;;
    modify (with_log [make_entry 1 1 "k" "v"]) ;;
    reply ← handle_request_vote (vote_args 2 "n2" 1 1);
    assert (vr_granted reply) ;;
    assert_eq (vr_term reply) 2 ;;
    n ← gets id;
    assert_eq (state n) Follower ;;
    assert_eq (current_term n) 2 ;;
    assert_eq (vote_for n) (Some "n2"%string)).

Definition vote_denies_when_already_voted_for_someone_else_in_same_term : bool :=
  passes (make_node "n1" ["n2"; "n3"]) (
    modify (with_current_term 3) ;;
    modify (with_vote_for (Some "n2"%string)) ;;
    reply ← handle_request_vote (vote_args 3 "n3" 0 0);
    assert (negb (vr_granted reply)) ;;
    n ← gets id;
    assert_eq (vote_for n) (Some "n2"%string)).

Definition vote_grants_when_voted_for_same_candidate_in_same_term : bool :=
  passes (make_node "n1" ["n2"]) (
    modify (with_current_term 2) ;;
    modify (with_vote_for (Some "n2"%string)) ;;
    reply ← handle_request_vote (vote_args 2 "n2" 0 0);
    assert (vr_granted reply)).

Definition vote_denies_when_candidate_log_is_behind_election_restriction : bool :=
  passes (make_node "n1" ["n2"]) (
    modify (with_current_term 5) ;;
    modify (with_log [make_entry 2 1 "a" "1"; make_entry 3 2 "b" "2"]) ;;
    reply ← handle_request_vote (vote_args 5 "n2" 1 2);
    assert (negb (vr_granted reply)) ;;
    n ← gets id;
    assert_eq (vote_for n) None).

Definition vote_grants_when_candidate_log_is_strictly_ahead : bool :=
  passes (make_node "n1" ["n2"]) (
    modify (with_current_term 3) ;;
    modify (with_log [make_entry 2 1 "a" "1"]) ;;
    reply ← handle_request_vote (vote_args 3 "n2" 2 3);
    assert (vr_granted reply)).

Definition vote_persists_term_bump_to_disk : bool :=
  passes (make_node "n1" ["n2"]) (
    modify (with_current_term 1) ;;
    modify (with_log [make_entry 1 1 "k" "v"]) ;;
    _ ← handle_request_vote (vote_args 2 "n2" 1 1);
    raw ← gets (λ n, d_files (storage n) !! (FMeta, false));
    raw ← unwrap raw;
    assert_eq (from_str raw) (Some (meta_value 2 (Some "n2"%string)))).

(** ** [handle_append_entries] *)

Definition append_rejects_stale_term : bool :=
  passes (make_node "n1" ["n2"]) (
    modify (with_current_term 5) ;;
    reply ← handle_append_entries (append_args_of 4 "n2" 0 0 [] 0);
    assert (negb (ar_success reply)) ;;
    assert_eq (ar_term reply) 5).

Definition append_steps_down_on_newer_term : bool :=
  passes (make_node "n1" ["n2"]) (
    modify (with_state Candidate) ;;
    modify (with_current_term 1) ;;
    modify (with_vote_for (Some "n1"%string)) ;;
    reply ← handle_append_entries (append_args_of 2 "n2" 0 0 [] 0);
    assert (ar_success reply) ;;
    n ← gets id;
    assert_eq (state n) Follower ;;
    assert_eq (current_term n) 2).

Definition append_heartbeat_with_empty_entries_succeeds : bool :=
  passes (make_node "n1" ["n2"]) (
    modify (with_current_term 2) ;;
    modify (with_log [make_entry 2 1 "k" "v"]) ;;
    reply ← handle_append_entries (append_args_of 2 "n2" 1 2 [] 0);
    assert (ar_success reply) ;;
    len ← gets log_len;
    assert_eq len 1).

Definition append_rejects_when_prev_log_term_mismatches : bool :=
  passes (make_node "n1" ["n2"]) (
    modify (with_current_term 2) ;;
    modify (with_log [make_entry 1 1 "a" "1"; make_entry 1 2 "b" "2"]) ;;
    reply ← handle_append_entries (append_args_of 2 "n2" 2 2 [] 0);
    assert (negb (ar_success reply))).

Definition append_truncates_conflicting_entries_then_appends_new : bool :=
  passes (make_node "n1" ["n2"]) (
    modify (with_current_term 2) ;;
    modify (with_log [make_entry 1 1 "a" "1"; make_entry 1 2 "b" "2"]) ;;
    let new_entries := [mkLogEntry 2 2 (CSet "b" "v2"); mkLogEntry 2 3 (CSet "c" "v3")] in
    reply ← handle_append_entries (append_args_of 2 "n2" 1 1 new_entries 0);
    assert (ar_success reply) ;;
    n ← gets id;
    assert_eq (log_len n) 3 ;;
    e ← lookup_log (log n) 1;
    assert_eq (le_term e) 2 ;;
    e ← lookup_log (log n) 2;
    assert_eq (le_term e) 2).

Definition append_advances_commit_index_and_applies_logs : bool :=
  passes (make_node "n1" ["n2"]) (
    modify (with_current_term 2) ;;
    modify (with_log [make_entry 1 1 "a" "1"]) ;;
    let entries := [mkLogEntry 2 2 (CSet "b" "B"); mkLogEntry 2 3 (CSet "c" "C")] in
    _ ← handle_append_entries (append_args_of 2 "n2" 1 1 entries 2);
    n ← gets id;
    assert_eq (commit_index n) 2 ;;
    assert_eq (last_applied n) 2 ;;
    assert_node_state "b" (Some "B"%string)).

Definition append_does_not_advance_commit_beyond_local_log : bool :=
  passes (make_node "n1" ["n2"]) (
    modify (with_current_term 1) ;;
    modify (with_log [make_entry 1 1 "a" "1"]) ;;
    _ ← handle_append_entries (append_args_of 1 "n2" 0 0 [] 10);
    n ← gets id;
    assert_eq (commit_index n) 1).

(** ** [maybe_commit] *)

Definition replicated (m : list (string * Z)) : M RaftNode unit :=
  modify (λ n, with_match_index (list_to_map m ∪ match_index n) n).

Definition commit_advances_when_majority_replicates : bool :=
  passes (make_node "n1" ["n2"; "n3"]) (
    modify (with_state Leader) ;;
    modify (with_current_term 2) ;;
    modify (with_log [make_entry 2 1 "a" "1"; make_entry 2 2 "b" "2"]) ;;
    replicated [("n2"%string, 2); ("n3"%string, 1)] ;;
    maybe_commit ;;
    n ← gets id;
    assert_eq (commit_index n) 2 ;;
    assert_eq (last_applied n) 2).

Definition commit_does_not_advance_without_majority : bool :=
  passes (make_node "n1" ["n2"; "n3"]) (
    modify (with_state Leader) ;;
    modify (with_current_term 1) ;;
    modify (with_log [make_entry 1 1 "a" "1"; make_entry 1 2 "b" "2"]) ;;
    replicated [("n2"%string, 0); ("n3"%string, 0)] ;;
    maybe_commit ;;
    n ← gets id;
    assert_eq (commit_index n) 0).

Definition commit_safety_does_not_commit_previous_term_entries : bool :=
  passes (make_node "n1" ["n2"; "n3"]) (
    modify (with_state Leader) ;;
    modify (with_current_term 2) ;;
    modify (with_log [make_entry 1 1 "a" "1"; make_entry 1 2 "b" "2"; make_entry 2 3 "c" "3"]) ;;
    replicated [("n2"%string, 3); ("n3"%string, 3)] ;;
    maybe_commit ;;
    n ← gets id;
    assert_eq (commit_index n) 3 ;;
    assert_eq (last_applied n) 3).

Definition commit_noop_when_not_leader : bool :=
  passes (make_node "n1" ["n2"]) (
    modify (with_state Follower) ;;
    modify (with_current_term 1) ;;
    modify (with_log [make_entry 1 1 "a" "1"]) ;;
    replicated [("n2"%string, 1)] ;;
    maybe_commit ;;
    n ← gets id;
    assert_eq (commit_index n) 0).

(** ** [propose] *)

Definition propose_rejects_when_not_leader : bool :=
  passes (make_node "n1" ["n2"]) (
    modify (with_state Follower) ;;
    accepted ← propose (CSet "k" "v");
    assert (negb accepted) ;;
    n ← gets id;
    assert_eq (log n) []).

Definition propose_appends_entry_and_writes_wal : bool :=
  passes (make_node "n1" []) (
    modify (with_state Leader) ;;
    modify (with_current_term 1) ;;
    accepted ← propose (CSet "k" "v");
    assert accepted ;;
    n ← gets id;
    assert_eq (log_len n) 1 ;;
    e ← lookup_log (log n) 0;
    assert_eq (le_index e) 1 ;;
    assert_eq (le_term e) 1 ;;
    bytes ← unwrap (d_files (storage n) !! (FWal, false));
    assert (negb (String.eqb bytes EmptyString))).

Definition propose_increments_index_per_call : bool :=
  passes (make_node "n1" []) (
    modify (with_state Leader) ;;
    modify (with_current_term 1) ;;
    ok ← propose (CSet "a" "1"); assert ok ;;
    ok ← propose (CSet "b" "2"); assert ok ;;
    ok ← propose (CSet "c" "3"); assert ok ;;
    n ← gets id;
    assert_eq (log_len n) 3 ;;
    assert_eq (le_index <$> log n) [1; 2; 3]).

(** ** [apply_logs] and [replay_logs] *)

Definition apply_logs_skips_compact_noops : bool :=
  passes (make_node "n1" []) (
    modify (with_log [mkLogEntry 1 1 CCompact]) ;;
    modify (with_commit_index 1) ;;
    apply_logs ;;
    n ← gets id;
    assert_eq (last_applied n) 1 ;;
    assert_node_state "k" None).

(** The storage of the test, with three entries in its log. *)
Definition three_entries : Disk :=
  snd ((append_wal_log (make_entry 1 1 "a" "1") ;; append_wal_log (make_entry 1 2 "b" "2") ;;
   append_wal_log (make_entry 1 3 "c" "3")) empty_disk).

Definition replay_logs_restores_state_machine_from_scratch : bool :=
  passes (raft_node_new "replay_node" [] (state_machine (make_node "replay_node" [])) three_entries 0) (
    replay_logs ;;
    n ← gets id;
    assert_eq (last_applied n) 3 ;;
    assert_node_state "a" (Some "1"%string) ;;
    assert_node_state "b" (Some "2"%string) ;;
    assert_node_state "c" (Some "3"%string)).

Definition apply_logs_handles_delete_command : bool :=
  passes (make_node "n1" []) (
    modify (with_log [make_entry 1 1 "k" "v"; mkLogEntry 1 2 (CDelete "k")]) ;;
    modify (with_commit_index 2) ;;
    apply_logs ;;
    n ← gets id;
    assert_eq (last_applied n) 2 ;;
    assert_node_state "k" None).

(** ** [get_last_log_info], [become_leader] *)

Definition last_log_info_on_empty_log_is_zero_zero : bool :=
  passes (make_node "n1" []) (info ← gets get_last_log_info; assert_eq info (0, 0)).

Definition last_log_info_reflects_most_recent_entry : bool :=
  passes (make_node "n1" []) (
    modify (with_log [make_entry 1 1 "a" "1"; make_entry 3 2 "b" "2"]) ;;
    info ← gets get_last_log_info;
    assert_eq info.1 2 ;;
    assert_eq info.2 3).

Definition become_leader_initializes_next_index_to_log_tail_plus_one : bool :=
  passes (make_node "n1" ["n2"; "n3"]) (
    modify (with_log [make_entry 1 1 "a" "1"; make_entry 1 2 "b" "2"]) ;;
    become_leader ;;
    n ← gets id;
    assert_eq (state n) Leader ;;
    assert_eq (next_index n !! "n2"%string) (Some 3) ;;
    assert_eq (next_index n !! "n3"%string) (Some 3)).

Definition become_leader_is_idempotent : bool :=
  passes (make_node "n1" ["n2"]) (
    become_leader ;;
    n ← gets id;
    next_idx_before ← unwrap (next_index n !! "n2"%string);
    become_leader ;;
    n ← gets id;
    assert_eq (next_index n !! "n2"%string) (Some next_idx_before)).

(** ** [handle_install_snapshot] *)

Definition snapshot_args (term : Z) (leader : string) (last_idx last_term : Z) (data : gmap string string) :
    InstallSnapshotArgs :=
  mkInstallSnapshot term leader last_idx last_term (mkSnapshot last_idx last_term data).

Definition sm_data : M RaftNode (gmap string string) := expect (on_sm snapshot_data).

Definition install_snapshot_rejects_stale_term : bool :=
  passes (make_node "n1" ["n2"]) (
    modify (with_current_term 5) ;;
    reply ← handle_install_snapshot (snapshot_args 4 "n2" 1 1 ∅);
    assert_eq (ir_term reply) 5 ;;
    n ← gets id;
    assert_eq (current_term n) 5).

Definition install_snapshot_steps_down_and_updates_term_on_newer : bool :=
  passes (make_node "n1" ["n2"]) (
    modify (with_state Candidate) ;;
    modify (with_current_term 1) ;;
    modify (with_vote_for (Some "n1"%string)) ;;
    reply ← handle_install_snapshot (snapshot_args 2 "n2" 1 1 ∅);
    assert_eq (ir_term reply) 2 ;;
    n ← gets id;
    assert_eq (state n) Follower ;;
    assert_eq (current_term n) 2 ;;
    assert_eq (vote_for n) None).

Definition install_snapshot_replaces_state_machine_contents : bool :=
  passes (make_node "n1" ["n2"]) (
    ignore (on_sm (set "old" "stale")) ;;
    ignore (on_sm (set "keep" "maybe")) ;;
    let data : gmap string string := <["beta"%string := "2"%string]> {["alpha"%string := "1"%string]} in
    _ ← handle_install_snapshot (snapshot_args 1 "n2" 5 1 data);
    sm ← sm_data;
    assert_eq (sm !! "alpha"%string) (Some "1"%string) ;;
    assert_eq (sm !! "beta"%string) (Some "2"%string) ;;
    assert_eq (sm !! "old"%string) None ;;
    assert_eq (sm !! "keep"%string) None).

Definition install_snapshot_discards_covered_log_entries : bool :=
  passes (make_node "n1" ["n2"]) (
    modify (with_log
      [make_entry 1 1 "a" "1"; make_entry 1 2 "b" "2"; make_entry 1 3 "c" "3"; make_entry 1 4 "d" "4"]) ;;
    _ ← handle_install_snapshot (snapshot_args 1 "n2" 3 1 ∅);
    n ← gets id;
    assert_eq (log_len n) 1 ;;
    e ← lookup_log (log n) 0;
    assert_eq (le_index e) 4).

Definition install_snapshot_persists_snapshot_file_to_disk : bool :=
  passes (make_node "n1" ["n2"]) (
    _ ← handle_install_snapshot (snapshot_args 1 "n2" 1 1 {["k"%string := "v"%string]});
    n ← gets id;
    raw ← unwrap (d_files (storage n) !! (FSnapshot, false));
    snap ← unwrap (from_str (A := Snapshot) raw);
    assert_eq (last_included_index snap) 1 ;;
    assert (bool_decide (is_Some (snap_data snap !! "k"%string)))).

Definition install_snapshot_advances_commit_index_to_snapshot_position : bool :=
  passes (make_node "n1" ["n2"]) (
    modify (with_log [make_entry 1 1 "a" "1"; make_entry 1 2 "b" "2"]) ;;
    modify (with_commit_index 0) ;;
    modify (with_last_applied 0) ;;
    _ ← handle_install_snapshot (snapshot_args 1 "n2" 2 1 ∅);
    n ← gets id;
    assert_eq (commit_index n) 2 ;;
    assert_eq (last_applied n) 2).

(** The log on disk, written as the tests do. *)
Definition append_all (es : list LogEntry) : M RaftNode unit :=
  foldr (λ e m, on_disk (append_wal_log e) ;; m) (mret tt) es.

Definition install_snapshot_rewrites_wal_on_disk : bool :=
  passes (make_node "n1" ["n2"]) (
    modify (with_log [make_entry 1 1 "a" "1"; make_entry 1 2 "b" "2"; make_entry 1 3 "c" "3"]) ;;
    l ← gets log;
    append_all l ;;
    wal ← on_disk_read restore_wal_log;
    assert_eq (length wal) 3%nat ;;
    _ ← handle_install_snapshot (snapshot_args 1 "n2" 2 1 ∅);
    wal ← on_disk_read restore_wal_log;
    assert_eq (length wal) 1%nat).

(** ** [maybe_snapshot] *)

Definition maybe_snapshot_noop_below_threshold : bool :=
  passes (make_node "n1" ["n2"]) (
    modify (with_state Leader) ;;
    modify (with_current_term 1) ;;
    modify (with_log [make_entry 1 1 "a" "1"]) ;;
    modify (with_commit_index 1) ;;
    took ← maybe_snapshot 100;
    assert (negb took)).

Definition maybe_snapshot_noop_when_not_leader : bool :=
  passes (make_node "n1" ["n2"]) (
    modify (with_state Follower) ;;
    modify (λ n, with_log (log n ++ ((λ i, make_entry 1 i "k" "v") <$> seqZ 1 10)) n) ;;
    modify (with_commit_index 10) ;;
    took ← maybe_snapshot 5;
    assert (negb took)).

Definition maybe_snapshot_noop_when_commit_index_is_zero : bool :=
  passes (make_node "n1" ["n2"]) (
    modify (with_state Leader) ;;
    modify (with_log [make_entry 1 1 "k" "v"; make_entry 1 2 "k" "v"]) ;;
    took ← maybe_snapshot 1;
    assert (negb took)).

Definition maybe_snapshot_takes_snapshot_above_threshold : bool :=
  passes (make_node "n1" ["n2"]) (
    modify (with_state Leader) ;;
    modify (with_current_term 1) ;;
    ignore (on_sm (set "foo" "bar")) ;;
    modify (λ n, with_log (log n ++ ((λ i, make_entry 1 i "k" "v") <$> seqZ 1 5)) n) ;;
    modify (with_commit_index 5) ;;
    l ← gets log;
    append_all l ;;
    took ← maybe_snapshot 3;
    assert took ;;
    n ← gets id;
    raw ← unwrap (d_files (storage n) !! (FSnapshot, false));
    snap ← unwrap (from_str (A := Snapshot) raw);
    assert_eq (last_included_index snap) 5 ;;
    assert (bool_decide (is_Some (snap_data snap !! "foo"%string))) ;;
    wal ← on_disk_read restore_wal_log;
    assert_eq (length wal) 0%nat).

(** ** [begin_read] and [confirm_read]

    [Instant::now()] is a time in milliseconds; the calls of a test are taken to be at the same instant. *)

Definition begins_read : M RaftNode (option ReadIndex) := r ← begin_read; mret r.1.

Definition begin_read_returns_none_when_follower : bool :=
  passes (make_node "n1" ["n2"]) (ri ← begins_read; assert (bool_decide (ri = None))).

Definition begin_read_returns_none_when_candidate : bool :=
  passes (make_node "n1" ["n2"]) (
    modify (with_state Candidate) ;;
    ri ← begins_read;
    assert (bool_decide (ri = None))).

Definition begin_read_returns_some_when_leader_and_anchors_at_commit_index : bool :=
  passes (make_node "n1" ["n2"]) (
    modify (with_state Leader) ;;
    modify (with_commit_index 7) ;;
    ri ← begins_read;
    ri ← unwrap ri;
    assert_eq (ri_index ri) 7).

(** The time of the tests that follow. *)
Definition now : Z := 100000.

Definition confirms (ri : ReadIndex) : M RaftNode bool := gets (confirm_read max_election_timeout_ms now ri).

Definition ready_leader (applied : Z) (proof : option Z) : M RaftNode unit :=
  modify (with_state Leader) ;;
  modify (with_last_applied applied) ;;
  modify (with_commit_index 5) ;;
  modify (with_last_quorum_heartbeat_at proof).

Definition confirm_read_returns_false_when_not_leader : bool :=
  passes (make_node "n1" ["n2"]) (
    ready_leader 5 (Some now) ;;
    let ri := mkReadIndex 5 now in
    modify (with_state Follower) ;;
    ok ← confirms ri;
    assert (negb ok)).

Definition confirm_read_returns_false_when_state_machine_lags : bool :=
  passes (make_node "n1" ["n2"]) (
    modify (with_state Leader) ;;
    modify (with_commit_index 10) ;;
    modify (with_last_applied 3) ;;
    modify (with_last_quorum_heartbeat_at (Some now)) ;;
    ok ← confirms (mkReadIndex 5 now);
    assert (negb ok)).

Definition confirm_read_returns_false_when_no_quorum_evidence : bool :=
  passes (make_node "n1" ["n2"]) (
    ready_leader 5 None ;;
    ok ← confirms (mkReadIndex 5 now);
    assert (negb ok)).

Definition confirm_read_returns_false_when_quorum_evidence_predates_issued_at : bool :=
  passes (make_node "n1" ["n2"]) (
    ready_leader 5 (Some now) ;;
    ok ← confirms (mkReadIndex 5 (now + 60 * 1000));
    assert (negb ok)).

Definition confirm_read_returns_false_when_quorum_evidence_too_stale : bool :=
  passes (make_node "n1" ["n2"]) (
    let stale := now - (max_election_timeout_ms + 500) in
    ready_leader 5 (Some stale) ;;
    ok ← confirms (mkReadIndex 5 stale);
    assert (negb ok)).

Definition confirm_read_returns_true_when_all_conditions_met : bool :=
  passes (make_node "n1" ["n2"]) (
    ready_leader 5 (Some now) ;;
    ok ← confirms (mkReadIndex 5 now);
    assert ok).

Definition confirm_read_rejects_after_step_down_even_with_fresh_proof : bool :=
  passes (make_node "n1" ["n2"]) (
    ready_leader 5 (Some now) ;;
    let ri := mkReadIndex 5 now in
    ok ← confirms ri;
    assert ok ;;
    modify (with_state Follower) ;;
    ok ← confirms ri;
    assert (negb ok)).

(** ** Transactions in the log *)

Definition replay_logs_applies_committed_tx : bool :=
  passes (make_node "n1" ["n2"]) (
    modify (with_log
      [mkLogEntry 1 1 (CBeginTx "tx-replay" [TxPut "a" "1"; TxPut "b" "2"]);
       mkLogEntry 1 2 (CDecideTx "tx-replay" Commit)]) ;;
    modify (with_commit_index 2) ;;
    replay_logs ;;
    n ← gets id;
    assert_eq (last_applied n) 2 ;;
    assert_node_state "a" (Some "1"%string) ;;
    assert_node_state "b" (Some "2"%string)).

Definition replay_logs_aborted_tx_has_no_side_effects : bool :=
  passes (make_node "n1" ["n2"]) (
    modify (with_log
      [mkLogEntry 1 1 (CBeginTx "tx-abort" [TxPut "a" "should-not-apply"]);
       mkLogEntry 1 2 (CDecideTx "tx-abort" Abort)]) ;;
    modify (with_commit_index 2) ;;
    replay_logs ;;
    assert_node_state "a" None ;;
    n ← gets id;
    assert_eq (last_applied n) 2).

Definition propose_batch_appends_contiguous_entries : bool :=
  passes (make_node "n1" ["n2"]) (
    modify (with_state Leader) ;;
    ok ← propose_batch [CBeginTx "tx-batch" [TxPut "x" "1"]; CDecideTx "tx-batch" Commit];
    assert ok ;;
    n ← gets id;
    assert_eq (log_len n) 2 ;;
    e0 ← lookup_log (log n) 0;
    e1 ← lookup_log (log n) 1;
    assert_eq (le_index e0) 1 ;;
    assert_eq (le_index e1) 2 ;;
    assert (is_begin (le_command e0)) ;;
    assert (is_decide (le_command e1))).

(** ** [handle_tx_vote_request] *)

Definition seed_pending_tx (tx_id : string) (ops : list TxOp) : M RaftNode (string * Z * Z) :=
  expect (on_sm (begin_tx tx_id ops)) ;;
  let entry := mkLogEntry 1 1 (CBeginTx tx_id [TxPut "k" "v"]) in
  ignore (on_disk (append_wal_log entry)) ;;
  modify (λ n, with_log (log n ++ [entry]) n) ;;
  mret (tx_id, 1, 1).

Definition vote_req (term : Z) (tx_id : string) (last_idx last_term : Z) : TxVoteRequest :=
  mkTxVoteRequest term tx_id last_idx last_term.

Definition tx_vote_rejects_stale_term : bool :=
  passes (make_node "n1" ["n2"]) (
    modify (with_current_term 5) ;;
    '(tx_id, idx, term) ← seed_pending_tx "t1" [];
    resp ← handle_tx_vote_request (vote_req 4 tx_id idx term);
    assert (negb (tr_granted resp)) ;;
    assert_eq (tr_term resp) 5 ;;
    assert (contains_text "stale term" (tr_reason resp)) ;;
    n ← gets id;
    assert_eq (current_term n) 5 ;;
    assert_eq (pending_tx_count (state_machine n)) 1%nat).

Definition tx_vote_adopts_newer_term_and_steps_down : bool :=
  passes (make_node "n1" ["n2"]) (
    modify (with_current_term 1) ;;
    modify (with_state Leader) ;;
    '(tx_id, idx, term) ← seed_pending_tx "t1" [];
    resp ← handle_tx_vote_request (vote_req 3 tx_id idx term);
    assert (negb (tr_granted resp)) ;;
    assert_eq (tr_term resp) 3 ;;
    assert (contains_text "term advance" (tr_reason resp)) ;;
    n ← gets id;
    assert_eq (state n) Follower ;;
    assert_eq (current_term n) 3 ;;
    assert_eq (vote_for n) None).

Definition tx_vote_rejects_when_tx_not_pending : bool :=
  passes (make_node "n1" ["n2"]) (
    modify (with_current_term 2) ;;
    resp ← handle_tx_vote_request (vote_req 2 "missing" 0 0);
    assert (negb (tr_granted resp)) ;;
    assert_eq (tr_term resp) 2 ;;
    assert (contains_text "tx not pending" (tr_reason resp))).

Definition tx_vote_rejects_when_leader_log_is_stale : bool :=
  passes (make_node "n1" ["n2"]) (
    modify (with_current_term 1) ;;
    '(tx_id, _, _) ← seed_pending_tx "t1" [];
    resp ← handle_tx_vote_request (vote_req 1 tx_id 0 0);
    assert (negb (tr_granted resp)) ;;
    assert (contains_text "leader log stale" (tr_reason resp))).

Definition tx_vote_grants_and_records_yes_on_pending_tx : bool :=
  passes (make_node "n1" ["n2"]) (
    modify (with_current_term 1) ;;
    '(tx_id, idx, term) ← seed_pending_tx "t-yes" [];
    resp ← handle_tx_vote_request (vote_req 1 tx_id idx term);
    assert (tr_granted resp) ;;
    assert_eq (tr_term resp) 1 ;;
    assert_eq (tr_reason resp) EmptyString ;;
    view ← gets (λ n, pending_tx tx_id (state_machine n));
    view ← unwrap view;
    assert_eq (yes_votes view) 1%nat ;;
    assert_eq (no_votes view) 0%nat).

(** ** Snapshots on the leader, and restoring them *)

(** [format!("k{i}")] *)
Definition numbered (c : string) (i : Z) : string := c +:+ pretty i.

Definition make_leader_with_committed_sets (node_id : string) (count : Z) : RaftNode :=
  snd ((modify (with_state Leader) ;;
   modify (with_current_term 1) ;;
   foldr (λ i m,
     expect (on_sm (set (numbered "k" i) (numbered "v" i))) ;;
     modify (λ n, with_log (log n ++ [mkLogEntry 1 i (CSet (numbered "k" i) (numbered "v" i))]) n) ;;
     modify (with_commit_index i) ;;
     modify (with_last_applied i) ;; m) (mret tt) (seqZ 1 count) ;;
   l ← gets log;
   append_all l) (make_node node_id [])).

Definition maybe_snapshot_returns_false_when_wal_under_threshold : bool :=
  passes (make_leader_with_committed_sets "n1" 3) (
    took ← maybe_snapshot (1024 * 1024);
    assert (negb took)).

Definition maybe_snapshot_returns_false_when_not_leader : bool :=
  passes (make_leader_with_committed_sets "n2" 3) (
    modify (with_state Follower) ;;
    took ← maybe_snapshot 0;
    assert (negb took)).

Definition maybe_snapshot_truncates_wal_and_writes_snapshot_when_over_threshold : bool :=
  passes (make_leader_with_committed_sets "n3" 5) (
    wal_before ← on_disk_read wal_size_bytes;
    assert (0 <? wal_before) ;;
    took ← maybe_snapshot 1;
    assert took ;;
    snap ← on_disk_read load_snapshot;
    snap ← unwrap snap;
    assert_eq (last_included_index snap) 5 ;;
    assert_eq (last_included_term snap) 1 ;;
    assert (bool_decide (is_Some (snap_data snap !! "k1"%string))) ;;
    assert (bool_decide (is_Some (snap_data snap !! "k5"%string))) ;;
    wal_after ← on_disk_read wal_size_bytes;
    assert (wal_after <? wal_before) ;;
    assert_eq wal_after 0).

Definition restore_from_snapshot_returns_none_when_no_snapshot_file : bool :=
  passes (make_node "n4" []) (
    restored ← restore_from_snapshot;
    assert (bool_decide (restored = None))).

(** The node opened on the files of another. *)
Definition reopened (n : RaftNode) : M RaftNode RaftNode :=
  sm ← unwrap (open_sm (1024 * 1024) (host (state_machine n)));
  mret (raft_node_new (self_id n) [] sm (storage n) 0).

Definition restore_from_snapshot_populates_state_machine_and_advances_indices : bool :=
  passes (make_leader_with_committed_sets "n5" 4) (
    took ← maybe_snapshot 1;
    assert took ;;
    snap ← on_disk_read load_snapshot;
    snap ← unwrap snap;
    let snapshot_index := last_included_index snap in
    n ← gets id;
    new_node ← reopened n;
    assert (passes new_node (
      restored ← restore_from_snapshot;
      restored ← unwrap restored;
      assert_eq restored.1 snapshot_index ;;
      n ← gets id;
      assert_eq (commit_index n) snapshot_index ;;
      assert_eq (last_applied n) snapshot_index ;;
      assert_node_state "k1" (Some "v1"%string) ;;
      assert_node_state "k4" (Some "v4"%string)))).

Definition push_log_entry_for_test_assigns_monotonic_index : bool :=
  passes (make_node "n1" []) (
    modify (with_current_term 1) ;;
    push_log_entry_for_test CCompact ;;
    n ← gets id;
    assert_eq (log_len n) 1 ;;
    e ← lookup_log (log n) 0;
    assert_eq (le_index e) 1 ;;
    push_log_entry_for_test CCompact ;;
    n ← gets id;
    assert_eq (log_len n) 2 ;;
    e ← lookup_log (log n) 1;
    assert_eq (le_index e) 2 ;;
    info ← gets get_last_log_info;
    assert_eq info.1 2 ;;
    assert_eq info.2 1).

Definition push_log_entry_for_test_does_not_shadow_subsequent_propose : bool :=
  passes (make_node "n1" []) (
    modify (with_state Leader) ;;
    modify (with_current_term 1) ;;
    push_log_entry_for_test CCompact ;;
    info ← gets get_last_log_info;
    assert_eq info.1 1 ;;
    ok ← propose (CSet "k" "v");
    assert ok ;;
    n ← gets id;
    assert_eq (log_len n) 2 ;;
    e ← lookup_log (log n) 1;
    assert_eq (le_index e) 2).

(** ** [handle_pre_vote] and [become_pre_candidate] *)

Definition pre_vote_never_mutates_local_state : bool :=
  passes (make_node "n1" ["n2"; "n3"]) (
    modify (with_current_term 5) ;;
    n0 ← gets id;
    let term_before := current_term n0 in
    let unchanged :=
      n ← gets id;
      assert_eq (current_term n) term_before ;;
      assert_eq (vote_for n) (vote_for n0) ;;
      assert_eq (state n) (state n0) in
    reply ← handle_pre_vote (vote_args (term_before + 1) "n2" 0 0);
    assert (vr_granted reply) ;;
    assert_eq (vr_term reply) term_before ;;
    unchanged ;;
    reply ← handle_pre_vote (vote_args (term_before - 1) "n2" 0 0);
    assert (negb (vr_granted reply)) ;;
    unchanged ;;
    reply ← handle_pre_vote (vote_args (term_before + 2) "n2" 0 0);
    assert (negb (vr_granted reply)) ;;
    unchanged).

Definition push (e : LogEntry) : M RaftNode unit := modify (λ n, with_log (log n ++ [e]) n).

Definition pre_vote_grants_when_probe_log_is_strictly_ahead : bool :=
  passes (make_node "n1" ["n2"]) (
    modify (with_current_term 3) ;;
    push (make_entry 3 1 "k" "v") ;;
    reply ← handle_pre_vote (vote_args 4 "n2" 2 3);
    assert (vr_granted reply) ;;
    assert_eq (vr_term reply) 3).

Definition pre_vote_refuses_when_we_are_leader_of_same_term : bool :=
  passes (make_node "n1" ["n2"]) (
    modify (with_current_term 5) ;;
    modify (with_state Leader) ;;
    push (make_entry 5 1 "k" "v") ;;
    reply ← handle_pre_vote (vote_args 5 "n2" 1 5);
    assert (negb (vr_granted reply)) ;;
    assert_eq (vr_term reply) 5).

Definition pre_vote_refuses_when_probe_log_is_behind : bool :=
  passes (make_node "n1" ["n2"]) (
    modify (with_current_term 3) ;;
    push (make_entry 2 1 "a" "1") ;;
    push (make_entry 3 2 "b" "2") ;;
    reply ← handle_pre_vote (vote_args 4 "n2" 1 2);
    assert (negb (vr_granted reply)) ;;
    modify (with_state Follower) ;;
    reply ← handle_pre_vote (vote_args 3 "n2" 1 2);
    assert (negb (vr_granted reply))).

Definition pre_vote_refuses_probe_more_than_one_term_ahead : bool :=
  passes (make_node "n1" ["n2"]) (
    modify (with_current_term 5) ;;
    reply ← handle_pre_vote (vote_args 7 "n2" 0 0);
    assert (negb (vr_granted reply)) ;;
    n ← gets id;
    assert_eq (current_term n) 5).

Definition become_pre_candidate_single_node_promotes_without_rpc : bool :=
  passes (make_node "n1" []) (
    _ ← become_pre_candidate;
    n ← gets id;
    assert_eq (state n) Leader ;;
    assert_eq (current_term n) 1).

Definition become_pre_candidate_does_not_bump_term_or_write_vote : bool :=
  passes (make_node "n1" ["n2"; "n3"]) (
    modify (with_current_term 4) ;;
    term_before ← gets current_term;
    _ ← become_pre_candidate;
    n ← gets id;
    assert_eq (state n) PreCandidate ;;
    assert_eq (current_term n) term_before ;;
    assert_eq (vote_for n) None).

(** ** Membership *)

Definition s1 : ServerId := mkServerId "n1" "127.0.0.1:9001".
Definition s2 : ServerId := mkServerId "n2" "127.0.0.1:9002".
Definition s3 : ServerId := mkServerId "n3" "127.0.0.1:9003".

Definition configuration_simple_contains_and_addr_of : bool :=
  let cfg := Simple [s1; s2] in
  passes tt (
    assert (contains cfg "n1") ;;
    assert (contains cfg "n2") ;;
    assert (negb (contains cfg "n3")) ;;
    assert_eq (addr_of cfg "n2") (Some "127.0.0.1:9002"%string) ;;
    assert_eq (addr_of cfg "n3") None ;;
    assert_eq (config_size cfg) 2%nat).

Definition configuration_joint_all_servers_is_union_without_dupes : bool :=
  let cfg := Joint [s1; s2] [s1; s2; s3] in
  passes tt (
    let all := all_servers cfg in
    assert_eq (length all) 3%nat ;;
    let ids := node_id <$> all in
    assert (bool_decide ("n1"%string ∈ ids)) ;;
    assert (bool_decide ("n2"%string ∈ ids)) ;;
    assert (bool_decide ("n3"%string ∈ ids)) ;;
    assert_eq (config_size cfg) 3%nat).

Definition lettered : list ServerId := [mkServerId "n1" "a"; mkServerId "n2" "b"; mkServerId "n3" "c"].

Definition config_quorum_simple_majority : bool :=
  let cfg := Simple lettered in
  let mi : gmap string Z := {["n2"%string := 5; "n3"%string := 3]} in
  let mi' := <["n3"%string := 0]> (<["n2"%string := 0]> mi) in
  passes tt (
    assert (config_quorum_reached cfg mi "n1" 5 5) ;;
    assert (negb (config_quorum_reached cfg mi' "n1" 5 5))).

Definition config_quorum_joint_requires_both_majorities : bool :=
  let cfg := Joint lettered (lettered ++ [mkServerId "n4" "d"]) in
  let mi : gmap string Z := {["n2"%string := 5; "n3"%string := 5]} in
  let mi' := <["n3"%string := 0]> mi in
  passes tt (
    assert (config_quorum_reached cfg mi "n1" 5 5) ;;
    assert (negb (config_quorum_reached cfg mi' "n1" 5 5))).

Definition is_simple (c : Configuration) : bool := match c with Simple _ => true | Joint _ _ => false end.

Definition initial_current_config_is_simple_self_plus_peers : bool :=
  passes (make_node "n1" ["n2"; "n3"]) (
    cfg ← gets current_config;
    assert (is_simple cfg) ;;
    assert_eq (config_size cfg) 3%nat ;;
    assert (contains cfg "n1") ;;
    assert (contains cfg "n2") ;;
    assert (contains cfg "n3") ;;
    assert_eq (addr_of cfg "n1") (Some "n1"%string)).

Definition propose_add_node_requires_leader : bool :=
  passes (make_node "n1" ["n2"]) (
    result ← propose_add_node (server_of "n3");
    assert_eq result (inr MNotLeader)).

Definition propose_add_node_rejects_already_member : bool :=
  passes (make_node "n1" ["n2"]) (
    modify (with_state Leader) ;;
    result ← propose_add_node (server_of "n2");
    assert_eq result (inr (AlreadyMember "n2"))).

(** [match &node.log[0].command { InstallConfiguration { config: Joint { old, new } } => .., _ => panic!(..) }] *)
Definition joint_of (c : Command) : M RaftNode (list ServerId * list ServerId) :=
  match c with CInstallConfiguration (Joint old new) => mret (old, new) | _ => throw Panicked end.

Definition propose_add_node_appends_joint_entry_and_queues_simple : bool :=
  passes (make_node "n1" ["n2"]) (
    modify (with_state Leader) ;;
    r ← propose_add_node (server_of "n3");
    joint_idx ← unwrap_left r;
    assert_eq joint_idx 1 ;;
    n ← gets id;
    assert_eq (log_len n) 1 ;;
    e ← lookup_log (log n) 0;
    '(old, new) ← joint_of (le_command e);
    assert_eq (length old) 2%nat ;;
    assert_eq (length new) 3%nat ;;
    match pending_post_joint_simple n with
    | Some (Simple s) =>
        assert_eq (length s) 3%nat ;; assert (existsb (λ x, String.eqb (node_id x) "n3") s)
    | _ => throw Panicked
    end).

Definition propose_remove_node_rejects_self : bool :=
  passes (make_node "n1" ["n2"]) (
    modify (with_state Leader) ;;
    result ← propose_remove_node "n1";
    assert_eq result (inr CannotRemoveSelf)).

Definition propose_remove_node_rejects_last_server : bool :=
  passes (make_node "solo" []) (
    modify (with_state Leader) ;;
    result ← propose_remove_node "solo";
    assert_eq result (inr CannotRemoveSelf)).

Definition propose_remove_node_appends_joint_with_smaller_new : bool :=
  passes (make_node "n1" ["n2"; "n3"]) (
    modify (with_state Leader) ;;
    r ← propose_remove_node "n3";
    joint_idx ← unwrap_left r;
    assert_eq joint_idx 1 ;;
    n ← gets id;
    e ← lookup_log (log n) 0;
    '(old, new) ← joint_of (le_command e);
    assert_eq (length old) 3%nat ;;
    assert_eq (length new) 2%nat ;;
    assert (negb (existsb (λ x, String.eqb (node_id x) "n3") new))).

(** [Simple] of servers whose id is their address. *)
Definition two : list ServerId := [server_of "n1"; server_of "n2"].
Definition three : list ServerId := two ++ [server_of "n3"].

Definition install_configuration_updates_peers_and_current_config : bool :=
  passes (make_node "n1" ["n2"]) (
    let new_cfg := Simple three in
    install_configuration new_cfg ;;
    n ← gets id;
    assert_eq (current_config n) new_cfg ;;
    assert_eq (peers n) ["n2"; "n3"]%string).

Definition install_configuration_on_leader_proposes_simple_after_joint : bool :=
  passes (make_node "n1" ["n2"]) (
    modify (with_state Leader) ;;
    let pending := Simple three in
    modify (with_pending_post_joint_simple (Some pending)) ;;
    install_configuration (Joint two (all_servers pending)) ;;
    n ← gets id;
    assert_eq (pending_post_joint_simple n) None ;;
    assert_eq (log_len n) 1 ;;
    e ← lookup_log (log n) 0;
    assert_eq (le_command e) (CInstallConfiguration pending)).

Definition apply_logs_handles_install_configuration : bool :=
  passes (make_node "n1" ["n2"]) (
    modify (with_state Leader) ;;
    let new_cfg := Simple three in
    push (mkLogEntry 1 1 (CInstallConfiguration new_cfg)) ;;
    modify (with_commit_index 1) ;;
    apply_logs ;;
    n ← gets id;
    assert_eq (current_config n) new_cfg ;;
    assert_eq (peers n) ["n2"; "n3"]%string ;;
    assert_eq (last_applied n) 1).

Definition replay_logs_installs_final_configuration : bool :=
  passes (make_node "n1" ["n2"]) (
    push (mkLogEntry 1 1 (CInstallConfiguration (Joint two three))) ;;
    push (mkLogEntry 1 2 (CInstallConfiguration (Simple three))) ;;
    replay_logs ;;
    n ← gets id;
    assert_eq (current_config n) (Simple three) ;;
    assert_eq (peers n) ["n2"; "n3"]%string).

(** ** [handle_join_cluster] *)

Definition make_join_cluster_leader : RaftNode :=
  with_current_term 1 (with_state Leader (make_node "n1" ["n2"; "n3"])).

Definition joins (addr : string) : M RaftNode JoinClusterResponse := gets (handle_join_cluster (mkJoinRequest addr)).

Definition handle_join_cluster_accepts_candidate_on_leader_and_returns_peer_list : bool :=
  passes make_join_cluster_leader (
    resp ← joins "n4";
    assert (jr_accepted resp) ;;
    assert_eq (jr_term resp) 1 ;;
    assert_eq (jr_leader_addr resp) "n1"%string ;;
    assert_eq (merge_sort String.le (jr_peer_addrs resp)) ["n2"; "n3"]%string ;;
    assert_eq (jr_reason resp) EmptyString).

Definition handle_join_cluster_rejects_when_not_leader : bool :=
  passes make_join_cluster_leader (
    modify (with_state Follower) ;;
    resp ← joins "n4";
    assert (negb (jr_accepted resp)) ;;
    assert_eq (jr_term resp) 1 ;;
    assert_eq (jr_reason resp) "not leader"%string ;;
    assert_eq (jr_peer_addrs resp) []).

Definition handle_join_cluster_rejects_when_not_leader_candidate_too : bool :=
  passes make_join_cluster_leader (
    modify (with_state Candidate) ;;
    resp ← joins "n4";
    assert (negb (jr_accepted resp)) ;;
    assert_eq (jr_reason resp) "not leader"%string).

Definition handle_join_cluster_rejects_candidate_addr_equal_to_leader_addr : bool :=
  passes make_join_cluster_leader (
    resp ← joins "n1";
    assert (negb (jr_accepted resp)) ;;
    assert_eq (jr_reason resp) "candidate_addr is the leader itself"%string ;;
    assert_eq (jr_peer_addrs resp) []).

Definition handle_join_cluster_rejects_candidate_addr_already_member : bool :=
  passes make_join_cluster_leader (
    resp ← joins "n2";
    assert (negb (jr_accepted resp)) ;;
    assert_eq (jr_reason resp) "candidate_addr is already a cluster member"%string ;;
    assert_eq (jr_peer_addrs resp) []).

Definition handle_join_cluster_returns_term_even_when_rejected : bool :=
  passes make_join_cluster_leader (
    modify (with_current_term 7) ;;
    modify (with_state Follower) ;;
    resp ← joins "n4";
    assert (negb (jr_accepted resp)) ;;
    assert_eq (jr_term resp) 7 ;;
    assert_eq (jr_leader_addr resp) "n1"%string).

Definition handle_join_cluster_works_under_joint_config_too : bool :=
  passes make_join_cluster_leader (
    install_configuration (Joint three (three ++ [server_of "n4"])) ;;
    resp_reject ← joins "n4";
    assert (negb (jr_accepted resp_reject)) ;;
    assert_eq (jr_reason resp_reject) "candidate_addr is already a cluster member"%string ;;
    resp_accept ← joins "n5";
    assert (jr_accepted resp_accept) ;;
    assert_eq (merge_sort String.le (jr_peer_addrs resp_accept)) ["n2"; "n3"; "n4"]%string).

(** ** Aborting transactions *)

Definition make_leader_with_pending_tx (tx_id : string) : RaftNode :=
  snd ((modify (with_state Leader) ;;
   push (mkLogEntry 1 1 (CBeginTx tx_id [TxPut "k" "v"])) ;;
   modify (with_commit_index 1) ;;
   apply_logs) (make_node tx_id [])).

Definition propose_abort_tx_on_leader_appends_decide_tx_abort_entry : bool :=
  passes (make_leader_with_pending_tx "tx-happy") (
    n ← gets id;
    assert (is_tx_pending "tx-happy" (state_machine n)) ;;
    let log_len_before := log_len n in
    r ← propose_abort_tx "tx-happy";
    decide_index ← unwrap_left r;
    n ← gets id;
    assert_eq (log_len n) (log_len_before + 1) ;;
    e ← unwrap (last (log n));
    assert_eq (le_index e) decide_index ;;
    assert_eq (le_command e) (CDecideTx "tx-happy" Abort)).

Definition propose_abort_tx_rejects_non_leader : bool :=
  passes (make_node "nl" []) (
    modify (with_state Follower) ;;
    expect (on_sm (begin_tx "nl-tx" [TxPut "k" "v"])) ;;
    r ← propose_abort_tx "nl-tx";
    assert_eq r (inr ANotLeader)).

Definition propose_abort_tx_returns_not_found_for_unknown_tx_id : bool :=
  passes (make_leader_with_pending_tx "alive") (
    r ← propose_abort_tx "ghost";
    assert_eq r (inr (ANotFound "ghost"))).

(** The clock of the machine is set to a time at which a second can have passed. *)
Definition pending_txs_older_than_through_node_uses_state_machine_view : bool :=
  passes (make_leader_with_pending_tx "node-old") (
    on_sm (on_host (modify (λ h, mkHost (h_wal h) (h_files h) (h_faults h) 5000))) ;;
    n ← gets id;
    let now := now_unix_ms (host (state_machine n)) in
    view ← unwrap (pending_tx "node-old" (state_machine n));
    let ops := replicate (op_count view) (TxPut "k" "v") in
    expect (on_sm (decide_tx "node-old" Abort)) ;;
    expect (on_sm (begin_tx_at "node-old" ops (saturating_sub now 1000))) ;;
    stale ← gets (node_pending_txs_older_than 100);
    assert_eq stale ["node-old"]%string).

(** ** A leader that hears from another *)

Definition leader_refuses_append_entries_at_same_term_without_stepping_down : bool :=
  passes (make_node "n1" ["n2"; "n3"]) (
    modify (with_current_term 5) ;;
    modify (with_state Leader) ;;
    n0 ← gets id;
    reply ← handle_append_entries (append_args_of 5 "n2" 0 0 [] 0);
    assert (negb (ar_success reply)) ;;
    assert_eq (ar_term reply) (current_term n0) ;;
    n ← gets id;
    assert_eq (state n) (state n0) ;;
    assert_eq (current_term n) (current_term n0)).

Definition leader_steps_down_on_append_entries_at_higher_term : bool :=
  passes (make_node "n1" ["n2"; "n3"]) (
    modify (with_current_term 5) ;;
    modify (with_state Leader) ;;
    reply ← handle_append_entries (append_args_of 7 "n2" 0 0 [] 0);
    assert_eq (ar_term reply) 7 ;;
    n ← gets id;
    assert_eq (current_term n) 7 ;;
    assert_eq (state n) Follower).

Definition leader_refuses_install_snapshot_at_same_term_without_stepping_down : bool :=
  passes (make_node "n1" ["n2"; "n3"]) (
    modify (with_current_term 7) ;;
    modify (with_state Leader) ;;
    reply ← handle_install_snapshot (mkInstallSnapshot 7 "n2" 0 0 (mkSnapshot 0 0 ∅));
    assert_eq (ir_term reply) 7 ;;
    n ← gets id;
    assert_eq (state n) Leader ;;
    assert_eq (current_term n) 7).

Definition suite : list bool :=
  [
    vote_rejects_when_candidate_term_is_older; vote_steps_down_and_grants_on_newer_term_when_log_is_up_to_date;
    vote_denies_when_already_voted_for_someone_else_in_same_term;
    vote_grants_when_voted_for_same_candidate_in_same_term;
    vote_denies_when_candidate_log_is_behind_election_restriction; vote_grants_when_candidate_log_is_strictly_ahead;
    vote_persists_term_bump_to_disk; append_rejects_stale_term; append_steps_down_on_newer_term;
    append_heartbeat_with_empty_entries_succeeds; append_rejects_when_prev_log_term_mismatches;
    append_truncates_conflicting_entries_then_appends_new; append_advances_commit_index_and_applies_logs;
    append_does_not_advance_commit_beyond_local_log; commit_advances_when_majority_replicates;
    commit_does_not_advance_without_majority; commit_safety_does_not_commit_previous_term_entries;
    commit_noop_when_not_leader; propose_rejects_when_not_leader; propose_appends_entry_and_writes_wal;
    propose_increments_index_per_call; apply_logs_skips_compact_noops;
    replay_logs_restores_state_machine_from_scratch; apply_logs_handles_delete_command;
    last_log_info_on_empty_log_is_zero_zero; last_log_info_reflects_most_recent_entry;
    become_leader_initializes_next_index_to_log_tail_plus_one; become_leader_is_idempotent;
    install_snapshot_rejects_stale_term; install_snapshot_steps_down_and_updates_term_on_newer;
    install_snapshot_replaces_state_machine_contents; install_snapshot_discards_covered_log_entries;
    install_snapshot_persists_snapshot_file_to_disk; install_snapshot_advances_commit_index_to_snapshot_position;
    install_snapshot_rewrites_wal_on_disk; maybe_snapshot_noop_below_threshold; maybe_snapshot_noop_when_not_leader;
    maybe_snapshot_noop_when_commit_index_is_zero; maybe_snapshot_takes_snapshot_above_threshold;
    begin_read_returns_none_when_follower; begin_read_returns_none_when_candidate;
    begin_read_returns_some_when_leader_and_anchors_at_commit_index; confirm_read_returns_false_when_not_leader;
    confirm_read_returns_false_when_state_machine_lags; confirm_read_returns_false_when_no_quorum_evidence;
    confirm_read_returns_false_when_quorum_evidence_predates_issued_at;
    confirm_read_returns_false_when_quorum_evidence_too_stale; confirm_read_returns_true_when_all_conditions_met;
    confirm_read_rejects_after_step_down_even_with_fresh_proof; replay_logs_applies_committed_tx;
    replay_logs_aborted_tx_has_no_side_effects; propose_batch_appends_contiguous_entries; tx_vote_rejects_stale_term;
    tx_vote_adopts_newer_term_and_steps_down; tx_vote_rejects_when_tx_not_pending;
    tx_vote_rejects_when_leader_log_is_stale; tx_vote_grants_and_records_yes_on_pending_tx;
    maybe_snapshot_returns_false_when_wal_under_threshold; maybe_snapshot_returns_false_when_not_leader;
    maybe_snapshot_truncates_wal_and_writes_snapshot_when_over_threshold;
    restore_from_snapshot_returns_none_when_no_snapshot_file;
    restore_from_snapshot_populates_state_machine_and_advances_indices;
    push_log_entry_for_test_assigns_monotonic_index; push_log_entry_for_test_does_not_shadow_subsequent_propose;
    pre_vote_never_mutates_local_state; pre_vote_grants_when_probe_log_is_strictly_ahead;
    pre_vote_refuses_when_we_are_leader_of_same_term; pre_vote_refuses_when_probe_log_is_behind;
    pre_vote_refuses_probe_more_than_one_term_ahead; become_pre_candidate_single_node_promotes_without_rpc;
    become_pre_candidate_does_not_bump_term_or_write_vote; configuration_simple_contains_and_addr_of;
    configuration_joint_all_servers_is_union_without_dupes; config_quorum_simple_majority;
    config_quorum_joint_requires_both_majorities; initial_current_config_is_simple_self_plus_peers;
    propose_add_node_requires_leader; propose_add_node_rejects_already_member;
    propose_add_node_appends_joint_entry_and_queues_simple; propose_remove_node_rejects_self;
    propose_remove_node_rejects_last_server; propose_remove_node_appends_joint_with_smaller_new;
    install_configuration_updates_peers_and_current_config;
    install_configuration_on_leader_proposes_simple_after_joint; apply_logs_handles_install_configuration;
    replay_logs_installs_final_configuration; handle_join_cluster_accepts_candidate_on_leader_and_returns_peer_list;
    handle_join_cluster_rejects_when_not_leader; handle_join_cluster_rejects_when_not_leader_candidate_too;
    handle_join_cluster_rejects_candidate_addr_equal_to_leader_addr;
    handle_join_cluster_rejects_candidate_addr_already_member; handle_join_cluster_returns_term_even_when_rejected;
    handle_join_cluster_works_under_joint_config_too; propose_abort_tx_on_leader_appends_decide_tx_abort_entry;
    propose_abort_tx_rejects_non_leader; propose_abort_tx_returns_not_found_for_unknown_tx_id;
    pending_txs_older_than_through_node_uses_state_machine_view;
    leader_refuses_append_entries_at_same_term_without_stepping_down;
    leader_steps_down_on_append_entries_at_higher_term;
    leader_refuses_install_snapshot_at_same_term_without_stepping_down].
End node_tests.

(** Every test of the node passes in the model. *)
Lemma node_tests_pass : forallb id node_tests.suite = true.
Proof. vm_compute. reflexivity. Qed.
