(* ===== verification/StateMachineTests.v ===== *)
(** * The tests of the state machine ([state_machine.rs]) and of the storage ([raft/storage.rs]) *)

From stdpp Require Import prelude gmap strings pretty sorting countable list.
From S2P Require Import Prelude Serde Protocol StateMachine Storage Instances Rpc Node TestKit.
#[local] Open Scope Z_scope.

Import Codec.

Module state_machine_tests.

Definition open_default : StateMachine := default (fresh_sm 1024 []) (open_sm 1024 empty_host).

Definition assert_get (key : string) (expected : option string) : M StateMachine unit :=
  v ← get key; assert_eq v expected.

(** [x.repeat(n)] *)
Fixpoint repeat_text (n : nat) (x : string) : string :=
  match n with O => EmptyString | Datatypes.S n' => x +:+ repeat_text n' x end.

(** [for i in a..b { .. }] *)
Definition for_each {S} (l : list Z) (body : Z → M S unit) : M S unit := foldr (λ i m, body i ;; m) (mret tt) l.

(** The machine opened on the files of this one. *)
Definition reopen (threshold : Z) : M StateMachine StateMachine :=
  h ← gets host; unwrap (open_sm threshold h).

(** ** Basic operations *)

Definition open_creates_empty_state_machine : bool :=
  passes open_default (
    sm ← gets id;
    assert_eq (memtable_len sm) 0%nat ;;
    assert_eq (sstable_count sm) 0%nat).

Definition set_then_get_returns_value : bool :=
  passes open_default (set "hello" "world" ;; assert_get "hello" (Some "world"%string)).

Definition get_missing_key_returns_none : bool := passes open_default (assert_get "missing" None).

Definition set_overwrites_existing_value : bool :=
  passes open_default (set "k" "v1" ;; set "k" "v2" ;; assert_get "k" (Some "v2"%string)).

Definition delete_removes_existing_key : bool :=
  passes open_default (set "k" "v" ;; delete "k" ;; assert_get "k" None).

Definition delete_missing_key_is_noop : bool :=
  passes open_default (delete "never_set" ;; assert_get "never_set" None).

Definition delete_then_set_works : bool :=
  passes open_default (set "k" "v1" ;; delete "k" ;; set "k" "v2" ;; assert_get "k" (Some "v2"%string)).

(** ** Flushing *)

(** [format!("key-{:03}", i)] and [format!("k{i:02}")] *)
Definition key_03 (i : Z) : string :=
  "key-" +:+ (if i <? 10 then "00" else if i <? 100 then "0" else EmptyString) +:+ pretty i.
Definition key_02 (i : Z) : string := "k" +:+ (if i <? 10 then "0" else EmptyString) +:+ pretty i.

Definition auto_flush_moves_data_to_sstable : bool :=
  passes open_default (
    let v := repeat_text 100 "x" in
    for_each (seqZ 0 50) (λ i, set (key_03 i) v) ;;
    sm ← gets id;
    assert (0 <? sstable_count sm)%nat ;;
    assert (memtable_len sm <? 50)%nat ;;
    for_each (seqZ 0 50) (λ i, assert_get (key_03 i) (Some v)) ;;
    sm2 ← reopen 1024;
    assert (0 <? sstable_count sm2)%nat ;;
    assert (passes sm2 (for_each (seqZ 0 50) (λ i, assert_get (key_03 i) (Some v))))).

Definition tombstones_survive_flush : bool :=
  passes open_default (
    set "a" "1" ;; set "b" "2" ;; delete "a" ;; flush ;;
    assert_get "a" None ;;
    assert_get "b" (Some "2"%string)).

Definition manual_flush_then_get_still_finds_values : bool :=
  passes open_default (
    set "a" "1" ;; set "b" "2" ;; flush ;;
    sm ← gets id;
    assert_eq (sstable_count sm) 1%nat ;;
    assert_eq (memtable_len sm) 0%nat ;;
    assert_get "a" (Some "1"%string) ;;
    assert_get "b" (Some "2"%string)).

Definition newer_sstable_overrides_older_for_same_key : bool :=
  passes open_default (
    set "k" "v1" ;; flush ;;
    set "k" "v2" ;; flush ;;
    sm ← gets id;
    assert_eq (sstable_count sm) 2%nat ;;
    assert_get "k" (Some "v2"%string)).

Definition read_skips_out_of_range_sstables : bool :=
  passes open_default (
    set "a" "1" ;; set "m" "2" ;; set "z" "3" ;; flush ;;
    set "b" "4" ;; set "y" "5" ;; flush ;;
    assert_get "c" None ;;
    assert_get "x" None ;;
    assert_get "zzz" None).

(** ** Compaction *)

Definition compact_collapses_multiple_sstables_into_one : bool :=
  passes open_default (
    for_each (seqZ 0 10) (λ i, set ("k" +:+ pretty i) ("v" +:+ pretty i) ;; flush) ;;
    before ← gets sstable_count;
    assert (3 <=? before)%nat ;;
    compact ;;
    count ← gets sstable_count;
    assert_eq count 1%nat ;;
    for_each (seqZ 0 10) (λ i, assert_get ("k" +:+ pretty i) (Some ("v" +:+ pretty i)))).

Definition compact_drops_tombstones_with_no_resurrection : bool :=
  passes open_default (
    set "a" "1" ;; flush ;;
    delete "a" ;; flush ;;
    compact ;;
    assert_get "a" None ;;
    count ← gets sstable_count;
    assert_eq count 1%nat).

Definition compact_with_fewer_than_two_sstables_is_noop : bool :=
  passes open_default (
    set "k" "v" ;; flush ;;
    count_before ← gets sstable_count;
    compact ;;
    count ← gets sstable_count;
    assert_eq count count_before).

(** ** Snapshots *)

Definition snapshot_data_flattens_state_across_memtable_and_sstables : bool :=
  passes open_default (
    set "a" "1" ;; set "b" "2" ;; flush ;;
    set "c" "3" ;; delete "a" ;;
    snap ← snapshot_data;
    assert_eq (snap !! "b"%string) (Some "2"%string) ;;
    assert_eq (snap !! "c"%string) (Some "3"%string) ;;
    assert_eq (snap !! "a"%string) None).

Definition clear_for_snapshot_wipes_everything : bool :=
  passes open_default (
    set "a" "1" ;; set "b" "2" ;; flush ;;
    clear_for_snapshot ;;
    sm ← gets id;
    assert_eq (memtable_len sm) 0%nat ;;
    assert_eq (sstable_count sm) 0%nat ;;
    assert_get "a" None ;;
    assert_get "b" None).

Definition install_snapshot_replaces_state_with_supplied_data : bool :=
  passes open_default (
    set "old_key" "old_val" ;; set "another" "v" ;;
    let snap_data : gmap string string :=
      {["fresh_a" := "1"; "fresh_b" := "2"; "fresh_c" := "3"]}%string in
    install_snapshot snap_data ;;
    assert_get "old_key" None ;;
    assert_get "another" None ;;
    assert_get "fresh_a" (Some "1"%string) ;;
    assert_get "fresh_b" (Some "2"%string) ;;
    assert_get "fresh_c" (Some "3"%string) ;;
    len ← gets memtable_len;
    assert_eq len 3%nat).

Definition install_snapshot_with_empty_data_clears_state : bool :=
  passes open_default (
    set "k" "v" ;; flush ;;
    install_snapshot ∅ ;;
    sm ← gets id;
    assert_eq (memtable_len sm) 0%nat ;;
    assert_eq (sstable_count sm) 0%nat ;;
    assert_get "k" None).

(** ** Recovery *)

Definition reopen_replays_wal_into_memtable : bool :=
  passes (default open_default (open_sm (1024 * 1024) empty_host)) (
    set "a" "1" ;; set "b" "2" ;;
    sm2 ← reopen (1024 * 1024);
    assert (passes sm2 (
      len ← gets memtable_len;
      assert_eq len 2%nat ;;
      assert_get "a" (Some "1"%string) ;;
      assert_get "b" (Some "2"%string) ;;
      count ← gets sstable_count;
      assert_eq count 0%nat))).

Definition reopen_discovers_existing_sstables : bool :=
  passes open_default (
    let v := repeat_text 80 "v" in
    for_each (seqZ 0 20) (λ i, set (key_02 i) v) ;;
    count ← gets sstable_count;
    assert (0 <? count)%nat ;;
    sm2 ← reopen 1024;
    assert (0 <? sstable_count sm2)%nat ;;
    assert (passes sm2 (for_each (seqZ 0 20) (λ i, assert_get (key_02 i) (Some v))))).

Definition empty_value_is_allowed : bool :=
  passes open_default (set "k" EmptyString ;; assert_get "k" (Some EmptyString)).

Definition unicode_keys_and_values_round_trip : bool :=
  passes open_default (
    set "键" "值 🎉" ;;
    assert_get "键" (Some "值 🎉"%string) ;;
    flush ;;
    assert_get "键" (Some "值 🎉"%string)).

(** ** Transactions *)

Definition assert_pending (count : nat) : M StateMachine unit := c ← gets pending_tx_count; assert_eq c count.

Definition view_of (tx_id : string) : M StateMachine PendingTxView := v ← gets (pending_tx tx_id); unwrap v.

Definition begin_tx_stages_pending_without_applying : bool :=
  passes open_default (
    begin_tx "tx-1" [TxPut "a" "1"] ;;
    assert_get "a" None ;;
    assert_pending 1 ;;
    view ← view_of "tx-1";
    assert_eq (op_count view) 1%nat ;;
    assert_eq (yes_votes view) 0%nat).

Definition decide_tx_commit_applies_all_ops_atomically : bool :=
  passes open_default (
    begin_tx "tx-2" [TxPut "a" "1"; TxPut "b" "2"; TxDelete "c"] ;;
    decide_tx "tx-2" Commit ;;
    assert_get "a" (Some "1"%string) ;;
    assert_get "b" (Some "2"%string) ;;
    assert_pending 0).

Definition decide_tx_abort_discards_all_ops : bool :=
  passes open_default (
    set "existing" "v0" ;;
    begin_tx "tx-3" [TxPut "a" "should-not-apply"; TxPut "existing" "should-not-overwrite"] ;;
    decide_tx "tx-3" Abort ;;
    assert_get "a" None ;;
    assert_get "existing" (Some "v0"%string) ;;
    assert_pending 0).

Definition record_vote_updates_pending_tx_view : bool :=
  passes open_default (
    begin_tx "tx-4" [TxPut "k" "v"] ;;
    record_vote "tx-4" "node-A" VoteYes ;;
    record_vote "tx-4" "node-B" (VoteNo "conflict") ;;
    view ← view_of "tx-4";
    assert_eq (op_count view) 1%nat ;;
    assert_eq (yes_votes view) 1%nat ;;
    assert_eq (no_votes view) 1%nat ;;
    assert_get "k" None).

Definition vote_for_unknown_tx_is_noop : bool :=
  passes open_default (record_vote "nonexistent" "node-A" VoteYes ;; assert_pending 0).

Definition decide_tx_for_unknown_tx_is_noop : bool :=
  passes open_default (decide_tx "nonexistent" Commit ;; assert_pending 0).

Definition multiple_concurrent_transactions_isolate_reads : bool :=
  passes open_default (
    begin_tx "tx-A" [TxPut "shared" "from-A"] ;;
    begin_tx "tx-B" [TxPut "shared" "from-B"] ;;
    assert_get "shared" None ;;
    assert_pending 2 ;;
    decide_tx "tx-A" Commit ;;
    assert_get "shared" (Some "from-A"%string) ;;
    assert_pending 1 ;;
    decide_tx "tx-B" Abort ;;
    assert_get "shared" (Some "from-A"%string) ;;
    assert_pending 0).

Definition begin_tx_redefine_overwrites_pending_state : bool :=
  passes open_default (
    begin_tx "tx-dup" [TxPut "a" "1"] ;;
    begin_tx "tx-dup" [TxPut "b" "2"] ;;
    view ← view_of "tx-dup";
    assert_eq (op_count view) 1%nat).

(** The wall clock is moved as the tests do: set at the start, advanced by [thread::sleep]. *)
Definition set_clock (now : Z) : M StateMachine unit :=
  on_host (modify (λ h, mkHost (h_wal h) (h_files h) (h_faults h) now)).

Definition stale_after (threshold : Z) : M StateMachine (list string) := gets (pending_txs_older_than threshold).

Definition pending_txs_older_than_returns_only_old_txs : bool :=
  passes open_default (
    set_clock 100000 ;;
    now ← gets (λ s, now_unix_ms (host s));
    begin_tx_at "old" [TxPut "k" "v"] (saturating_sub now 1000) ;;
    begin_tx "fresh" [TxPut "k2" "v2"] ;;
    stale ← stale_after 100;
    assert_eq stale ["old"%string] ;;
    all ← stale_after 0;
    assert_eq all ["old"%string] ;;
    none ← stale_after (3600 * 1000);
    assert_eq none [] ;;
    set_clock (now + 50) ;;
    both ← stale_after 20;
    assert_eq (length both) 2%nat).

Definition pending_txs_older_than_uses_saturating_sub_for_future_timestamps : bool :=
  passes open_default (
    now ← gets (λ s, now_unix_ms (host s));
    begin_tx_at "future" [TxPut "k" "v"] (now + 60000) ;;
    stale ← stale_after (60 * 1000);
    assert_eq stale []).

Definition is_tx_pending_returns_true_only_for_pending_txs : bool :=
  passes open_default (
    begin_tx "live" [TxPut "k" "v"] ;;
    sm ← gets id;
    assert (is_tx_pending "live" sm) ;;
    assert (negb (is_tx_pending "never-issued" sm)) ;;
    assert (negb (is_tx_pending EmptyString sm)) ;;
    decide_tx "live" Commit ;;
    sm ← gets id;
    assert (negb (is_tx_pending "live" sm))).

Definition pending_unix_ms_round_trips_through_serde : bool :=
  passes open_default (
    let marker_ts := 1700000123456 in
    begin_tx_at "json-test" [TxPut "k" "v"] marker_ts ;;
    view ← view_of "json-test";
    assert_eq (op_count view) 1%nat).

Definition suite : list bool :=
  [
    open_creates_empty_state_machine; set_then_get_returns_value; get_missing_key_returns_none;
    set_overwrites_existing_value; delete_removes_existing_key; delete_missing_key_is_noop; delete_then_set_works;
    auto_flush_moves_data_to_sstable; tombstones_survive_flush; manual_flush_then_get_still_finds_values;
    newer_sstable_overrides_older_for_same_key; read_skips_out_of_range_sstables;
    compact_collapses_multiple_sstables_into_one; compact_drops_tombstones_with_no_resurrection;
    compact_with_fewer_than_two_sstables_is_noop; snapshot_data_flattens_state_across_memtable_and_sstables;
    clear_for_snapshot_wipes_everything; install_snapshot_replaces_state_with_supplied_data;
    install_snapshot_with_empty_data_clears_state; reopen_replays_wal_into_memtable;
    reopen_discovers_existing_sstables; empty_value_is_allowed; unicode_keys_and_values_round_trip;
    begin_tx_stages_pending_without_applying; decide_tx_commit_applies_all_ops_atomically;
    decide_tx_abort_discards_all_ops; record_vote_updates_pending_tx_view; vote_for_unknown_tx_is_noop;
    decide_tx_for_unknown_tx_is_noop; multiple_concurrent_transactions_isolate_reads;
    begin_tx_redefine_overwrites_pending_state; pending_txs_older_than_returns_only_old_txs;
    pending_txs_older_than_uses_saturating_sub_for_future_timestamps; is_tx_pending_returns_true_only_for_pending_txs;
    pending_unix_ms_round_trips_through_serde].
End state_machine_tests.

(** Every test of the state machine passes in the model. *)
Lemma state_machine_tests_pass : forallb id state_machine_tests.suite = true.
Proof. vm_compute. reflexivity. Qed.

Module storage_tests.

Definition entry (term index : Z) (key value : string) : LogEntry := mkLogEntry term index (CSet key value).

(** A call that reads the files. *)
Definition reads {A} (f : Disk → A * Disk) : M Disk A := λ d, let '(a, d') := f d in (Ok a, d').

Definition append_each (es : list LogEntry) : M Disk unit := foldr (λ e m, append_wal_log e ;; m) (mret tt) es.

Definition restore_wal_log_returns_empty_when_file_missing : bool :=
  passes empty_disk (logs ← reads restore_wal_log; assert_eq logs []).

Definition wal_roundtrip_preserves_entries_in_order : bool :=
  passes empty_disk (
    let entries := [entry 1 1 "a" "1"; entry 1 2 "b" "2"; entry 2 3 "c" "3"] in
    append_each entries ;;
    restored ← reads restore_wal_log;
    assert_eq (length restored) (length entries) ;;
    assert_eq (le_term <$> restored) (le_term <$> entries) ;;
    assert_eq (le_index <$> restored) (le_index <$> entries)).

Definition wal_roundtrip_handles_delete_command : bool :=
  passes empty_disk (
    append_wal_log (mkLogEntry 5 1 (CDelete "gone")) ;;
    restored ← reads restore_wal_log;
    assert_eq (length restored) 1%nat ;;
    e ← lookup_log restored 0;
    assert_eq (le_command e) (CDelete "gone")).

(** [RaftStorage] holds paths only: a second instance reads the same files. *)
Definition wal_roundtrip_is_durable_across_storage_instances : bool :=
  passes empty_disk (
    append_each [entry 1 1 "k" "v"; entry 1 2 "k2" "v2"] ;;
    disk ← gets id;
    assert (passes disk (
      restored ← reads restore_wal_log;
      assert_eq (length restored) 2%nat))).

Definition read_meta_returns_zero_when_file_missing : bool :=
  passes empty_disk (m ← reads read_meta; assert_eq m (0, None)).

Definition save_meta_then_read_meta_roundtrips : bool :=
  passes empty_disk (
    save_meta 7 (Some "node-2"%string) ;;
    m ← reads read_meta;
    assert_eq m.1 7 ;;
    assert_eq m.2 (Some "node-2"%string)).

Definition save_meta_supports_no_vote : bool :=
  passes empty_disk (
    save_meta 3 None ;;
    m ← reads read_meta;
    assert_eq m.1 3 ;;
    assert_eq m.2 None).

Definition save_meta_uses_atomic_rename_no_temp_leftover : bool :=
  passes empty_disk (
    save_meta 1 (Some "x"%string) ;;
    d ← gets id;
    assert_eq (d_files d !! (FMeta, true)) None).

Definition sample_snapshot (index term : Z) : Snapshot :=
  mkSnapshot index term {["alpha" := "1"; "beta" := "2"]}%string.

Definition load_snapshot_returns_none_when_missing : bool :=
  passes empty_disk (s ← reads load_snapshot; assert (bool_decide (s = None))).

Definition save_snapshot_then_load_roundtrips : bool :=
  passes empty_disk (
    save_snapshot (sample_snapshot 42 7) ;;
    s ← reads load_snapshot;
    loaded ← unwrap s;
    assert_eq (last_included_index loaded) 42 ;;
    assert_eq (last_included_term loaded) 7 ;;
    assert_eq (snap_data loaded !! "alpha"%string) (Some "1"%string) ;;
    assert_eq (snap_data loaded !! "beta"%string) (Some "2"%string)).

Definition save_snapshot_uses_atomic_rename : bool :=
  passes empty_disk (
    save_snapshot (sample_snapshot 1 1) ;;
    d ← gets id;
    assert_eq (d_files d !! (FSnapshot, true)) None).

Definition save_snapshot_overwrites_previous_snapshot : bool :=
  passes empty_disk (
    save_snapshot (sample_snapshot 1 1) ;;
    save_snapshot (sample_snapshot 100 5) ;;
    s ← reads load_snapshot;
    loaded ← unwrap s;
    assert_eq (last_included_index loaded) 100 ;;
    assert_eq (last_included_term loaded) 5).

Definition numbered_entries (count : Z) : list LogEntry := (λ i, entry 1 i "k" "v") <$> seqZ 1 count.

Definition rewrite_wal_keeps_entries_after_snapshot_index : bool :=
  passes empty_disk (
    append_each (numbered_entries 5) ;;
    kept ← rewrite_wal_after_snapshot 3;
    assert_eq kept 2%nat ;;
    remaining ← reads restore_wal_log;
    assert_eq (length remaining) 2%nat ;;
    assert_eq (le_index <$> remaining) [4; 5]).

Definition rewrite_wal_at_end_keeps_nothing : bool :=
  passes empty_disk (
    append_each (numbered_entries 3) ;;
    kept ← rewrite_wal_after_snapshot 3;
    assert_eq kept 0%nat ;;
    remaining ← reads restore_wal_log;
    assert_eq remaining []).

Definition rewrite_wal_before_any_entry_keeps_everything : bool :=
  passes empty_disk (
    append_each (numbered_entries 3) ;;
    kept ← rewrite_wal_after_snapshot 0;
    assert_eq kept 3%nat).

Definition wal_size_bytes_returns_zero_when_wal_missing : bool :=
  passes empty_disk (size ← reads wal_size_bytes; assert_eq size 0).

Definition wal_size_bytes_grows_monotonically_with_appends : bool :=
  passes empty_disk (
    initial ← reads wal_size_bytes;
    append_each (numbered_entries 3) ;;
    after ← reads wal_size_bytes;
    assert (initial <? after) ;;
    assert (3 <=? after)).

Definition wal_size_bytes_shrinks_after_rewrite : bool :=
  passes empty_disk (
    append_each (numbered_entries 5) ;;
    before ← reads wal_size_bytes;
    _ ← rewrite_wal_after_snapshot 5;
    after ← reads wal_size_bytes;
    assert (after <? before) ;;
    assert_eq after 0).

Definition suite : list bool :=
  [
    restore_wal_log_returns_empty_when_file_missing; wal_roundtrip_preserves_entries_in_order;
    wal_roundtrip_handles_delete_command; wal_roundtrip_is_durable_across_storage_instances;
    read_meta_returns_zero_when_file_missing; save_meta_then_read_meta_roundtrips; save_meta_supports_no_vote;
    save_meta_uses_atomic_rename_no_temp_leftover; load_snapshot_returns_none_when_missing;
    save_snapshot_then_load_roundtrips; save_snapshot_uses_atomic_rename; save_snapshot_overwrites_previous_snapshot;
    rewrite_wal_keeps_entries_after_snapshot_index; rewrite_wal_at_end_keeps_nothing;
    rewrite_wal_before_any_entry_keeps_everything; wal_size_bytes_returns_zero_when_wal_missing;
    wal_size_bytes_grows_monotonically_with_appends; wal_size_bytes_shrinks_after_rewrite].
End storage_tests.

(** Every test of the storage passes in the model. *)
Lemma storage_tests_pass : forallb id storage_tests.suite = true.
Proof. vm_compute. reflexivity. Qed.
