(* ===== verification/SimTests.v ===== *)
(** * The tests of the simulation

    Those of the reference model, the fault schedulers, the simulated transport, the harness and the
    invariant checker. A test that runs a cluster is run under the order of [SimRun]. *)

From stdpp Require Import prelude gmap strings pretty sorting countable list.
From Stdlib Require Import QArith.
From S2P Require Import Prelude Serde Display Protocol StateMachine Storage Instances Rpc Proto FaultScheduler Node ReferenceModel Timer Net.
From S2P Require Import Invariants SimTransport SimHarness SimRun TestKit.
#[local] Open Scope Z_scope.

Import Codec.

Module reference_model_tests.

Definition rm_step (index : Z) (command : Command) : M ReferenceModel bool := λ rm, let '(b, rm') := rm_apply index command rm in (Ok b, rm').

(** [rm.apply(..)] with its result dropped, and with it asserted. *)
Definition applies (index : Z) (command : Command) : M ReferenceModel unit := _ ← rm_step index command; mret tt.
Definition applied (index : Z) (command : Command) : M ReferenceModel unit := ok ← rm_step index command; assert ok.
Definition skipped (index : Z) (command : Command) : M ReferenceModel unit := ok ← rm_step index command; assert (negb ok).

Definition assert_rm (key : string) (expected : option string) : M ReferenceModel unit :=
  v ← gets (rm_get key); assert_eq v expected.
Definition assert_applied (index : Z) : M ReferenceModel unit := i ← gets rm_applied_index; assert_eq i index.

Definition reference_model_set_then_get : bool :=
  passes rm_new (applied 1 (CSet "k" "v") ;; assert_rm "k" (Some "v"%string) ;; assert_applied 1).

Definition reference_model_delete_removes_key : bool :=
  passes rm_new (
    applies 1 (CSet "k" "v") ;; applies 2 (CDelete "k") ;;
    assert_rm "k" None ;; assert_applied 2).

Definition reference_model_out_of_order_apply_returns_false : bool :=
  passes rm_new (
    skipped 3 (CSet "k" "v") ;; assert_applied 0 ;;
    applied 1 (CSet "k" "v") ;; assert_applied 1).

Definition reference_model_stale_index_skipped : bool :=
  passes rm_new (
    applies 1 (CSet "k" "v") ;;
    skipped 1 (CSet "k" "other") ;;
    assert_rm "k" (Some "v"%string)).

Definition reference_model_compact_is_no_op : bool :=
  passes rm_new (
    applied 1 CCompact ;; assert_applied 1 ;;
    snap ← gets rm_snapshot;
    assert_eq (size snap) 0%nat).

Definition reference_model_overwrite_takes_latest : bool :=
  passes rm_new (
    applies 1 (CSet "k" "v1") ;; applies 2 (CSet "k" "v2") ;; applies 3 (CSet "k" "v3") ;;
    assert_rm "k" (Some "v3"%string)).

Definition reference_model_snapshot_returns_full_state : bool :=
  passes rm_new (
    applies 1 (CSet "a" "1") ;; applies 2 (CSet "b" "2") ;;
    snap ← gets rm_snapshot;
    assert_eq (size snap) 2%nat ;;
    assert_eq (snap !! "a"%string) (Some "1"%string) ;;
    assert_eq (snap !! "b"%string) (Some "2"%string)).

Definition reference_model_begin_tx_stages_ops_invisibly : bool :=
  passes rm_new (
    applied 1 (CBeginTx "t1" [TxPut "a" "1"]) ;;
    assert_rm "a" None ;; assert_applied 1).

Definition reference_model_decide_commit_applies_atomically : bool :=
  passes rm_new (
    applies 1 (CBeginTx "t1" [TxPut "a" "1"; TxPut "b" "2"]) ;;
    applied 2 (CDecideTx "t1" Commit) ;;
    assert_rm "a" (Some "1"%string) ;; assert_rm "b" (Some "2"%string)).

Definition reference_model_decide_abort_discards_ops : bool :=
  passes rm_new (
    applies 1 (CSet "a" "pre") ;;
    applies 2 (CBeginTx "t1" [TxPut "a" "new"]) ;;
    applied 3 (CDecideTx "t1" Abort) ;;
    assert_rm "a" (Some "pre"%string)).

Definition reference_model_decide_delete_op_applies : bool :=
  passes rm_new (
    applies 1 (CSet "a" "1") ;;
    applies 2 (CBeginTx "t1" [TxDelete "a"]) ;;
    applies 3 (CDecideTx "t1" Commit) ;;
    assert_rm "a" None).

Definition reference_model_decide_unknown_tx_is_no_op : bool :=
  passes rm_new (
    applies 1 (CSet "a" "1") ;;
    applied 2 (CDecideTx "ghost" Commit) ;;
    assert_rm "a" (Some "1"%string) ;; assert_applied 2).

Definition reference_model_reset_clears_pending_txs : bool :=
  passes rm_new (
    applies 1 (CBeginTx "t1" [TxPut "a" "1"]) ;;
    modify rm_reset ;;
    applies 1 (CDecideTx "t1" Commit) ;;
    assert_rm "a" None).

Definition suite : list bool :=
  [
    reference_model_set_then_get; reference_model_delete_removes_key;
    reference_model_out_of_order_apply_returns_false; reference_model_stale_index_skipped;
    reference_model_compact_is_no_op; reference_model_overwrite_takes_latest;
    reference_model_snapshot_returns_full_state; reference_model_begin_tx_stages_ops_invisibly;
    reference_model_decide_commit_applies_atomically; reference_model_decide_abort_discards_ops;
    reference_model_decide_delete_op_applies; reference_model_decide_unknown_tx_is_no_op;
    reference_model_reset_clears_pending_txs].
End reference_model_tests.

Lemma reference_model_tests_pass : forallb id reference_model_tests.suite = true.
Proof. vm_compute. reflexivity. Qed.

Module fault_scheduler_tests.

Definition request_vote (term : Z) : InboundMessageBody := Raft (RequestVote (mkRequestVote term "n1" 0 0)).
Definition append_entries (term : Z) : InboundMessageBody := Raft (AppendEntries (mkAppendEntries term "n1" 0 0 [] 0)).
Definition install_snapshot_body (term : Z) : InboundMessageBody :=
  Raft (InstallSnapshot (mkInstallSnapshot term "n1" 0 0 (mkSnapshot 0 0 ∅))).

#[global] Instance outcome_dec : EqDecision ScheduleOutcome.
Proof. solve_decision. Defined.

(** [before_send], with the scheduler as the state. *)
Definition sending {S} `{FaultScheduler S} (link : LinkId) (body : InboundMessageBody) : M S ScheduleOutcome :=
  λ s, let '(o, s') := before_send link body s in (Ok o, s').

Definition link (a b : string) : LinkId := mkLink a b.

Definition always_deliver_returns_deliver_outcome : bool :=
  passes mkAlwaysDeliver (o ← sending (link "n1" "n2") (request_vote 1); assert_eq o Deliver).

Definition drop_link_drops_only_directed_link : bool :=
  passes (mkDropLink "n1" "n2") (
    o ← sending (link "n1" "n2") (request_vote 1); assert_eq o Drop ;;
    o ← sending (link "n2" "n1") (request_vote 1); assert_eq o Deliver ;;
    o ← sending (link "n1" "n3") (request_vote 1); assert_eq o Deliver).

(** [|| x] *)
Definition constant (x : f64) : Rng := mkRng unit tt (λ s, (x, s)).

Definition random_drop_is_seeded_deterministic : bool :=
  passes (mkRandomDrop (constant (Finite (3 # 10)))) (
    o ← sending (link "n1" "n2") (request_vote 1); assert_eq o Drop) &&
  passes (mkRandomDrop (constant (Finite (7 # 10)))) (
    o ← sending (link "n1" "n2") (request_vote 1); assert_eq o Deliver).

Definition partitioned_network_drops_directed_links_until_heal : bool :=
  passes partitioned_network_new (
    o ← sending (link "n1" "n2") (request_vote 1); assert_eq o Deliver ;;
    modify (partition (link "n1" "n2")) ;;
    o ← sending (link "n1" "n2") (request_vote 1); assert_eq o Drop ;;
    o ← sending (link "n1" "n3") (request_vote 1); assert_eq o Deliver ;;
    modify heal ;;
    o ← sending (link "n1" "n2") (request_vote 1); assert_eq o Deliver).

Definition is_append (body : InboundMessageBody) : bool :=
  match body with Raft (AppendEntries _) => true | _ => false end.

Definition drop_unless_filters_by_predicate : bool :=
  passes (mkDropUnless (λ l body, String.eqb (from l) "n1" && String.eqb (to l) "n2" && is_append body)) (
    o ← sending (link "n1" "n2") (request_vote 1); assert_eq o Drop ;;
    o ← sending (link "n1" "n2") (append_entries 1); assert_eq o Deliver ;;
    o ← sending (link "n1" "n3") (install_snapshot_body 1); assert_eq o Drop).

(** Two registered nodes; [n2] is served when [serving]. *)
Definition pair_of_nodes {S} (timeout : Z) (sched : S) (serving : bool) : World S :=
  let '(_, net) := register "n1" (with_scheduler timeout sched) in
  let '(rx_n2, net) := register "n2" net in
  let n2 := raft_node_new "n2" ["n1"] (fresh_sm (4 * 1024 * 1024) []) empty_disk 0 in
  mkWorld 0 net [] ∅ {["n2" := n2]} (if serving then {["n2" := rx_n2]} else ∅) [].

(** [t_n1.send_raft("n2", msg).await]: what the send ended with, when the runtime polls it in this order. *)
Definition send_and_wait {S} `{FaultScheduler S} (body : InboundMessageBody) (ms : N) :
    M (World S) (net.TransportError + InboundMessageBody) := λ w,
  let i := length (w_sends w) in
  let w' := steps [LSend "n1" "n2" body; LPoll i; LServe "n2"; LPoll i; LTime ms; LPoll i] w in
  match s_phase <$> w_sends w' !! i with
  | Some (Finished r) => (Ok r, w')
  | _ => (Err Panicked, w')
  end.

Definition sim_transport_with_drop_link_returns_timeout : bool :=
  passes (pair_of_nodes 200 (mkDropLink "n1" "n2") false) (
    start ← gets w_time;
    result ← send_and_wait (request_vote 1) 200;
    match result with inl (net.Timeout d) => assert_eq d 200 | _ => throw Panicked end ;;
    now ← gets w_time;
    assert (200 <=? now - start)).

(** The scheduler of a network. *)
Definition on_scheduler {S} (f : S → S) : M (World S) unit :=
  modify (λ w, let net := w_net w in
    set_net (mkNetwork (net_peers net) (channels net) (rpc_timeout net) (f (scheduler net))) w).

Definition sim_transport_with_partition_heals_on_demand : bool :=
  passes (pair_of_nodes 500 partitioned_network_new true) (
    on_scheduler (partition (link "n1" "n2")) ;;
    result ← send_and_wait (request_vote 1) 500;
    match result with inl (net.Timeout _) => mret tt | _ => throw Panicked end ;;
    on_scheduler heal ;;
    result ← send_and_wait (request_vote 1) 0;
    match result with inr (Raft (VoteResponse reply)) => assert (vr_granted reply) | _ => throw Panicked end).

Definition random_delay_with_p1_always_delays : bool :=
  passes (random_delay_new (constant (Finite (1 # 2))) (Finite 1) 10) (
    o ← sending (link "n1" "n2") (request_vote 1); assert_eq o (Delay 10)).

Definition random_delay_with_p0_always_delivers : bool :=
  passes (random_delay_new (constant (Finite (1 # 2))) (Finite 0) 10) (
    o ← sending (link "n1" "n2") (request_vote 1); assert_eq o Deliver).

Definition is_delay (o : ScheduleOutcome) : bool := match o with Delay _ => true | _ => false end.

Definition random_delay_p_clamps_to_unit_interval : bool :=
  passes (random_delay_new (constant (Finite (1 # 2))) (Finite 2) 10) (
    o ← sending (link "n1" "n2") (request_vote 1); assert (is_delay o)) &&
  passes (random_delay_new (constant (Finite (1 # 2))) (Finite (-1 # 2)) 10) (
    o ← sending (link "n1" "n2") (request_vote 1); assert_eq o Deliver).

Definition duplicate_all_returns_duplicate_outcome : bool :=
  passes (mkDuplicateAll 7) (o ← sending (link "n1" "n2") (request_vote 1); assert_eq o (Duplicate 7)).

Definition duplicate_all_default_spacing_is_50ms : bool :=
  passes duplicate_all_default (o ← sending (link "n1" "n2") (request_vote 1); assert_eq o (Duplicate 50)).

Definition suite : list bool :=
  [
    always_deliver_returns_deliver_outcome; drop_link_drops_only_directed_link; random_drop_is_seeded_deterministic;
    partitioned_network_drops_directed_links_until_heal; drop_unless_filters_by_predicate;
    sim_transport_with_drop_link_returns_timeout; sim_transport_with_partition_heals_on_demand;
    random_delay_with_p1_always_delays; random_delay_with_p0_always_delivers; random_delay_p_clamps_to_unit_interval;
    duplicate_all_returns_duplicate_outcome; duplicate_all_default_spacing_is_50ms].
End fault_scheduler_tests.

Lemma fault_scheduler_tests_pass : forallb id fault_scheduler_tests.suite = true.
Proof. vm_compute. reflexivity. Qed.

Module sim_transport_tests.

Definition fresh_node (node_id : string) (peers : list string) : RaftNode :=
  raft_node_new node_id peers (default (fresh_sm (4 * 1024 * 1024) []) (open_sm (4 * 1024 * 1024) empty_host)) empty_disk 0.

Definition ask : RaftMessage := RequestVote (mkRequestVote 1 "n1" 0 0).
Definition heartbeat : RaftMessage := AppendEntries (mkAppendEntries 1 "n1" 0 0 [] 0).

Definition sim_transport_send_raft_unknown_peer_is_unreachable : bool :=
  let '(_, net) := register "n1" (with_scheduler 2000 mkAlwaysDeliver) in
  passes (mkWorld 0 net [] ∅ ∅ ∅ []) (
    modify (steps [LSend "n1" "n-does-not-exist" (Raft ask)]) ;;
    w ← gets id;
    match s_phase <$> w_sends w !! 0%nat with
    | Some (Finished (inl (net.Unreachable _))) => mret tt
    | _ => throw Panicked
    end).

Definition dispatch_raft_message_routes_request_vote_to_handler : bool :=
  passes (fresh_node "n2" ["n1"]) (
    result ← dispatch_raft_message ask;
    match result with
    | Some (VoteResponse reply) => assert (vr_granted reply) ;; assert_eq (vr_term reply) 1
    | _ => throw Panicked
    end).

Definition dispatch_raft_message_routes_append_entries_to_handler : bool :=
  passes (fresh_node "n2" ["n1"]) (
    result ← dispatch_raft_message heartbeat;
    match result with
    | Some (AppendReply reply) => assert (ar_success reply) ;; assert_eq (ar_term reply) 1
    | _ => throw Panicked
    end).

Definition dispatch_raft_message_routes_install_snapshot_to_handler : bool :=
  passes (fresh_node "n2" ["n1"]) (
    result ← dispatch_raft_message (InstallSnapshot (mkInstallSnapshot 1 "n1" 0 0 (mkSnapshot 0 0 ∅)));
    match result with
    | Some (InstallSnapshotReply reply) => assert_eq (ir_term reply) 1
    | _ => throw Panicked
    end).

(** The [Err(Protocol)] of the code is the absence of a reply here ([serve_body] makes the error of it). *)
Definition dispatch_raft_message_rejects_inbound_reply_variant : bool :=
  passes (fresh_node "n2" ["n1"]) (
    result ← dispatch_raft_message (AppendReply (mkAppendReply 1 true));
    assert (bool_decide (result = None))) &&
  match (serve_body (Raft (AppendReply (mkAppendReply 1 true))) (fresh_node "n2" ["n1"])).1 with
  | Some (inl (net.Protocol _)) => true
  | _ => false
  end.

(** Both nodes registered, [n2] served, the runtime as in [fault_scheduler_tests]. *)
Definition served_pair : World AlwaysDeliver := fault_scheduler_tests.pair_of_nodes 2000 mkAlwaysDeliver true.
Definition send_and_wait : InboundMessageBody → N → M (World AlwaysDeliver) (net.TransportError + InboundMessageBody) :=
  fault_scheduler_tests.send_and_wait.

Definition sim_transport_serve_dispatches_through_node_handler : bool :=
  passes served_pair (
    reply ← send_and_wait (Raft ask) 0;
    match raft_result reply with
    | inr (VoteResponse v) => assert (vr_granted v) ;; assert_eq (vr_term v) 1
    | _ => throw Panicked
    end).

Definition sim_transport_send_vote_returns_vote_response : bool :=
  passes served_pair (
    reply ← send_and_wait (Vote (mkTxVoteRequest 1 "tx-1" 0 0)) 0;
    match vote_result_of reply with
    | inr v => assert_eq (tr_term v) 1 ;; assert (negb (tr_granted v))
    | inl _ => throw Panicked
    end).

Definition sim_transport_round_trip_append_entries_to_follower : bool :=
  passes served_pair (
    reply ← send_and_wait (Raft heartbeat) 0;
    match raft_result reply with
    | inr (AppendReply r) => assert (ar_success r) ;; assert_eq (ar_term r) 1
    | _ => throw Panicked
    end).

Definition suite : list bool :=
  [
    sim_transport_send_raft_unknown_peer_is_unreachable; dispatch_raft_message_routes_request_vote_to_handler;
    dispatch_raft_message_routes_append_entries_to_handler; dispatch_raft_message_routes_install_snapshot_to_handler;
    dispatch_raft_message_rejects_inbound_reply_variant; sim_transport_serve_dispatches_through_node_handler;
    sim_transport_send_vote_returns_vote_response; sim_transport_round_trip_append_entries_to_follower].
End sim_transport_tests.

Lemma sim_transport_tests_pass : forallb id sim_transport_tests.suite = true.
Proof. vm_compute. reflexivity. Qed.

(** ** Clusters *)

Module sim_harness_tests.

Section steps.
Context {S : Type} {FS : FaultScheduler S}.

(** The operations of the harness on a running cluster. *)
Definition running (f : Sim S → option (Sim S)) : M (Sim S) unit := λ s,
  match f s with Some s' => (Ok tt, s') | None => (Err Panicked, s) end.

Definition on_cluster {A} (f : SimCluster S → option (A * SimCluster S)) : M (Sim S) A := λ s,
  match f (sim_cluster s) with
  | Some (a, c) => (Ok a, mkSim c (sim_votes s) (sim_ended s))
  | None => (Err Panicked, s)
  end.

Definition drive (f : SimCluster S → option (SimCluster S)) : M (Sim S) unit := on_cluster (λ c, c' ← f c; Some (tt, c')).

Definition the_leader : M (Sim S) nat := l ← gets (λ s, leader_index (sim_cluster s)); unwrap l.
Definition submit (i : nat) (key value : string) : M (Sim S) Z := on_cluster (submit_set i key value).
Definition raft (i : nat) : M (Sim S) RaftNode := r ← gets (λ s, raft_of i (sim_cluster s)); unwrap r.

Definition assert_read (i : nat) (key value : string) : M (Sim S) unit :=
  r ← gets (λ s, read_key i key (sim_cluster s)); assert_eq r (Some (Some value)).

Definition everywhere (count : nat) (f : nat → M (Sim S) unit) : M (Sim S) unit :=
  foldr (λ i m, f i ;; m) (mret tt) (seq 0 count).

(** [wait_for_replication(target, timeout)], in seconds. *)
Definition replicated (target timeout : Z) : M (Sim S) unit := running (replicates target [] (timeout * 1000)).

(** The loops in the tests: node [i] has applied up to [target] within [timeout] seconds. *)
Definition catches_up (i : nat) (target timeout : Z) : M (Sim S) unit :=
  running (λ s, wait rounds (λ w, match c_ids (sim_cluster s) !! i ≫= (w_nodes w !!.) with
    | Some n => target <=? last_applied n
    | None => false
    end) (w_time (world s) + timeout * 1000) s).
End steps.

Definition cluster {S} `{FaultScheduler S} (count : nat) (sched : S) (body : M (Sim S) unit) : bool :=
  match new_n_nodes count sched 0 with Some c => passes (start c) body | None => false end.

Definition sim_harness_3_nodes_elects_leader : bool :=
  cluster 3 mkAlwaysDeliver (
    running (elects 0) ;;
    leader ← the_leader;
    assert_eq leader 0%nat ;;
    n ← raft leader;
    let leader_term := current_term n in
    assert (1 <=? leader_term) ;;
    everywhere 3 (λ i, n ← raft i; assert_eq (current_term n) leader_term) ;;
    drive (λ c, Some (shutdown c))).

Definition sim_harness_3_nodes_replicates_set_to_all_followers : bool :=
  cluster 3 mkAlwaysDeliver (
    running (elects 0) ;;
    leader_idx ← the_leader;
    index ← submit leader_idx "hello" "world";
    assert_eq index 1 ;;
    replicated index 5 ;;
    everywhere 3 (λ i, assert_read i "hello" "world") ;;
    drive (λ c, Some (shutdown c))).

Definition sim_harness_3_nodes_replicates_multiple_sets : bool :=
  cluster 3 mkAlwaysDeliver (
    running (elects 0) ;;
    leader_idx ← the_leader;
    idx1 ← submit leader_idx "a" "1";
    idx2 ← submit leader_idx "b" "2";
    replicated idx2 5 ;;
    everywhere 3 (λ i, assert_read i "a" "1" ;; assert_read i "b" "2") ;;
    assert_eq idx1 1 ;;
    assert_eq idx2 2).

Definition sim_harness_with_drop_link_isolates_n2 : bool :=
  cluster 3 (mkDropLink "n0" "n2") (
    running (elects 0) ;;
    leader_idx ← the_leader;
    idx ← submit leader_idx "before_heal" "v1";
    catches_up 1 idx 5 ;;
    n2 ← raft 2;
    assert (last_applied n2 <? idx) ;;
    drive (λ c, Some (shutdown c))).

(** The scheduler the harness and the test share. *)
Definition on_scheduler {S} (f : S → S) : M (Sim S) unit :=
  modify (λ s, let w := world s in let net := w_net w in
    set_world (set_net (mkNetwork (net_peers net) (channels net) (rpc_timeout net) (f (scheduler net))) w) s).

Definition sim_harness_with_partition_heals_and_catches_up : bool :=
  cluster 3 partitioned_network_new (
    running (elects 0) ;;
    leader_idx ← the_leader;
    on_scheduler (partition (mkLink "n0" "n2")) ;;
    idx ← submit leader_idx "after_partition" "v1";
    catches_up 1 idx 5 ;;
    n2 ← raft 2;
    assert (last_applied n2 <? idx) ;;
    on_scheduler heal ;;
    catches_up 2 idx 10 ;;
    everywhere 3 (λ i, assert_read i "after_partition" "v1") ;;
    drive (λ c, Some (shutdown c))).

Definition sim_harness_1_node_cluster_is_immediately_leader : bool :=
  cluster 1 mkAlwaysDeliver (
    running (elects 0) ;;
    leader ← the_leader;
    assert_eq leader 0%nat ;;
    idx ← submit leader "k" "v";
    replicated idx 5 ;;
    assert_read 0 "k" "v" ;;
    drive (λ c, Some (shutdown c))).

Definition sim_harness_kill_then_restart_node_catches_up : bool :=
  cluster 3 mkAlwaysDeliver (
    running (elects 0) ;;
    leader_idx ← the_leader;
    let victim := 2%nat in
    idx_before ← submit leader_idx "before_kill" "v1";
    running (replicates idx_before [victim] 5000) ;;
    assert_read victim "before_kill" "v1" ;;
    drive (kill_node victim) ;;
    idx_after ← submit leader_idx "after_kill" "v2";
    running (replicates idx_after [victim] 5000) ;;
    n2 ← raft victim;
    assert (last_applied n2 <? idx_after) ;;
    drive (restart_node victim) ;;
    catches_up victim idx_after 10 ;;
    assert_read victim "after_kill" "v2" ;;
    drive (λ c, Some (shutdown c))).

Definition suite : list bool :=
  [
    sim_harness_3_nodes_elects_leader; sim_harness_3_nodes_replicates_set_to_all_followers;
    sim_harness_3_nodes_replicates_multiple_sets; sim_harness_with_drop_link_isolates_n2;
    sim_harness_with_partition_heals_and_catches_up; sim_harness_1_node_cluster_is_immediately_leader;
    sim_harness_kill_then_restart_node_catches_up].
End sim_harness_tests.

Lemma sim_harness_tests_pass : forallb id sim_harness_tests.suite = true.
Proof. vm_compute. reflexivity. Qed.

Module invariants_tests.
Import sim_harness_tests.

(** The nodes of a cluster, as the checks see them. *)
Definition seen (c : SimHarness.SimCluster AlwaysDeliver) : list SimNode :=
  omap (λ id, mkSimNode id <$> w_nodes (c_world c) !! id) (c_ids c).

Definition checks (check : list SimNode → check) : M (Sim AlwaysDeliver) Invariants.check :=
  gets (λ s, check (seen (sim_cluster s))).

(** [assert_invariants(&cluster).expect(..)] *)
Definition invariants_hold : M (Sim AlwaysDeliver) unit :=
  r ← checks assert_invariants; match r with Pass => mret tt | _ => throw Panicked end.

Definition new_3_node (body : M (Sim AlwaysDeliver) unit) : bool := cluster 3 mkAlwaysDeliver body.

(** The election, and the pause after it. *)
Definition stable_3node (body : M (Sim AlwaysDeliver) unit) : bool :=
  new_3_node (running (elects 0) ;; modify round ;; body).

Definition edit (i : nat) (f : RaftNode → RaftNode) : M (Sim AlwaysDeliver) unit :=
  drive (λ c, '(_, c') ← on_raft i (modify f) c; Some c').

Definition push_entry (e : LogEntry) (n : RaftNode) : RaftNode := with_log (log n ++ [e]) n.

Definition invariant_holds_on_idle_cluster : bool := new_3_node invariants_hold.

Definition invariant_holds_after_simple_set_commit : bool :=
  stable_3node (
    leader ← the_leader;
    _ ← submit leader "k1" "v1";
    replicated 1 2 ;;
    invariants_hold).

Definition invariant_holds_after_tx_commit : bool :=
  stable_3node (
    leader ← the_leader;
    _ ← on_cluster (submit_command leader (CBeginTx "tx1" [TxPut "a" "1"]));
    replicated 1 2 ;;
    _ ← on_cluster (submit_command leader (CDecideTx "tx1" Commit));
    replicated 2 2 ;;
    invariants_hold).

Definition election_safety_catches_dual_leader : bool :=
  new_3_node (
    edit 0 (λ n, with_state Leader (with_current_term 5 n)) ;;
    edit 1 (λ n, with_state Leader (with_current_term 5 n)) ;;
    result ← checks check_election_safety;
    match result with Violated (ElectionSafety 5 _) => mret tt | _ => throw Panicked end).

Definition state_machine_safety_catches_divergent_apply : bool :=
  new_3_node (
    edit 0 (push_entry (mkLogEntry 1 1 (CSet "k1" "v1"))) ;;
    edit 0 (with_last_applied 1) ;;
    edit 1 (push_entry (mkLogEntry 1 1 (CSet "k1" "v2"))) ;;
    edit 1 (with_last_applied 1) ;;
    result ← checks check_state_machine_safety;
    match result with Violated (StateMachineSafety 1 _ _ _ _) => mret tt | _ => throw Panicked end).

Definition log_matching_property_catches_term_divergence : bool :=
  new_3_node (
    edit 0 (push_entry (mkLogEntry 1 1 (CSet "k1" "v1"))) ;;
    edit 1 (push_entry (mkLogEntry 2 1 (CSet "k1" "v1"))) ;;
    edit 0 (with_commit_index 1) ;;
    edit 1 (with_commit_index 1) ;;
    result ← checks check_log_matching_property;
    match result with Violated (LogMatchingProperty 1 _ _ _ _ _ _) => mret tt | _ => throw Panicked end).

Definition two_pc_atomicity_catches_split_outcome : bool :=
  new_3_node (
    edit 0 (push_entry (mkLogEntry 1 1 (CDecideTx "tx1" Commit))) ;;
    edit 1 (push_entry (mkLogEntry 1 1 (CDecideTx "tx1" Abort))) ;;
    result ← checks check_2pc_atomicity;
    match result with Violated (TwoPhaseCommitAtomicity _ _) => mret tt | _ => throw Panicked end).

Definition idle_cluster_passes_all_invariants : bool := new_3_node invariants_hold.

Definition suite : list bool :=
  [
    invariant_holds_on_idle_cluster; invariant_holds_after_simple_set_commit; invariant_holds_after_tx_commit;
    election_safety_catches_dual_leader; state_machine_safety_catches_divergent_apply;
    log_matching_property_catches_term_divergence; two_pc_atomicity_catches_split_outcome;
    idle_cluster_passes_all_invariants].
End invariants_tests.

Lemma invariants_tests_pass : forallb id invariants_tests.suite = true.
Proof. vm_compute. reflexivity. Qed.
