(* ===== verification/ServiceTests.v ===== *)
(** * The tests of the transports, the coordinator, the client front end and the small modules *)

From stdpp Require Import prelude gmap strings pretty sorting countable list.
From S2P Require Import Prelude Serde Display Protocol StateMachine Storage Instances Rpc Proto Node NodeEvents Timer Config Transport Net NetTheorems.
From S2P Require Import SimTransport StopLoops MetricsServer Task Coordinator Client ClientTheorems TestKit.
#[local] Open Scope Z_scope.

Import Codec.

#[local] Instance DispatchKind_eq_dec : EqDecision DispatchKind.
Proof. solve_decision. Defined.
#[local] Instance TxVoteRequest_dec : EqDecision TxVoteRequest.
Proof. solve_decision. Defined.
#[local] Instance TxVoteResponse_dec : EqDecision TxVoteResponse.
Proof. solve_decision. Defined.
#[local] Instance RaftMessage_dec : EqDecision RaftMessage.
Proof.
  intros x y. unfold Decision. repeat (first [ apply (decide_rel (=)) | decide equality ]).
Defined.

Module transport_tests.

(** The state is a duplex pipe: what one end wrote is what the other reads. *)
Definition roundtrip (kind : DispatchKind) (payload : list Z) : M (list Z) unit :=
  write_envelope kind payload ;;
  r ← read_envelope;
  r ← unwrap r;
  assert_eq r.1 kind ;;
  assert (bool_decide (r.2 = payload)).

Definition envelope_roundtrip_raft_kind : bool := passes [] (roundtrip KindRaft (bytes_of "some-raft-rpc-payload")).
Definition envelope_roundtrip_vote_kind : bool := passes [] (roundtrip KindVote (bytes_of "some-vote-payload")).

(** [(0..n).map(|i| (i % 256) as u8)] *)
Fixpoint ramp_from (i : Z) (n : nat) : list Z :=
  match n with O => [] | Datatypes.S n' => i mod 256 :: ramp_from (i + 1) n' end.
Definition ramp (n : Z) : list Z := ramp_from 0 (Z.to_nat n).

Definition envelope_roundtrip_large_payload : bool := passes [] (roundtrip KindVote (ramp 200000)).

Definition envelope_returns_none_on_eof_before_any_byte : bool :=
  passes [] (got ← read_envelope; assert (bool_decide (got = None))).

(** The kind of the error; its text is not modelled. *)
Definition fails_with {A} (e : io_error) (m : M (list Z) A) : M (list Z) unit := λ s,
  match m s with (Err e', s') => if bool_decide (e' = e) then (Ok tt, s') else (Err Panicked, s') | (_, s') => (Err Panicked, s') end.

Definition envelope_rejects_unknown_discriminator : bool :=
  passes [] (
    write_all [255] ;; write_all (to_be_bytes 4) ;; write_all (bytes_of "abcd") ;;
    fails_with InvalidData read_envelope).

Definition envelope_rejects_oversized_length : bool :=
  passes [] (
    write_all [kind_byte KindRaft] ;; write_all (to_be_bytes (MAX_FRAME_BYTES + 1)) ;; write_all (bytes_of "short") ;;
    fails_with InvalidData read_envelope).

Definition envelope_rejects_zero_length_discriminator : bool :=
  passes [] (
    write_all [0] ;; write_all (to_be_bytes 0) ;;
    fails_with InvalidData read_envelope).

Definition dispatch_kind_from_byte_known_values : bool :=
  passes tt (assert_eq (from_byte 1) (Some KindRaft) ;; assert_eq (from_byte 2) (Some KindVote)).

Definition dispatch_kind_from_byte_rejects_unknown : bool :=
  passes tt (assert_eq (from_byte 0) None ;; assert_eq (from_byte 3) None ;; assert_eq (from_byte 255) None).

Definition suite : list bool :=
  [
    envelope_roundtrip_raft_kind; envelope_roundtrip_vote_kind; envelope_roundtrip_large_payload;
    envelope_returns_none_on_eof_before_any_byte; envelope_rejects_unknown_discriminator;
    envelope_rejects_oversized_length; envelope_rejects_zero_length_discriminator;
    dispatch_kind_from_byte_known_values; dispatch_kind_from_byte_rejects_unknown].
End transport_tests.

Lemma transport_tests_pass : forallb id transport_tests.suite = true.
Proof. vm_compute. reflexivity. Qed.

Module coordination_tests.

Definition vote_request_domain_to_proto_round_trip : bool :=
  let d := mkTxVoteRequest 42 "tx-1" 17 41 in bool_decide (of_pb (to_pb (P := pb.VoteRequest) d) = d).

Definition vote_response_domain_to_proto_round_trip : bool :=
  let d := mkTxVoteResponse 42 true EmptyString in bool_decide (of_pb (to_pb (P := pb.VoteResponse_) d) = d).

(** Through a codec that satisfies the law of [prost]. *)
Definition wire_request (d : TxVoteRequest) : option TxVoteRequest :=
  let P := table_prost [to_pb (P := pb.VoteRequest) d] in of_pb <$> prost_decode (encode_to_vec (to_pb (P := pb.VoteRequest) d)).
Definition wire_response (d : TxVoteResponse) : option TxVoteResponse :=
  let P := table_prost [to_pb (P := pb.VoteResponse_) d] in
  of_pb <$> prost_decode (encode_to_vec (to_pb (P := pb.VoteResponse_) d)).

Definition vote_request_wire_round_trip : bool :=
  let d := mkTxVoteRequest 7 "tx-wire" 99 6 in bool_decide (wire_request d = Some d).

Definition vote_response_wire_round_trip_with_reason : bool :=
  let d := mkTxVoteResponse 3 false "tx not pending on this node" in bool_decide (wire_response d = Some d).

Definition vote_request_boundary_term_zero_tx_id_empty : bool :=
  let d := mkTxVoteRequest 0 EmptyString 0 0 in bool_decide (wire_request d = Some d).

Definition vote_request_boundary_last_log_index_u64_max : bool :=
  let d := mkTxVoteRequest 1 "tx-big" (U64 - 1) (U64 - 1) in bool_decide (wire_request d = Some d).

Definition vote_response_boundary_empty_reason : bool :=
  let d := mkTxVoteResponse 0 true EmptyString in bool_decide (wire_response d = Some d).

Definition suite : list bool :=
  [
    vote_request_domain_to_proto_round_trip; vote_response_domain_to_proto_round_trip; vote_request_wire_round_trip;
    vote_response_wire_round_trip_with_reason; vote_request_boundary_term_zero_tx_id_empty;
    vote_request_boundary_last_log_index_u64_max; vote_response_boundary_empty_reason].
End coordination_tests.

Lemma coordination_tests_pass : forallb id coordination_tests.suite = true.
Proof. vm_compute. reflexivity. Qed.

Module timer_tests.

Definition t : Z := 1000000.
Definition threshold : Z := min_election_timeout_ms.

Definition leader_never_elects_even_after_long_silence : bool :=
  passes tt (assert (negb (should_start_election Leader t (t + 600 * 1000) threshold))).
Definition follower_within_threshold_does_not_elect : bool :=
  passes tt (assert (negb (should_start_election Follower t (t + threshold - 1) threshold))).
Definition follower_at_threshold_elects : bool :=
  passes tt (assert (should_start_election Follower t (t + threshold) threshold)).
Definition follower_past_threshold_elects : bool :=
  passes tt (assert (should_start_election Follower t (t + 2 * threshold) threshold)).
Definition candidate_also_uses_threshold : bool :=
  passes tt (assert (should_start_election Candidate t (t + 2 * threshold) threshold)).
Definition ratio_constraint_holds_for_config : bool :=
  passes tt (assert (10 * heartbeat_interval_ms <=? min_election_timeout_ms)).

Definition suite : list bool :=
  [
    leader_never_elects_even_after_long_silence; follower_within_threshold_does_not_elect;
    follower_at_threshold_elects; follower_past_threshold_elects; candidate_also_uses_threshold;
    ratio_constraint_holds_for_config].
End timer_tests.

Lemma timer_tests_pass : forallb id timer_tests.suite = true.
Proof. vm_compute. reflexivity. Qed.

Module clock_tests.

Definition sleeps (ms : Z) : M SimClock unit := modify (sleep_done ms).

(** The times two clocks with the same epoch read after each sleep of the schedule. *)
Fixpoint times (schedule : list Z) (c : SimClock) : list Z :=
  match schedule with
  | [] => []
  | d :: schedule' => let c := sleep_done d c in sim_now c :: times schedule' c
  end.

Definition sim_clock_is_deterministic_under_same_seed : bool :=
  let schedule := [0; 250; 500; 1000; 2500; 4500] in
  let c1 := sim_clock_with_epoch 77 in
  let c2 := sim_clock_with_epoch 77 in
  passes tt (assert_eq (times schedule c1) (times schedule c2)).

(** The part of the test about the simulated clock. *)
Definition sim_clock_advance_moves_virtual_time_without_wall_clock : bool :=
  passes (sim_clock_with_epoch 0) (
    sleeps 5000 ;; sleeps 3000 ;;
    offset_after ← gets virtual_offset;
    assert (8000 - 50 <=? offset_after)).

Definition sim_clock_supports_elapsed_style_deadline_checks : bool :=
  passes (sim_clock_with_epoch 0) (
    stamp ← gets sim_now;
    sleeps 30000 ;;
    now ← gets sim_now;
    assert (30000 <=? now - stamp)).

Definition suite : list bool :=
  [
    sim_clock_is_deterministic_under_same_seed; sim_clock_advance_moves_virtual_time_without_wall_clock;
    sim_clock_supports_elapsed_style_deadline_checks].
End clock_tests.

Lemma clock_tests_pass : forallb id clock_tests.suite = true.
Proof. vm_compute. reflexivity. Qed.

Module net_tests.

(** [anyhow::anyhow!(text)] *)
Definition classify (text : string) : net.TransportError := classify_rpc_err (λ _, (EmptyString, EmptyString)) (Message text).

Definition classify_rpc_err_connection_refused_is_unreachable : bool :=
  match classify "Connection refused (os error 61)" with net.Unreachable _ => true | _ => false end.
Definition classify_rpc_err_deadline_is_timeout : bool :=
  match classify "deadline has elapsed" with net.Timeout _ => true | _ => false end.
Definition classify_rpc_err_other_is_protocol : bool :=
  match classify "malformed envelope" with net.Protocol _ => true | _ => false end.

(** [serve] of a transport without a listener; the code wraps the text in [TransportError::Protocol]. *)
Definition tcp_transport_serve_without_listener_is_protocol_error : bool :=
  match serve (C := unit) None with inl _ => true | inr _ => false end.

Definition suite : list bool :=
  [
    classify_rpc_err_connection_refused_is_unreachable; classify_rpc_err_deadline_is_timeout;
    classify_rpc_err_other_is_protocol; tcp_transport_serve_without_listener_is_protocol_error].
End net_tests.

Lemma net_tests_pass : forallb id net_tests.suite = true.
Proof. vm_compute. reflexivity. Qed.

(** ** Tasks on a node *)

(** [block_on], when nothing else touches the node and every step takes a millisecond. *)
Definition block_on {A} (t : task A) : M RaftNode A := λ n,
  match run t (replicate 600 (calm 1 [])) n 0 with
  | (Task.Finished a, n', _, _) => (Ok a, n')
  | (_, n', _, _) => (Err Panicked, n')
  end.

(** The helper of both test modules: a lone node, leading. *)
Definition make_single_node (node_id : string) : RaftNode :=
  with_state Leader
    (raft_node_new node_id [] (default (fresh_sm (1024 * 1024) []) (open_sm (1024 * 1024) empty_host)) empty_disk 0).

Module client_tests.

Definition is_single_node_true_when_peers_empty : bool :=
  passes (make_single_node "solo") (single ← gets is_single_node; assert single).

Definition is_single_node_false_when_peers_present : bool :=
  passes (raft_node_new "n1" ["127.0.0.1:9002"] (state_machine (make_single_node "n1")) empty_disk 0) (
    single ← gets is_single_node; assert (negb single)).

(** [resp[key]] is the string. *)
Definition field (resp : Value) (key value : string) : bool := bool_decide (value_index resp key = VString value).

Definition linearizable_get_returns_value_on_single_node_without_timeout : bool :=
  passes (make_single_node "solo") (
    resp ← block_on (ClientHandler.dispatch_command io_text (CSet "hello" "world"));
    assert (field resp "status" "ok") ;;
    resp ← block_on (ClientHandler.linearizable_get "hello");
    assert (field resp "status" "ok") ;;
    assert (field resp "data" "world")).

Definition linearizable_get_returns_not_found_for_missing_key_on_single_node : bool :=
  passes (make_single_node "solo") (
    resp ← block_on (ClientHandler.linearizable_get "missing");
    assert (field resp "status" "not_found")).

Definition linearizable_get_rejects_non_leader_on_single_node : bool :=
  passes (make_single_node "solo") (
    modify (with_state Follower) ;;
    resp ← block_on (ClientHandler.linearizable_get "anything");
    match value_index resp "error" with
    | VString msg => assert (contains_text "Not a leader" msg)
    | _ => throw Panicked
    end).

Definition suite : list bool :=
  [
    is_single_node_true_when_peers_empty; is_single_node_false_when_peers_present;
    linearizable_get_returns_value_on_single_node_without_timeout;
    linearizable_get_returns_not_found_for_missing_key_on_single_node;
    linearizable_get_rejects_non_leader_on_single_node].
End client_tests.

Lemma client_tests_pass : forallb id client_tests.suite = true.
Proof. vm_compute. reflexivity. Qed.

Module coordinator_tests.

Definition assert_sm (key : string) (expected : option string) : M RaftNode unit :=
  v ← on_sm (get key); assert_eq v expected.
Definition assert_pending (count : nat) : M RaftNode unit :=
  c ← gets (λ n, pending_tx_count (state_machine n)); assert_eq c count.
Definition push_entry (e : LogEntry) : M RaftNode unit := modify (λ n, with_log (log n ++ [e]) n).

Definition coordinate_tx_single_node_commits_atomically : bool :=
  passes (make_single_node "solo-coord") (
    outcome ← block_on (coordinate_tx "tx-solo" [TxPut "k1" "v1"; TxPut "k2" "v2"]);
    match outcome with
    | Committed begin_index decide_index tx_id =>
        assert_eq tx_id "tx-solo"%string ;; assert_eq (begin_index + 1) decide_index
    | _ => throw Panicked
    end ;;
    assert_sm "k1" (Some "v1"%string) ;;
    assert_sm "k2" (Some "v2"%string) ;;
    assert_pending 0).

Definition apply_logs_applies_begin_tx_and_decide_tx_in_steady_state : bool :=
  passes (make_single_node "apply-steady") (
    push_entry (mkLogEntry 1 1 (CBeginTx "tx-apply" [TxPut "applied-key" "applied-val"])) ;;
    push_entry (mkLogEntry 1 2 (CDecideTx "tx-apply" Commit)) ;;
    modify (with_commit_index 2) ;;
    apply_logs ;;
    assert_sm "applied-key" (Some "applied-val"%string) ;;
    assert_pending 0).

Definition apply_logs_abort_decision_does_not_apply_ops : bool :=
  passes (make_single_node "apply-abort") (
    push_entry (mkLogEntry 1 1 (CBeginTx "tx-abort-steady" [TxPut "ghost" "never"])) ;;
    push_entry (mkLogEntry 1 2 (CDecideTx "tx-abort-steady" Abort)) ;;
    modify (with_commit_index 2) ;;
    apply_logs ;;
    assert_sm "ghost" None ;;
    assert_pending 0).

(** The two environment variables of the sweep, as the tests set them. *)
Definition sweep (timeout_env sweep_env : string) (ticks : nat) : M RaftNode unit :=
  block_on (run_tx_timeout_loop (env_u64 (Some timeout_env)) (env_u64 (Some sweep_env)) ticks).

Definition set_wall_clock (now : Z) : M RaftNode unit :=
  on_sm (on_host (modify (λ h, mkHost (h_wal h) (h_files h) (h_faults h) now))).

Definition wall_clock : M RaftNode Z := gets (λ n, now_unix_ms (host (state_machine n))).

(** Four sweep periods pass. *)
Definition run_tx_timeout_loop_force_aborts_stuck_tx_on_single_node : bool :=
  passes (make_single_node "sweep-solo") (
    set_wall_clock 100000 ;;
    push_entry (mkLogEntry 1 1 (CBeginTx "stuck" [TxPut "k" "v"])) ;;
    modify (with_commit_index 1) ;;
    apply_logs ;;
    now ← wall_clock;
    expect (on_sm (decide_tx "stuck" Abort)) ;;
    expect (on_sm (begin_tx_at "stuck" [TxPut "k" "v"] (saturating_sub now 60000))) ;;
    n ← gets id;
    assert (is_tx_pending "stuck" (state_machine n)) ;;
    sweep "10" "20" 4 ;;
    n ← gets id;
    e ← unwrap (last (log n));
    assert_eq (le_command e) (CDecideTx "stuck" Abort)).

Definition run_tx_timeout_loop_skips_non_leader : bool :=
  passes (make_single_node "sweep-follower") (
    set_wall_clock 100000 ;;
    modify (with_state Follower) ;;
    now ← wall_clock;
    expect (on_sm (begin_tx_at "follower-stuck" [] (saturating_sub now 60000))) ;;
    log_len_before ← gets log_len;
    sweep "5" "10" 8 ;;
    log_len_after ← gets log_len;
    assert_eq log_len_before log_len_after ;;
    n ← gets id;
    assert (is_tx_pending "follower-stuck" (state_machine n))).

(** The timeout the test sets does not parse ([bad_timeout_is_ignored] below): the loop runs with the default. *)
Definition run_tx_timeout_loop_skips_fresh_txs : bool :=
  passes (make_single_node "sweep-fresh") (
    expect (on_sm (begin_tx "fresh" [])) ;;
    sweep "60_000" "10" 6 ;;
    n ← gets id;
    assert (is_tx_pending "fresh" (state_machine n))).

Definition suite : list bool :=
  [
    coordinate_tx_single_node_commits_atomically; apply_logs_applies_begin_tx_and_decide_tx_in_steady_state;
    apply_logs_abort_decision_does_not_apply_ops; run_tx_timeout_loop_force_aborts_stuck_tx_on_single_node;
    run_tx_timeout_loop_skips_non_leader; run_tx_timeout_loop_skips_fresh_txs].
End coordinator_tests.

Lemma coordinator_tests_pass : forallb id coordinator_tests.suite = true.
Proof. vm_compute. reflexivity. Qed.

(** The digit separator of a Rust literal is no digit of a number: the timeout of the test is the default one. *)
Lemma bad_timeout_is_ignored : tx_timeout_ms (env_u64 (Some "60_000"%string)) = 30000.
Proof. done. Qed.

Module proto_tests.

(** Through a codec that satisfies the law of [prost] ([table_prost_laws]). *)
Definition wire (m : RaftMessage) : option RaftMessage :=
  let P := table_prost [encode_domain m] in decode_domain <$> prost_decode (encode_to_vec (encode_domain m)).

Definition envelope_roundtrips_through_proto : bool :=
  let original := AppendEntries (mkAppendEntries 7 "n1" 4 6
    [mkLogEntry 7 5 (CSet "k" "v"); mkLogEntry 7 6 (CDelete "gone")] 5) in
  bool_decide (wire original = Some original).

Definition all_message_variants_roundtrip : bool :=
  let cases :=
    [RequestVote (mkRequestVote 1 "n2" 10 2);
     VoteResponse (mkVoteResponse 3 true);
     AppendReply (mkAppendReply 4 false);
     InstallSnapshot (mkInstallSnapshot 5 "n1" 100 5 (mkSnapshot 100 5 {["alpha" := "1"]}%string));
     InstallSnapshotReply (mkInstallSnapshotReply 5);
     JoinCluster (mkJoinRequest "n4@host:9003");
     JoinClusterReply (mkJoinResponse true 7 "n1@host:9001" ["n2@host:9002"; "n3@host:9004"] EmptyString);
     JoinClusterReply (mkJoinResponse false 7 "n1@host:9001" [] "not leader")] in
  forallb (λ original, bool_decide (wire original = Some original)) cases.

Definition command_variants_roundtrip : bool :=
  forallb (λ c : Command, bool_decide (of_pb (to_pb (P := pb.Command) c) = c))
    [CSet "k" "v"; CGet "k"; CDelete "k"; CCompact].

Definition suite : list bool :=
  [
    envelope_roundtrips_through_proto; all_message_variants_roundtrip; command_variants_roundtrip].
End proto_tests.

Lemma proto_tests_pass : forallb id proto_tests.suite = true.
Proof. vm_compute. reflexivity. Qed.

Module rpc_tests.

(** [write_framed] and [read_framed], which only the tests use. *)
Definition write_framed (payload : list Z) : M (list Z) unit :=
  write_all (to_be_bytes (Z.of_nat (length payload))) ;; write_all payload.

Definition read_framed : M (list Z) (list Z) :=
  len_buf ← read_or_eof 4;
  match len_buf with
  | None => mret []
  | Some bs => read_exact (Z.to_nat (from_be_bytes bs))
  end.

Definition framed (payload : list Z) : M (list Z) unit :=
  write_framed payload ;; received ← read_framed; assert (bool_decide (received = payload)).

Definition framed_roundtrip_small_payload : bool := passes [] (framed (bytes_of "hello-protobuf")).
Definition framed_roundtrip_large_payload : bool := passes [] (framed (transport_tests.ramp 200000)).
Definition framed_read_returns_empty_on_eof : bool := passes [] (received ← read_framed; assert_eq received []).

Definition request : RaftMessage := AppendEntries (mkAppendEntries 42 "n1" 7 41 [] 7).
Definition reply : RaftMessage := VoteResponse (mkVoteResponse 42 true).

(** One pipe per direction: the request is read before the reply is written. *)
Definition end_to_end_rpc_over_duplex : bool :=
  let P : Prost pb.RaftMessage := table_prost [encode_domain request; encode_domain reply] in
  let goes (m : RaftMessage) : M (list Z) unit :=
    write_framed (encode_to_vec (encode_domain m)) ;;
    buf ← read_framed;
    decoded ← unwrap (prost_decode buf);
    assert_eq (decode_domain decoded) m in
  passes [] (goes request ;; goes reply).

Definition voter : RaftNode :=
  snd ((modify (with_current_term 1) ;; expect (on_sm (StateMachine.begin_tx "tx-vote" [TxPut "k" "v"])))
    (raft_node_new "v" [] (state_machine (make_single_node "v")) empty_disk 0)).

Definition vote_request : TxVoteRequest := mkTxVoteRequest 1 "tx-vote" 0 0.
Definition granted : TxVoteResponse := mkTxVoteResponse 1 true EmptyString.

#[local] Instance raft_codec : Prost pb.RaftMessage := table_prost [encode_domain request].
#[local] Instance request_codec : Prost pb.VoteRequest := table_prost [to_pb vote_request].
#[local] Instance response_codec : Prost pb.VoteResponse_ := table_prost [to_pb granted].

Definition vote_rpc_dispatch_roundtrip_on_duplex : bool :=
  match write_envelope KindVote (encode_to_vec (to_pb (P := pb.VoteRequest) vote_request)) [] with
  | (Ok _, sent) =>
      passes (c_out (dispatch (mkConn sent [] voter))) (
        r ← read_envelope;
        r ← unwrap r;
        assert_eq r.1 KindVote ;;
        resp ← unwrap (prost_decode (P := pb.VoteResponse_) r.2);
        let resp : TxVoteResponse := of_pb resp in
        assert (tr_granted resp) ;;
        assert_eq (tr_term resp) 1 ;;
        assert_eq (tr_reason resp) EmptyString)
  | (Err _, _) => false
  end.

Definition dispatch_on_rejects_unknown_discriminator : bool :=
  match dispatch_logic (mkConn (127 :: to_be_bytes 0) [] (make_single_node "u")) with
  | (Err e, _) => bool_decide (e = InvalidData)
  | (Ok _, _) => false
  end.

Definition suite : list bool :=
  [
    framed_roundtrip_small_payload; framed_roundtrip_large_payload; framed_read_returns_empty_on_eof;
    end_to_end_rpc_over_duplex; vote_rpc_dispatch_roundtrip_on_duplex; dispatch_on_rejects_unknown_discriminator].
End rpc_tests.

Lemma rpc_tests_pass : forallb id rpc_tests.suite = true.
Proof. vm_compute. reflexivity. Qed.

Module server_tests.

Definition starts_with (prefix s : list Z) : bool := bool_decide (take (length prefix) s = prefix).
Definition ends_with (suffix s : list Z) : bool := bool_decide (drop (length s - length suffix) s = suffix).
Fixpoint has (sub s : list Z) : bool :=
  starts_with sub s || match s with [] => false | _ :: s' => has sub s' end.

Definition line (s : string) : list Z := bytes_of s ++ crlf.

Definition http_response_formats_status_line_and_headers : bool :=
  let s := http_response 200 "text/plain" (bytes_of "hello world") in
  passes tt (
    assert (starts_with (line "HTTP/1.1 200 OK") s) ;;
    assert (has (line "Content-Type: text/plain") s) ;;
    assert (has (line "Content-Length: 11") s) ;;
    assert (has (line "Connection: close") s) ;;
    assert (ends_with (bytes_of "hello world") s)).

Definition http_response_handles_404 : bool :=
  let s := http_response 404 "text/plain" (bytes_of "not found" ++ [LF]) in
  passes tt (
    assert (starts_with (line "HTTP/1.1 404 Not Found") s) ;;
    assert (has (line "Content-Length: 10") s)).

Definition find_double_crlf_finds_terminator : bool :=
  let buf := line "GET /metrics HTTP/1.1" ++ line "Host: x" ++ crlf ++ bytes_of "body" in
  bool_decide (find_double_crlf buf = Some (length buf - 4 - 4)%nat).

Definition find_double_crlf_returns_none_when_missing : bool :=
  bool_decide (find_double_crlf (line "GET /metrics HTTP/1.1" ++ line "Host: x") = None).

(** What [gather_text] returned, with two of its lines. *)
Definition gathered : list Z := bytes_of "oxide_raft_term 13" ++ [LF] ++ bytes_of "oxide_raft_role 2" ++ [LF].

Definition get_of (path : string) : list arrival :=
  [Bytes (line ("GET " +:+ path +:+ " HTTP/1.1") ++ line "Host: x" ++ crlf)].

Definition metrics_endpoint_round_trip : bool :=
  match handle_connection (inr gathered) [] (get_of "/metrics") with
  | Ok (Some s) =>
      starts_with (line "HTTP/1.1 200 OK") s && has (bytes_of "oxide_raft_term 13") s && has (bytes_of "oxide_raft_role 2") s
  | _ => false
  end.

Definition unknown_path_returns_404 : bool :=
  match handle_connection (inr gathered) [] (get_of "/not-metrics") with
  | Ok (Some s) => starts_with (line "HTTP/1.1 404 Not Found") s
  | _ => false
  end.

Definition suite : list bool :=
  [
    http_response_formats_status_line_and_headers; http_response_handles_404; find_double_crlf_finds_terminator;
    find_double_crlf_returns_none_when_missing; metrics_endpoint_round_trip; unknown_path_returns_404].
End server_tests.

Lemma server_tests_pass : forallb id server_tests.suite = true.
Proof. vm_compute. reflexivity. Qed.
